(* ===== verification/_CoqProject ===== *)
-Q . S2P
Prelude.v
GoStrings.v
Netip.v
Collapse.v
Runner.v
Policy.v
Json.v
Nftables.v
NftScript.v
Sysctl.v
Routing.v
Wireguard.v
Apply.v
Gateway.v
Csv.v
Files.v
Parse.v
Maxmind.v
Testutil.v
Amnezia.v
Cli.v
Gotun.v
Semantic.v
Dns.v
DnsServer.v
Labdns.v
Labhttp.v
Egress.v
