(* ===== verification/Prelude.v ===== *)
(** * gotun: a split-tunnel gateway, verified

    ** The program

    gotun turns a Linux machine into a gateway that sends the traffic for some
    networks (those of a country, say) out directly and everything else through
    a WireGuard tunnel, failing closed when the tunnel is down.  Its parts, under
    src/:

    - internal/prefixes reads lists of networks (a text file, the GeoLite2 CSV
      archive it downloads, a MaxMind database), collapses them, writes them;
    - internal/policy is the data model: a [Policy], and [Compile], which makes
      of it the desired state of the kernel: sysctls, an nftables table, an ip
      rule, the routes of a table, two WireGuard interfaces;
    - internal/linux/{sysctl,nftables,routing} and internal/wireguard bring one
      part each of the system to that state: each reads what is there by running
      a command ([linux.Runner]), compares, and runs the commands that change it;
    - internal/apply runs these stages in order;
    - internal/cli and cmd/gotun are the command line: fetch, amnezia (an
      export), apply, clear;
    - internal/dnsproxy and cmd/gotun-dns are a DNS forwarder that sends the
      queries for some suffixes directly and the others through the tunnel, by
      marking the sockets with the mark of the policy;
    - cmd/labdns, cmd/labhttp, test/integration/harness and internal/testutil
      serve the tests.

    ** The files, in dependency order

    - [Prelude]: errors, results, panics, loops with early return, sorting,
      batches, runs under which a measure decreases; [GoStrings]: the strings,
      strconv and fmt functions of Go; [Netip]: net/netip;
    - [Collapse] (prefixes/collapse.go): [CollapseIPv4] and its helpers;
    - [Runner] (linux/runner.go): a component that takes a Runner is a [prog], a
      tree of calls; [exec] runs it on an instance of the class [Runner], [sat]
      says something of all its calls; RecordingRunner is an instance, ExecRunner
      a function of the operating system;
    - [Policy] (policy/policy.go, compile.go): the records, [Compile], and in
      [Policy.Spec] the meaning of a compiled state and the abstract policy;
    - [Json]: encoding/json; [Nftables] (linux/nftables/nftables.go);
      [NftScript]: the meaning of the scripts that are loaded;
    - [Sysctl], [Routing], [Wireguard], [Apply]: the packages of those names;
      [Gateway]: all of them on one system;
    - [Csv]: encoding/csv; [Files]: the file system, and WriteTempFile of
      linux/runner.go; [Parse] (prefixes/parse.go), [Maxmind]
      (prefixes/maxmind.go, zip.go, mmdb.go), [Testutil] (testutil/mmdb.go),
      [Amnezia] (amnezia/sites.go), [Cli] (cli/cli.go, cli/commands.go,
      cmd/gotun); [Gotun]: the commands run one after the other on one machine;
    - [Semantic] (policy/compile.go): [SemanticEqual], on records whose slices
      tell nil from empty;
    - [Dns] (dnsproxy/path.go, suffix.go, dial*.go, forward.go, one query of
      server.go, cmd/gotun-dns), [DnsServer] (the goroutines of server.go),
      [Labdns] (cmd/labdns), [Labhttp] (cmd/labhttp); [Egress]: gotun and
      gotun-dns on one machine.

    Definitions have the names of the Go functions; a loop body or a part of a
    long function that has a definition of its own is named after what it does.
    Names that several packages share (Reconcile, Clear) are told apart by the
    file.

    ** The state, and the interfaces

    Go functions without state are functions, into [result] when they return an
    error and into [outcome] when they can panic.  What a component does to the
    outside goes through an interface on an abstract state, a class with, where
    theorems need them, a class of laws:

    - [Runner]: running a command.  [ProcKernel] (sysctls), [NftKernel] (tables)
      and [RouteKernel] (rules and routes) say what the commands of one component
      read and change; [Gateway] joins the three and says that each part is
      changed by its own commands only, but for routes that go with their
      interface; [Machine] adds that printing changes none of it;
    - [Files], [FilesLaws], [TempFiles]: package os; [Http], [Archives], [Mmdb],
      [Console]: downloading, archive contents, the database reader, output;
    - [DnsLib], [DnsLaws], [LabLib], [LabLaws]: the DNS library; [Exchanger]: the
      program's own interface to its client.

    The laws are those of commands that may fail, on a system that may hold
    things of others: a sysctl write may change other keys ([affects]), a table
    any routes ([OtherRoute]), and a flush may fail.  Two limits are in the laws:
    the ip rules of the system are IPv4 rules that look up a table for all
    sources, with a mark or without; a value of a key that is written is 0 or 1.
    What nft prints for a table is a relation ([Listing.shown]): any metadata,
    handles, counters, and any order of the objects and of the elements of a set.

    What a theorem needs of the system that the program finds is a hypothesis of
    its own: [own_table], [marks_apart], [only_own], [flushable], collected in
    [prepared]; [deletions_work].  [nft_Reconcile_keeps_isolation] and
    [routing_Reconcile_misses_rule] show what the code does without the first two.

    Each class of laws has an instance, a small system or library on which the
    witnesses evaluate.  Order that Go leaves open is a parameter: [ord] for
    ranging over maps ([range_order], [table_order] are its laws), the
    result of an unstable sort a sorted permutation ([SortSlice], [SortLaws]).  Goroutines are a step relation ([DnsServer.step],
    [Labdns.step]) whose reachable states satisfy an invariant.

    ** What the theorems show

    - Collapsing keeps the set of addresses, gives the shortest list with that
      set and depends on the set only ([CollapseIPv4_union], [_minimal],
      [_canonical]); it panics exactly on prefixes that are not IPv4.
    - The compiled state does with every packet what the abstract policy says,
      and the blackhole keeps it fail closed ([Compile_refines_policy],
      [Compile_fail_closed]); it exists exactly for valid policies, and is well
      typed exactly when the LANs and the endpoint are IPv4
      ([Compile_well_typed]).
    - The nftables script means what the data model says
      ([RenderFullTable_meaning]); each reconciler establishes its part
      ([nft_], [sysctl_], [routing_Reconcile_establishes], [wg_Reconcile_builds],
      [wg_Reconcile_down]) and leaves a system alone that shows it
      ([_converged]), but for nftables with inbound clients, hosts or host bits;
      the private key is on no command line.
    - The comparison of the nftables listing accepts the table of another policy
      exactly when it differs in home isolation and direct hosts at most
      ([semanticMatchJSON_exact]).
    - Together: after a successful apply the system forwards every packet as the
      policy says ([apply_forwards_as_policy]), a second one only reads
      ([apply_Reconcile_converged]), and a failing one stops at the stage that
      failed ([apply_Reconcile_stages]).
    - The commands: after a fetch and an apply that succeed the machine forwards
      as the arguments and the country's networks say
      ([gotun_fetch_apply_forwards]), and a clear takes away what an apply added
      ([gotun_apply_clear]).
    - What is fetched is what is applied ([fetch_then_apply]), building a policy
      from the command line loses nothing ([build_policy_faithful]), the file
      formats are read back (wg-quick, prefix lists, Amnezia sites, GeoLite2
      tables), and the archive extraction stays in its directory
      ([Download_contained]).
    - DNS queries are classified by labels, forwarded on their own path only,
      answered with their own ID, framed properly, and their sockets leave the
      machine where the policy says ([apply_then_dns_egress]); the server answers
      each datagram once and shuts down in a bounded number of steps.
    - [SemanticEqual] is equality up to the order of the lists
      ([SemanticEqual_order]), so the order of a policy's prefixes makes no
      difference ([Compile_ignores_prefix_order]); it ignores the order of
      the rules of a chain too, which matters to packets ([SemanticEqual_ignores_rule_order]).

    ** Bounds and fuel

    Recursion that is not structural has fuel that is proved enough:
    [fmt_digits] is given one digit per bit ([fmt_uint_fuel]); the searches
    through a JSON value one level more than its depth ([findMark_fuel_enough],
    [walk_fuel_enough], [elemToCIDR_fuel_enough]);
    [chunks] the length of the list ([chunks_concat]).  The other loops are
    structural.  Machine integers are [Z] with the wrap-around written where the
    code can wrap (the 32-bit sum of [mergeIPv4Siblings], [shl1_uint32]); Atoi
    and ParseUint have the ranges of the standard library.  A server stops in at
    most 13 steps ([ListenAndServe_stops]), the lab server in 9.

    ** Not modelled

    - test/integration/harness, which runs docker for the tests: each function
      is a command line of another program.
    - The network interfaces: the commands that make and set them are modelled
      and ordered, their effect on the system is not.
    - Third-party code: the DNS library, the MMDB reader, the archive and HTTP
      packages are parameters.  The commands (nft, ip, wg, sysctl) are known
      through the laws of the classes above and, for nft scripts, through the
      commands of [NftScript.exec_script], which follow the manual of nft for the
      statements the program writes.
    - The packets of the gateway itself; ip rules with other selectors; the main
      table, of which only the lookup is known.
    - Case conversion of letters whose other case is not ASCII; the wording of errors that no code reads;
      the printing of log lines; timing, apart from which timeout bounds what. *)

From stdpp Require Import base list strings sorting gmap relations.
From Stdlib Require Import ZArith Lia.

#[global] Open Scope Z_scope.

(** ** Errors, results and panics

    A Go [error] value is known either by its text ([ErrText], the case of
    the errors a [Runner] returns, whose text the program inspects), or by the
    standard-library call that failed and its input ([ErrStd], the text is not
    inspected by the program), or as the result of a [fmt.Errorf] of the
    program: its format, its rendered operands and the errors it carries. *)
Inductive error :=
| ErrText (text : string)
| ErrStd (call input : string)
| ErrFmt (format : string) (args : list string) (causes : list error).

(** A Go function returning [(T, error)] where [T] is only meaningful when the
    error is nil. *)
Inductive result (A : Type) :=
| Ok (a : A)
| Err (e : error).
Arguments Ok {_} _.
Arguments Err {_} _.

#[global] Instance result_ret : MRet result := @Ok.
#[global] Instance result_bind : MBind result := λ A B f m,
  match m with Ok a => f a | Err e => Err e end.

Definition is_ok {A} (m : result A) : bool :=
  match m with Ok _ => true | Err _ => false end.

Lemma result_bind_Ok {A B} (m : result A) (f : A → result B) b :
  (m ≫= f) = Ok b ↔ ∃ a, m = Ok a ∧ f a = Ok b.
Proof. destruct m; simpl; naive_solver. Qed.

(** A computation that may panic. *)
Inductive outcome (A : Type) :=
| Ret (a : A)
| Panic (msg : string).
Arguments Ret {_} _.
Arguments Panic {_} _.

#[global] Instance outcome_ret : MRet outcome := @Ret.
#[global] Instance outcome_bind : MBind outcome := λ A B f m,
  match m with Ret a => f a | Panic s => Panic s end.

Lemma outcome_bind_Ret {A B} (m : outcome A) (f : A → outcome B) b :
  (m ≫= f) = Ret b ↔ ∃ a, m = Ret a ∧ f a = Ret b.
Proof. destruct m; simpl; naive_solver. Qed.

(** [for _, x := range l { ... }] over an accumulator, where the body may
    return early with an error. *)
Fixpoint fold_result {A B} (f : B → A → result B) (b : B) (l : list A) : result B :=
  match l with
  | [] => Ok b
  | x :: l => b' ← f b x; fold_result f b' l
  end.

(** Such a loop that only appends to a list: what it appends, or the first
    error. *)
Fixpoint collect {A B} (g : A → result (option B)) (l : list A) : result (list B) :=
  match l with
  | [] => Ok []
  | x :: l => o ← g x; bs ← collect g l; Ok (option_list o ++ bs)
  end.

Lemma fold_result_collect {A B} (f : list B → A → result (list B)) (g : A → result (option B)) l :
  (∀ out x, f out x = o ← g x; Ok (out ++ option_list o)) →
  ∀ out, fold_result f out l = bs ← collect g l; Ok (out ++ bs).
Proof.
  intros Hf. induction l as [|x l IH]; intros out; simpl; [by rewrite app_nil_r|].
  rewrite Hf. destruct (g x) as [o|e]; [|done]. simpl. rewrite IH. destruct (collect g l); [|done]. simpl. by rewrite app_assoc.
Qed.

Lemma collect_ext {A B} (g h : A → result (option B)) l : (∀ x, x ∈ l → g x = h x) → collect g l = collect h l.
Proof.
  induction l as [|x l IH]; intros Hgh; [done|]. simpl. rewrite Hgh by set_solver. rewrite IH by set_solver. done.
Qed.

Lemma collect_Forall {A B} (P : B → Prop) (g : A → result (option B)) l bs :
  (∀ x b, g x = Ok (Some b) → P b) → collect g l = Ok bs → Forall P bs.
Proof.
  intros Hg. revert bs. induction l as [|x l IH]; intros bs; simpl; [by intros [= <-]|].
  intros (o & Ho & (bs' & Hbs & [= <-])%result_bind_Ok)%result_bind_Ok. apply Forall_app. split; [|by apply IH].
  destruct o as [b|]; repeat constructor. by eapply Hg.
Qed.

Fixpoint map_outcome {A B} (f : A → outcome B) (l : list A) : outcome (list B) :=
  match l with
  | [] => Ret []
  | x :: l => y ← f x; ys ← map_outcome f l; Ret (y :: ys)
  end.

Lemma map_outcome_Ret {A B} (f : A → outcome B) (g : A → B) l :
  Forall (λ x, f x = Ret (g x)) l → map_outcome f l = Ret (g <$> l).
Proof. induction 1 as [|x l Hx _ IH]; simpl; [done|]. rewrite Hx; simpl. by rewrite IH. Qed.

(** ** Boolean conditions

    [bcase] splits on the boolean test in head position of a goal and turns it
    into the proposition it decides. *)
Ltac bool_to_prop :=
  repeat match goal with
  | H : (_ && _)%bool = true |- _ => apply andb_true_iff in H as [? ?]
  | H : (_ || _)%bool = false |- _ => apply orb_false_iff in H as [? ?]
  | H : negb _ = true |- _ => apply negb_true_iff in H
  | H : negb _ = false |- _ => apply negb_false_iff in H
  | H : Z.ltb _ _ = true |- _ => apply Z.ltb_lt in H
  | H : Z.ltb _ _ = false |- _ => apply Z.ltb_ge in H
  | H : Z.leb _ _ = true |- _ => apply Z.leb_le in H
  | H : Z.leb _ _ = false |- _ => apply Z.leb_gt in H
  | H : Z.eqb _ _ = true |- _ => apply Z.eqb_eq in H
  | H : Z.eqb _ _ = false |- _ => apply Z.eqb_neq in H
  | H : String.eqb _ _ = true |- _ => apply String.eqb_eq in H
  | H : String.eqb _ _ = false |- _ => apply String.eqb_neq in H
  | H : Ascii.eqb _ _ = true |- _ => apply Ascii.eqb_eq in H
  | H : Ascii.eqb _ _ = false |- _ => apply Ascii.eqb_neq in H
  end.

Ltac bcase :=
  match goal with
  | |- context [if ?b then _ else _] =>
      match type of b with bool => destruct b eqn:?; bool_to_prop end
  end.

(** ** Lists *)

(** [sort.Slice l less]: a permutation of [l] in which no element is less than
    its predecessor. [sort.Slice] is not stable, but when [less] is a strict
    total order on the elements the result is unique ([sort_slice_unique]). *)
Definition not_less {A} (less : A → A → bool) : relation A := λ a b, less b a = false.

#[global] Instance not_less_dec {A} (less : A → A → bool) : RelDecision (not_less less).
Proof. unfold not_less. solve_decision. Defined.

Definition sort_slice {A} (less : A → A → bool) (l : list A) : list A :=
  merge_sort (not_less less) l.

Lemma sort_slice_perm {A} (less : A → A → bool) l : Permutation (sort_slice less l) l.
Proof. apply merge_sort_Permutation. Qed.

Lemma sort_slice_Sorted {A} (less : A → A → bool) l :
  (∀ a b, less a b = true → less b a = false) → Sorted (not_less less) (sort_slice less l).
Proof.
  intros Hasym. apply Sorted_merge_sort. intros a b.
  destruct (less b a) eqn:E; [right; by apply Hasym | by left].
Qed.

(** A sorted list keeps its order under a relation that agrees on its elements. *)
Lemma Sorted_impl_Forall {A} (P : A → Prop) (R R' : relation A) l :
  (∀ x y, P x → P y → R x y → R' x y) → Forall P l → Sorted R l → Sorted R' l.
Proof.
  intros HR HP HS. induction HS as [|x l HS IH Hd]; constructor; inversion_clear HP; auto.
  destruct Hd as [|y l Hxy]; constructor. apply HR; [done| |done]. by eapply Forall_inv.
Qed.

Lemma Sorted_app_r {A} (R : relation A) l1 l2 : Sorted R (l1 ++ l2) → Sorted R l2.
Proof. induction l1 as [|x l1 IH]; simpl; [done|]. inversion 1; auto. Qed.

(** Whatever algorithm sorts, the result is the one of [sort_slice]. *)
Lemma sort_slice_unique {A} (P : A → Prop) (R : relation A) `{!Transitive R} (less : A → A → bool) l l' :
  (∀ a b, less a b = true → less b a = false) →
  (∀ x y, P x → P y → less y x = false → R x y) →
  (∀ x y, P x → P y → R x y → R y x → x = y) →
  Forall P l → Permutation l' l → Sorted (not_less less) l' → l' = sort_slice less l.
Proof.
  intros Hasym HR Hanti HP Hperm HS.
  assert (Forall P l') as HP' by (by rewrite Hperm).
  assert (Forall P (sort_slice less l)) as HPs by (by rewrite sort_slice_perm).
  apply (StronglySorted_unique_strong R).
  - intros x y Hx Hy. rewrite Forall_forall in HP', HPs. apply Hanti; [by apply HP' | by apply HPs].
  - apply Sorted_StronglySorted; [done|]. by apply (Sorted_impl_Forall P _ _ _ HR).
  - apply Sorted_StronglySorted; [done|].
    apply (Sorted_impl_Forall P _ _ _ HR); [done|]. by apply sort_slice_Sorted.
  - by rewrite Hperm, sort_slice_perm.
Qed.

(** Grouping consecutive elements into batches of at most [n], as a loop
    [for i := 0; i < len(l); i += n] with [l[i:min(i+n, len(l))]] does. *)
Fixpoint chunks {A} (fuel n : nat) (l : list A) : list (list A) :=
  match fuel, l with
  | _, [] => []
  | O, _ => []
  | S fuel, _ => take n l :: chunks fuel n (drop n l)
  end.

Lemma chunks_concat {A} fuel n (l : list A) :
  (0 < n)%nat → (length l ≤ fuel)%nat → concat (chunks fuel n l) = l.
Proof.
  intros Hn. revert l. induction fuel as [|fuel IH]; intros [|x l] Hf; simpl in *; try done; try lia.
  rewrite IH.
  - by rewrite take_drop.
  - rewrite length_drop. simpl. lia.
Qed.

Lemma chunks_bound {A} fuel n (l : list A) :
  (0 < n)%nat → Forall (λ c, (0 < length c ≤ n)%nat) (chunks fuel n l).
Proof.
  intros Hn. revert l. induction fuel as [|fuel IH]; intros [|x l]; simpl; constructor; auto.
  rewrite length_take. simpl. lia.
Qed.

Lemma chunks_length {A} fuel n (l : list A) :
  (0 < n)%nat → (length l ≤ fuel)%nat →
  length (chunks fuel n l) = ((length l + n - 1) / n)%nat.
Proof.
  intros Hn. revert l. induction fuel as [|fuel IH]; intros [|x l] Hf; simpl in Hf; try lia.
  - simpl. symmetry. apply Nat.div_small. lia.
  - simpl. symmetry. apply Nat.div_small. lia.
  - change (S (length (chunks fuel n (drop n (x :: l)))) = ((length (x :: l) + n - 1) / n)%nat).
    rewrite IH by (rewrite length_drop; simpl; lia).
    rewrite length_drop. simpl length. set (m := S (length l)) in *.
    destruct (decide (m ≤ n)%nat).
    + rewrite (Nat.div_small (m - n + n - 1)) by lia.
      apply (Nat.div_unique _ _ _ (m - 1)); lia.
    + replace (m + n - 1)%nat with ((m - n + n - 1) + 1 * n)%nat by lia.
      rewrite Nat.div_add by lia. lia.
Qed.

Lemma Forall_snoc {A} (P : A → Prop) l x : Forall P (l ++ [x]) ↔ Forall P l ∧ P x.
Proof. rewrite Forall_app. rewrite Forall_singleton. done. Qed.

Lemma existsb_exists_elem {A} (f : A → bool) l :
  existsb f l = true ↔ ∃ x, x ∈ l ∧ f x = true.
Proof. rewrite existsb_exists. setoid_rewrite list_elem_of_In. done. Qed.

Lemma forallb_forall_elem {A} (f : A → bool) l :
  forallb f l = true ↔ ∀ x, x ∈ l → f x = true.
Proof. rewrite forallb_forall. setoid_rewrite list_elem_of_In. done. Qed.

(** ** Sets of texts built by a loop *)

Lemma foldl_union {A} (f : A → string) l (s : gset string) :
  foldl (λ s x, {[f x]} ∪ s) s l = list_to_set (f <$> l) ∪ s.
Proof. revert s. induction l as [|x l IH]; simpl; intros s; [set_solver|]. rewrite IH. set_solver. Qed.

(** Steps that commute may be taken in any order. *)
Lemma foldl_perm {A B} (f : B → A → B) l1 l2 :
  Permutation l1 l2 → (∀ x y b, x ∈ l1 → y ∈ l1 → f (f b x) y = f (f b y) x) → ∀ b, foldl f b l1 = foldl f b l2.
Proof.
  induction 1 as [|x l1 l2 _ IH|x y l|l1 l2 l3 H1 IH1 _ IH2]; intros Hf b; simpl; [done| | |].
  - apply IH. intros u v b' Hu Hv. apply Hf; by right.
  - f_equal. apply Hf; [left|right; left].
  - rewrite IH1 by done. apply IH2. intros u v b' Hu Hv. apply Hf; by rewrite H1.
Qed.

Lemma same_size_subset (a b : gset string) : size a = size b ∧ a ⊆ b ↔ a = b.
Proof.
  split; [|by intros ->]. intros [Hs Hsub].
  apply set_eq, set_equiv, set_equiv_subseteq. split; [done|].
  assert (size (b ∖ a) = 0)%nat as Hz%size_empty_iff.
  { rewrite size_difference by done. lia. }
  intros x Hx. destruct (decide (x ∈ a)); [done|]. exfalso. set_solver.
Qed.

(** ** Runs of a relation under which a measure decreases *)

Section measure.
Context {A : Type} (R : relation A) (left : A → nat).
Context (Hleft : ∀ x y, R x y → (left y < left x)%nat).

Lemma nsteps_measure n x y : nsteps R n x y → (n + left y ≤ left x)%nat.
Proof. induction 1 as [|n x y z Hxy _ IH]; [lia|]. apply Hleft in Hxy. lia. Qed.

(** An invariant under which only goals are stuck leads to a goal. *)
Lemma measure_reaches (I : A → Prop) (goal : A → bool) :
  (∀ x y, R x y → I x → I y) → (∀ x, I x → goal x = false → ∃ y, R x y) →
  ∀ x, I x → ∃ y, rtc R x y ∧ goal y = true.
Proof.
  intros HI Hgo x. remember (left x) as n eqn:En. revert x En. induction n as [n IH] using lt_wf_ind. intros x -> Hx.
  destruct (goal x) eqn:Hg; [by exists x; split; [apply rtc_refl|]|].
  destruct (Hgo x Hx Hg) as [y Hxy]. destruct (IH (left y) (Hleft _ _ Hxy) y eq_refl) as (z & ? & ?); [by eapply HI|].
  exists z. split; [|done]. by eapply rtc_l.
Qed.

Lemma rtc_keeps (I : A → Prop) x y : (∀ x y, R x y → I x → I y) → rtc R x y → I x → I y.
Proof. intros HI. induction 1 as [|x y z Hxy _ IH]; [done|]. intros Hx. by eapply IH, HI. Qed.
End measure.
