(* ===== verification/GoStrings.v ===== *)
(** * The parts of Go's [strings], [strconv] and [fmt] the program uses

    Go strings are byte strings: here [string], a list of 8-bit characters.
    White space is the set of [unicode.IsSpace], recognised by its UTF-8
    encodings.  [ToLower] and [ToUpper] are exact where their result is ASCII,
    [equal_fold] on ASCII input (section names): the other letters from U+0080
    on are left as they are.

    [itoa], [fmt_x], [Atoi] and [ParseUint] follow the standard library with
    its range and syntax errors kept apart, since [Atoi] returns the clamped
    value along with a range error. *)

From stdpp Require Import base list strings.
From Stdlib Require Import Ascii.
From Stdlib Require Import ZArith Lia.
From S2P Require Import Prelude.

(** Concatenation reduces on a constructor, as the functions below do. *)
#[global] Arguments String.append : simpl nomatch.

(** ** Characters *)

Definition byte_of (c : ascii) : Z := Z.of_N (N_of_ascii c).
Definition char_of (b : Z) : ascii := ascii_of_N (Z.to_N b).

Definition is_digit (c : ascii) : bool := (48 <=? byte_of c) && (byte_of c <=? 57).

(** [digit_char d] is the character of the digit [d] in [%d] and [%x]. *)
Definition digit_char (d : Z) : ascii := char_of (if d <? 10 then 48 + d else 87 + d).

(** The value of a digit in a base of at most 36, as [strconv.ParseUint]
    reads it (upper and lower case letters). *)
Definition digit_val (c : ascii) : option Z :=
  let b := byte_of c in
  if (48 <=? b) && (b <=? 57) then Some (b - 48)
  else if (97 <=? b) && (b <=? 122) then Some (b - 87)
  else if (65 <=? b) && (b <=? 90) then Some (b - 55)
  else None.

Definition lower_char (c : ascii) : ascii :=
  if (65 <=? byte_of c) && (byte_of c <=? 90) then char_of (byte_of c + 32) else c.
Definition upper_char (c : ascii) : ascii :=
  if (97 <=? byte_of c) && (byte_of c <=? 122) then char_of (byte_of c - 32) else c.

Fixpoint map_string (f : ascii → ascii) (s : string) : string :=
  match s with
  | "" => ""
  | String c s => String (f c) (map_string f s)
  end.

Definition to_lower : string → string := map_string lower_char.
Definition to_upper : string → string := map_string upper_char.
Definition equal_fold (s t : string) : bool := String.eqb (to_lower s) (to_lower t).

(** The double quote, newline and tab; [dquoted s] is the text [s] with a double
    quote for each single quote (the texts of the program that hold double
    quotes have no single ones). *)
Definition dq : ascii := char_of 34.
Definition nl : string := String (char_of 10) "".
Definition tab : ascii := char_of 9.
Definition dquoted : string → string := map_string (λ c, if Ascii.eqb c "'" then dq else c).

(** ** Searching, cutting and joining *)

Fixpoint has_prefix (s p : string) {struct p} : bool :=
  match p, s with
  | "", _ => true
  | String a p, String b s => Ascii.eqb a b && has_prefix s p
  | String _ _, "" => false
  end.

(** [strings.ToLower] and [strings.ToUpper], up to letters whose other case is
    not ASCII, which are left as they are.  Two letters beyond ASCII have an ASCII
    lower case, U+0130 and U+212A, and two an ASCII upper case, U+0131 and
    U+017F. *)
Definition is_utf8 (bytes : list Z) (s : string) : bool := has_prefix s (fold_right (λ b t, String (char_of b) t) "" bytes).
Fixpoint ToLower (s : string) : string :=
  match s with
  | String c (String _ t2 as t1) =>
      if is_utf8 [196; 176] s then String "i" (ToLower t2)
      else if is_utf8 [226; 132; 170] s then match t2 with String _ t3 => String "k" (ToLower t3) | EmptyString => "" end
      else String (lower_char c) (ToLower t1)
  | _ => to_lower s
  end.
Fixpoint ToUpper (s : string) : string :=
  match s with
  | String c (String _ t2 as t1) =>
      if is_utf8 [196; 177] s then String "I" (ToUpper t2)
      else if is_utf8 [197; 191] s then String "S" (ToUpper t2)
      else String (upper_char c) (ToUpper t1)
  | _ => to_upper s
  end.

Fixpoint has_suffix (s suf : string) : bool :=
  String.eqb s suf || match s with "" => false | String _ s => has_suffix s suf end.

Fixpoint trim_prefix (s p : string) : string :=
  match p, s with
  | "", _ => s
  | String a p', String b s' => if Ascii.eqb a b && has_prefix s' p' then trim_prefix s' p' else s
  | _, _ => s
  end.

(** [strings.Contains s sub]. *)
Fixpoint contains (s sub : string) : bool :=
  has_prefix s sub || match s with "" => false | String _ s => contains s sub end.

(** [strings.Split s sep] for a one-byte separator. *)
Fixpoint split (s : string) (sep : ascii) : list string :=
  match s with
  | "" => [""]
  | String c s' =>
      if Ascii.eqb c sep then "" :: split s' sep
      else match split s' sep with
           | [] => [String c ""]
           | w :: ws => String c w :: ws
           end
  end.

(** [strings.Join elems sep]. *)
Fixpoint join (elems : list string) (sep : string) : string :=
  match elems with
  | [] => ""
  | [s] => s
  | s :: l => s +:+ sep +:+ join l sep
  end.

(** [strings.Cut s sep] for a one-byte separator: [None] is [ok == false]. *)
Fixpoint cut (s : string) (sep : ascii) : option (string * string) :=
  match s with
  | "" => None
  | String c s' =>
      if Ascii.eqb c sep then Some ("", s')
      else match cut s' sep with
           | Some (l, r) => Some (String c l, r)
           | None => None
           end
  end.

(** The split of [s] at its last [sep]. *)
Fixpoint cut_last (s : string) (sep : ascii) : option (string * string) :=
  match s with
  | "" => None
  | String c s' =>
      match cut_last s' sep with
      | Some (l, r) => Some (String c l, r)
      | None => if Ascii.eqb c sep then Some ("", s') else None
      end
  end.

(** [strings.ReplaceAll s old new] for one-byte texts. *)
Definition replace_char (s : string) (old new : ascii) : string :=
  map_string (λ c, if Ascii.eqb c old then new else c) s.

(** ** White space *)

Definition is_ascii_space (c : ascii) : bool :=
  ((9 <=? byte_of c) && (byte_of c <=? 13)) || (byte_of c =? 32).

(** The two- and three-byte encodings of the white space above ASCII: U+0085,
    U+00A0; U+1680, U+2000 to U+200A, U+2028, U+2029, U+202F, U+205F, U+3000. *)
Definition is_space2 (a b : ascii) : bool :=
  (byte_of a =? 194) && ((byte_of b =? 133) || (byte_of b =? 160)).
Definition is_space3 (a b c : ascii) : bool :=
  let '(a, b, c) := (byte_of a, byte_of b, byte_of c) in
  ((a =? 225) && (b =? 154) && (c =? 128)) ||
  ((a =? 226) && (b =? 128) && (((128 <=? c) && (c <=? 138)) || (c =? 168) || (c =? 169) || (c =? 175))) ||
  ((a =? 226) && (b =? 129) && (c =? 159)) ||
  ((a =? 227) && (b =? 128) && (c =? 128)).

(** Removes leading white space; [sp2] and [sp3] recognise the multi-byte
    white space in the direction of reading. *)
Fixpoint trim_left_with (sp2 : ascii → ascii → bool) (sp3 : ascii → ascii → ascii → bool)
    (s : string) : string :=
  match s with
  | "" => ""
  | String a s1 =>
      if is_ascii_space a then trim_left_with sp2 sp3 s1
      else match s1 with
           | "" => s
           | String b s2 =>
               if sp2 a b then trim_left_with sp2 sp3 s2
               else match s2 with
                    | "" => s
                    | String c s3 => if sp3 a b c then trim_left_with sp2 sp3 s3 else s
                    end
           end
  end.

Definition trim_left (s : string) : string := trim_left_with is_space2 is_space3 s.
Definition trim_right (s : string) : string :=
  String.rev (trim_left_with (λ a b, is_space2 b a) (λ a b c, is_space3 c b a) (String.rev s)).
Definition trim_space (s : string) : string := trim_right (trim_left s).

(** [strings.Fields]: the maximal runs of non-space. *)
Definition add_field (cur : string) (l : list string) : list string :=
  match cur with "" => l | _ => String.rev cur :: l end.

Fixpoint fields_from (cur : string) (s : string) : list string :=
  match s with
  | "" => add_field cur []
  | String a s1 =>
      if is_ascii_space a then add_field cur (fields_from "" s1)
      else match s1 with
           | "" => add_field (String a cur) []
           | String b s2 =>
               if is_space2 a b then add_field cur (fields_from "" s2)
               else match s2 with
                    | "" => fields_from (String a cur) s1
                    | String c s3 =>
                        if is_space3 a b c then add_field cur (fields_from "" s3)
                        else fields_from (String a cur) s1
                    end
           end
  end.
Definition fields (s : string) : list string := fields_from "" s.

(** ** Numbers *)

Fixpoint fmt_digits (fuel : nat) (base n : Z) : string :=
  match fuel with
  | O => ""
  | S fuel =>
      let d := String (digit_char (n mod base)) "" in
      if n <? base then d else fmt_digits fuel base (n / base) +:+ d
  end.

(** The digits of [n >= 0]; [log2 n + 1] steps are enough in any base from 2. *)
Definition fmt_uint (base n : Z) : string := fmt_digits (S (Z.to_nat (Z.log2 n))) base n.

(** [%d] of an int, which is also [strconv.Itoa]; [%x] of an unsigned int. *)
Definition itoa (n : Z) : string := if n <? 0 then "-" +:+ fmt_uint 10 (- n) else fmt_uint 10 n.
Definition fmt_x (n : Z) : string := fmt_uint 16 n.

#[global] Arguments fmt_uint : simpl never.
#[global] Arguments itoa : simpl never.
#[global] Arguments fmt_x : simpl never.

Inductive num_result :=
| NumOk (v : Z)
| NumSyntax
| NumRange.

(** The loop of [strconv.ParseUint]: digits of [base], an error as soon as the
    value exceeds [max]. *)
Fixpoint parse_digits (base max acc : Z) (s : string) : num_result :=
  match s with
  | "" => NumOk acc
  | String c s =>
      match digit_val c with
      | Some d =>
          if base <=? d then NumSyntax
          else if max <? acc * base + d then NumRange
          else parse_digits base max (acc * base + d) s
      | None => NumSyntax
      end
  end.

(** [strconv.ParseUint s base bits] for the explicit bases 10 and 16. *)
Definition ParseUint (s : string) (base bits : Z) : num_result :=
  match s with "" => NumSyntax | _ => parse_digits base (2 ^ bits - 1) 0 s end.

(** [strconv.Atoi]: the value (which the caller may use even when there is an
    error) and whether the error is nil. *)
Definition Atoi (s : string) : Z * bool :=
  let '(neg, ds) :=
    match s with
    | String c s' => if Ascii.eqb c "-" then (true, s')
                     else if Ascii.eqb c "+" then (false, s') else (false, s)
    | "" => (false, "")
    end in
  match ParseUint ds 10 64 with
  | NumSyntax => (0, false)
  | NumRange => if neg then (- 2 ^ 63, false) else (2 ^ 63 - 1, false)
  | NumOk v =>
      if neg then if 2 ^ 63 <? v then (- 2 ^ 63, false) else (- v, true)
      else if 2 ^ 63 <=? v then (2 ^ 63 - 1, false) else (v, true)
  end.

#[global] Arguments Atoi : simpl never.
#[global] Arguments trim_space : simpl never.

(** ** Lemmas on strings *)

(** Every character of [s] satisfies [P]. *)
Fixpoint string_forall (P : ascii → bool) (s : string) : bool :=
  match s with
  | "" => true
  | String c s => P c && string_forall P s
  end.

Lemma app_nil_r_str s : s +:+ "" = s.
Proof. induction s as [|c s IH]; simpl; [done | by rewrite IH]. Qed.

Lemma app_assoc_str s t u : (s +:+ t) +:+ u = s +:+ t +:+ u.
Proof. induction s as [|c s IH]; simpl; [done | by rewrite IH]. Qed.

Lemma length_app_str s t : String.length (s +:+ t) = (String.length s + String.length t)%nat.
Proof. induction s as [|c s IH]; simpl; [done | by rewrite IH]. Qed.

Lemma string_forall_app P s t :
  string_forall P (s +:+ t) = string_forall P s && string_forall P t.
Proof. induction s as [|c s IH]; simpl; [done|]. by rewrite IH, andb_assoc. Qed.

Lemma string_forall_impl (P Q : ascii → bool) s :
  (∀ c, P c = true → Q c = true) → string_forall P s = true → string_forall Q s = true.
Proof.
  intros HPQ. induction s as [|c s IH]; simpl; [done|].
  intros [Hc Hs]%andb_true_iff. by rewrite (HPQ _ Hc), IH.
Qed.

Create HintDb go_strings.
Create Rewrite HintDb go_strings.
#[export] Hint Rewrite app_nil_r_str app_assoc_str length_app_str string_forall_app : go_strings.

Lemma has_prefix_spec s p : has_prefix s p = true ↔ ∃ t, s = p +:+ t.
Proof.
  revert s. induction p as [|c p IH]; intros s; simpl; [split; [by exists s | done]|].
  destruct s as [|d s]; [split; [done | by intros []]|].
  rewrite andb_true_iff, Ascii.eqb_eq, IH. split.
  - intros [<- [t ->]]. by exists t.
  - intros [t Ht]. injection Ht as -> ->. eauto.
Qed.

Lemma has_prefix_app s p t : has_prefix (p +:+ s) (p +:+ t) = has_prefix s t.
Proof. induction p as [|c p IH]; simpl; [done|]. by rewrite Ascii.eqb_refl, IH. Qed.

Lemma contains_spec s sub : contains s sub = true ↔ ∃ l r, s = l +:+ sub +:+ r.
Proof.
  induction s as [|c s IH]; simpl; rewrite orb_true_iff, has_prefix_spec.
  - split; [intros [[t ->]|?]; [by exists "", t | done] |].
    intros (l & r & H). destruct l; simpl in H; [left; by exists r | done].
  - rewrite IH. split.
    + intros [[t ->]|(l & r & ->)]; [by exists "", t | by exists (String c l), r].
    + intros (l & r & H). destruct l as [|c' l]; simpl in H.
      * left. by exists r.
      * injection H as -> ->. right. by exists l, r.
Qed.

Lemma contains_app_r s t sub : contains t sub = true → contains (s +:+ t) sub = true.
Proof. rewrite !contains_spec. intros (l & r & ->). exists (s +:+ l), r. by rewrite app_assoc_str. Qed.

Lemma contains_app_l s t sub : contains s sub = true → contains (s +:+ t) sub = true.
Proof. rewrite !contains_spec. intros (l & r & ->). exists l, (r +:+ t). by rewrite !app_assoc_str. Qed.

Lemma contains_here sub t : contains (sub +:+ t) sub = true.
Proof. rewrite contains_spec. by exists "", t. Qed.

Lemma contains_refl s : contains s s = true.
Proof. rewrite contains_spec. exists "", "". by rewrite app_nil_r_str. Qed.

Lemma has_suffix_spec s suf : has_suffix s suf = true ↔ ∃ t, s = t +:+ suf.
Proof.
  induction s as [|c s IH]; cbn [has_suffix]; rewrite orb_true_iff, String.eqb_eq.
  - split; [intros [<-|?]; [by exists "" | done] | intros [t Ht]].
    destruct t; simpl in Ht; [by left | done].
  - rewrite IH. split.
    + intros [<-|[t ->]]; [by exists "" | by exists (String c t)].
    + intros [t Ht]. destruct t as [|c' t]; simpl in Ht; [by left|].
      injection Ht as -> ->. right. by exists t.
Qed.

Lemma trim_prefix_app p s : trim_prefix (p +:+ s) p = s.
Proof.
  induction p as [|c p IH]; simpl; [by destruct s|].
  rewrite Ascii.eqb_refl. simpl.
  assert (has_prefix (p +:+ s) p = true) as -> by (apply has_prefix_spec; eauto). done.
Qed.

(** [no_char sep s]: [sep] does not occur in [s]. *)
Definition no_char (sep : ascii) : string → bool := string_forall (λ c, negb (Ascii.eqb c sep)).

Lemma split_no_char sep s : no_char sep s = true → split s sep = [s].
Proof.
  induction s as [|c s IH]; simpl; [done|].
  intros [Hc Hs]%andb_true_iff. apply negb_true_iff in Hc. by rewrite Hc, (IH Hs).
Qed.

Lemma split_app sep s t :
  no_char sep s = true → split (s +:+ String sep t) sep = s :: split t sep.
Proof.
  induction s as [|c s IH]; simpl; [by rewrite Ascii.eqb_refl|].
  intros [Hc Hs]%andb_true_iff. apply negb_true_iff in Hc. by rewrite Hc, (IH Hs).
Qed.

Lemma split_join sep l :
  l ≠ [] → Forall (λ s, no_char sep s = true) l → split (join l (String sep "")) sep = l.
Proof.
  intros Hne Hl. induction Hl as [|s l Hs Hl IH]; [done|].
  destruct l as [|s' l]; simpl; [by apply split_no_char|].
  rewrite split_app by done. f_equal. by apply IH.
Qed.

Lemma split_nonempty s sep : split s sep ≠ [].
Proof. destruct s as [|c s]; [done|]. cbn [split]. destruct (Ascii.eqb c sep); [done|]. by destruct (split s sep). Qed.

Lemma split_app_sep sep s t : split (s +:+ String sep t) sep = split s sep ++ split t sep.
Proof.
  induction s as [|c s IH]; [cbn [String.append split]; by rewrite Ascii.eqb_refl|].
  change (String c s +:+ String sep t) with (String c (s +:+ String sep t)). cbn [split].
  destruct (Ascii.eqb c sep); [by rewrite IH|]. rewrite IH.
  pose proof (split_nonempty s sep). by destruct (split s sep).
Qed.

Lemma join_split s sep : join (split s sep) (String sep "") = s.
Proof.
  induction s as [|c s IH]; [done|]. cbn [split]. pose proof (split_nonempty s sep).
  destruct (Ascii.eqb_spec c sep) as [->|]; destruct (split s sep) as [|w ws]; try done.
  - change (join ("" :: w :: ws) (String sep "")) with (String sep (join (w :: ws) (String sep ""))). by rewrite IH.
  - rewrite <-IH. by destruct ws.
Qed.

Lemma join_app l1 l2 sep : l1 ≠ [] → l2 ≠ [] → join (l1 ++ l2) sep = join l1 sep +:+ sep +:+ join l2 sep.
Proof.
  intros Hne Hne2. induction l1 as [|s [|s' l1] IH]; [done| |].
  - by destruct l2.
  - change (join ((s :: s' :: l1) ++ l2) sep) with (s +:+ sep +:+ join ((s' :: l1) ++ l2) sep).
    rewrite IH by done. change (join (s :: s' :: l1) sep) with (s +:+ sep +:+ join (s' :: l1) sep). by rewrite !app_assoc_str.
Qed.

Lemma cut_last_no_char sep s : no_char sep s = true → cut_last s sep = None.
Proof.
  induction s as [|c s IH]; simpl; [done|].
  intros [Hc Hs]%andb_true_iff. apply negb_true_iff in Hc. by rewrite (IH Hs), Hc.
Qed.

Lemma cut_last_app sep s t :
  no_char sep t = true → cut_last (s +:+ String sep t) sep = Some (s, t).
Proof.
  intros Ht. induction s as [|c s IH]; simpl; [|by rewrite IH].
  by rewrite cut_last_no_char, Ascii.eqb_refl.
Qed.

Lemma cut_app sep s t : no_char sep s = true → cut (s +:+ String sep t) sep = Some (s, t).
Proof.
  induction s as [|c s IH]; simpl; [by rewrite Ascii.eqb_refl|].
  intros [Hc Hs]%andb_true_iff. apply negb_true_iff in Hc. by rewrite Hc, (IH Hs).
Qed.

(** *** Texts of visible ASCII characters *)

(** The characters from [!] to [~]: none is white space nor starts one. *)
Definition is_visible (c : ascii) : bool := (33 <=? byte_of c) && (byte_of c <=? 126).
Definition visible : string → bool := string_forall is_visible.

Lemma rev_app_spec s t : String.rev_app s t = String.rev_app s "" +:+ t.
Proof.
  revert t. induction s as [|c s IH]; intros t; simpl; [done|].
  rewrite (IH (String c t)), (IH (String c "")). autorewrite with go_strings. done.
Qed.

Lemma rev_String c s : String.rev (String c s) = String.rev s +:+ String c "".
Proof. unfold String.rev. simpl. by rewrite rev_app_spec. Qed.

Lemma rev_snoc s c : String.rev (s +:+ String c "") = String c (String.rev s).
Proof.
  induction s as [|d s IH]; simpl; [done|]. by rewrite !rev_String, IH.
Qed.

Lemma rev_involutive_str s : String.rev (String.rev s) = s.
Proof. induction s as [|c s IH]; simpl; [done|]. by rewrite rev_String, rev_snoc, IH. Qed.

Lemma string_forall_rev P s : string_forall P (String.rev s) = string_forall P s.
Proof.
  induction s as [|c s IH]; simpl; [done|].
  rewrite rev_String. autorewrite with go_strings. simpl.
  rewrite IH. by destruct (P c), (string_forall P s).
Qed.

Lemma is_visible_not_space c : is_visible c = true → is_ascii_space c = false.
Proof. unfold is_visible, is_ascii_space. intros; bool_to_prop. lia. Qed.

Lemma is_visible_not_space2 a b :
  is_visible a = true ∨ is_visible b = true → is_space2 a b = false.
Proof. unfold is_visible, is_space2. intros [?|?]; bool_to_prop; lia. Qed.

Lemma is_visible_not_space3 a b c :
  is_visible a = true ∨ is_visible c = true → is_space3 a b c = false.
Proof. unfold is_visible, is_space3. intros [?|?]; bool_to_prop; lia. Qed.

#[export] Hint Resolve is_visible_not_space is_visible_not_space2 is_visible_not_space3 : go_strings.

Lemma trim_left_with_head sp2 sp3 c s :
  is_ascii_space c = false → (∀ b, sp2 c b = false) → (∀ b d, sp3 c b d = false) →
  trim_left_with sp2 sp3 (String c s) = String c s.
Proof. intros H1 H2 H3. simpl. rewrite H1. by destruct s as [|? [|??]]; rewrite ?H2, ?H3. Qed.

(** A text whose first and last characters are visible is its own trim. *)
Definition visible_ends (s : string) : bool :=
  match s, String.rev s with
  | String c _, String d _ => is_visible c && is_visible d
  | _, _ => false
  end.

Lemma trim_space_visible_ends s : visible_ends s = true → trim_space s = s.
Proof.
  intros H. unfold visible_ends, trim_space, trim_left, trim_right in *.
  destruct s as [|c s]; [done|].
  rewrite trim_left_with_head;
    [|destruct (String.rev _); [done|]; bool_to_prop; auto with go_strings ..].
  destruct (String.rev (String c s)) as [|d r] eqn:E; [done|]. bool_to_prop.
  rewrite trim_left_with_head by auto with go_strings.
  rewrite <-E. apply rev_involutive_str.
Qed.

Lemma trim_space_snoc s c : is_ascii_space c = true → visible_ends s = true → trim_space (s +:+ String c "") = s.
Proof.
  intros Hc H. unfold visible_ends, trim_space, trim_left, trim_right in *.
  destruct s as [|a s]; [done|]. cbn [String.append].
  rewrite trim_left_with_head;
    [|destruct (String.rev _); [done|]; bool_to_prop; auto with go_strings ..].
  change (String a (s +:+ String c "")) with (String a s +:+ String c ""). rewrite rev_snoc.
  destruct (String.rev (String a s)) as [|d r] eqn:E; [done|]. bool_to_prop.
  assert (∀ sp2 sp3 t, trim_left_with sp2 sp3 (String c t) = trim_left_with sp2 sp3 t) as -> by (intros; simpl; by rewrite Hc).
  rewrite trim_left_with_head by auto with go_strings. rewrite <-E. apply rev_involutive_str.
Qed.

Lemma visible_visible_ends s : s ≠ "" → visible s = true → visible_ends s = true.
Proof.
  intros Hne Hv. unfold visible_ends. destruct s as [|c s]; [done|].
  unfold visible in Hv. destruct (String.rev (String c s)) as [|d r] eqn:E.
  - apply (f_equal String.rev) in E. by rewrite rev_involutive_str in E.
  - rewrite <-string_forall_rev, E in Hv.
    assert (string_forall is_visible (String c s) = true) as Hc
      by (by rewrite <-string_forall_rev, E).
    simpl in Hv, Hc. bool_to_prop. by apply andb_true_iff.
Qed.

Lemma trim_space_visible s : visible s = true → trim_space s = s.
Proof.
  intros Hv. destruct s as [|c s]; [done|].
  by apply trim_space_visible_ends, visible_visible_ends.
Qed.

Lemma rev_append_str s t : String.rev (s +:+ t) = String.rev t +:+ String.rev s.
Proof.
  induction s as [|c s IH]; cbn [String.append]; [by rewrite app_nil_r_str|].
  by rewrite !rev_String, IH, app_assoc_str.
Qed.

Lemma visible_ends_app s u t : visible_ends s = true → visible_ends t = true → visible_ends (s +:+ u +:+ t) = true.
Proof.
  unfold visible_ends. destruct s as [|a s]; [done|]. cbn [String.append]. intros Hs Ht.
  change (String a (s +:+ u +:+ t)) with (String a s +:+ (u +:+ t)). rewrite !rev_append_str.
  destruct (String.rev (String a s)) as [|b r]; [done|].
  destruct t as [|c t]; [done|]. destruct (String.rev (String c t)) as [|d q]; [done|]. simpl. bool_to_prop.
  by apply andb_true_iff.
Qed.

(** Words separated by single blanks. *)
Definition word (s : string) : Prop := s ≠ "" ∧ visible s = true.

Lemma fields_from_visible cur w s : visible w = true → fields_from cur (w +:+ s) = fields_from (String.rev w +:+ cur) s.
Proof.
  revert cur. induction w as [|a w IH]; intros cur Hw; [done|]. unfold visible in Hw. cbn [string_forall] in Hw.
  apply andb_true_iff in Hw as [Ha Hw]. rewrite rev_String, app_assoc_str. cbn [String.append].
  rewrite <-IH by done. generalize (w +:+ s) as t. intros t. cbn [fields_from].
  rewrite is_visible_not_space by done. destruct t as [|b t]; [done|].
  rewrite is_visible_not_space2 by (by left). destruct t as [|c t]; [done|].
  by rewrite is_visible_not_space3 by (by left).
Qed.

Lemma add_field_rev w l : w ≠ "" → add_field (String.rev w) l = w :: l.
Proof.
  intros Hw. unfold add_field. destruct (String.rev w) eqn:E.
  - apply (f_equal String.rev) in E. rewrite rev_involutive_str in E. done.
  - by rewrite <-E, rev_involutive_str.
Qed.

Lemma join_cons w w' ws sep : join (w :: w' :: ws) sep = w +:+ sep +:+ join (w' :: ws) sep.
Proof. done. Qed.

Lemma fields_from_space cur s : fields_from cur (String " " s) = add_field cur (fields_from "" s).
Proof. done. Qed.

Lemma fields_join ws : Forall word ws → fields (join ws " ") = ws.
Proof.
  intros H. unfold fields. induction H as [|w ws [Hw Hv] Hws IH]; [done|].
  destruct ws as [|w' ws].
  - cbn [join]. rewrite <-(app_nil_r_str w) at 1. rewrite fields_from_visible, app_nil_r_str by done. by apply add_field_rev.
  - rewrite join_cons, fields_from_visible, app_nil_r_str by done.
    change (" " +:+ join (w' :: ws) " ") with (String " " (join (w' :: ws) " ")).
    rewrite fields_from_space. rewrite IH. by apply add_field_rev.
Qed.

Lemma visible_ends_joins sep ws : ws ≠ [] → Forall (λ w, visible_ends w = true) ws → visible_ends (join ws sep) = true.
Proof.
  intros Hne H. induction H as [|w ws Hw Hws IH]; [done|].
  destruct ws as [|w' ws]; [done|]. rewrite join_cons. apply visible_ends_app; [done|]. by apply IH.
Qed.

Lemma visible_ends_join sep ws : ws ≠ [] → Forall word ws → visible_ends (join ws sep) = true.
Proof.
  intros Hne H. apply visible_ends_joins; [done|]. eapply list.Forall_impl; [done|].
  intros w [Hw Hv]. by apply visible_visible_ends.
Qed.

(** Lines, each ended by a newline. *)
Definition lines_text (ls : list string) : string := String.concat "" ((λ l, l +:+ nl) <$> ls).

Lemma lines_text_cons l ls : lines_text (l :: ls) = l +:+ nl +:+ lines_text ls.
Proof. unfold lines_text. destruct ls; simpl; [done|by rewrite app_assoc_str]. Qed.

Lemma contains_lines ls l sub : l ∈ ls → contains l sub = true → contains (lines_text ls) sub = true.
Proof.
  intros Hl Hc. induction ls as [|l' ls IH]; [by apply list_elem_of_In in Hl|]. rewrite lines_text_cons.
  apply elem_of_cons in Hl as [<-|Hl]; [by apply contains_app_l|]. by apply contains_app_r, contains_app_r, IH.
Qed.

(** Neighbours in a list of words. *)
Fixpoint followed (f : string → string → Prop) (l : list string) : Prop :=
  match l with
  | x :: (y :: _) as l' => f x y ∨ followed f l'
  | _ => False
  end.

Lemma followed_cons f x l : followed f (x :: l) ↔ (∃ y, head l = Some y ∧ f x y) ∨ followed f l.
Proof. destruct l as [|y l]; cbn [followed head]; naive_solver. Qed.

Lemma followed_app f l1 x y l2 : f x y → followed f (l1 ++ x :: y :: l2).
Proof.
  intros Hf. induction l1 as [|z l1 IH]; [by left|]. cbn [app]. apply followed_cons. by right.
Qed.

Lemma split_suffix sep l w : no_char sep w = true → ∃ ls x, split (l +:+ w) sep = ls ++ [x] ∧ has_suffix x w = true.
Proof.
  intros Hw. induction l as [|c l (ls & x & E & Hx)]; cbn [String.append split].
  - exists [], w. rewrite split_no_char by done. split; [done|]. apply has_suffix_spec. by exists "".
  - destruct (Ascii.eqb c sep); [exists ("" :: ls), x; by rewrite E|]. rewrite E. destruct ls as [|y ls]; cbn [app].
    + exists [], (String c x). split; [done|]. apply has_suffix_spec in Hx as [t ->]. apply has_suffix_spec. by exists (String c t).
    + by exists (String c y :: ls), x.
Qed.

Lemma split_prefix sep w r : no_char sep w = true → ∃ x ls, split (w +:+ r) sep = x :: ls ∧ has_prefix x w = true.
Proof.
  induction w as [|c w IH]; cbn [String.append split no_char string_forall].
  - intros _. destruct (split r sep) as [|x ls] eqn:E; [by apply split_nonempty in E|]. by exists x, ls.
  - intros [Hc%negb_true_iff Hw]%andb_true_iff. rewrite Hc. destruct (IH Hw) as (x & ls & -> & Hx).
    exists (String c x), ls. split; [done|]. apply has_prefix_spec in Hx as [t ->]. apply has_prefix_spec. by exists t.
Qed.

(** A text with one separator is found at the end of a word and the beginning
    of the next. *)
Lemma contains_followed sep s a b :
  no_char sep a = true → no_char sep b = true → contains s (a +:+ String sep b) = true →
  followed (λ x y, has_suffix x a = true ∧ has_prefix y b = true) (split s sep).
Proof.
  intros Ha Hb (l & r & ->)%contains_spec.
  replace (l +:+ (a +:+ String sep b) +:+ r) with ((l +:+ a) +:+ String sep (b +:+ r)) by (by rewrite !app_assoc_str).
  rewrite split_app_sep. destruct (split_suffix sep l a Ha) as (ls & x & -> & Hx).
  destruct (split_prefix sep b r Hb) as (y & ls' & -> & Hy). rewrite <-app_assoc. by apply followed_app.
Qed.

Lemma lines_text_join ls : ls ≠ [] → lines_text ls = join ls nl +:+ nl.
Proof.
  induction ls as [|l ls IH]; [done|]. intros _. rewrite lines_text_cons. destruct ls as [|l' ls].
  - cbn. done.
  - rewrite IH by done. by rewrite join_cons, !app_assoc_str.
Qed.

Lemma trim_lines ls :
  ls ≠ [] → Forall (λ l, visible_ends l = true) ls → trim_space (lines_text ls) = join ls nl.
Proof.
  intros Hne Hl. rewrite lines_text_join by done. apply trim_space_snoc; [done|].
  by apply visible_ends_joins.
Qed.

Lemma split_lines ls :
  Forall (λ l, no_char (char_of 10) l = true) ls → split (lines_text ls) (char_of 10) = ls ++ [""].
Proof.
  induction 1 as [|l ls Hl _ IH]; [done|]. rewrite lines_text_cons.
  change (l +:+ nl +:+ lines_text ls) with (l +:+ String (char_of 10) (lines_text ls)).
  rewrite split_app by done. by rewrite IH.
Qed.

Lemma visible_no_char sep s : is_visible sep = false → visible s = true → no_char sep s = true.
Proof.
  intros Hs. unfold visible, no_char. apply string_forall_impl. intros c Hc.
  destruct (Ascii.eqb_spec c sep) as [->|]; [congruence|done].
Qed.

Lemma no_char_join c sep ws :
  Forall (λ w, no_char c w = true) ws → no_char c sep = true → no_char c (join ws sep) = true.
Proof.
  intros H Hb. induction H as [|w ws Hw Hws IH]; [done|]. destruct ws as [|w' ws]; [done|]. rewrite join_cons.
  unfold no_char in *. by rewrite !string_forall_app, Hw, IH, Hb.
Qed.

(** ** Lemmas on numbers *)

Lemma byte_of_char_of b : 0 <= b < 256 → byte_of (char_of b) = b.
Proof. intros Hb. unfold byte_of, char_of. rewrite N_ascii_embedding by lia. lia. Qed.

Lemma char_of_byte_of c : char_of (byte_of c) = c.
Proof. unfold char_of, byte_of. rewrite N2Z.id. apply ascii_N_embedding. Qed.

Lemma byte_of_inj c d : byte_of c = byte_of d → c = d.
Proof. intros H. by rewrite <-(char_of_byte_of c), H, char_of_byte_of. Qed.

Lemma byte_of_range c : 0 <= byte_of c < 256.
Proof. unfold byte_of. pose proof (N_ascii_bounded c). lia. Qed.

Lemma digit_char_range d :
  0 <= d < 36 → 48 <= byte_of (digit_char d) <= 57 ∨ 97 <= byte_of (digit_char d) <= 122.
Proof.
  intros Hd. unfold digit_char. destruct (Z.ltb_spec d 10); rewrite byte_of_char_of; lia.
Qed.

Lemma digit_val_char d : 0 <= d < 36 → digit_val (digit_char d) = Some d.
Proof.
  intros Hd. unfold digit_val, digit_char.
  destruct (Z.ltb_spec d 10); rewrite byte_of_char_of by lia; repeat bcase; try lia; f_equal; lia.
Qed.

(** The characters of a formatted number. *)
Definition is_num_char (c : ascii) : bool :=
  ((48 <=? byte_of c) && (byte_of c <=? 57)) || ((97 <=? byte_of c) && (byte_of c <=? 122)).

Lemma fmt_digits_all P fuel base n :
  0 < base → (∀ d, 0 <= d < base → P (digit_char d) = true) → string_forall P (fmt_digits fuel base n) = true.
Proof.
  intros Hb Hd. revert n. induction fuel as [|fuel IH]; intros n; simpl; [done|].
  assert (P (digit_char (n mod base)) = true) by (apply Hd, Z.mod_pos_bound; lia).
  bcase; autorewrite with go_strings; simpl; [by rewrite andb_true_r|]. rewrite IH. by rewrite andb_true_r.
Qed.

Lemma fmt_digits_chars fuel base n :
  1 < base <= 36 → 0 <= n → string_forall is_num_char (fmt_digits fuel base n) = true.
Proof.
  intros Hb _. apply fmt_digits_all; [lia|]. intros d Hd. unfold is_num_char. pose proof (digit_char_range d). lia.
Qed.

Lemma fmt_uint_chars base n :
  1 < base <= 36 → 0 <= n → string_forall is_num_char (fmt_uint base n) = true.
Proof. apply fmt_digits_chars. Qed.

Lemma fmt_uint_nonempty base n : fmt_uint base n ≠ "".
Proof.
  unfold fmt_uint. cbn [fmt_digits]. bcase; [done|].
  by destruct (fmt_digits _ _ _).
Qed.

(** One step of the digit loop at the right end. *)
Lemma parse_digits_snoc base max acc s c :
  parse_digits base max acc (s +:+ String c "") =
  match parse_digits base max acc s with
  | NumOk v => parse_digits base max v (String c "")
  | r => r
  end.
Proof.
  revert acc. induction s as [|a s IH]; intros acc; [done|].
  cbn [String.append]. cbn [parse_digits]. destruct (digit_val a); [|done].
  repeat bcase; [done..|]. apply IH.
Qed.

Lemma parse_digits_fmt fuel base max n :
  1 < base <= 36 → 0 <= n <= max → n < base ^ Z.of_nat fuel →
  parse_digits base max 0 (fmt_digits fuel base n) = NumOk n.
Proof.
  intros Hb. revert n. induction fuel as [|fuel IH]; intros n Hn Hf.
  { simpl in *. f_equal. lia. }
  cbn [fmt_digits]. pose proof (Z.mod_pos_bound n base).
  pose proof (Z.div_mod n base).
  destruct (Z.ltb_spec n base).
  - cbn [parse_digits]. rewrite digit_val_char by lia.
    rewrite Z.mod_small by lia. repeat bcase; try lia. done.
  - rewrite parse_digits_snoc, IH.
    + cbn [parse_digits]. rewrite digit_val_char by lia. repeat bcase; try lia. f_equal. lia.
    + pose proof (Z.div_pos n base). split; [lia|]. apply (Z.le_trans _ n); [|lia].
      apply Z.div_le_upper_bound; nia.
    + apply Z.div_lt_upper_bound; [lia|].
      replace (Z.of_nat (S fuel)) with (Z.succ (Z.of_nat fuel)) in Hf by lia.
      rewrite Z.pow_succ_r in Hf by lia. lia.
Qed.

Lemma fmt_uint_fuel base n : 1 < base → 0 <= n → n < base ^ Z.of_nat (S (Z.to_nat (Z.log2 n))).
Proof.
  intros Hb Hn. destruct (Z.eq_dec n 0) as [->|].
  { apply Z.pow_pos_nonneg; lia. }
  pose proof (Z.log2_spec n). pose proof (Z.log2_nonneg n).
  apply (Z.lt_le_trans _ (2 ^ Z.succ (Z.log2 n))); [lia|].
  replace (Z.of_nat (S (Z.to_nat (Z.log2 n)))) with (Z.succ (Z.log2 n)) by lia.
  apply Z.pow_le_mono_l. lia.
Qed.

Lemma ParseUint_fmt base bits n :
  1 < base <= 36 → 0 <= n < 2 ^ bits → ParseUint (fmt_uint base n) base bits = NumOk n.
Proof.
  intros Hb Hn. unfold ParseUint.
  destruct (fmt_uint base n) eqn:E; [by apply fmt_uint_nonempty in E|].
  rewrite <-E. apply parse_digits_fmt; [lia..|]. apply fmt_uint_fuel; lia.
Qed.

(** A number above the maximum is out of range, whatever its length. *)
Lemma parse_digits_range fuel base max n :
  1 < base <= 36 → 0 <= max < n → n < base ^ Z.of_nat fuel →
  parse_digits base max 0 (fmt_digits fuel base n) = NumRange.
Proof.
  intros Hb. revert n. induction fuel as [|fuel IH]; intros n Hn Hf; [simpl in Hf; lia|].
  cbn [fmt_digits]. pose proof (Z.mod_pos_bound n base). pose proof (Z.div_mod n base). destruct (Z.ltb_spec n base).
  - cbn [parse_digits]. rewrite digit_val_char by lia. rewrite Z.mod_small by lia. repeat bcase; try lia. done.
  - assert (n / base < base ^ Z.of_nat fuel) as Hf'.
    { apply Z.div_lt_upper_bound; [lia|]. rewrite <-Z.pow_succ_r by lia. by rewrite <-Nat2Z.inj_succ. }
    rewrite parse_digits_snoc. destruct (Z.lt_ge_cases max (n / base)); [by rewrite IH by lia|].
    pose proof (Z.div_pos n base). rewrite parse_digits_fmt by lia. cbn [parse_digits]. rewrite digit_val_char by lia.
    repeat bcase; try lia. done.
Qed.

Lemma ParseUint_range base bits n :
  1 < base <= 36 → 0 <= bits → 2 ^ bits <= n → ParseUint (fmt_uint base n) base bits = NumRange.
Proof.
  intros Hb Hbits Hn. pose proof (Z.pow_pos_nonneg 2 bits). unfold ParseUint.
  destruct (fmt_uint base n) eqn:E; [by apply fmt_uint_nonempty in E|].
  rewrite <-E. apply parse_digits_range; [lia..|]. apply fmt_uint_fuel; lia.
Qed.

Lemma fmt_uint_decimal n : 0 <= n → string_forall is_digit (fmt_uint 10 n) = true.
Proof.
  unfold fmt_uint. generalize (S (Z.to_nat (Z.log2 n))) as fuel. intros fuel. revert n.
  induction fuel as [|fuel IH]; intros n Hn; [done|]. cbn [fmt_digits].
  assert (is_digit (digit_char (n mod 10)) = true) as Hd.
  { pose proof (Z.mod_pos_bound n 10). unfold is_digit, digit_char. bcase; [|lia]. rewrite byte_of_char_of by lia. lia. }
  bcase; autorewrite with go_strings; cbn [string_forall]; rewrite Hd; [done|].
  by rewrite IH by (apply Z.div_pos; lia).
Qed.

Lemma fmt_uint_inj base m n :
  1 < base <= 36 → 0 <= m → 0 <= n → fmt_uint base m = fmt_uint base n → m = n.
Proof.
  intros Hb Hm Hn E.
  set (bits := Z.succ (Z.log2_up (Z.max m n + 1))).
  assert (Z.max m n < 2 ^ bits) as Hmax.
  { pose proof (Z.log2_up_le_pow2 (Z.max m n + 1) (Z.log2_up (Z.max m n + 1))).
    unfold bits. rewrite Z.pow_succ_r by apply Z.log2_up_nonneg.
    pose proof (Z.log2_up_nonneg (Z.max m n + 1)). lia. }
  pose proof (ParseUint_fmt base bits m Hb ltac:(lia)) as H1.
  pose proof (ParseUint_fmt base bits n Hb ltac:(lia)) as H2. congruence.
Qed.

Lemma itoa_nonneg n : 0 <= n → itoa n = fmt_uint 10 n.
Proof. intros Hn. unfold itoa. bcase; [lia | done]. Qed.

Lemma itoa_chars n : 0 <= n → string_forall is_num_char (itoa n) = true.
Proof. intros Hn. rewrite itoa_nonneg by done. apply fmt_uint_chars; lia. Qed.

Lemma itoa_inj_nonneg m n : 0 <= m → 0 <= n → itoa m = itoa n → m = n.
Proof. intros Hm Hn. rewrite !itoa_nonneg by done. apply fmt_uint_inj; lia. Qed.

Lemma num_char_not c d :
  is_num_char c = true → is_num_char d = false → negb (Ascii.eqb c d) = true.
Proof. intros Hc Hd. apply negb_true_iff, Ascii.eqb_neq. congruence. Qed.

Lemma num_chars_no_char sep s :
  is_num_char sep = false → string_forall is_num_char s = true → no_char sep s = true.
Proof. intros Hsep. apply string_forall_impl. intros c Hc. by apply num_char_not. Qed.

Lemma num_chars_visible s : string_forall is_num_char s = true → visible s = true.
Proof. apply string_forall_impl. unfold is_num_char, is_visible. intros c H. lia. Qed.

Lemma itoa_no_space n : no_char " " (itoa n) = true.
Proof.
  assert (∀ k, no_char " " (fmt_uint 10 k) = true) as Hn.
  { intros k. apply num_chars_no_char; [done|]. apply fmt_digits_all; [done|]. intros d Hd.
    unfold is_num_char. pose proof (digit_char_range d). lia. }
  unfold itoa. destruct (n <? 0); [|apply Hn]. unfold no_char in *. by rewrite string_forall_app, Hn.
Qed.

(** The character [k] is in no hexadecimal number. *)
Lemma fmt_x_no_k m : string_forall (λ c, negb (Ascii.eqb c "k")) (fmt_x m) = true.
Proof.
  apply fmt_digits_all; [done|]. intros d Hd. assert (d ∈ seqZ 0 16) as Hin by (apply elem_of_seqZ; lia). clear Hd.
  revert d Hin. apply list.Forall_forall. apply (bool_decide_unpack _). by vm_compute.
Qed.

Lemma fmt_x_no_space m : no_char " " (fmt_x m) = true.
Proof.
  apply num_chars_no_char; [done|]. apply fmt_digits_all; [done|]. intros d Hd. unfold is_num_char.
  pose proof (digit_char_range d). lia.
Qed.

Lemma itoa_word n : 0 <= n → word (itoa n).
Proof.
  intros Hn. split; [|apply num_chars_visible; by apply itoa_chars].
  rewrite itoa_nonneg by done. apply fmt_uint_nonempty.
Qed.

Lemma Atoi_itoa n : 0 <= n < 2 ^ 63 → Atoi (itoa n) = (n, true).
Proof.
  intros Hn. rewrite itoa_nonneg by lia. unfold Atoi.
  pose proof (fmt_uint_chars 10 n ltac:(lia) ltac:(lia)) as Hc.
  pose proof (ParseUint_fmt 10 64 n ltac:(lia) ltac:(lia)) as Hp.
  destruct (fmt_uint 10 n) as [|c s] eqn:E; [by apply fmt_uint_nonempty in E|].
  simpl in Hc. bool_to_prop. destruct (Ascii.eqb_spec c "-"), (Ascii.eqb_spec c "+"); subst; try done.
  rewrite Hp. bcase; [lia|done].
Qed.
