(* ===== verification/Netip.v ===== *)
(** * Go's [net/netip] addresses and prefixes, as the program uses them

    [Addr] has the three forms of [netip.Addr]: the zero value (invalid), an
    IPv4 address (a 32-bit integer) and an IPv6 address (a 128-bit integer with
    a zone).  [Prefix] keeps the address as given, not masked, and its [Bits],
    which is -1 in an invalid prefix.  Parsing follows [ParseAddr],
    [parseIPv4Fields], [parseIPv6] and [ParsePrefix] check by check; printing
    follows [Addr.String] and [Prefix.String].

    The main results: [Contains] on IPv4 is the equality of the leading bits,
    [Masked] clears the others, and [ParsePrefix] reads back what
    [Prefix.String] prints for every IPv4 prefix. *)

From stdpp Require Import base list strings.
From Stdlib Require Import Ascii.
From Stdlib Require Import ZArith Lia.
From S2P Require Import Prelude GoStrings.

Inductive Addr :=
| AddrZero
| Addr4 (ip : Z)
| Addr6 (ip : Z) (zone : string).

#[global] Instance Addr_eq_dec : EqDecision Addr.
Proof. solve_decision. Defined.

Record Prefix := PrefixMk { p_ip : Addr; p_bits : Z }.

#[global] Instance Prefix_eq_dec : EqDecision Prefix.
Proof. solve_decision. Defined.

(** The zero [netip.Prefix]. *)
Definition PrefixZero : Prefix := PrefixMk AddrZero (-1).

Definition addr_valid (a : Addr) : bool := match a with AddrZero => false | _ => true end.
Definition Is4 (a : Addr) : bool := match a with Addr4 _ => true | _ => false end.
Definition Is6 (a : Addr) : bool := match a with Addr6 _ _ => true | _ => false end.
Definition BitLen (a : Addr) : Z := match a with AddrZero => 0 | Addr4 _ => 32 | Addr6 _ _ => 128 end.
Definition addr_int (a : Addr) : Z := match a with AddrZero => 0 | Addr4 n => n | Addr6 n _ => n end.
Definition Zone (a : Addr) : string := match a with Addr6 _ z => z | _ => "" end.
Definition withoutZone (a : Addr) : Addr := match a with Addr6 n _ => Addr6 n "" | _ => a end.

(** [Addr.Less]: by length, then value, then zone. *)
Definition Less (a b : Addr) : bool :=
  (BitLen a <? BitLen b) ||
  ((BitLen a =? BitLen b) &&
   ((addr_int a <? addr_int b) || ((addr_int a =? addr_int b) && String.ltb (Zone a) (Zone b)))).

(** [netip.PrefixFrom]: out of range bits make an invalid prefix. *)
Definition PrefixFrom (ip : Addr) (bits : Z) : Prefix :=
  if addr_valid ip && (0 <=? bits) && (bits <=? BitLen ip)
  then PrefixMk (withoutZone ip) bits
  else PrefixMk (withoutZone ip) (-1).

Definition prefix_valid (p : Prefix) : bool := 0 <=? p_bits p.

(** The [b] high bits of a [w]-bit word. *)
Definition mask (w b : Z) : Z := 2 ^ w - 2 ^ (w - b).

(** [Prefix.Masked], through [Addr.Prefix]. *)
Definition Masked (p : Prefix) : Prefix :=
  let b := p_bits p in
  match p_ip p with
  | AddrZero => PrefixZero
  | Addr4 n => if (b <? 0) || (32 <? b) then PrefixZero else PrefixFrom (Addr4 (Z.land n (mask 32 b))) b
  | Addr6 n _ => if (b <? 0) || (128 <? b) then PrefixZero else PrefixFrom (Addr6 (Z.land n (mask 128 b)) "") b
  end.

(** [Prefix.Contains]. *)
Definition Contains (p : Prefix) (a : Addr) : bool :=
  prefix_valid p &&
  match p_ip p, a with
  | Addr4 n, Addr4 m => Z.shiftr (Z.lxor m n) (32 - p_bits p) =? 0
  | Addr6 n _, Addr6 m z => String.eqb z "" && (Z.land (Z.lxor m n) (mask 128 (p_bits p)) =? 0)
  | _, _ => false
  end.

(** ** Printing *)

(** Byte [i] (from the left) of an IPv4 address. *)
Definition octet (n i : Z) : Z := Z.land (Z.shiftr n (8 * (3 - i))) 255.

Definition string4 (n : Z) : string :=
  itoa (octet n 0) +:+ "." +:+ itoa (octet n 1) +:+ "." +:+ itoa (octet n 2) +:+ "." +:+ itoa (octet n 3).

(** Group [i] of an IPv6 address. *)
Definition v6u16 (n i : Z) : Z := Z.land (Z.shiftr n (16 * (7 - i))) 65535.

(** The end of the run of zero groups that starts at [i]. *)
Fixpoint zero_run (fuel : nat) (n i : Z) : Z :=
  match fuel with
  | O => i
  | S fuel => if (i <? 8) && (v6u16 n i =? 0) then zero_run fuel n (i + 1) else i
  end.

#[global] Arguments octet : simpl never.
#[global] Arguments string4 : simpl never.

(** The longest run of at least two zero groups, the first among equals. *)
Definition zero_groups (n : Z) : Z * Z :=
  foldl (λ '(zs, ze) i, let j := zero_run 8 n i in
                        if (2 <=? j - i) && (ze - zs <? j - i) then (i, j) else (zs, ze))
        (255, 255) [0; 1; 2; 3; 4; 5; 6; 7].

Fixpoint groups6 (fuel : nat) (n zs ze i : Z) : string :=
  match fuel with
  | O => ""
  | S fuel =>
      if 8 <=? i then ""
      else if i =? zs then
        "::" +:+ (if 8 <=? ze then "" else fmt_x (v6u16 n ze) +:+ groups6 fuel n zs ze (ze + 1))
      else (if 0 <? i then ":" else "") +:+ fmt_x (v6u16 n i) +:+ groups6 fuel n zs ze (i + 1)
  end.

Definition zone_suffix (z : string) : string := match z with "" => "" | _ => "%" +:+ z end.

Definition string6 (n : Z) (z : string) : string :=
  let '(zs, ze) := zero_groups n in groups6 9 n zs ze 0 +:+ zone_suffix z.

Definition Is4In6 (a : Addr) : bool :=
  match a with Addr6 n _ => Z.shiftr n 32 =? 65535 | _ => false end.

Definition addr_string (a : Addr) : string :=
  match a with
  | AddrZero => "invalid IP"
  | Addr4 n => string4 n
  | Addr6 n z => if Is4In6 a then "::ffff:" +:+ string4 (Z.land n (2 ^ 32 - 1)) +:+ zone_suffix z
                 else string6 n z
  end.

Definition prefix_string (p : Prefix) : string :=
  if prefix_valid p then addr_string (p_ip p) +:+ "/" +:+ itoa (p_bits p) else "invalid Prefix".

(** [Addr.Unmap]. *)
Definition Unmap (a : Addr) : Addr :=
  match a with
  | Addr6 n _ => if Is4In6 a then Addr4 (Z.land n (2 ^ 32 - 1)) else a
  | _ => a
  end.

(** ** Parsing *)

(** The loop of [parseIPv4Fields] over the rest of the text: the value and
    number of digits of the current octet, the number of octets read, their
    value, and whether the previous character ends an octet. *)
Fixpoint parseIPv4Fields (s : string) (prev_dot : bool) (val dig pos acc : Z) : option Z :=
  match s with
  | "" => if pos <? 3 then None else Some (acc * 256 + val)
  | String c r =>
      if is_digit c then
        if (dig =? 1) && (val =? 0) then None
        else let val := val * 10 + (byte_of c - 48) in
             if 255 <? val then None else parseIPv4Fields r false val (dig + 1) pos acc
      else if Ascii.eqb c "." then
        if prev_dot || match r with "" => true | _ => false end then None
        else if pos =? 3 then None
        else parseIPv4Fields r true 0 0 (pos + 1) (acc * 256 + val)
      else None
  end.

(** The test [i == 0 || s[i-1] == '.'] starts true: nothing is read yet. *)
Definition parseIPv4 (s : string) : option Z := parseIPv4Fields s true 0 0 0 0.

Definition is_hex (c : ascii) : bool :=
  match digit_val c with Some d => d <? 16 | None => false end.

(** The hex digits at the head of a group: at most 4 digits, [None] when there
    are more.  Returns the value, the number of digits and the rest. *)
Fixpoint hex_group (off acc : Z) (s : string) : option (Z * Z * string) :=
  match s with
  | String c r =>
      match digit_val c with
      | Some d => if d <? 16 then if 3 <? off then None else hex_group (off + 1) (acc * 16 + d) r
                  else Some (acc, off, s)
      | None => Some (acc, off, s)
      end
  | "" => Some (acc, off, "")
  end.

(** The loop of [parseIPv6]: [i] bytes are read, with value [hd] before the
    ellipsis (all of them when there is none) and [tl] after it, the ellipsis
    at byte [ell].  Each round reads 2 bytes, so 8 rounds are enough. *)
Fixpoint parseIPv6Loop (fuel : nat) (s : string) (i : Z) (ell : option Z) (hd tl : Z)
    : option (string * Z * option Z * Z * Z) :=
  if 16 <=? i then Some (s, i, ell, hd, tl) else
  match fuel with
  | O => None
  | S fuel =>
      '(acc, off, r) ← hex_group 0 0 s;
      if off =? 0 then None
      else match r with
      | String "." _ =>
          if (match ell with None => negb (i =? 12) | _ => false end) || (16 <? i + 4) then None
          else v ← parseIPv4Fields s true 0 0 0 0;
               match ell with
               | None => Some ("", i + 4, ell, hd * 2 ^ 32 + v, tl)
               | Some _ => Some ("", i + 4, ell, hd, tl * 2 ^ 32 + v)
               end
      | _ =>
          let i := i + 2 in
          let '(hd, tl) := match ell with
                           | None => (hd * 65536 + acc, tl)
                           | Some _ => (hd, tl * 65536 + acc)
                           end in
          match r with
          | "" => Some ("", i, ell, hd, tl)
          | String c r1 =>
              if negb (Ascii.eqb c ":") then None
              else match r1 with
              | "" => None
              | String c1 r2 =>
                  if Ascii.eqb c1 ":" then
                    match ell with
                    | Some _ => None
                    | None => match r2 with
                              | "" => Some ("", i, Some i, hd, tl)
                              | _ => parseIPv6Loop fuel r2 i (Some i) hd tl
                              end
                    end
                  else parseIPv6Loop fuel r1 i ell hd tl
              end
          end
      end
  end.

Definition parseIPv6 (s : string) : option Addr :=
  let zs := match cut s "%" with
            | Some (_, "") => None
            | Some (a, z) => Some (a, z)
            | None => Some (s, "")
            end in
  '(s, zone) ← zs;
  let '(ell, s) := match s with
                   | String ":" (String ":" r) => (Some 0, r)
                   | _ => (None, s)
                   end in
  if (match ell with Some _ => true | None => false end) && String.eqb s "" then Some (Addr6 0 zone)
  else
  '(rest, i, ell, hd, tl) ← parseIPv6Loop 8 s 0 ell 0 0;
  if negb (String.eqb rest "") then None
  else if i <? 16 then
    e ← ell; Some (Addr6 (hd * 2 ^ (8 * (16 - e)) + tl) zone)
  else match ell with Some _ => None | None => Some (Addr6 hd zone) end.

(** [ParseAddr] looks for the first of [.], [:] and [%]. *)
Fixpoint first_mark (s : string) : option ascii :=
  match s with
  | "" => None
  | String c r =>
      if Ascii.eqb c "." || Ascii.eqb c ":" || Ascii.eqb c "%" then Some c else first_mark r
  end.

Definition ParseAddr_opt (s : string) : option Addr :=
  match first_mark s with
  | Some "."%char => Addr4 <$> parseIPv4 s
  | Some ":"%char => parseIPv6 s
  | _ => None
  end.

Definition ParsePrefix_opt (s : string) : option Prefix :=
  '(a, b) ← cut_last s "/";
  ip ← ParseAddr_opt a;
  if Is6 ip && negb (String.eqb (Zone ip) "") then None
  else
  let bad := match b with
             | String c (String _ _) => negb ((49 <=? byte_of c) && (byte_of c <=? 57))
             | _ => false
             end in
  if bad then None
  else let '(bits, ok) := Atoi b in
  if negb ok then None
  else if (bits <? 0) || ((if Is6 ip then 128 else 32) <? bits) then None
  else Some (PrefixFrom ip bits).

Definition ParseAddr (s : string) : result Addr :=
  match ParseAddr_opt s with Some a => Ok a | None => Err (ErrStd "netip.ParseAddr" s) end.
Definition ParsePrefix (s : string) : result Prefix :=
  match ParsePrefix_opt s with Some p => Ok p | None => Err (ErrStd "netip.ParsePrefix" s) end.

(** ** IPv4 prefixes as sets of addresses *)

(** A well-formed IPv4 prefix: what [ParsePrefix] and [PrefixFrom] make of a
    32-bit address and a length of at most 32. *)
Definition prefix4 (p : Prefix) : Prop :=
  match p_ip p with
  | Addr4 n => 0 <= n < 2 ^ 32 ∧ 0 <= p_bits p <= 32
  | _ => False
  end.

#[global] Instance prefix4_dec p : Decision (prefix4 p).
Proof. unfold prefix4. destruct (p_ip p); apply _. Defined.

(** The IPv4 address [a] (a 32-bit integer) belongs to [p]. *)
Definition covers (p : Prefix) (a : Z) : bool := Contains p (Addr4 a).

(** [a] belongs to one of the prefixes of [l]. *)
Definition covers_any (l : list Prefix) (a : Z) : bool := existsb (λ p, covers p a) l.

Lemma prefix4_inv p : prefix4 p → ∃ n b, p = PrefixMk (Addr4 n) b ∧ 0 <= n < 2 ^ 32 ∧ 0 <= b <= 32.
Proof. destruct p as [[|n|] b]; unfold prefix4; simpl; naive_solver. Qed.

Lemma pow2_pos k : 0 <= k → 0 < 2 ^ k.
Proof. intros. apply Z.pow_pos_nonneg; lia. Qed.

Create HintDb zpow.
#[export] Hint Resolve pow2_pos : zpow.

Lemma pow32_split b : 0 <= b <= 32 → 2 ^ 32 = 2 ^ b * 2 ^ (32 - b).
Proof. intros. rewrite <-Z.pow_add_r by lia. f_equal. lia. Qed.

(** Masking keeps the [b] high bits of a 32-bit integer. *)
Lemma land_mask n b :
  0 <= n < 2 ^ 32 → 0 <= b <= 32 → Z.land n (mask 32 b) = n / 2 ^ (32 - b) * 2 ^ (32 - b).
Proof.
  intros Hn Hb. rewrite <-Z.shiftr_div_pow2, <-Z.shiftl_mul_pow2 by lia.
  assert (mask 32 b = Z.shiftl (Z.ones b) (32 - b)) as ->.
  { unfold mask. rewrite Z.shiftl_mul_pow2, Z.ones_equiv by lia.
    rewrite (pow32_split b) by lia. lia. }
  apply Z.bits_inj'. intros i Hi.
  rewrite Z.land_spec, !Z.shiftl_spec by lia.
  destruct (Z.ltb_spec i (32 - b)).
  { rewrite !(Z.testbit_neg_r _ (i - (32 - b))) by lia. by rewrite andb_false_r. }
  rewrite Z.shiftr_spec by lia. replace (i - (32 - b) + (32 - b)) with i by lia.
  destruct (Z.ltb_spec i 32).
  - rewrite Z.ones_spec_low by lia. apply andb_true_r.
  - assert (Z.testbit n i = false) as ->; [|done].
    apply Z.bits_above_log2; [lia|]. destruct (Z.eq_dec n 0) as [->|]; [simpl; lia|].
    apply Z.log2_lt_pow2; [lia|]. apply (Z.lt_le_trans _ (2 ^ 32)); [lia|].
    apply Z.pow_le_mono_r; lia.
Qed.

Lemma Masked4 n b :
  0 <= n < 2 ^ 32 → 0 <= b <= 32 →
  Masked (PrefixMk (Addr4 n) b) = PrefixMk (Addr4 (n / 2 ^ (32 - b) * 2 ^ (32 - b))) b.
Proof.
  intros Hn Hb. unfold Masked; simpl. rewrite land_mask by done.
  replace ((b <? 0) || (32 <? b)) with false by lia.
  unfold PrefixFrom; simpl. by replace ((0 <=? b) && (b <=? 32)) with true by lia.
Qed.

Lemma PrefixFrom4 n b : 0 <= b <= 32 → PrefixFrom (Addr4 n) b = PrefixMk (Addr4 n) b.
Proof. intros. unfold PrefixFrom; simpl. by replace ((0 <=? b) && (b <=? 32)) with true by lia. Qed.

(** [Contains] is the equality of the leading bits. *)
Lemma covers4 n b a :
  0 <= n < 2 ^ 32 → 0 <= b <= 32 → 0 <= a < 2 ^ 32 →
  covers (PrefixMk (Addr4 n) b) a = true ↔ a / 2 ^ (32 - b) = n / 2 ^ (32 - b).
Proof.
  intros Hn Hb Ha. unfold covers, Contains, prefix_valid; simpl.
  replace (0 <=? b) with true by lia. simpl.
  rewrite Z.eqb_eq, Z.shiftr_lxor, Z.lxor_eq_0_iff, !Z.shiftr_div_pow2 by lia. done.
Qed.

(** The first and last addresses of a block of size [s]. *)
Lemma div_block n s a : 0 < s → a / s = n / s ↔ n / s * s <= a < n / s * s + s.
Proof.
  intros Hs. pose proof (Z.div_mod a s). pose proof (Z.mod_pos_bound a s Hs). split; [nia|].
  intros H1. symmetry. apply (Z.div_unique_pos _ _ _ (a - n / s * s)); lia.
Qed.

Lemma prefix4_Masked p : prefix4 p → prefix4 (Masked p).
Proof.
  intros (n & b & -> & Hn & Hb)%prefix4_inv. rewrite Masked4 by done. unfold prefix4; simpl.
  assert (0 < 2 ^ (32 - b)) as Hs by (apply pow2_pos; lia).
  pose proof (Z.mul_div_le n _ Hs). pose proof (Z.div_pos n _ ltac:(lia) Hs). nia.
Qed.

Lemma covers_Masked p a : prefix4 p → 0 <= a < 2 ^ 32 → covers (Masked p) a = covers p a.
Proof.
  intros Hp Ha. pose proof (prefix4_Masked p Hp) as Hm.
  destruct (prefix4_inv p Hp) as (n & b & -> & Hn & Hb). rewrite Masked4 in * by done.
  unfold prefix4 in Hm; simpl in Hm. apply eq_true_iff_eq. rewrite !covers4 by lia.
  by rewrite Z.div_mul by (pose proof (pow2_pos (32 - b)); lia).
Qed.

(** ** Printing and reading back *)

Lemma octet_range n i : 0 <= octet n i < 256.
Proof.
  unfold octet. change 255 with (Z.ones 8). rewrite Z.land_ones by lia.
  apply Z.mod_pos_bound. lia.
Qed.

(** The four octets determine the address. *)
Lemma octets_value n :
  0 <= n < 2 ^ 32 →
  ((octet n 0 * 256 + octet n 1) * 256 + octet n 2) * 256 + octet n 3 = n.
Proof.
  intros Hn. unfold octet. change 255 with (Z.ones 8). rewrite !Z.land_ones by lia.
  rewrite !Z.shiftr_div_pow2 by lia.
  change (2 ^ (8 * (3 - 0))) with (256 * 256 * 256). change (2 ^ (8 * (3 - 1))) with (256 * 256).
  change (2 ^ (8 * (3 - 2))) with 256. change (2 ^ (8 * (3 - 3))) with 1. change (2 ^ 8) with 256.
  rewrite <-!Z.div_div, Z.div_1_r by lia.
  pose proof (Z.div_mod n 256). pose proof (Z.div_mod (n / 256) 256).
  pose proof (Z.div_mod (n / 256 / 256) 256).
  assert (n / 256 / 256 / 256 < 256) by (repeat (apply Z.div_lt_upper_bound; [lia|]); lia).
  assert (0 <= n / 256 / 256 / 256) by (repeat (apply Z.div_pos; [|lia]); lia).
  rewrite (Z.mod_small (n / 256 / 256 / 256)) by lia. lia.
Qed.

(** A decimal octet is its one to three digits, with no leading zero. *)
Lemma itoa_octet o :
  0 <= o < 256 →
  (o < 10 ∧ itoa o = String (digit_char o) "") ∨
  (10 <= o < 100 ∧ itoa o = String (digit_char (o / 10)) (String (digit_char (o mod 10)) "")) ∨
  (100 <= o ∧ itoa o = String (digit_char (o / 100))
                         (String (digit_char (o / 10 mod 10)) (String (digit_char (o mod 10)) ""))).
Proof.
  intros Ho. rewrite itoa_nonneg by lia. unfold fmt_uint.
  destruct (decide (o < 10)).
  { left. split; [done|]. cbn [fmt_digits]. rewrite (proj2 (Z.ltb_lt _ _)) by lia.
    by rewrite Z.mod_small by lia. }
  assert (3 <= Z.log2 o) as Hl by (apply Z.log2_le_pow2; lia).
  destruct (Z.to_nat (Z.log2 o)) as [|[|[|f]]] eqn:Ef; try lia. right.
  pose proof (Z.div_mod o 10). pose proof (Z.mod_pos_bound o 10).
  pose proof (Z.div_mod (o / 10) 10). pose proof (Z.mod_pos_bound (o / 10) 10).
  cbn [fmt_digits]. rewrite (proj2 (Z.ltb_ge o _)) by lia. destruct (decide (o < 100)).
  - left. split; [lia|]. rewrite (proj2 (Z.ltb_lt (o / 10) _)) by lia.
    by rewrite (Z.mod_small (o / 10)) by lia.
  - right. split; [lia|]. rewrite (proj2 (Z.ltb_ge (o / 10) _)) by lia.
    rewrite (proj2 (Z.ltb_lt (o / 10 / 10) _)) by lia.
    rewrite !Zdiv.Zdiv_Zdiv by lia. change (10 * 10) with 100.
    rewrite (Z.mod_small (o / 100)); [done|].
    Z.to_euclidean_division_equations. lia.
Qed.

Lemma byte_of_digit_char d : 0 <= d < 10 → byte_of (digit_char d) = 48 + d.
Proof. intros. unfold digit_char. rewrite (proj2 (Z.ltb_lt _ _)), byte_of_char_of by lia. done. Qed.

Lemma is_digit_char d : 0 <= d < 10 → is_digit (digit_char d) = true.
Proof. intros. unfold is_digit. rewrite byte_of_digit_char by done. lia. Qed.

(** One digit of the octet loop. *)
Lemma parseIPv4Fields_digit d r prev val dig pos acc :
  0 <= d < 10 → (dig = 1 → val ≠ 0) → val * 10 + d < 256 →
  parseIPv4Fields (String (digit_char d) r) prev val dig pos acc =
  parseIPv4Fields r false (val * 10 + d) (dig + 1) pos acc.
Proof.
  intros Hd Hz Hv. cbn [parseIPv4Fields]. rewrite is_digit_char, byte_of_digit_char by done.
  replace ((dig =? 1) && (val =? 0)) with false by lia.
  replace (val * 10 + (48 + d - 48)) with (val * 10 + d) by lia.
  by rewrite (proj2 (Z.ltb_ge _ _)) by lia.
Qed.

(** A whole octet. *)
Lemma parseIPv4Fields_octet o r prev pos acc :
  0 <= o < 256 →
  ∃ dig, parseIPv4Fields (itoa o +:+ r) prev 0 0 pos acc = parseIPv4Fields r false o dig pos acc.
Proof.
  intros Ho.
  pose proof (Z.div_mod o 10 ltac:(lia)). pose proof (Z.mod_pos_bound o 10 ltac:(lia)).
  pose proof (Z.div_mod (o / 10) 10 ltac:(lia)). pose proof (Z.mod_pos_bound (o / 10) 10 ltac:(lia)).
  assert (o / 10 / 10 = o / 100) as E by (by rewrite Z.div_div by lia). rewrite E in *.
  destruct (itoa_octet o Ho) as [[? ->]|[[? ->]|[? ->]]]; simpl String.append.
  - exists 1. by rewrite parseIPv4Fields_digit by lia.
  - exists 2. rewrite !parseIPv4Fields_digit by lia. f_equal. lia.
  - exists 3. rewrite !parseIPv4Fields_digit by lia. f_equal. lia.
Qed.

Lemma parseIPv4Fields_dot r val dig pos acc :
  r ≠ "" → pos < 3 →
  parseIPv4Fields (String "." r) false val dig pos acc = parseIPv4Fields r true 0 0 (pos + 1) (acc * 256 + val).
Proof.
  intros Hr Hp. cbn [parseIPv4Fields]. change (is_digit ".") with false. cbn.
  destruct r; [done|]. bcase; [lia|done].
Qed.

Lemma itoa_app_nonempty m s : itoa m +:+ s ≠ "".
Proof.
  unfold itoa. destruct (m <? 0); [done|].
  by destruct (fmt_uint 10 m) eqn:E; [apply fmt_uint_nonempty in E|].
Qed.

(** An octet, its dot and the rest. *)
Lemma parseIPv4Fields_octet_dot o r prev pos acc :
  0 <= o < 256 → r ≠ "" → pos < 3 →
  parseIPv4Fields (itoa o +:+ "." +:+ r) prev 0 0 pos acc = parseIPv4Fields r true 0 0 (pos + 1) (acc * 256 + o).
Proof.
  intros Ho Hr Hp. change ("." +:+ r) with (String "." r).
  destruct (parseIPv4Fields_octet o (String "." r) prev pos acc Ho) as [dig ->].
  by apply parseIPv4Fields_dot.
Qed.

Lemma parseIPv4_string4 n : 0 <= n < 2 ^ 32 → parseIPv4 (string4 n) = Some n.
Proof.
  intros Hn. unfold parseIPv4, string4.
  pose proof (octets_value n Hn) as Hv.
  pose proof (octet_range n 0). pose proof (octet_range n 1).
  pose proof (octet_range n 2). pose proof (octet_range n 3).
  generalize dependent (octet n 3). generalize dependent (octet n 2).
  generalize dependent (octet n 1). generalize dependent (octet n 0). intros o0 ? o1 ? o2 ? o3 Hv ?.
  rewrite !parseIPv4Fields_octet_dot by first [lia | apply itoa_app_nonempty
    | rewrite <-(app_nil_r_str (itoa o3)); apply itoa_app_nonempty].
  destruct (parseIPv4Fields_octet o3 "" true (0 + 1 + 1 + 1)
    (((0 * 256 + o0) * 256 + o1) * 256 + o2) ltac:(lia)) as [d3 Hd].
  rewrite app_nil_r_str in Hd. rewrite Hd. cbn [parseIPv4Fields Z.add Z.ltb Z.compare]. f_equal. lia.
Qed.

(** The characters of printed IPv4 addresses and prefixes. *)
Definition is_cidr_char (c : ascii) : bool :=
  is_num_char c || Ascii.eqb c "." || Ascii.eqb c "/".

Lemma num_chars_cidr s : string_forall is_num_char s = true → string_forall is_cidr_char s = true.
Proof. apply string_forall_impl. intros c Hc. unfold is_cidr_char. by rewrite Hc. Qed.

Lemma octet_chars n i : string_forall is_num_char (itoa (octet n i)) = true.
Proof. apply itoa_chars. apply octet_range. Qed.

Lemma string4_no_slash n : no_char "/" (string4 n) = true.
Proof.
  unfold string4, no_char.
  pose proof (octet_chars n 0) as H0. pose proof (octet_chars n 1) as H1.
  pose proof (octet_chars n 2) as H2. pose proof (octet_chars n 3) as H3.
  apply (num_chars_no_char "/") in H0, H1, H2, H3; try done. unfold no_char in *.
  rewrite !string_forall_app, H0, H1, H2, H3. done.
Qed.

Lemma string4_chars n : string_forall is_cidr_char (string4 n) = true.
Proof.
  assert (∀ i, string_forall is_cidr_char (itoa (octet n i)) = true) as H
    by (intros i; apply num_chars_cidr, octet_chars).
  unfold string4. by rewrite !string_forall_app, !H.
Qed.

Lemma prefix_string4 n b :
  0 <= b <= 32 → prefix_string (PrefixMk (Addr4 n) b) = string4 n +:+ String "/" (itoa b).
Proof.
  intros Hb. unfold prefix_string, prefix_valid. cbn [p_bits p_ip addr_string].
  rewrite (Zle_imp_le_bool 0 b) by lia. reflexivity.
Qed.

Lemma prefix_string_chars p : prefix4 p → string_forall is_cidr_char (prefix_string p) = true.
Proof.
  intros (n & b & -> & Hn & Hb)%prefix4_inv. rewrite prefix_string4 by done.
  rewrite string_forall_app, string4_chars. cbn [string_forall].
  rewrite num_chars_cidr by (apply itoa_chars; lia). done.
Qed.

Lemma cidr_chars_visible s : string_forall is_cidr_char s = true → visible s = true.
Proof.
  apply string_forall_impl. unfold is_cidr_char, is_num_char, is_visible. intros c H.
  apply orb_true_iff in H as [H|H%Ascii.eqb_eq]; [|by subst].
  apply orb_true_iff in H as [H|H%Ascii.eqb_eq]; [lia|by subst].
Qed.

(** A separator that is not part of printed prefixes. *)
Lemma cidr_chars_no_char sep s :
  is_cidr_char sep = false → string_forall is_cidr_char s = true → no_char sep s = true.
Proof.
  intros Hsep. apply string_forall_impl. intros c Hc.
  apply negb_true_iff, Ascii.eqb_neq. congruence.
Qed.

Lemma prefix_string_nonempty p : prefix4 p → prefix_string p ≠ "".
Proof.
  intros (n & b & -> & Hn & Hb)%prefix4_inv. rewrite prefix_string4 by done.
  unfold string4. rewrite app_assoc_str. apply itoa_app_nonempty.
Qed.

Lemma first_mark_num s t : string_forall is_num_char s = true → first_mark (s +:+ t) = first_mark t.
Proof.
  induction s as [|c s IH]; [done|]. cbn [string_forall String.append first_mark].
  intros [Hc Hs]%andb_true_iff.
  pose proof (num_char_not c "." Hc eq_refl). pose proof (num_char_not c ":" Hc eq_refl).
  pose proof (num_char_not c "%" Hc eq_refl). bool_to_prop.
  rewrite !(proj2 (Ascii.eqb_neq _ _)) by done. simpl. by apply IH.
Qed.

Lemma ParseAddr_string4 n : 0 <= n < 2 ^ 32 → ParseAddr_opt (string4 n) = Some (Addr4 n).
Proof.
  intros Hn. unfold ParseAddr_opt.
  assert (first_mark (string4 n) = Some "."%char) as ->
    by (unfold string4; by rewrite first_mark_num by apply octet_chars).
  by rewrite parseIPv4_string4.
Qed.

(** The length of a prefix has no sign and no leading zero. *)
Lemma bits_first_digit b c d r :
  0 <= b < 256 → itoa b = String c (String d r) → (49 <=? byte_of c) && (byte_of c <=? 57) = true.
Proof.
  intros Hb E. destruct (itoa_octet b Hb) as [[? H]|[[? H]|[? H]]]; rewrite H in E; try done;
    injection E as <- _ _; rewrite byte_of_digit_char;
    Z.to_euclidean_division_equations; lia.
Qed.

Lemma ParsePrefix_string p : prefix4 p → ParsePrefix (prefix_string p) = Ok p.
Proof.
  intros (n & b & -> & Hn & Hb)%prefix4_inv. rewrite prefix_string4 by done.
  unfold ParsePrefix, ParsePrefix_opt.
  rewrite cut_last_app by (apply num_chars_no_char; [done | apply itoa_chars; lia]).
  cbn [mbind option_bind]. rewrite ParseAddr_string4 by done. cbn [mbind option_bind Is6 andb].
  assert ((match itoa b with
           | String c (String _ _) => negb ((49 <=? byte_of c) && (byte_of c <=? 57))
           | _ => false end) = false) as ->.
  { destruct (itoa b) as [|c [|d r]] eqn:E; try done. by rewrite (bits_first_digit b c d r) by (done || lia). }
  rewrite Atoi_itoa by lia. cbn [negb].
  replace ((b <? 0) || (32 <? b)) with false by lia. by rewrite PrefixFrom4.
Qed.

Lemma prefix_string_inj p q : prefix4 p → prefix4 q → prefix_string p = prefix_string q → p = q.
Proof.
  intros Hp%ParsePrefix_string Hq%ParsePrefix_string E.
  rewrite E, Hq in Hp. by injection Hp.
Qed.

(** ** What the parsers accept *)

Lemma parseIPv4Fields_range s prev_dot val dig pos acc n :
  0 <= val <= 255 → 0 <= pos <= 3 → 0 <= acc < 256 ^ pos →
  parseIPv4Fields s prev_dot val dig pos acc = Some n → 0 <= n < 2 ^ 32.
Proof.
  revert prev_dot val dig pos acc. induction s as [|c s IH]; intros prev_dot val dig pos acc Hv Hp Ha H; cbn [parseIPv4Fields] in H.
  - destruct (Z.ltb_spec pos 3); [done|]. injection H as <-. replace pos with 3 in Ha by lia.
    change (256 ^ 3) with 16777216 in Ha. change (2 ^ 32) with 4294967296. lia.
  - destruct (is_digit c) eqn:Hd.
    + destruct ((dig =? 1) && (val =? 0)); [done|]. destruct (Z.ltb_spec 255 (val * 10 + (byte_of c - 48))); [done|].
      unfold is_digit in Hd. bool_to_prop. by eapply IH; [| | |exact H]; [lia|..].
    + destruct (Ascii.eqb c "."); [|done]. destruct (prev_dot || _); [done|]. destruct (Z.eqb_spec pos 3); [done|].
      eapply IH; [| | |exact H]; [lia|lia|]. rewrite Z.pow_add_r by lia. change (256 ^ 1) with 256. nia.
Qed.

Lemma parseIPv6_Is6 s a : parseIPv6 s = Some a → Is6 a = true.
Proof.
  unfold parseIPv6. destruct (match cut s "%" with Some _ => _ | None => _ end) as [[s1 zone]|]; cbn [mbind option_bind]; [|done].
  destruct (match s1 with String ":" _ => _ | _ => _ end) as [ell s2].
  destruct (_ && _); [by intros [= <-]|].
  destruct (parseIPv6Loop 8 s2 0 ell 0 0) as [[[[[rest i] ell2] hd] tl]|]; cbn [mbind option_bind]; [|done].
  destruct (negb _); [done|]. destruct (i <? 16); destruct ell2; cbn [mbind option_bind]; try done; by intros [= <-].
Qed.

Lemma ParseAddr_ok s a : ParseAddr s = Ok a → Is6 a = false → ∃ n, a = Addr4 n ∧ 0 <= n < 2 ^ 32.
Proof.
  unfold ParseAddr. destruct (ParseAddr_opt s) as [a'|] eqn:E; [|done]. intros [= ->] H6.
  unfold ParseAddr_opt in E. destruct (first_mark s) as [c|]; [|done].
  assert (∀ s a, parseIPv6 s = Some a → Is6 a = true) as H6'.
  { clear. intros s a. apply parseIPv6_Is6. }
  assert (∀ a, Addr4 <$> parseIPv4 s = Some a → ∃ n, a = Addr4 n ∧ 0 <= n < 2 ^ 32) as H4.
  { intros a0 H. destruct (parseIPv4 s) as [n|] eqn:En; [|done]. cbn in H. injection H as <-. exists n. split; [done|].
    unfold parseIPv4 in En. by eapply parseIPv4Fields_range; [| | |exact En]; [lia|lia|simpl; lia]. }
  destruct c as [[] [] [] [] [] [] [] []]; try discriminate E; first [by apply H4 | apply H6' in E; congruence].
Qed.

Lemma ParsePrefix_ok s p : ParsePrefix s = Ok p → Is6 (p_ip p) = false → prefix4 p.
Proof.
  unfold ParsePrefix. destruct (ParsePrefix_opt s) as [p'|] eqn:E; [|done]. intros [= ->] H6.
  unfold ParsePrefix_opt in E. destruct (cut_last s "/") as [[a b]|]; [|done]. cbn [mbind option_bind] in E.
  destruct (ParseAddr_opt a) as [ip|] eqn:Ea; [|done]. cbn [mbind option_bind] in E.
  destruct (Is6 ip && _); [done|]. destruct (match b with String _ _ => _ | _ => _ end); [done|].
  destruct (Atoi b) as [bits ok]. destruct (negb ok); [done|].
  destruct ((bits <? 0) || _) eqn:Hb; [done|]. injection E as <-.
  assert (Is6 ip = false) as Hip.
  { destruct (Is6 ip) eqn:Hi; [|done]. exfalso. revert H6. unfold PrefixFrom. destruct ip; try done; by destruct (_ && _). }
  assert (ParseAddr a = Ok ip) as Hok by (unfold ParseAddr; by rewrite Ea).
  destruct (ParseAddr_ok a ip Hok Hip) as (n & -> & Hn). bool_to_prop. cbn [Is6] in *.
  rewrite PrefixFrom4 by lia. unfold prefix4. cbn [p_ip p_bits]. lia.
Qed.
