(* ===== verification/Collapse.v ===== *)
(** * [internal/prefixes/collapse.go]: collapsing a list of IPv4 prefixes

    [CollapseIPv4] and its helpers, as the source has them: the in-place
    deduplication over the backing array of [normalized], the quadratic removal
    of covered prefixes, and the stack that merges siblings. A Go panic (an
    IPv6 prefix, [As4] on an invalid address, a negative shift) is [Panic].

    The theorems: on IPv4 input the result covers exactly the same addresses,
    is sorted and disjoint with no mergeable pair, is the shortest list with
    that coverage and the only one of its form: it depends on the coverage
    only. *)

From stdpp Require Import base list strings sorting.
From Stdlib Require Import ZArith Lia.
From S2P Require Import Prelude GoStrings Netip.

(** ** Definitions *)

(** [addr.As4()] read as a big-endian integer. *)
Definition ipv4ToUint32 (addr : Addr) : outcome Z :=
  let of_bytes n :=
    Z.lor (Z.lor (Z.lor (Z.shiftl (octet n 0) 24) (Z.shiftl (octet n 1) 16))
                 (Z.shiftl (octet n 2) 8)) (octet n 3) in
  match addr with
  | Addr4 n => Ret (of_bytes n)
  | Addr6 n _ => if Is4In6 addr then Ret (of_bytes (Z.land n (2 ^ 32 - 1)))
                 else Panic "As4 called on IPv6 address"
  | AddrZero => Panic "As4 called on IP zero value"
  end.

Definition uint32ToIPv4 (n : Z) : Addr :=
  let byte k := Z.land (Z.shiftr n k) 255 in
  Addr4 (byte 24 * 2 ^ 24 + byte 16 * 2 ^ 16 + byte 8 * 2 ^ 8 + byte 0).

(** [uint32(1) << k]: a negative count panics, a large one gives 0. *)
Definition shl1_uint32 (k : Z) : outcome Z :=
  if k <? 0 then Panic "negative shift amount" else Ret (Z.shiftl 1 k mod 2 ^ 32).

Definition ipv4PrefixContains (outer inner : Prefix) : bool :=
  if p_bits inner <? p_bits outer then false
  else bool_decide (Masked (PrefixFrom (p_ip inner) (p_bits outer)) = outer).

(** The parent prefix when [a] and [b] are its exact halves. *)
Definition mergeIPv4Siblings (a b : Prefix) : outcome (option Prefix) :=
  if negb (p_bits a =? p_bits b) || (p_bits a =? 0) then Ret None
  else
  let '(a, b) := if Less (p_ip b) (p_ip a) then (b, a) else (a, b) in
  let parentBits := p_bits a - 1 in
  let parent := Masked (PrefixFrom (p_ip a) parentBits) in
  if negb (bool_decide (Masked (PrefixFrom (p_ip b) parentBits) = parent)) then Ret None
  else
  let left := Masked (PrefixFrom (p_ip parent) (p_bits a)) in
  if negb (bool_decide (a = left)) then Ret None
  else
  half ← shl1_uint32 (32 - p_bits a);
  start ← ipv4ToUint32 (p_ip parent);
  let rightStart := (start + half) mod 2 ^ 32 in
  let right := Masked (PrefixFrom (uint32ToIPv4 rightStart) (p_bits a)) in
  if negb (bool_decide (b = right)) then Ret None else Ret (Some parent).

(** The stack of [mergeSiblingStack], its top first. [settle top rest] is the
    inner loop after [top] has been pushed on [rest]. *)
Fixpoint settle (top : Prefix) (rest : list Prefix) : outcome (list Prefix) :=
  match rest with
  | [] => Ret [top]
  | a :: rest' =>
      m ← mergeIPv4Siblings a top;
      match m with
      | Some parent => settle parent rest'
      | None => Ret (top :: rest)
      end
  end.

Fixpoint mergeLoop (stack prefs : list Prefix) : outcome (list Prefix) :=
  match prefs with
  | [] => Ret stack
  | p :: prefs => stack ← settle p stack; mergeLoop stack prefs
  end.

Definition mergeSiblingStack (prefs : list Prefix) : outcome (list Prefix) :=
  stack ← mergeLoop [] prefs; Ret (reverse stack).

Definition removeCovered_step (out : list Prefix) (p : Prefix) : list Prefix :=
  if existsb (λ k, ipv4PrefixContains k p) out then out else out ++ [p].

Definition removeCoveredIPv4 (prefs : list Prefix) : list Prefix :=
  foldl removeCovered_step [] prefs.

(** The order of [sort.Slice]. *)
Definition prefix_less (ai aj : Prefix) : bool :=
  if bool_decide (p_ip ai = p_ip aj) then p_bits ai <? p_bits aj else Less (p_ip ai) (p_ip aj).

(** The deduplication loop: [deduped] is the first [w] elements of the backing
    array [arr] it shares with [normalized], and element [i] is read from that
    array as the loop reaches it. *)
Definition dedup_step (st : list Prefix * nat) (i : nat) : list Prefix * nat :=
  let '(arr, w) := st in
  match arr !! i with
  | None => st
  | Some p =>
      if (0 <? Z.of_nat w) && bool_decide (arr !! (w - 1)%nat = Some p) then st
      else (<[w := p]> arr, S w)
  end.

Definition dedup (normalized : list Prefix) : list Prefix :=
  let '(arr, w) := foldl dedup_step (normalized, 0%nat) (seq 0 (length normalized)) in
  take w arr.

Definition normalize_one (p : Prefix) : outcome Prefix :=
  if Is4 (p_ip p) then Ret (Masked p)
  else Panic ("prefixes.CollapseIPv4: IPv6 prefix " +:+ prefix_string p +:+ " not supported").

(** A nil or empty slice gives nil. *)
Definition CollapseIPv4 (prefs : list Prefix) : outcome (list Prefix) :=
  match prefs with
  | [] => Ret []
  | _ =>
      normalized ← map_outcome normalize_one prefs;
      let normalized := sort_slice prefix_less normalized in
      let uncovered := removeCoveredIPv4 (dedup normalized) in
      mergeSiblingStack uncovered
  end.

(** ** Canonical blocks

    A masked IPv4 prefix of length [b] is the [i]-th of the [2^b] blocks of
    [2^(32-b)] addresses. *)
Definition size (b : Z) : Z := 2 ^ (32 - b).
Definition blk (b i : Z) : Prefix := PrefixMk (Addr4 (i * size b)) b.
Definition canon (p : Prefix) : Prop := ∃ b i, p = blk b i ∧ 0 <= b <= 32 ∧ 0 <= i < 2 ^ b.

(** The half-open interval of addresses of a prefix. *)
Definition lo (p : Prefix) : Z := addr_int (p_ip p).
Definition hi (p : Prefix) : Z := lo p + size (p_bits p).

(** [p] lies before [q], which is not empty. *)
Definition before (p q : Prefix) : Prop := hi p <= lo q ∧ lo q < hi q.

#[global] Instance before_trans : Transitive before.
Proof. unfold before. intros p q r. lia. Qed.

Lemma size_pos b : 0 <= b <= 32 → 0 < size b.
Proof. intros. unfold size. apply pow2_pos. lia. Qed.

Lemma size_half b : 1 <= b <= 32 → size (b - 1) = 2 * size b.
Proof. intros. unfold size. replace (32 - (b - 1)) with (Z.succ (32 - b)) by lia. apply Z.pow_succ_r. lia. Qed.

Lemma size_total b : 0 <= b <= 32 → 2 ^ 32 = 2 ^ b * size b.
Proof. apply pow32_split. Qed.

Lemma blk_lo b i : lo (blk b i) = i * size b.
Proof. done. Qed.
Lemma blk_hi b i : hi (blk b i) = (i + 1) * size b.
Proof. unfold hi. rewrite blk_lo. simpl. lia. Qed.

Lemma blk_bits b i : p_bits (blk b i) = b.
Proof. done. Qed.
Lemma blk_ip b i : p_ip (blk b i) = Addr4 (i * size b).
Proof. done. Qed.

Lemma blk_range b i : 0 <= b <= 32 → 0 <= i < 2 ^ b → 0 <= i * size b ∧ (i + 1) * size b <= 2 ^ 32.
Proof. intros Hb Hi. pose proof (size_pos b Hb). rewrite (size_total b Hb). nia. Qed.

Lemma canon_blk b i : 0 <= b <= 32 → 0 <= i < 2 ^ b → canon (blk b i).
Proof. intros. by exists b, i. Qed.

Lemma canon_prefix4 p : canon p → prefix4 p.
Proof.
  intros (b & i & -> & Hb & Hi). unfold prefix4; simpl.
  pose proof (blk_range b i Hb Hi). pose proof (size_pos b Hb). lia.
Qed.

Lemma canon_lt p : canon p → lo p < hi p.
Proof. intros (b & i & -> & Hb & Hi). rewrite blk_lo, blk_hi. pose proof (size_pos b Hb). lia. Qed.

Lemma canon_range p : canon p → 0 <= lo p ∧ hi p <= 2 ^ 32.
Proof. intros (b & i & -> & Hb & Hi). rewrite blk_lo, blk_hi. by apply blk_range. Qed.

#[export] Hint Resolve canon_blk canon_prefix4 canon_lt : zpow.

(** A canonical prefix is determined by its first address and its length. *)
Lemma canon_ext p q : canon p → canon q → lo p = lo q → p_bits p = p_bits q → p = q.
Proof.
  intros (b & i & -> & Hb & Hi) (c & j & -> & Hc & Hj). rewrite !blk_lo. simpl. intros E <-.
  pose proof (size_pos b Hb). assert (i = j) as -> by nia. done.
Qed.

Lemma size_le b c : 0 <= b <= c → c <= 32 → ∃ u, 0 < u ∧ size b = u * size c.
Proof.
  intros Hb Hc. exists (2 ^ (c - b)). split; [apply pow2_pos; lia|].
  unfold size. rewrite <-Z.pow_add_r by lia. f_equal. lia.
Qed.

Lemma size_lt b c : 0 <= b < c → c <= 32 → size c < size b.
Proof. intros. unfold size. apply Z.pow_lt_mono_r; lia. Qed.

(** Masking at [c] bits gives the block of that length around the address. *)
Lemma Masked_PrefixFrom n c :
  0 <= n < 2 ^ 32 → 0 <= c <= 32 → Masked (PrefixFrom (Addr4 n) c) = blk c (n / size c).
Proof. intros Hn Hc. rewrite PrefixFrom4, Masked4 by done. done. Qed.

Lemma Masked_canon p : prefix4 p → canon (Masked p).
Proof.
  intros (n & b & -> & Hn & Hb)%prefix4_inv. rewrite Masked4 by done.
  exists b, (n / size b). split; [done|]. split; [done|].
  pose proof (size_pos b Hb). rewrite (size_total b Hb) in Hn.
  split; [apply Z.div_pos; lia | apply Z.div_lt_upper_bound; lia].
Qed.

Lemma canon_Masked p : canon p → Masked p = p.
Proof.
  intros (b & i & -> & Hb & Hi). pose proof (blk_range b i Hb Hi). pose proof (size_pos b Hb).
  unfold blk. rewrite Masked4 by lia. fold (size b). by rewrite Z.div_mul by lia.
Qed.

(** Membership in a canonical prefix is membership in its interval. *)
Lemma canon_covers p a : canon p → 0 <= a < 2 ^ 32 → covers p a = true ↔ lo p <= a < hi p.
Proof.
  intros (b & i & -> & Hb & Hi) Ha. pose proof (blk_range b i Hb Hi). pose proof (size_pos b Hb) as Hs.
  rewrite blk_lo, blk_hi. unfold blk. rewrite covers4 by lia. rewrite div_block by (by apply size_pos).
  fold (size b). rewrite Z.div_mul by lia. lia.
Qed.

(** Two canonical prefixes are nested or disjoint. *)
Lemma canon_nested p q :
  canon p → canon q → p_bits p <= p_bits q → lo p < hi q → lo q < hi p → lo p <= lo q ∧ hi q <= hi p.
Proof.
  intros (b & i & -> & Hb & Hi) (c & j & -> & Hc & Hj). rewrite !blk_lo, !blk_hi. simpl. intros Hbc H1 H2.
  destruct (size_le b c) as (u & Hu & E); [lia..|]. rewrite E in *.
  pose proof (size_pos c Hc). set (s := size c) in *.
  assert (i * u < j + 1) by (apply (Z.mul_lt_mono_pos_r s); lia).
  assert (j < (i + 1) * u) by (apply (Z.mul_lt_mono_pos_r s); lia).
  split; rewrite Z.mul_assoc; apply Z.mul_le_mono_nonneg_r; lia.
Qed.

(** [ipv4PrefixContains] on canonical prefixes is inclusion. *)
Lemma ipv4PrefixContains_spec p q :
  canon p → canon q → ipv4PrefixContains p q = true ↔ lo p <= lo q ∧ hi q <= hi p.
Proof.
  intros Hp Hq. pose proof (canon_range q Hq). pose proof (canon_lt q Hq).
  destruct Hp as (b & i & -> & Hb & Hi), Hq as (c & j & -> & Hc & Hj).
  unfold ipv4PrefixContains. rewrite !blk_lo, !blk_hi in *. simpl.
  pose proof (size_pos b Hb). pose proof (size_pos c Hc).
  destruct (Z.ltb_spec c b).
  - split; [done|]. intros [? ?]. destruct (size_le c b) as (u & Hu & E); [lia..|].
    pose proof (size_lt c b). nia.
  - rewrite Masked_PrefixFrom by lia. rewrite bool_decide_eq_true.
    destruct (size_le b c) as (u & Hu & E); [lia..|]. split.
    + intros E'. assert (j * size c / size b = i) as Hd by (injection E'; nia).
      assert (i = j * size c / size b) as Hi' by (symmetry; exact Hd).
      pose proof (Z.mul_div_le (j * size c) (size b)).
      pose proof (Z.mul_succ_div_gt (j * size c) (size b)). rewrite <-Hi' in *.
      split; [lia|]. rewrite E in *. set (s := size c) in *.
      assert (j < (i + 1) * u) by (apply (Z.mul_lt_mono_pos_r s); lia).
      rewrite Z.mul_assoc. apply Z.mul_le_mono_nonneg_r; lia.
    + intros [? ?]. unfold blk. do 2 f_equal.
      f_equal. symmetry. apply (Z.div_unique_pos _ _ _ (j * size c - i * size b)); nia.
Qed.

(** ** Siblings *)

Lemma lor_shiftl a k b : 0 <= a → 0 <= k → 0 <= b < 2 ^ k → Z.lor (Z.shiftl a k) b = a * 2 ^ k + b.
Proof.
  intros Ha Hk Hb. rewrite <-Z.shiftl_mul_pow2 by lia.
  rewrite Z.add_nocarry_lxor; [rewrite Z.lxor_lor; [done|]|].
  all: apply Z.bits_inj'; intros i Hi; rewrite Z.land_spec, Z.bits_0, Z.shiftl_spec by lia.
  all: destruct (Z.ltb_spec i k);
    [by rewrite (Z.testbit_neg_r _ (i - k)) by lia|].
  all: assert (Z.testbit b i = false) as ->; [|by rewrite andb_false_r].
  all: destruct (Z.eq_dec b 0) as [->|]; [by rewrite Z.bits_0|].
  all: apply Z.bits_above_log2; [lia|]; apply Z.log2_lt_pow2; [lia|].
  all: apply (Z.lt_le_trans _ (2 ^ k)); [lia|]; apply Z.pow_le_mono_r; lia.
Qed.

Lemma ipv4ToUint32_Addr4 n : 0 <= n < 2 ^ 32 → ipv4ToUint32 (Addr4 n) = Ret n.
Proof.
  intros Hn. unfold ipv4ToUint32. f_equal. pose proof (octets_value n Hn) as Hv.
  pose proof (octet_range n 0). pose proof (octet_range n 1).
  pose proof (octet_range n 2). pose proof (octet_range n 3).
  generalize dependent (octet n 3). generalize dependent (octet n 2).
  generalize dependent (octet n 1). generalize dependent (octet n 0). intros o0 ? o1 ? o2 ? o3 Hv ?.
  rewrite (lor_shiftl o0 24) by (rewrite ?Z.shiftl_mul_pow2 by lia; lia).
  replace (o0 * 2 ^ 24 + Z.shiftl o1 16) with (Z.shiftl (o0 * 256 + o1) 16)
    by (rewrite !Z.shiftl_mul_pow2 by lia; lia).
  rewrite (lor_shiftl _ 16) by (rewrite ?Z.shiftl_mul_pow2 by lia; lia).
  replace ((o0 * 256 + o1) * 2 ^ 16 + Z.shiftl o2 8) with (Z.shiftl ((o0 * 256 + o1) * 256 + o2) 8)
    by (rewrite !Z.shiftl_mul_pow2 by lia; lia).
  rewrite lor_shiftl by lia. lia.
Qed.

Lemma uint32ToIPv4_Addr4 n : 0 <= n < 2 ^ 32 → uint32ToIPv4 n = Addr4 n.
Proof.
  intros Hn. unfold uint32ToIPv4. f_equal. pose proof (octets_value n Hn) as Hv. unfold octet in Hv.
  change (8 * (3 - 0)) with 24 in Hv. change (8 * (3 - 1)) with 16 in Hv.
  change (8 * (3 - 2)) with 8 in Hv. change (8 * (3 - 3)) with 0 in Hv. lia.
Qed.

Lemma shl1_uint32_size b : 1 <= b <= 32 → shl1_uint32 (32 - b) = Ret (size b).
Proof.
  intros Hb. unfold shl1_uint32. rewrite (proj2 (Z.ltb_ge _ _)) by lia.
  rewrite Z.shiftl_1_l, Z.mod_small; [done|].
  split; [apply Z.pow_nonneg; lia | apply Z.pow_lt_mono_r; lia].
Qed.

Lemma half_div b i : 1 <= b <= 32 → 0 <= i → i * size b / size (b - 1) = i / 2.
Proof.
  intros Hb Hi. pose proof (size_pos b). rewrite size_half by lia.
  rewrite Z.div_mul_cancel_r by lia. done.
Qed.

Lemma Masked_parent b i :
  1 <= b <= 32 → 0 <= i < 2 ^ b → Masked (PrefixFrom (Addr4 (i * size b)) (b - 1)) = blk (b - 1) (i / 2).
Proof.
  intros Hb Hi. pose proof (blk_range b i). pose proof (size_pos b).
  rewrite Masked_PrefixFrom by lia. by rewrite half_div by lia.
Qed.

Lemma pow2_half b : 1 <= b → 2 ^ b = 2 * 2 ^ (b - 1).
Proof. intros. replace b with (Z.succ (b - 1)) at 1 by lia. apply Z.pow_succ_r. lia. Qed.

Lemma blk_parent_lo b i : 1 <= b <= 32 → i / 2 * size (b - 1) = 2 * (i / 2) * size b.
Proof. intros. rewrite size_half by lia. lia. Qed.

Lemma blk_inj b i j : 0 <= b <= 32 → blk b i = blk b j → i = j.
Proof. intros Hb E. injection E as E. pose proof (size_pos b Hb). nia. Qed.

(** The two halves of block [m] of length [b - 1] are the blocks [2m] and
    [2m + 1] of length [b]; only they merge, in either order. *)
Lemma merge_blk_ordered b i j :
  1 <= b <= 32 → 0 <= i < 2 ^ b → 0 <= j < 2 ^ b → i <= j →
  mergeIPv4Siblings (blk b i) (blk b j) =
  Ret (if (j =? i + 1) && Z.even i then Some (blk (b - 1) (i / 2)) else None).
Proof.
  intros Hb Hi Hj Hij. unfold mergeIPv4Siblings.
  pose proof (size_pos b ltac:(lia)) as Hs. pose proof (blk_range b i ltac:(lia) Hi).
  pose proof (blk_range b j ltac:(lia) Hj).
  rewrite !blk_bits, !blk_ip, Z.eqb_refl, (proj2 (Z.eqb_neq b 0)) by lia. cbn [negb orb].
  assert (Less (Addr4 (j * size b)) (Addr4 (i * size b)) = false) as ->.
  { unfold Less; simpl. rewrite (proj2 (Z.ltb_ge _ _)) by nia. simpl. apply andb_false_r. }
  rewrite !blk_bits, !blk_ip, !Masked_parent by lia.
  destruct (bool_decide (blk (b - 1) (j / 2) = blk (b - 1) (i / 2))) eqn:E1; cbn [negb].
  2:{ apply bool_decide_eq_false in E1. destruct (Z.eqb_spec j (i + 1)) as [->|]; [|done].
      destruct (Z.even i) eqn:Ev; [|done]. destruct E1. apply Z.even_spec in Ev as [k ->].
      f_equal. Z.to_euclidean_division_equations; lia. }
  apply bool_decide_eq_true, blk_inj in E1; [|lia].
  rewrite blk_ip, blk_parent_lo by lia.
  pose proof (Z.div_mod i 2 ltac:(lia)). pose proof (Z.mod_pos_bound i 2 ltac:(lia)).
  pose proof (Z.div_mod j 2 ltac:(lia)). pose proof (Z.mod_pos_bound j 2 ltac:(lia)).
  pose proof (Zmod_even i) as Hev.
  assert (2 * (i / 2) + 2 <= 2 ^ b) by (rewrite (pow2_half b) in * by lia; lia).
  pose proof (blk_range b (2 * (i / 2)) ltac:(lia) ltac:(lia)).
  pose proof (blk_range b (2 * (i / 2) + 1) ltac:(lia) ltac:(lia)).
  rewrite Masked_PrefixFrom by lia. rewrite Z.div_mul by lia.
  change (PrefixMk (Addr4 (i * size b)) b) with (blk b i).
  change (PrefixMk (Addr4 (j * size b)) b) with (blk b j).
  destruct (bool_decide (blk b i = blk b (2 * (i / 2)))) eqn:E2; cbn [negb].
  2:{ apply bool_decide_eq_false in E2. destruct (Z.even i); [|by rewrite andb_false_r].
      destruct E2. f_equal. lia. }
  apply bool_decide_eq_true, blk_inj in E2; [|lia].
  destruct (Z.even i); [|lia].
  rewrite shl1_uint32_size, ipv4ToUint32_Addr4 by lia. cbn [mbind outcome_bind].
  rewrite Z.mod_small by lia.
  replace (2 * (i / 2) * size b + size b) with ((2 * (i / 2) + 1) * size b) by lia.
  rewrite uint32ToIPv4_Addr4, Masked_PrefixFrom, Z.div_mul by lia.
  destruct (Z.eqb_spec j (i + 1)).
  - rewrite bool_decide_eq_true_2 by (f_equal; lia). done.
  - rewrite bool_decide_eq_false_2; [done|]. intros E3%blk_inj; lia.
Qed.

(** [a] and [b] are the two halves of a canonical prefix. *)
Definition siblings (a b : Prefix) : Prop :=
  p_bits a = p_bits b ∧ 1 <= p_bits a ∧ hi a = lo b ∧
  ∃ c, canon c ∧ p_bits c = p_bits a - 1 ∧ lo c = lo a.

Lemma siblings_blk b i j :
  0 <= b <= 32 → 0 <= i < 2 ^ b → 0 <= j < 2 ^ b →
  siblings (blk b i) (blk b j) ↔ 1 <= b ∧ j = i + 1 ∧ Z.even i = true.
Proof.
  intros Hb Hi Hj. unfold siblings. rewrite blk_hi, !blk_lo, !blk_bits.
  pose proof (size_pos b Hb). split.
  - intros (_ & H1 & E & c & (b' & k & -> & Hb' & Hk) & Ec & El). rewrite blk_bits in Ec. subst b'.
    rewrite blk_lo, size_half in El by lia. split_and!; [done|nia|].
    assert (i = 2 * k) as -> by nia. by rewrite Z.even_mul.
  - intros (H1 & -> & [k ->]%Z.even_spec). split_and!; [done|done|done|].
    exists (blk (b - 1) k). rewrite blk_bits, blk_lo, size_half by lia.
    rewrite (pow2_half b) in Hi by lia. split_and!; [|lia|lia].
    apply canon_blk; lia.
Qed.

(** [mergeIPv4Siblings] on consecutive canonical prefixes. *)
Lemma merge_before a b :
  canon a → canon b → before a b →
  (mergeIPv4Siblings a b = Ret None ∧ ¬ siblings a b) ∨
  (∃ c, mergeIPv4Siblings a b = Ret (Some c) ∧ canon c ∧ siblings a b ∧ lo c = lo a ∧ hi c = hi b).
Proof.
  intros (b1 & i & -> & Hb1 & Hi) (b2 & j & -> & Hb2 & Hj) [Hbe _].
  destruct (Z.eq_dec b1 b2) as [<-|Hne].
  2:{ left. split; [|intros [? _]; done]. unfold mergeIPv4Siblings.
      rewrite !blk_bits, (proj2 (Z.eqb_neq b1 b2)) by done. done. }
  rewrite blk_hi, blk_lo in Hbe. pose proof (size_pos b1 Hb1).
  destruct (Z.eq_dec b1 0) as [->|]; [change (2 ^ 0) with 1 in *; nia|].
  assert (i <= j) by nia. pose proof (siblings_blk b1 i j Hb1 Hi Hj) as Hsib.
  rewrite merge_blk_ordered by lia.
  destruct (Z.eqb_spec j (i + 1)) as [Ej|]; [|left; split; [done|rewrite Hsib; tauto]].
  destruct (Z.even i) eqn:Ev; [|left; split; [done|rewrite Hsib; naive_solver]].
  right. apply Z.even_spec in Ev as Hk. destruct Hk as [k ->]. replace (2 * k / 2) with k
    by (symmetry; rewrite Z.mul_comm; by apply Z.div_mul).
  rewrite (pow2_half b1) in Hi by lia.
  exists (blk (b1 - 1) k). split_and!; [done|apply canon_blk; lia|apply Hsib; lia|..].
  - rewrite !blk_lo, size_half by lia. lia.
  - rewrite !blk_hi, size_half by lia. lia.
Qed.

(** ** Coverage of lists of canonical prefixes *)

Definition cov (l : list Prefix) (a : Z) : Prop := ∃ p, p ∈ l ∧ lo p <= a < hi p.

Lemma cov_cons p l a : cov (p :: l) a ↔ lo p <= a < hi p ∨ cov l a.
Proof. unfold cov. setoid_rewrite elem_of_cons. naive_solver. Qed.

Lemma cov_nil a : ¬ cov [] a.
Proof. intros (p & Hp & _). by apply elem_of_nil in Hp. Qed.

Lemma cov_app l1 l2 a : cov (l1 ++ l2) a ↔ cov l1 a ∨ cov l2 a.
Proof. unfold cov. setoid_rewrite elem_of_app. naive_solver. Qed.

Lemma cov_perm l1 l2 a : Permutation l1 l2 → cov l1 a ↔ cov l2 a.
Proof. unfold cov. intros E. by setoid_rewrite E. Qed.

(** The coverage in the sense of [Contains]. *)
Lemma covers_any_cov l a : Forall canon l → 0 <= a < 2 ^ 32 → covers_any l a = true ↔ cov l a.
Proof.
  intros Hl Ha. unfold covers_any, cov. rewrite existsb_exists_elem.
  rewrite Forall_forall in Hl. split; intros (p & Hp & H); exists p; split; auto;
    [by apply canon_covers in H; auto | by apply canon_covers; auto].
Qed.

(** ** The merging stack *)

(** What the stack (top first) maintains: canonical prefixes in decreasing
    order, disjoint, no two neighbours being siblings. *)
Definition ordered (st : list Prefix) : Prop := Forall canon st ∧ StronglySorted (flip before) st.
Definition merged (st : list Prefix) : Prop := ordered st ∧ Sorted (λ b a, ¬ siblings a b) st.

Lemma ordered_cons p st : ordered (p :: st) ↔ canon p ∧ Forall (λ q, before q p) st ∧ ordered st.
Proof. unfold ordered. rewrite Forall_cons, StronglySorted_cons. naive_solver. Qed.

Lemma settle_spec rest top :
  ordered (top :: rest) → merged rest →
  ∃ top' rest', settle top rest = Ret (top' :: rest') ∧ merged (top' :: rest') ∧ hi top' = hi top ∧
    ∀ a, cov (top' :: rest') a ↔ cov (top :: rest) a.
Proof.
  revert top. induction rest as [|a rest IH]; intros top Hord Hm; simpl.
  { exists top, []. split_and!; [done|split; [done|by repeat constructor]|done|done]. }
  destruct (proj1 (ordered_cons _ _) Hord) as (Htop & Hbt & Hord').
  destruct (proj1 (ordered_cons _ _) Hord') as (Ha & Hba & Hord'').
  apply Forall_cons in Hbt as [Hat Hbt].
  destruct (merge_before a top Ha Htop Hat) as [[-> Hns]|(c & -> & Hc & (_ & _ & Hadj & _) & Hlo & Hhi)]; simpl.
  - exists top, (a :: rest). split_and!; [done| |done|done].
    split; [done|]. destruct Hm as [_ Hm]. constructor; [done|by constructor].
  - destruct (IH c) as (top' & rest' & -> & Hm' & Ehi & Hcov).
    + rewrite ordered_cons. split_and!; [done| |done].
      eapply Forall_impl; [exact Hba|]. intros q [? ?]. split; rewrite Hlo; [done|].
      apply canon_lt in Hc. lia.
    + destruct Hm as [_ Hm]. split; [done|]. by inversion Hm.
    + exists top', rest'. split_and!; [done|done|congruence|].
      intros x. rewrite Hcov, !cov_cons, Hlo, Hhi.
      pose proof (canon_lt _ Ha). pose proof (canon_lt _ Htop). naive_solver lia.
Qed.

Lemma mergeLoop_spec prefs st :
  merged st → Forall canon prefs → StronglySorted before prefs →
  (∀ q p, q ∈ st → p ∈ prefs → before q p) →
  ∃ st', mergeLoop st prefs = Ret st' ∧ merged st' ∧ ∀ a, cov st' a ↔ cov st a ∨ cov prefs a.
Proof.
  revert st. induction prefs as [|p prefs IH]; intros st Hm Hc Hs Hsep; simpl.
  { exists st. split_and!; [done|done|]. intros a. pose proof (cov_nil a). tauto. }
  apply Forall_cons in Hc as [Hp Hc]. apply StronglySorted_cons in Hs as [Hpb Hs].
  destruct (settle_spec st p) as (top' & rest' & -> & Hm' & Ehi & Hcov); [|done|].
  { rewrite ordered_cons. split_and!; [done| |apply Hm]. apply Forall_forall. intros q Hq. apply Hsep; [done|left]. }
  simpl. destruct (IH (top' :: rest')) as (st' & -> & Hm'' & Hcov'); [done|done|done| |].
  - intros q r Hq Hr. rewrite Forall_forall in Hpb. destruct (Hpb r Hr) as [H1 H2].
    split; [|done]. apply elem_of_cons in Hq as [->|Hq]; [lia|].
    destruct Hm' as [(_ & Hbt & _)%ordered_cons _]. rewrite Forall_forall in Hbt.
    destruct (Hbt q Hq). lia.
  - exists st'. split_and!; [done|done|]. intros a. rewrite Hcov', Hcov, !cov_cons. tauto.
Qed.

(** The result of the merging in the order of addresses. *)
Definition collapsed (l : list Prefix) : Prop :=
  Forall canon l ∧ StronglySorted before l ∧ Sorted (λ a b, ¬ siblings a b) l.

Lemma Sorted_reverse_flip {A} (R : relation A) l : Sorted (flip R) l → Sorted R (reverse l).
Proof. intros H. by apply (Sorted_reverse (flip R)). Qed.

Lemma merged_reverse st : merged st → collapsed (reverse st).
Proof.
  intros [[Hc Hs] Hn]. split_and!.
  - by apply Forall_reverse.
  - apply Sorted_StronglySorted; [apply _|]. apply Sorted_reverse_flip. by apply StronglySorted_Sorted.
  - by apply Sorted_reverse_flip.
Qed.

Lemma mergeSiblingStack_spec l :
  Forall canon l → StronglySorted before l →
  ∃ out, mergeSiblingStack l = Ret out ∧ collapsed out ∧ ∀ a, cov out a ↔ cov l a.
Proof.
  intros Hc Hs. unfold mergeSiblingStack.
  destruct (mergeLoop_spec l []) as (st & -> & Hm & Hcov); try done.
  { split; [split|]; constructor. }
  { intros q p Hq. by apply elem_of_nil in Hq. }
  exists (reverse st). split_and!; [done|by apply merged_reverse|].
  intros a. rewrite (cov_perm _ st) by apply reverse_Permutation.
  rewrite Hcov. pose proof (cov_nil a). tauto.
Qed.

(** ** Sorting, deduplication and the removal of covered prefixes *)

(** The order of the sort on canonical prefixes: by first address, the broader
    prefix first. *)
Definition lexle (p q : Prefix) : Prop := lo p < lo q ∨ (lo p = lo q ∧ p_bits p <= p_bits q).

#[global] Instance lexle_trans : Transitive lexle.
Proof. unfold lexle. intros p q r. lia. Qed.

(** Earlier in the order: covers it or lies before it. *)
Lemma lexle_canon p q : canon p → canon q → lexle p q → (lo p <= lo q ∧ hi q <= hi p) ∨ before p q.
Proof.
  intros Hp Hq Hle. unfold lexle in Hle. pose proof (canon_lt _ Hp). pose proof (canon_lt _ Hq).
  destruct (decide (hi p <= lo q)); [right; by split|left].
  destruct (decide (p_bits p <= p_bits q)).
  - apply (canon_nested p q); auto; lia.
  - destruct (canon_nested q p) as [? ?]; auto; lia.
Qed.

Lemma removeCovered_step_spec out p :
  Forall canon out → canon p → StronglySorted before out → (∀ q, q ∈ out → lexle q p) →
  Forall canon (removeCovered_step out p) ∧ StronglySorted before (removeCovered_step out p) ∧
  ∀ a, cov (removeCovered_step out p) a ↔ cov out a ∨ lo p <= a < hi p.
Proof.
  intros Hout Hp Hs Hle. unfold removeCovered_step. rewrite Forall_forall in Hout.
  destruct (existsb (λ k, ipv4PrefixContains k p) out) eqn:E.
  - split_and!; [by apply Forall_forall|done|]. intros a. split; [tauto|intros [?|?]; [done|]].
    apply existsb_exists_elem in E as (k & Hk & Hc). apply ipv4PrefixContains_spec in Hc; auto.
    exists k. split; [done|lia].
  - split_and!.
    + apply Forall_snoc. split; [by apply Forall_forall|done].
    + apply StronglySorted_app. split_and!; [|done|by repeat constructor].
      intros q r Hq Hr%list_elem_of_singleton. subst r.
      destruct (lexle_canon q p) as [Hin|]; auto.
      assert (ipv4PrefixContains q p = true) as Hc by (apply ipv4PrefixContains_spec; auto).
      assert (existsb (λ k, ipv4PrefixContains k p) out = true) by (apply existsb_exists_elem; eauto).
      congruence.
    + intros a. rewrite cov_app, cov_cons. pose proof (cov_nil a). tauto.
Qed.

Lemma removeCovered_step_elem out p q : q ∈ removeCovered_step out p → q ∈ out ∨ q = p.
Proof.
  unfold removeCovered_step. bcase; [by left|].
  rewrite elem_of_app, list_elem_of_singleton. done.
Qed.

Lemma removeCovered_foldl l out :
  Forall canon out → Forall canon l → StronglySorted before out → StronglySorted lexle l →
  (∀ q p, q ∈ out → p ∈ l → lexle q p) →
  let res := foldl removeCovered_step out l in
  Forall canon res ∧ StronglySorted before res ∧ ∀ a, cov res a ↔ cov out a ∨ cov l a.
Proof.
  revert out. induction l as [|p l IH]; intros out Hout Hl Hs Hsl Hle; simpl.
  { split_and!; [done|done|]. intros a. pose proof (cov_nil a). tauto. }
  apply Forall_cons in Hl as [Hp Hl]. apply StronglySorted_cons in Hsl as [Hpl Hsl].
  destruct (removeCovered_step_spec out p) as (H1 & H2 & H3); [done..| |].
  { intros q Hq. apply Hle; [done|left]. }
  destruct (IH (removeCovered_step out p)) as (H4 & H5 & H6); [done..| |].
  { intros q r Hq Hr. apply removeCovered_step_elem in Hq as [Hq|Hq].
    - apply Hle; [done|by right].
    - rewrite Forall_forall in Hpl. subst. by apply Hpl. }
  split_and!; [done|done|]. intros a. rewrite H6, H3, cov_cons. tauto.
Qed.

Lemma removeCoveredIPv4_spec l :
  Forall canon l → StronglySorted lexle l →
  Forall canon (removeCoveredIPv4 l) ∧ StronglySorted before (removeCoveredIPv4 l) ∧
  ∀ a, cov (removeCoveredIPv4 l) a ↔ cov l a.
Proof.
  intros Hl Hs. destruct (removeCovered_foldl l []) as (H1 & H2 & H3); try done.
  { constructor. }
  { intros q p Hq. by apply elem_of_nil in Hq. }
  split_and!; [done|done|]. intros a. rewrite H3. pose proof (cov_nil a). tauto.
Qed.

(** *** The in-place deduplication *)

(** The same without the array: skip an element equal to the last one kept. *)
Definition dedup_append (out : list Prefix) (p : Prefix) : list Prefix :=
  if bool_decide (last out = Some p) then out else out ++ [p].

Lemma dedup_append_length out p : (length (dedup_append out p) ≤ S (length out))%nat.
Proof. unfold dedup_append. case_bool_decide; [lia|]. rewrite length_app. simpl. lia. Qed.

Lemma last_take_lookup (arr : list Prefix) w :
  (w ≤ length arr)%nat → last (take w arr) = if (0 <? Z.of_nat w) then arr !! (w - 1)%nat else None.
Proof.
  intros Hw. rewrite last_lookup, length_take, Nat.min_l by done. destruct w as [|w]; [done|].
  rewrite (proj2 (Z.ltb_lt _ _)) by lia. rewrite lookup_take_lt by lia. f_equal. lia.
Qed.

(** The invariant of the loop: what is kept is in the first [w] cells, and the
    cells from [i] on, still to be read, are untouched. *)
Lemma dedup_loop l i arr w :
  (w ≤ i)%nat → (i ≤ length l)%nat → length arr = length l → drop i arr = drop i l →
  take w arr = foldl dedup_append [] (take i l) →
  let '(arr', w') := foldl dedup_step (arr, w) (seq i (length l - i)) in
  take w' arr' = foldl dedup_append [] l.
Proof.
  remember (length l - i)%nat as n eqn:En. revert i arr w En.
  induction n as [|n IH]; intros i arr w En Hwi Hil Hlen Hdrop Htake; cbn [seq foldl].
  { assert (i = length l) as -> by lia. by rewrite firstn_all in Htake. }
  assert (arr !! i = l !! i) as Hlook.
  { apply (f_equal (lookup 0%nat)) in Hdrop. by rewrite !lookup_drop, !Nat.add_0_r in Hdrop. }
  destruct (lookup_lt_is_Some_2 l i) as [p Hp]; [lia|].
  unfold dedup_step at 2. rewrite Hlook, Hp.
  assert (take (S i) l = take i l ++ [p]) as Ht by (by apply take_S_r).
  assert (last (take w arr) = if (0 <? Z.of_nat w) then arr !! (w - 1)%nat else None) as Hlast
    by (apply last_take_lookup; lia).
  assert (((0 <? Z.of_nat w) && bool_decide (arr !! (w - 1)%nat = Some p)) =
          bool_decide (last (take w arr) = Some p)) as -> by (rewrite Hlast; by destruct (0 <? Z.of_nat w)).
  assert (drop (S i) arr = drop (S i) l) as Hdrop'
    by (by rewrite <-Nat.add_1_r, <-!drop_drop, Hdrop).
  case_bool_decide as Hd.
  - apply IH; [lia..|done|]. rewrite Ht, foldl_app, <-Htake. simpl.
    unfold dedup_append. by rewrite bool_decide_eq_true_2.
  - apply IH; [lia..|by rewrite length_insert| |].
    + by rewrite drop_insert_lt by lia.
    + rewrite Ht, foldl_app, <-Htake. simpl. unfold dedup_append. rewrite bool_decide_eq_false_2 by done.
      rewrite (take_S_r _ _ p) by (apply list_lookup_insert_eq; lia).
      by rewrite take_insert_ge by lia.
Qed.

Lemma dedup_functional l : dedup l = foldl dedup_append [] l.
Proof.
  unfold dedup. pose proof (dedup_loop l 0 l 0) as H. rewrite Nat.sub_0_r in H.
  destruct (foldl dedup_step (l, 0%nat) (seq 0 (length l))) as [arr w]. apply H; done || lia.
Qed.

Lemma dedup_append_elem out p q : q ∈ dedup_append out p ↔ q ∈ out ∨ q = p.
Proof.
  unfold dedup_append. case_bool_decide as E.
  - split; [by left|intros [?| ->]; [done|]]. apply last_Some in E as [l ->]. apply elem_of_app. right. by left.
  - rewrite elem_of_app, list_elem_of_singleton. done.
Qed.

Lemma dedup_foldl_spec (R : relation Prefix) l out :
  StronglySorted R out → StronglySorted R l → (∀ q p, q ∈ out → p ∈ l → R q p) →
  StronglySorted R (foldl dedup_append out l) ∧
  ∀ q, q ∈ foldl dedup_append out l ↔ q ∈ out ∨ q ∈ l.
Proof.
  revert out. induction l as [|p l IH]; intros out Hs Hl HR; simpl.
  { split; [done|]. intros q. pose proof (not_elem_of_nil q). tauto. }
  apply StronglySorted_cons in Hl as [Hpl Hl]. rewrite Forall_forall in Hpl.
  destruct (IH (dedup_append out p)) as [H1 H2]; [|done| |].
  - unfold dedup_append. case_bool_decide; [done|]. apply StronglySorted_app. split_and!; [|done|by repeat constructor].
    intros q r Hq Hr%list_elem_of_singleton. subst r. apply HR; [done|left].
  - intros q r Hq Hr. apply dedup_append_elem in Hq as [Hq| ->]; [apply HR; [done|by right]|by apply Hpl].
  - split; [done|]. intros q. rewrite H2, dedup_append_elem, elem_of_cons. tauto.
Qed.

Lemma dedup_spec (R : relation Prefix) l :
  StronglySorted R l → StronglySorted R (dedup l) ∧ ∀ q, q ∈ dedup l ↔ q ∈ l.
Proof.
  intros Hl. rewrite dedup_functional. destruct (dedup_foldl_spec R l []) as [H1 H2]; [constructor|done| |].
  { intros q p Hq. by apply elem_of_nil in Hq. }
  split; [done|]. intros q. rewrite H2. pose proof (not_elem_of_nil q). tauto.
Qed.

Lemma string_ltb_asym s t : String.ltb s t = true → String.ltb t s = false.
Proof.
  unfold String.ltb. rewrite (String.compare_antisym s t). by destruct (String.compare t s).
Qed.

Lemma Less_asym a b : Less a b = true → Less b a = false.
Proof.
  unfold Less. intros H. destruct (String.ltb (Zone b) (Zone a)) eqn:E; [apply string_ltb_asym in E|];
    destruct (String.ltb (Zone a) (Zone b)); lia.
Qed.

Lemma prefix_less_asym p q : prefix_less p q = true → prefix_less q p = false.
Proof.
  unfold prefix_less. case_bool_decide as E.
  - intros ?. rewrite bool_decide_eq_true_2 by done. lia.
  - intros H. rewrite bool_decide_eq_false_2 by done. by apply Less_asym.
Qed.

Lemma prefix_less_lexle p q : canon p → canon q → prefix_less q p = false → lexle p q.
Proof.
  intros (b & i & -> & _) (c & j & -> & _). unfold prefix_less, lexle, Less, lo. simpl.
  case_bool_decide as E.
  - intros ?. injection E as ->. lia.
  - assert (j * size c ≠ i * size b) by congruence. lia.
Qed.

(** The order of [sort.Slice] is total on canonical prefixes, so any sorting
    algorithm gives the list [CollapseIPv4] works on. *)
Lemma sort_prefixes_unique l l' :
  Forall canon l → Permutation l' l → Sorted (not_less prefix_less) l' → l' = sort_slice prefix_less l.
Proof.
  apply (sort_slice_unique canon lexle); [apply prefix_less_asym|apply prefix_less_lexle|].
  intros p q Hp Hq ??. apply canon_ext; unfold lexle in *; auto; lia.
Qed.

Lemma sort_prefixes_sorted l : Forall canon l → StronglySorted lexle (sort_slice prefix_less l).
Proof.
  intros Hl. apply Sorted_StronglySorted; [apply _|].
  apply (Sorted_impl_Forall canon (not_less prefix_less)); [apply prefix_less_lexle| |].
  - by rewrite sort_slice_perm.
  - apply sort_slice_Sorted, prefix_less_asym.
Qed.

(** ** The result of the collapse *)

Lemma CollapseIPv4_cov prefs :
  Forall prefix4 prefs →
  ∃ out, CollapseIPv4 prefs = Ret out ∧ collapsed out ∧ ∀ a, cov out a ↔ cov (Masked <$> prefs) a.
Proof.
  intros Hp. destruct prefs as [|p0 prefs0] eqn:E0.
  { exists []. split_and!; [done|split_and!; constructor|done]. }
  rewrite <-E0 in *. clear E0. unfold CollapseIPv4.
  assert (map_outcome normalize_one prefs = Ret (Masked <$> prefs)) as ->.
  { apply map_outcome_Ret. eapply Forall_impl; [exact Hp|]. intros p (n & b & -> & _)%prefix4_inv. done. }
  set (norm := Masked <$> prefs).
  assert (Forall canon norm) as Hc.
  { apply Forall_fmap. eapply Forall_impl; [exact Hp|]. apply Masked_canon. }
  pose proof (sort_prefixes_sorted norm Hc) as Hs. apply dedup_spec in Hs as [Hs Hmem].
  assert (∀ q, q ∈ dedup (sort_slice prefix_less norm) ↔ q ∈ norm) as Hmem'
    by (intros q; by rewrite Hmem, sort_slice_perm).
  destruct (removeCoveredIPv4_spec (dedup (sort_slice prefix_less norm))) as (H1 & H2 & H3); [|done|].
  { rewrite Forall_forall in *. intros q Hq. by apply Hc, Hmem'. }
  destruct (mergeSiblingStack_spec _ H1 H2) as (out & Hout & Hcol & Hcov).
  assert ((match prefs with [] => Ret [] | _ => (Ret norm ≫= λ normalized,
    mergeSiblingStack (removeCoveredIPv4 (dedup (sort_slice prefix_less normalized)))) end) =
    (if decide (prefs = []) then Ret [] else Ret out)) as E.
  { destruct prefs; [done|]. simpl. by rewrite Hout. }
  rewrite E. destruct (decide (prefs = [])) as [->|].
  { exists []. split_and!; [done|split_and!; constructor|done]. }
  exists out. split_and!; [done|done|]. intros a. rewrite Hcov, H3. unfold cov. by setoid_rewrite Hmem'.
Qed.

(** The masked prefixes cover the same addresses as the prefixes given. *)
Lemma covers_any_masked prefs a :
  Forall prefix4 prefs → 0 <= a < 2 ^ 32 → cov (Masked <$> prefs) a ↔ covers_any prefs a = true.
Proof.
  intros Hp Ha. rewrite <-covers_any_cov;
    [|apply Forall_fmap; eapply Forall_impl; [exact Hp|apply Masked_canon]|done].
  unfold covers_any. rewrite !existsb_exists_elem. rewrite Forall_forall in Hp. split.
  - intros (q & (p & -> & Hq)%list_elem_of_fmap & H). exists p. rewrite covers_Masked in H by auto. done.
  - intros (p & Hq & H). exists (Masked p). rewrite covers_Masked by auto.
    split; [by apply list_elem_of_fmap_2|done].
Qed.

(** ** Maximal blocks: minimality and uniqueness *)

Definition includes (p q : Prefix) : bool := (lo p <=? lo q) && (hi q <=? hi p).

Lemma includes_spec p q : includes p q = true ↔ lo p <= lo q ∧ hi q <= hi p.
Proof. unfold includes. lia. Qed.

Lemma includes_bits p q : canon p → canon q → includes p q = true → p_bits p <= p_bits q.
Proof.
  intros Hp Hq [H1 H2]%includes_spec. destruct (decide (p_bits p <= p_bits q)); [done|].
  destruct Hp as (b & i & -> & Hb & _), Hq as (c & j & -> & Hc & _). unfold hi in *. rewrite !blk_bits in *.
  pose proof (size_lt c b). lia.
Qed.

Lemma includes_eq p q : canon p → canon q → includes p q = true → p_bits q <= p_bits p → p = q.
Proof.
  intros Hp Hq Hi Hb. pose proof (includes_bits p q Hp Hq Hi). apply includes_spec in Hi.
  assert (p_bits p = p_bits q) as E by lia. unfold hi in Hi. rewrite E in Hi.
  apply canon_ext; auto; lia.
Qed.

Lemma collapsed_canon l p : collapsed l → p ∈ l → canon p.
Proof. intros (Hc & _) Hp. rewrite Forall_forall in Hc. auto. Qed.

(** Two members that share an address are the same. *)
Lemma collapsed_disjoint l p q a :
  collapsed l → p ∈ l → q ∈ l → lo p <= a < hi p → lo q <= a < hi q → p = q.
Proof.
  intros (_ & Hs & _) Hp Hq Hap Haq. apply list_elem_of_split in Hp as (l1 & l2 & ->).
  apply StronglySorted_app in Hs as (H1 & _ & [H2 _]%StronglySorted_cons). rewrite Forall_forall in H2.
  apply elem_of_app in Hq as [Hq|[->|Hq]%elem_of_cons]; [|done|].
  - destruct (H1 q p) as [? _]; [done|left|lia].
  - destruct (H2 q Hq). lia.
Qed.

Lemma collapsed_no_siblings l a b : collapsed l → a ∈ l → b ∈ l → ¬ siblings a b.
Proof.
  intros Hl Ha Hb Hsib. pose proof (collapsed_canon l a Hl Ha) as Hca%canon_lt.
  pose proof (collapsed_canon l b Hl Hb) as Hcb%canon_lt.
  pose proof Hsib as (_ & _ & Hadj & _). destruct Hl as (_ & Hs & Hn).
  apply list_elem_of_split in Ha as (l1 & l2 & ->).
  apply StronglySorted_app in Hs as (H1 & _ & [H2 Hs2]%StronglySorted_cons). rewrite Forall_forall in H2.
  apply elem_of_app in Hb as [Hb|[->|Hb]%elem_of_cons].
  - destruct (H1 b a) as [? Hlt]; [done|left|]. lia.
  - lia.
  - destruct l2 as [|c l3]; [by apply elem_of_nil in Hb|].
    apply elem_of_cons in Hb as [->|Hb].
    + apply Sorted_app_r in Hn. inversion Hn as [|? ? _ Hhd]; subst. by inversion Hhd.
    + destruct (H2 c) as [? ?]; [left|]. apply StronglySorted_cons in Hs2 as [Hc _].
      rewrite Forall_forall in Hc. destruct (Hc b Hb). lia.
Qed.

Lemma blk_children b i :
  0 <= b < 32 → 0 <= i < 2 ^ b →
  canon (blk (b + 1) (2 * i)) ∧ canon (blk (b + 1) (2 * i + 1)) ∧
  siblings (blk (b + 1) (2 * i)) (blk (b + 1) (2 * i + 1)) ∧
  lo (blk (b + 1) (2 * i)) = lo (blk b i) ∧ hi (blk (b + 1) (2 * i + 1)) = hi (blk b i) ∧
  hi (blk (b + 1) (2 * i)) = lo (blk (b + 1) (2 * i + 1)).
Proof.
  intros Hb Hi. pose proof (pow2_half (b + 1) ltac:(lia)) as H2. pose proof (size_half (b + 1) ltac:(lia)) as Hs.
  replace (b + 1 - 1) with b in * by lia. rewrite !blk_lo, !blk_hi, Hs.
  split_and!; [apply canon_blk; lia..| |lia|lia|lia].
  apply siblings_blk; [lia..|]. rewrite Z.even_mul. split_and!; [lia|done|done].
Qed.

(** A block all of whose addresses are covered lies in one member. *)
Lemma collapsed_maximal l P :
  collapsed l → canon P → (∀ a, lo P <= a < hi P → cov l a) → ∃ p, p ∈ l ∧ includes p P = true.
Proof.
  intros Hl. remember (Z.to_nat (32 - p_bits P)) as n eqn:En. revert P En.
  induction n as [n IH] using lt_wf_ind. intros P En HP Hcov.
  assert (∀ p Q, p ∈ l → canon Q → includes p Q = true → lo P <= lo Q → hi Q <= hi P →
    p_bits p <= p_bits P → includes p P = true) as Hup.
  { intros p Q Hp HQ Hi HQ1 HQ2 Hb. apply includes_spec in Hi. apply includes_spec.
    apply canon_nested; [by eapply collapsed_canon|done|done| |];
      pose proof (canon_lt Q HQ); lia. }
  destruct HP as (b & i & -> & Hb & Hi). rewrite blk_bits in *.
  destruct (Hcov (lo (blk b i))) as (p & Hp & Hap).
  { split; [lia|apply canon_lt; auto with zpow]. }
  destruct (decide (p_bits p <= b)) as [Hpb|Hpb].
  { exists p. split; [done|]. apply includes_spec.
    apply canon_nested; [by eapply collapsed_canon|by apply canon_blk|done| |lia].
    pose proof (canon_lt _ (canon_blk b i Hb Hi)). lia. }
  assert (p_bits p <= 32) by (destruct (collapsed_canon l p Hl Hp) as (? & ? & -> & ? & ?); rewrite blk_bits; lia).
  destruct (blk_children b i) as (Hc0 & Hc1 & Hsib & El & Eh & Em); [lia..|].
  pose proof (canon_lt _ Hc0). pose proof (canon_lt _ Hc1).
  destruct (IH (Z.to_nat (32 - (b + 1))) ltac:(lia) (blk (b + 1) (2 * i))) as (p0 & Hp0 & Hi0); [done|done| |].
  { intros a Ha. apply Hcov. lia. }
  destruct (IH (Z.to_nat (32 - (b + 1))) ltac:(lia) (blk (b + 1) (2 * i + 1))) as (p1 & Hp1 & Hi1); [done|done| |].
  { intros a Ha. apply Hcov. lia. }
  destruct (decide (p_bits p0 <= b)); [exists p0; split; [done|]; apply (Hup p0 _ Hp0 Hc0 Hi0); lia|].
  destruct (decide (p_bits p1 <= b)); [exists p1; split; [done|]; apply (Hup p1 _ Hp1 Hc1 Hi1); lia|].
  apply includes_eq in Hi0, Hi1; try (by eapply collapsed_canon); try done; [|rewrite blk_bits; lia..].
  exfalso. subst p0 p1. by apply (collapsed_no_siblings l _ _ Hl Hp0 Hp1).
Qed.

(** A block covered by two collapsed lists: the member of the one is included
    in a member of the other. *)
Lemma collapsed_included l1 l2 p :
  collapsed l1 → collapsed l2 → (∀ a, cov l1 a → cov l2 a) → p ∈ l1 →
  ∃ q, q ∈ l2 ∧ includes q p = true.
Proof.
  intros H1 H2 Hcov Hp. apply collapsed_maximal; [done|by apply (collapsed_canon l1)|].
  intros a Ha. apply Hcov. by exists p.
Qed.

Lemma collapsed_members l1 l2 p :
  collapsed l1 → collapsed l2 → (∀ a, cov l1 a ↔ cov l2 a) → p ∈ l1 → p ∈ l2.
Proof.
  intros H1 H2 Hcov Hp. pose proof (collapsed_canon _ _ H1 Hp) as Hcp.
  destruct (collapsed_included l1 l2 p) as (q & Hq & Hqp); [done|done|apply Hcov|done|].
  destruct (collapsed_included l2 l1 q) as (r & Hr & Hrq); [done|done|apply Hcov|done|].
  pose proof (collapsed_canon _ _ H2 Hq) as Hcq. pose proof (canon_lt p Hcp).
  apply includes_spec in Hqp as Hqp', Hrq as Hrq'.
  assert (p = r) as <- by (apply (collapsed_disjoint l1 p r (lo p)); auto; lia).
  assert (p = q) as <-; [|done]. apply includes_eq; auto. by apply includes_bits.
Qed.

Lemma collapsed_NoDup l : collapsed l → NoDup l.
Proof.
  intros (_ & Hs & _). induction Hs as [|p l Hs IH Hp]; constructor; [|done].
  intros Hin. rewrite Forall_forall in Hp. destruct (Hp p Hin). lia.
Qed.

(** The collapsed list depends on the coverage only. *)
Lemma collapsed_unique l1 l2 :
  collapsed l1 → collapsed l2 → (∀ a, cov l1 a ↔ cov l2 a) → l1 = l2.
Proof.
  intros H1 H2 Hcov. apply (StronglySorted_unique_strong before).
  - intros x y Hx Hy [? ?] [? ?].
    pose proof (canon_lt x (collapsed_canon _ _ H1 Hx)). lia.
  - apply H1.
  - apply H2.
  - apply NoDup_Permutation; [by apply collapsed_NoDup..|]. intros p.
    split; [by apply collapsed_members|]. apply collapsed_members; [done..|]. intros a. by rewrite Hcov.
Qed.

(** It is the shortest: each member contains a prefix of any other list with
    the same coverage, and the members are disjoint. *)
Lemma collapsed_minimal l l' :
  collapsed l → Forall canon l' → (∀ a, cov l a ↔ cov l' a) → (length l ≤ length l')%nat.
Proof.
  intros Hl Hl' Hcov. rewrite Forall_forall in Hl'.
  set (g q := List.find (λ p, includes p q) l).
  rewrite <-(length_fmap Some l), <-(length_fmap g l'). apply submseteq_length, NoDup_submseteq.
  { apply NoDup_fmap_2; [apply _|by apply collapsed_NoDup]. }
  intros o (p & -> & Hp)%list_elem_of_fmap. pose proof (collapsed_canon _ _ Hl Hp) as Hcp.
  pose proof (canon_lt p Hcp).
  destruct (proj1 (Hcov (lo p))) as (q & Hq & Hap). { exists p. split; [done|lia]. }
  destruct (collapsed_maximal l q) as (r & Hr & Hrq); [done|by apply Hl'| |].
  { intros a Ha. apply Hcov. by exists q. }
  apply includes_spec in Hrq as Hrq'.
  assert (p = r) as <- by (apply (collapsed_disjoint l p r (lo p)); auto; lia).
  apply list_elem_of_fmap. exists q. split; [|done]. unfold g.
  destruct (List.find (λ p0, includes p0 q) l) as [r|] eqn:E.
  - apply find_some in E as [Hr' Hrq2%includes_spec]. apply list_elem_of_In in Hr'.
    f_equal. pose proof (canon_lt q (Hl' q Hq)).
    apply (collapsed_disjoint l p r (lo q)); auto; lia.
  - by rewrite (find_none _ _ E p (proj1 (list_elem_of_In _ _) Hp)) in Hrq.
Qed.

(** Two lists of IPv4 prefixes with the same coverage. *)
Definition same_coverage (l1 l2 : list Prefix) : Prop :=
  ∀ a, 0 <= a < 2 ^ 32 → covers_any l1 a = covers_any l2 a.

Lemma CollapseIPv4_total prefs :
  Forall prefix4 prefs →
  ∃ out, CollapseIPv4 prefs = Ret out ∧ collapsed out ∧ Forall prefix4 out ∧ same_coverage out prefs.
Proof.
  intros Hp. destruct (CollapseIPv4_cov prefs Hp) as (out & -> & Hcol & Hcov).
  exists out. split_and!; [done|done| |].
  - destruct Hcol as (Hc & _). eapply Forall_impl; [exact Hc|apply canon_prefix4].
  - intros a Ha. apply eq_true_iff_eq. rewrite <-(covers_any_masked prefs) by done.
    rewrite covers_any_cov by (done || apply Hcol). apply Hcov.
Qed.

(** Coverage of canonical lists only concerns 32-bit addresses. *)
Lemma same_coverage_cov l1 l2 :
  Forall canon l1 → Forall canon l2 → same_coverage l1 l2 → ∀ a, cov l1 a ↔ cov l2 a.
Proof.
  intros H1 H2 Hsame. assert (∀ l a, Forall canon l → cov l a → 0 <= a < 2 ^ 32) as Hr.
  { intros l a Hl (p & Hp & Ha). rewrite Forall_forall in Hl. pose proof (canon_range p (Hl p Hp)). lia. }
  intros a. split; intros Ha.
  - assert (0 <= a < 2 ^ 32) by (by apply (Hr l1)).
    apply covers_any_cov; [done..|]. rewrite <-Hsame by done. by apply covers_any_cov.
  - assert (0 <= a < 2 ^ 32) by (by apply (Hr l2)).
    apply covers_any_cov; [done..|]. rewrite Hsame by done. by apply covers_any_cov.
Qed.

(** ** Properties *)

(** C3. On IPv4 prefixes [CollapseIPv4] returns, without panicking, a list that
    contains exactly the addresses the given prefixes contain. *)
Theorem CollapseIPv4_union prefs :
  Forall prefix4 prefs →
  ∃ out, CollapseIPv4 prefs = Ret out ∧
    ∀ a, 0 <= a < 2 ^ 32 → covers_any out a = covers_any prefs a.
Proof. intros Hp. destruct (CollapseIPv4_total prefs Hp) as (out & H & _ & _ & Hs). eauto. Qed.

(** C17. The result is minimal: no list of IPv4 prefixes with the same addresses
    is shorter. *)
Theorem CollapseIPv4_minimal prefs out other :
  Forall prefix4 prefs → CollapseIPv4 prefs = Ret out →
  Forall prefix4 other → same_coverage other prefs → (length out ≤ length other)%nat.
Proof.
  intros Hp Hout Ho Hsame. destruct (CollapseIPv4_total prefs Hp) as (out' & E & Hcol & H4 & Hs).
  rewrite E in Hout. injection Hout as ->. rewrite <-(length_fmap Masked other).
  assert (Forall canon (Masked <$> other)) as Hc
    by (apply Forall_fmap; eapply Forall_impl; [exact Ho|apply Masked_canon]).
  apply collapsed_minimal; [done|done|]. apply same_coverage_cov; [apply Hcol|done|].
  intros a Ha. rewrite Hs, <-Hsame by done. apply eq_true_iff_eq.
  rewrite <-(covers_any_masked other), covers_any_cov by done. done.
Qed.

(** C18. The result is a canonical form: two lists of IPv4 prefixes collapse to
    the same list exactly when they contain the same addresses (so collapsing
    again changes nothing). *)
Theorem CollapseIPv4_canonical prefs1 prefs2 :
  Forall prefix4 prefs1 → Forall prefix4 prefs2 →
  CollapseIPv4 prefs1 = CollapseIPv4 prefs2 ↔ same_coverage prefs1 prefs2.
Proof.
  intros H1 H2. destruct (CollapseIPv4_total prefs1 H1) as (o1 & -> & Hc1 & _ & Hs1).
  destruct (CollapseIPv4_total prefs2 H2) as (o2 & -> & Hc2 & _ & Hs2). split.
  - intros [= ->] a Ha. by rewrite <-Hs1, Hs2.
  - intros Hs. f_equal. apply collapsed_unique; [done..|].
    apply same_coverage_cov; [apply Hc1|apply Hc2|]. intros a Ha. by rewrite Hs1, Hs2, Hs.
Qed.

(** The result is sorted by address, made of masked IPv4 prefixes, and no
    two of its members are in a containment or can be merged: what the tests
    call maximally collapsed. *)
Theorem CollapseIPv4_maximally_collapsed prefs out i j p q :
  Forall prefix4 prefs → CollapseIPv4 prefs = Ret out →
  (i < j)%nat → out !! i = Some p → out !! j = Some q →
  Masked p = p ∧ Masked q = q ∧ Less (p_ip p) (p_ip q) = true ∧
  ipv4PrefixContains p q = false ∧ ipv4PrefixContains q p = false ∧ mergeIPv4Siblings p q = Ret None.
Proof.
  intros Hp Hout Hij Hi Hj. destruct (CollapseIPv4_total prefs Hp) as (out' & E & Hcol & _ & _).
  rewrite E in Hout. injection Hout as ->.
  pose proof (list_elem_of_lookup_2 _ _ _ Hi) as Hpi. pose proof (list_elem_of_lookup_2 _ _ _ Hj) as Hqj.
  pose proof (collapsed_canon _ _ Hcol Hpi) as Hcp. pose proof (collapsed_canon _ _ Hcol Hqj) as Hcq.
  pose proof (canon_lt p Hcp). pose proof (canon_lt q Hcq).
  assert (before p q) as Hb.
  { destruct Hcol as (_ & Hs & _). rewrite <-(take_drop_middle out i p Hi) in Hs, Hj.
    apply StronglySorted_app in Hs as (_ & _ & [Hs _]%StronglySorted_cons). rewrite Forall_forall in Hs.
    apply Hs. apply list_elem_of_lookup. exists (j - S i)%nat.
    rewrite lookup_app_r in Hj by (rewrite length_take; apply lookup_lt_Some in Hi; lia).
    rewrite length_take, Nat.min_l in Hj by (apply lookup_lt_Some in Hi; lia).
    by replace (j - i)%nat with (S (j - S i)) in Hj by lia. }
  destruct Hb as [Hb ?]. split_and!; [by apply canon_Masked..| | | |].
  - destruct Hcp as (b & k & -> & _), Hcq as (c & m & -> & _). unfold Less, lo, hi in *. simpl in *. lia.
  - apply not_true_iff_false. rewrite ipv4PrefixContains_spec by done. lia.
  - apply not_true_iff_false. rewrite ipv4PrefixContains_spec by done. lia.
  - destruct (merge_before p q Hcp Hcq) as [[? _]|(c & _ & _ & Hsib & _)]; [by split|done|].
    by destruct (collapsed_no_siblings out p q).
Qed.

(** [CollapseIPv4] panics on the first prefix that is not IPv4. *)
Theorem CollapseIPv4_panics l1 p l2 :
  Forall (λ q, Is4 (p_ip q) = true) l1 → Is4 (p_ip p) = false →
  CollapseIPv4 (l1 ++ p :: l2) =
  Panic ("prefixes.CollapseIPv4: IPv6 prefix " +:+ prefix_string p +:+ " not supported").
Proof.
  intros Hl1 Hp. assert (map_outcome normalize_one (l1 ++ p :: l2) =
    Panic ("prefixes.CollapseIPv4: IPv6 prefix " +:+ prefix_string p +:+ " not supported")) as H.
  { induction Hl1 as [|q l1 Hq _ IH]; cbn [app map_outcome].
    - assert (normalize_one p = Panic ("prefixes.CollapseIPv4: IPv6 prefix " +:+ prefix_string p +:+ " not supported"))
        as -> by (unfold normalize_one; by rewrite Hp). done.
    - assert (normalize_one q = Ret (Masked q)) as -> by (unfold normalize_one; by rewrite Hq).
      cbn [mbind outcome_bind]. by rewrite IH. }
  unfold CollapseIPv4. destruct (l1 ++ p :: l2) eqn:E; [by destruct l1|]. by rewrite H.
Qed.

(** ** Witnesses: 10.0.0.1/24, 10.0.0.128/25 and 10.0.1.0/24 *)

Definition ex_prefs : list Prefix :=
  [PrefixMk (Addr4 167772161) 24; PrefixMk (Addr4 167772288) 25; PrefixMk (Addr4 167772416) 24].
Definition ex_collapsed : list Prefix := [PrefixMk (Addr4 167772160) 23].

Lemma ex_prefs_prefix4 : Forall prefix4 ex_prefs.
Proof. apply (bool_decide_unpack _). vm_compute. exact I. Qed.

Lemma ex_collapse : CollapseIPv4 ex_prefs = Ret ex_collapsed.
Proof. vm_compute. reflexivity. Qed.

Lemma CollapseIPv4_union_witness :
  ∃ out, CollapseIPv4 ex_prefs = Ret out ∧
    ∀ a, 0 <= a < 2 ^ 32 → covers_any out a = covers_any ex_prefs a.
Proof. apply (CollapseIPv4_union ex_prefs). exact ex_prefs_prefix4. Defined.

Lemma CollapseIPv4_minimal_witness : (length ex_collapsed ≤ length ex_prefs)%nat.
Proof.
  apply (CollapseIPv4_minimal ex_prefs ex_collapsed ex_prefs);
    [exact ex_prefs_prefix4|exact ex_collapse|exact ex_prefs_prefix4|intros a Ha; reflexivity].
Defined.

Lemma CollapseIPv4_canonical_witness :
  CollapseIPv4 ex_prefs = CollapseIPv4 (ex_prefs ++ ex_prefs) ↔ same_coverage ex_prefs (ex_prefs ++ ex_prefs).
Proof.
  apply (CollapseIPv4_canonical ex_prefs (ex_prefs ++ ex_prefs));
    [exact ex_prefs_prefix4|apply Forall_app; split; exact ex_prefs_prefix4].
Defined.

Definition ex_gap : list Prefix := [PrefixMk (Addr4 167772160) 24; PrefixMk (Addr4 167772672) 24].

Lemma CollapseIPv4_maximally_collapsed_witness :
  mergeIPv4Siblings (PrefixMk (Addr4 167772160) 24) (PrefixMk (Addr4 167772672) 24) = Ret None.
Proof.
  apply (CollapseIPv4_maximally_collapsed ex_gap ex_gap 0 1
           (PrefixMk (Addr4 167772160) 24) (PrefixMk (Addr4 167772672) 24));
    [apply (bool_decide_unpack _); vm_compute; exact I|vm_compute; reflexivity|lia|reflexivity|reflexivity].
Defined.

Lemma CollapseIPv4_panics_witness :
  CollapseIPv4 (ex_collapsed ++ PrefixMk (Addr6 1 "") 128 :: []) =
  Panic ("prefixes.CollapseIPv4: IPv6 prefix " +:+ prefix_string (PrefixMk (Addr6 1 "") 128) +:+ " not supported").
Proof.
  apply (CollapseIPv4_panics ex_collapsed (PrefixMk (Addr6 1 "") 128) []);
    [repeat constructor|reflexivity].
Defined.
