(* ===== verification/Runner.v ===== *)
(** * [internal/linux/runner.go]: running external commands

    The program changes the system only through [linux.Runner]: each call gives
    a command name, a standard input and arguments, and gets back the standard
    output and an error.  A component that takes a [Runner] is a [prog]: a tree
    of calls, each followed by what the code does with the answer.  Both
    [Runner] implementations define [Run] as [RunWithInput] with an empty input,
    so a call without input is a call with the empty one.

    [exec] runs a [prog] against an implementation (an instance of the class
    [Runner]) and gives the result, the final state and the calls made, in
    order.  [sat P Q p] says that, whatever the answers, every call of [p]
    satisfies [P] and its result satisfies [Q]; [sat_exec] transfers it to the
    runs.  [RecordingRunner] and [ExecRunner] are the two implementations. *)

From stdpp Require Import base list strings gmap.
From Stdlib Require Import ZArith Lia.
From S2P Require Import Prelude GoStrings.

(** ** Programs that call a runner *)

Record call := Call { c_name : string; c_stdin : string; c_args : list string }.

#[global] Instance call_eq_dec : EqDecision call.
Proof. solve_decision. Defined.

(** What a call returns: the standard output, and the text of the error. *)
Definition answer : Type := string * option string.

Inductive prog (A : Type) :=
| PRet (a : A)
| PCall (c : call) (k : answer → prog A).
Arguments PRet {_} _.
Arguments PCall {_} _ _.

Fixpoint prog_bind_def {A B} (f : A → prog B) (p : prog A) : prog B :=
  match p with
  | PRet a => f a
  | PCall c k => PCall c (λ r, prog_bind_def f (k r))
  end.

#[global] Instance prog_ret : MRet prog := @PRet.
#[global] Instance prog_bind : MBind prog := @prog_bind_def.

(** [r.RunWithInput(name, stdin, args...)] and [r.Run(name, args...)]. *)
Definition RunWithInput (name stdin : string) (args : list string) : prog answer :=
  PCall (Call name stdin args) PRet.
Definition Run (name : string) (args : list string) : prog answer := RunWithInput name "" args.

(** The same, with the call as a value. *)
Definition run (c : call) : prog answer := RunWithInput (c_name c) (c_stdin c) (c_args c).

(** ** Implementations *)

Class Runner (St : Type) := run_call : call → St → answer * St.

(** The result, the final state and the calls of a run. *)
Fixpoint exec {St} `{Runner St} {A} (p : prog A) (s : St) : A * St * list call :=
  match p with
  | PRet a => (a, s, [])
  | PCall c k =>
      let '(r, s1) := run_call c s in
      let '(a, s2, cs) := exec (k r) s1 in
      (a, s2, c :: cs)
  end.

Lemma exec_ret `{Runner St} {A} (a : A) (s : St) : exec (mret a) s = (a, s, []).
Proof. done. Qed.

Lemma exec_bind `{Runner St} {A B} (p : prog A) (f : A → prog B) (s : St) :
  exec (p ≫= f) s =
  (let '(a, s1, cs1) := exec p s in let '(b, s2, cs2) := exec (f a) s1 in (b, s2, cs1 ++ cs2)).
Proof.
  revert s. induction p as [a|c k IH]; intros s; simpl.
  { change (PRet a ≫= f) with (f a). by destruct (exec (f a) s) as [[??]?]. }
  change (PCall c k ≫= f) with (PCall c (λ r, k r ≫= f)). simpl.
  destruct (run_call c s) as [r s1]. rewrite IH. destruct (exec (k r) s1) as [[a s2] cs].
  by destruct (exec (f a) s2) as [[??]?].
Qed.

Lemma exec_call `{Runner St} name stdin args (s : St) :
  exec (RunWithInput name stdin args) s =
  (let '(r, s1) := run_call (Call name stdin args) s in (r, s1, [Call name stdin args])).
Proof. done. Qed.

Lemma exec_run `{Runner St} {B} c (f : answer → prog B) (s : St) :
  exec (run c ≫= f) s =
  (let '(r, s1) := run_call c s in let '(b, s2, cs) := exec (f r) s1 in (b, s2, c :: cs)).
Proof. by destruct c. Qed.

(** ** What holds of every run *)

Fixpoint sat {A} (P : call → Prop) (Q : A → Prop) (p : prog A) : Prop :=
  match p with
  | PRet a => Q a
  | PCall c k => P c ∧ ∀ r, sat P Q (k r)
  end.

Lemma sat_bind {A B} (P : call → Prop) (Q : A → Prop) (Q' : B → Prop) (p : prog A) (f : A → prog B) :
  sat P Q p → (∀ a, Q a → sat P Q' (f a)) → sat P Q' (p ≫= f).
Proof.
  intros Hp Hf. induction p as [a|c k IH]; [by apply Hf|].
  destruct Hp as [Hc Hk]. split; [done|]. intros r. by apply IH.
Qed.

Lemma sat_impl {A} (P P' : call → Prop) (Q Q' : A → Prop) (p : prog A) :
  (∀ c, P c → P' c) → (∀ a, Q a → Q' a) → sat P Q p → sat P' Q' p.
Proof.
  intros HP HQ. induction p as [a|c k IH]; simpl; [by auto|]. intros [Hc Hk]. split; [auto|]. intros r. auto.
Qed.

Lemma sat_run {A} (P : call → Prop) (Q : A → Prop) c (f : answer → prog A) :
  P c → (∀ r, sat P Q (f r)) → sat P Q (run c ≫= f).
Proof. intros Hc Hf. destruct c. by split. Qed.

Lemma sat_exec `{Runner St} {A} (P : call → Prop) (Q : A → Prop) (p : prog A) (s : St) :
  sat P Q p → let '(a, _, cs) := exec p s in Q a ∧ Forall P cs.
Proof.
  revert s. induction p as [a|c k IH]; intros s; simpl; [done|]. intros [Hc Hk].
  destruct (run_call c s) as [r s1]. specialize (IH r s1 (Hk r)).
  destruct (exec (k r) s1) as [[a s2] cs]. destruct IH. auto.
Qed.

(** What no call changes, the run does not change. *)
Lemma exec_keeps `{Runner St} {A B} (obs : St → B) (P : call → Prop) (Q : A → Prop) (p : prog A) (s : St) :
  sat P Q p → (∀ c s, P c → obs (run_call c s).2 = obs s) → obs (exec p s).1.2 = obs s.
Proof.
  intros Hp Hobs. revert s. induction p as [a|c k IH]; intros s; [done|]. destruct Hp as [Hc Hk]. cbn [exec].
  rewrite <-(Hobs c s Hc). destruct (run_call c s) as [r s1]. cbn [snd]. rewrite <-(IH r (Hk r) s1).
  by destruct (exec (k r) s1) as [[a s2] cs].
Qed.

(** An invariant of the calls is one of the program. *)
Lemma exec_inv `{Runner St} {A} (I : St → Prop) (P : call → Prop) (Q : A → Prop) (p : prog A) (s : St) :
  sat P Q p → (∀ c s, P c → I s → I (run_call c s).2) → I s → I (exec p s).1.2.
Proof.
  intros Hp HI. revert s. induction p as [a|c k IH]; intros s Hs; [done|]. destruct Hp as [Hc Hk]. cbn [exec].
  specialize (HI c s Hc Hs). destruct (run_call c s) as [r s1]. cbn [snd] in HI. specialize (IH r (Hk r) s1 HI).
  by destruct (exec (k r) s1) as [[a s2] cs].
Qed.

(** [sat] goals follow the shape of the code. *)
Ltac sat_step :=
  match goal with
  | |- sat _ _ (PRet _) => simpl
  | |- sat _ _ (mret _) => simpl
  | |- sat _ _ (RunWithInput _ _ _) => split; [|intros [? ?]; simpl]
  | |- sat _ _ (Run _ _) => split; [|intros [? ?]; simpl]
  | |- sat _ _ (Run _ _ ≫= _) => split; [|intros [? ?]; cbn [mbind prog_bind prog_bind_def]]
  | |- sat _ _ (RunWithInput _ _ _ ≫= _) => split; [|intros [? ?]; cbn [mbind prog_bind prog_bind_def]]
  | |- sat _ _ (match ?x with _ => _ end) => destruct x eqn:?
  end.

(** ** [RecordingRunner] *)

Record RecordingRunner := RecordingRunnerMk {
  Calls : list string;
  Outputs : gmap string string;
  Errors : gmap string string;
  FailOn : string;
  CallCount : Z;
  AlreadyApplied : bool;
}.

Definition NewRecordingRunner : RecordingRunner := RecordingRunnerMk [] ∅ ∅ "" 0 false.

Definition key (name : string) (args : list string) : string := name +:+ " " +:+ join args " ".

Definition sampleNftList : string := dquoted
"table inet gotun {
  set ru_nets {
    type ipv4_addr
    flags interval
    elements = { 10.200.0.0/24 }
  }
  chain prerouting {
    type filter hook prerouting priority -150; policy accept;
    meta nfproto ipv6 drop comment 'drop-ipv6'
    ip daddr 10.10.0.0/24 return comment 'exclude-lan'
    ip daddr 10.10.0.2 return comment 'exclude-endpoint'
    ip daddr != @ru_nets meta mark set 0x1 comment 'mark-non-direct'
  }
}".

Definition sampleNftListJSON : string := dquoted
"{'nftables':[
{'metainfo':{'version':'1'}},
{'table':{'family':'inet','name':'gotun'}},
{'set':{'family':'inet','name':'ru_nets','table':'gotun','type':'ipv4_addr','flags':['interval'],'elem':['10.200.0.0/24']}},
{'chain':{'family':'inet','table':'gotun','name':'prerouting','type':'filter','hook':'prerouting','prio':-150,'policy':'accept'}},
{'rule':{'family':'inet','table':'gotun','chain':'prerouting','comment':'drop-ipv6','expr':[]}},
{'rule':{'family':'inet','table':'gotun','chain':'prerouting','comment':'exclude-lan','expr':[{'match':{'op':'==','left':{'payload':{'protocol':'ip','field':'daddr'}},'right':{'prefix':{'addr':'10.10.0.0','len':24}}}}]}},
{'rule':{'family':'inet','table':'gotun','chain':'prerouting','comment':'exclude-endpoint','expr':[{'match':{'op':'==','left':{'payload':{'protocol':'ip','field':'daddr'}},'right':'10.10.0.2'}}]}},
{'rule':{'family':'inet','table':'gotun','chain':'prerouting','comment':'mark-non-direct','expr':[{'mangle':{'key':{'meta':{'key':'mark'}},'value':1}}]}}
]}".

(** The scripted answers of a kernel to which the sample state was applied. *)
Definition already_applied_answer (name : string) (args : list string) : option string :=
  if String.eqb name "nft" && (4 <=? Z.of_nat (length args)) && bool_decide (take 3 args = ["-j"; "list"; "table"])
  then Some sampleNftListJSON
  else if String.eqb name "nft" && (2 <=? Z.of_nat (length args)) && bool_decide (take 1 args = ["list"])
  then Some sampleNftList
  else
  let bash :=
    match args with
    | a0 :: cmd :: _ =>
        String.eqb name "bash" && String.eqb a0 "-c" &&
        (contains cmd "cat /proc/sys/net/ipv4/ip_forward" ||
         contains cmd "cat /proc/sys/net/ipv6/conf/all/disable_ipv6" ||
         contains cmd "cat /proc/sys/net/ipv6/conf/default/disable_ipv6")
    | _ => false
    end in
  let sysctl :=
    match args with
    | a0 :: k :: _ =>
        String.eqb name "sysctl" && String.eqb a0 "-n" &&
        (String.eqb k "net.ipv4.ip_forward" || String.eqb k "net.ipv6.conf.all.disable_ipv6" ||
         String.eqb k "net.ipv6.conf.default.disable_ipv6")
    | _ => false
    end in
  if bash || sysctl then Some "1"
  else if String.eqb name "ip" && bool_decide (take 1 args = ["rule"]) then Some "100: from all fwmark 0x1 lookup 100"
  else if String.eqb name "ip" && bool_decide (take 1 args = ["route"]) then Some "blackhole default metric 100"
  else None.

Definition RecordingRunner_RunWithInput (c : call) (r : RecordingRunner) : answer * RecordingRunner :=
  let name := c_name c in
  let args := c_args c in
  let has_stdin := negb (String.eqb (c_stdin c) "") in
  let key := key name args +:+ (if has_stdin then " <<STDIN>>" else "") in
  let r := RecordingRunnerMk (Calls r ++ key :: (if has_stdin then ["STDIN:" +:+ c_stdin c] else []))
             (Outputs r) (Errors r) (FailOn r) (CallCount r + 1) (AlreadyApplied r) in
  let ans :=
    if negb (String.eqb (FailOn r) "") && contains key (FailOn r) then ("", Some ("injected failure: " +:+ key))
    else match Errors r !! key with
    | Some err => (default "" (Outputs r !! key), Some err)
    | None =>
        match (if AlreadyApplied r then already_applied_answer name args else None) with
        | Some out => (out, None)
        | None => (default "" (Outputs r !! key), None)
        end
    end in
  (ans, r).

#[global] Instance recording_runner : Runner RecordingRunner := RecordingRunner_RunWithInput.

(** ** [ExecRunner]

    [os_run] is the operating system: [exec.Command(name, args...)] run with a
    standard input (none when the text is empty), which gives the standard
    output and error and the text of the error of [cmd.Run]. *)
Section exec_runner.
Context {OS : Type} (os_run : string → string → list string → OS → (string * string * option string) * OS).

Definition ExecRunner_RunWithInput (c : call) (os : OS) : answer * OS :=
  let '(stdout, stderr, err, os) := os_run (c_name c) (c_stdin c) (c_args c) os in
  match err with
  | Some e => ((stdout, Some (c_name c +:+ " " +:+ join (c_args c) " " +:+ ": " +:+ e +:+ ": " +:+ trim_space stderr)), os)
  | None => ((stdout, None), os)
  end.
End exec_runner.
