(* ===== verification/Policy.v ===== *)
(** * [internal/policy]: the policy and its compilation to a desired kernel state

    The records of policy.go and [Compile], [validate] and [routesForTunnel] of
    compile.go.  Go slices are lists (nil and empty slices are one value, which
    the code here does not tell apart), ints are [Z].

    Module [Spec] gives the meaning of the compiled state, as the comments of
    policy.go define it: which packets a chain drops or marks ([NftRuleSpec]),
    and where a marked packet leaves (rules select a table, the usable route of
    lowest metric wins, without one the packet falls through to the main
    table).  The theorems say that this meaning is the policy: exactly the
    packets that are neither direct, nor local, nor for the endpoint are
    marked, marked packets never reach the main table, inbound clients never
    reach the home networks.  [well_typed] is what nft and ip ask of a state
    before they accept it. *)

From stdpp Require Import base list strings.
From Stdlib Require Import ZArith Lia.
From S2P Require Import Prelude GoStrings Netip.

(** ** policy.go *)

Inductive FailMode := FailClosed.

Definition OwnedNftTable : string := "gotun".
Definition OwnedNftFamily : string := "inet".
Definition DefaultMark : Z := 1.
Definition DefaultTableID : Z := 100.
Definition DefaultRulePriority : Z := 100.
Definition DefaultTunnelIface : string := "wg-exit".
Definition DefaultClientsIface : string := "wg-clients".
Definition RuNetsSetName : string := "ru_nets".
Definition HomeNetsSetName : string := "home_nets".
Definition TunnelRouteMetric : Z := 10.
Definition FailClosedRouteMetric : Z := 100.

Record WireGuardPeer := WireGuardPeerMk {
  PublicKey : string;
  Endpoint : string;
  AllowedIPs : list Prefix;
  PersistentKeepalive : Z;
}.

Record WireGuardConfig := WireGuardConfigMk {
  wc_PrivateKey : string;
  wc_ListenPort : Z;
  wc_Address : Prefix;
  wc_Peer : WireGuardPeer;
}.

Record Policy := PolicyMk {
  DirectPrefixes : list Prefix;
  TunnelInterface : string;
  TunnelEndpoint : Addr;
  LANs : list Prefix;
  Mark : Z;
  Table : Z;
  RulePriority : Z;
  FailModeOf : FailMode;
  TunnelUp : bool;
  WireGuard : WireGuardConfig;
  InboundWireGuard : WireGuardConfig;
}.

Record SysctlSpec := SysctlSpecMk { sy_Key : string; sy_Value : string }.

Record NftSetSpec := NftSetSpecMk {
  set_Name : string;
  set_Type : string;
  set_Flags : list string;
  set_Elements : list Prefix;
}.

Record NftRuleSpec := NftRuleSpecMk {
  Description : string;
  ExcludePrefixes : list Prefix;
  ExcludeAddrs : list Addr;
  DirectSet : string;
  rule_Mark : Z;
  DropIPv6 : bool;
  IIfName : string;
  DropDstSet : string;
}.

Record NftChainSpec := NftChainSpecMk {
  ch_Name : string;
  ch_Type : string;
  ch_Hook : string;
  ch_Priority : Z;
  ch_Policy : string;
  ch_Rules : list NftRuleSpec;
}.

Record NftSpec := NftSpecMk {
  Family : string;
  nft_Table : string;
  Sets : list NftSetSpec;
  Chains : list NftChainSpec;
}.

Record IPRuleSpec := IPRuleSpecMk { Priority : Z; ir_Mark : Z; ir_Table : Z }.

Record RouteSpec := RouteSpecMk {
  rt_Table : Z;
  Destination : Prefix;
  Blackhole : bool;
  Device : string;
  Metric : Z;
}.

Record WireGuardSpec := WireGuardSpecMk {
  Interface : string;
  PrivateKey : string;
  ListenPort : Z;
  Address : Prefix;
  Peer : WireGuardPeer;
  Managed : bool;
  Up : bool;
}.

Record DesiredKernelState := DesiredKernelStateMk {
  Sysctls : list SysctlSpec;
  Nft : NftSpec;
  IPRules : list IPRuleSpec;
  Routes : list RouteSpec;
  WireGuardOf : WireGuardSpec;
  WireGuardClients : WireGuardSpec;
}.

(** The zero values. *)
Definition WireGuardPeerZero : WireGuardPeer := WireGuardPeerMk "" "" [] 0.
Definition WireGuardConfigZero : WireGuardConfig := WireGuardConfigMk "" 0 PrefixZero WireGuardPeerZero.

(** ** compile.go *)

Definition validate (p : Policy) : option error :=
  if negb (addr_valid (TunnelEndpoint p)) then
    Some (ErrFmt "policy: TunnelEndpoint is required" [] [])
  else
  match List.find (λ pref, negb (prefix_valid pref) || Is6 (p_ip pref)) (DirectPrefixes p) with
  | Some pref => Some (ErrFmt "policy: invalid or IPv6 DirectPrefix %v" [prefix_string pref] [])
  | None =>
      if negb (String.eqb (wc_PrivateKey (InboundWireGuard p)) "") && bool_decide (LANs p = []) then
        Some (ErrFmt "policy: LANs required when InboundWireGuard is set (home isolation)" [] [])
      else None
  end.

(** [netip.MustParsePrefix("0.0.0.0/0")]. *)
Definition default_dst : Prefix := PrefixMk (Addr4 0) 0.

Definition routesForTunnel (table : Z) (iface : string) (tunnelUp : bool) (mode : FailMode) : list RouteSpec :=
  let bh := RouteSpecMk table default_dst true "" FailClosedRouteMetric in
  if negb tunnelUp then [bh]
  else [RouteSpecMk table default_dst false iface TunnelRouteMetric; bh].

Definition Compile (p : Policy) : result DesiredKernelState :=
  match validate p with
  | Some err => Err err
  | None =>
      let mark := if Mark p =? 0 then DefaultMark else Mark p in
      let table := if Table p =? 0 then DefaultTableID else Table p in
      let prio := if RulePriority p =? 0 then DefaultRulePriority else RulePriority p in
      let iface := if String.eqb (TunnelInterface p) "" then DefaultTunnelIface else TunnelInterface p in
      let clientsIface := DefaultClientsIface in
      let excludes := LANs p in
      let excludeAddrs := if addr_valid (TunnelEndpoint p) then [TunnelEndpoint p] else [] in
      let sets := [NftSetSpecMk RuNetsSetName "ipv4_addr" ["interval"] (DirectPrefixes p)] in
      let chains :=
        [NftChainSpecMk "prerouting" "filter" "prerouting" (-150) "accept"
           [NftRuleSpecMk "drop-ipv6" [] [] "" 0 true "" "";
            NftRuleSpecMk "mark-non-direct" excludes excludeAddrs RuNetsSetName mark false "" ""]] in
      let inboundManaged := negb (String.eqb (wc_PrivateKey (InboundWireGuard p)) "") in
      let sets := if inboundManaged
        then sets ++ [NftSetSpecMk HomeNetsSetName "ipv4_addr" ["interval"] (LANs p)] else sets in
      let chains := if inboundManaged
        then chains ++ [NftChainSpecMk "forward" "filter" "forward" 0 "accept"
                          [NftRuleSpecMk "isolate-inbound-from-home" [] [] "" 0 false clientsIface HomeNetsSetName]]
        else chains in
      Ok (DesiredKernelStateMk
        [SysctlSpecMk "net.ipv4.ip_forward" "1";
         SysctlSpecMk "net.ipv6.conf.all.disable_ipv6" "1";
         SysctlSpecMk "net.ipv6.conf.default.disable_ipv6" "1"]
        (NftSpecMk OwnedNftFamily OwnedNftTable sets chains)
        [IPRuleSpecMk prio mark table]
        (routesForTunnel table iface (TunnelUp p) (FailModeOf p))
        (WireGuardSpecMk iface (wc_PrivateKey (WireGuard p)) (wc_ListenPort (WireGuard p))
           (wc_Address (WireGuard p)) (wc_Peer (WireGuard p))
           (negb (String.eqb (wc_PrivateKey (WireGuard p)) "")) (TunnelUp p))
        (WireGuardSpecMk clientsIface (wc_PrivateKey (InboundWireGuard p)) (wc_ListenPort (InboundWireGuard p))
           (wc_Address (InboundWireGuard p)) (wc_Peer (InboundWireGuard p))
           inboundManaged inboundManaged))
  end.

(** ** The meaning of a compiled state *)

Module Spec.

(** A packet at a netfilter hook: its input interface and destination. *)
Record packet := Packet { iif : string; dst : Addr }.

Inductive verdict :=
| Drop
| Pass (mark : Z).

(** The members of a named set; an address of another family is in no prefix. *)
Definition in_prefixes (l : list Prefix) (a : Addr) : bool := existsb (λ p, Contains p a) l.
Definition in_set (sets : list NftSetSpec) (name : string) (a : Addr) : bool :=
  match List.find (λ s, String.eqb (set_Name s) name) sets with
  | Some s => in_prefixes (set_Elements s) a
  | None => false
  end.

(** One rule, for a packet with a current mark. *)
Definition eval_rule (sets : list NftSetSpec) (r : NftRuleSpec) (pkt : packet) (mark : Z) : verdict :=
  if DropIPv6 r && Is6 (dst pkt) then Drop
  else if negb (String.eqb (DropDstSet r) "") && String.eqb (iif pkt) (IIfName r) && in_set sets (DropDstSet r) (dst pkt)
  then Drop
  else if negb (String.eqb (DirectSet r) "") && negb (in_prefixes (ExcludePrefixes r) (dst pkt)) &&
          negb (existsb (λ a, bool_decide (a = dst pkt)) (ExcludeAddrs r)) && negb (in_set sets (DirectSet r) (dst pkt))
  then Pass (rule_Mark r)
  else Pass mark.

Fixpoint eval_rules (sets : list NftSetSpec) (rs : list NftRuleSpec) (pkt : packet) (mark : Z) : verdict :=
  match rs with
  | [] => Pass mark
  | r :: rs => match eval_rule sets r pkt mark with
               | Drop => Drop
               | Pass mark => eval_rules sets rs pkt mark
               end
  end.

(** The chains attached to a hook, each accepting by default. *)
Definition eval_hook (nft : NftSpec) (hook : string) (pkt : packet) (mark : Z) : verdict :=
  foldl (λ v ch, match v with
                 | Drop => Drop
                 | Pass m => if String.eqb (ch_Hook ch) hook then eval_rules (Sets nft) (ch_Rules ch) pkt m else v
                 end) (Pass mark) (Chains nft).

(** Where a packet with a mark goes. *)
Inductive egress :=
| Via (dev : string)
| Blackholed
| MainTable.

Definition usable (dev_up : string → bool) (r : RouteSpec) : bool := Blackhole r || dev_up (Device r).

(** The usable route of lowest metric of a table. *)
Definition best_route (dev_up : string → bool) (routes : list RouteSpec) (table : Z) : option RouteSpec :=
  foldl (λ best r,
    if (rt_Table r =? table) && usable dev_up r then
      match best with
      | Some b => if Metric r <? Metric b then Some r else best
      | None => Some r
      end
    else best) None routes.

Fixpoint route_packet (dev_up : string → bool) (rules : list IPRuleSpec) (routes : list RouteSpec) (mark : Z) : egress :=
  match rules with
  | [] => MainTable
  | r :: rules =>
      if ir_Mark r =? mark then
        match best_route dev_up routes (ir_Table r) with
        | Some rt => if Blackhole rt then Blackholed else Via (Device rt)
        | None => route_packet dev_up rules routes mark
        end
      else route_packet dev_up rules routes mark
  end.

(** The whole path of an IPv4 packet that the gateway forwards: unmarked when
    it arrives. [None] is a drop. *)
Definition forward_packet (dev_up : string → bool) (st : DesiredKernelState) (pkt : packet) : option egress :=
  match eval_hook (Nft st) "prerouting" pkt 0 with
  | Drop => None
  | Pass m =>
      match eval_hook (Nft st) "forward" pkt m with
      | Drop => None
      | Pass m => Some (route_packet dev_up (IPRules st) (Routes st) m)
      end
  end.

(** What the policy promises for a destination. *)
Definition direct (p : Policy) (a : Addr) : bool :=
  in_prefixes (LANs p) a || bool_decide (TunnelEndpoint p = a) || in_prefixes (DirectPrefixes p) a.

Definition policy_mark (p : Policy) : Z := if Mark p =? 0 then DefaultMark else Mark p.
Definition policy_iface (p : Policy) : string :=
  if String.eqb (TunnelInterface p) "" then DefaultTunnelIface else TunnelInterface p.
Definition inbound (p : Policy) : bool := negb (String.eqb (wc_PrivateKey (InboundWireGuard p)) "").

(** The abstract policy: IPv6 is dropped; an inbound client does not reach the
    home networks; direct destinations use the main table; the rest uses the
    tunnel when it is up and its device is there, and is blackholed otherwise. *)
Definition policy_forward (dev_up : string → bool) (p : Policy) (pkt : packet) : option egress :=
  if Is6 (dst pkt) then None
  else if inbound p && String.eqb (iif pkt) DefaultClientsIface && in_prefixes (LANs p) (dst pkt) then None
  else if direct p (dst pkt) then Some MainTable
  else if TunnelUp p && dev_up (policy_iface p) then Some (Via (policy_iface p))
  else Some Blackholed.

End Spec.

Import Spec.

(** ** Typing

    What nft and ip ask of a state: the members and the right-hand sides have
    the type of the set or of [ip daddr], rules name declared sets, names are
    not declared twice, hooks and policies exist; a mark that is set is looked
    up by an ip rule, and the table of an ip rule ends with a blackhole. *)
Definition ipv4 (p : Prefix) : bool := prefix_valid p && negb (Is6 (p_ip p)).
Definition declared (sets : list NftSetSpec) (name : string) : bool := existsb (λ s, String.eqb (set_Name s) name) sets.
Definition set_typed (s : NftSetSpec) : bool := String.eqb (set_Type s) "ipv4_addr" && forallb ipv4 (set_Elements s).
Definition rule_typed (sets : list NftSetSpec) (r : NftRuleSpec) : bool :=
  forallb ipv4 (ExcludePrefixes r) && forallb Is4 (ExcludeAddrs r) &&
  (String.eqb (DirectSet r) "" || declared sets (DirectSet r)) &&
  (String.eqb (DropDstSet r) "" || declared sets (DropDstSet r) && negb (String.eqb (IIfName r) "")).
Definition chain_typed (sets : list NftSetSpec) (c : NftChainSpec) : bool :=
  String.eqb (ch_Type c) "filter" && bool_decide (ch_Hook c ∈ ["prerouting"; "forward"]) &&
  bool_decide (ch_Policy c ∈ ["accept"; "drop"]) && forallb (rule_typed sets) (ch_Rules c).
Definition nft_typed (n : NftSpec) : bool :=
  bool_decide (NoDup (set_Name <$> Sets n)) && bool_decide (NoDup (ch_Name <$> Chains n)) &&
  forallb set_typed (Sets n) && forallb (chain_typed (Sets n)) (Chains n).
Definition routing_typed (st : DesiredKernelState) : bool :=
  forallb (λ c, forallb (λ r, String.eqb (DirectSet r) "" ||
    negb (rule_Mark r =? 0) && existsb (λ i, ir_Mark i =? rule_Mark r) (IPRules st)) (ch_Rules c)) (Chains (Nft st)) &&
  forallb (λ i, existsb (λ r, (rt_Table r =? ir_Table i) && Blackhole r) (Routes st)) (IPRules st) &&
  forallb (λ r, existsb (λ i, rt_Table r =? ir_Table i) (IPRules st) && (Blackhole r || negb (String.eqb (Device r) ""))) (Routes st).
Definition well_typed (st : DesiredKernelState) : bool := nft_typed (Nft st) && routing_typed st.

(** ** Lemmas *)

Definition policy_valid (p : Policy) : Prop :=
  addr_valid (TunnelEndpoint p) = true ∧
  Forall (λ pref, prefix_valid pref = true ∧ Is6 (p_ip pref) = false) (DirectPrefixes p) ∧
  (wc_PrivateKey (InboundWireGuard p) ≠ "" → LANs p ≠ []).

Lemma find_None_Forall {A} (f : A → bool) l : List.find f l = None ↔ Forall (λ x, f x = false) l.
Proof.
  split.
  - intros H. apply Forall_forall. intros x Hx%list_elem_of_In. by apply (find_none _ _ H).
  - induction 1 as [|x l Hx _ IH]; simpl; [done|]. by rewrite Hx.
Qed.

Lemma validate_None p : validate p = None ↔ policy_valid p.
Proof.
  unfold validate, policy_valid. destruct (addr_valid (TunnelEndpoint p)); simpl; [|naive_solver].
  assert (Forall (λ pref, prefix_valid pref = true ∧ Is6 (p_ip pref) = false) (DirectPrefixes p) ↔
          Forall (λ pref, negb (prefix_valid pref) || Is6 (p_ip pref) = false) (DirectPrefixes p)) as ->.
  { apply Forall_proper; [|done]. intros q. destruct (prefix_valid q), (Is6 (p_ip q)); simpl; naive_solver. }
  rewrite <-find_None_Forall.
  destruct (List.find _ _); [naive_solver|].
  destruct (String.eqb_spec (wc_PrivateKey (InboundWireGuard p)) ""); simpl; [naive_solver|].
  case_bool_decide; naive_solver.
Qed.

Lemma Compile_ok p : policy_valid p → is_ok (Compile p) = true.
Proof. intros Hv%validate_None. unfold Compile. by rewrite Hv. Qed.

Lemma in_set_here name ty fl els sets a :
  in_set (NftSetSpecMk name ty fl els :: sets) name a = in_prefixes els a.
Proof. unfold in_set. simpl. by rewrite String.eqb_refl. Qed.

Lemma best_route_routesForTunnel dev_up table iface up mode :
  best_route dev_up (routesForTunnel table iface up mode) table =
  Some (if up && dev_up iface then RouteSpecMk table default_dst false iface TunnelRouteMetric
        else RouteSpecMk table default_dst true "" FailClosedRouteMetric).
Proof.
  unfold routesForTunnel, best_route. destruct up; simpl; rewrite !Z.eqb_refl; simpl; [|done].
  unfold usable; simpl. by destruct (dev_up iface).
Qed.

Lemma policy_mark_nonzero p : policy_mark p ≠ 0.
Proof. unfold policy_mark, DefaultMark. bcase; lia. Qed.

(** A blackhole of the table keeps a lookup in it from failing. *)
Lemma best_route_blackhole dev_up routes table r :
  r ∈ routes → rt_Table r = table → Blackhole r = true → is_Some (best_route dev_up routes table).
Proof.
  unfold best_route. intros Hr Ht Hb.
  set (step := λ best r, if (rt_Table r =? table) && usable dev_up r then
    match best with Some b => if Metric r <? Metric b then Some r else best | None => Some r end else best).
  assert (∀ l (o : option RouteSpec), is_Some o → is_Some (foldl step o l)) as Hmono.
  { induction l as [|x l IH]; intros o Ho; simpl; [done|]. apply IH. unfold step.
    destruct Ho as [b ->]. by repeat case_match. }
  apply list_elem_of_split in Hr as (l1 & l2 & ->). rewrite foldl_app. simpl. apply Hmono.
  unfold step at 1. rewrite Ht, Z.eqb_refl. unfold usable. rewrite Hb. simpl. by repeat case_match.
Qed.

(** The parts of a compiled state. *)
Definition mark_rule (p : Policy) : NftRuleSpec :=
  NftRuleSpecMk "mark-non-direct" (LANs p) [TunnelEndpoint p] RuNetsSetName (policy_mark p) false "" "".
Definition isolate_rule : NftRuleSpec :=
  NftRuleSpecMk "isolate-inbound-from-home" [] [] "" 0 false DefaultClientsIface HomeNetsSetName.
Definition drop_ipv6_rule : NftRuleSpec := NftRuleSpecMk "drop-ipv6" [] [] "" 0 true "" "".

Definition compiled_sets (p : Policy) : list NftSetSpec :=
  NftSetSpecMk RuNetsSetName "ipv4_addr" ["interval"] (DirectPrefixes p) ::
  (if inbound p then [NftSetSpecMk HomeNetsSetName "ipv4_addr" ["interval"] (LANs p)] else []).
Definition compiled_chains (p : Policy) : list NftChainSpec :=
  NftChainSpecMk "prerouting" "filter" "prerouting" (-150) "accept" [drop_ipv6_rule; mark_rule p] ::
  (if inbound p then [NftChainSpecMk "forward" "filter" "forward" 0 "accept" [isolate_rule]] else []).

Lemma Compile_inv p st :
  Compile p = Ok st →
  policy_valid p ∧
  Nft st = NftSpecMk OwnedNftFamily OwnedNftTable (compiled_sets p) (compiled_chains p) ∧
  (∃ prio table, IPRules st = [IPRuleSpecMk prio (policy_mark p) table] ∧
                 Routes st = routesForTunnel table (policy_iface p) (TunnelUp p) (FailModeOf p)).
Proof.
  unfold Compile. intros H. destruct (validate p) eqn:Hv; [done|].
  apply validate_None in Hv. split; [done|]. destruct Hv as (Hep & _ & _).
  injection H as <-. rewrite Hep. split; [|by do 2 eexists].
  cbn [Nft]. unfold compiled_sets, compiled_chains, inbound. by destruct (negb _).
Qed.

Lemma eval_prerouting p pkt m :
  eval_hook (NftSpecMk OwnedNftFamily OwnedNftTable (compiled_sets p) (compiled_chains p)) "prerouting" pkt m =
  if Is6 (dst pkt) then Drop else Pass (if direct p (dst pkt) then m else policy_mark p).
Proof.
  unfold eval_hook, compiled_chains. cbn [Chains Sets foldl ch_Hook ch_Rules].
  change (("prerouting" =? "prerouting")%string) with true. cbn [eval_rules].
  assert (eval_rule (compiled_sets p) drop_ipv6_rule pkt m = if Is6 (dst pkt) then Drop else Pass m) as ->
    by (unfold eval_rule; simpl; by destruct (Is6 (dst pkt))).
  destruct (Is6 (dst pkt)) eqn:E6; [by destruct (inbound p)|].
  assert (eval_rule (compiled_sets p) (mark_rule p) pkt m =
          Pass (if direct p (dst pkt) then m else policy_mark p)) as ->.
  { unfold eval_rule, direct, mark_rule, compiled_sets. cbn [DropIPv6 DropDstSet DirectSet ExcludePrefixes ExcludeAddrs rule_Mark].
    rewrite in_set_here. simpl. rewrite orb_false_r.
    by destruct (in_prefixes (LANs p) (dst pkt)), (bool_decide (TunnelEndpoint p = dst pkt)),
      (in_prefixes (DirectPrefixes p) (dst pkt)). }
  by destruct (inbound p).
Qed.

Lemma eval_forward p pkt m :
  eval_hook (NftSpecMk OwnedNftFamily OwnedNftTable (compiled_sets p) (compiled_chains p)) "forward" pkt m =
  if inbound p && String.eqb (iif pkt) DefaultClientsIface && in_prefixes (LANs p) (dst pkt) then Drop else Pass m.
Proof.
  unfold eval_hook, compiled_chains, compiled_sets. cbn [Chains Sets foldl ch_Hook ch_Rules].
  change (("prerouting" =? "forward")%string) with false.
  destruct (inbound p); [|done]. cbn [foldl ch_Hook ch_Rules].
  change (("forward" =? "forward")%string) with true. cbn [eval_rules].
  unfold eval_rule, isolate_rule. cbn [DropIPv6 DropDstSet DirectSet IIfName andb].
  change (in_set _ HomeNetsSetName (dst pkt)) with (in_prefixes (LANs p) (dst pkt)).
  simpl. by destruct (_ =? _)%string, (in_prefixes _ _).
Qed.

(** The compiled state and the abstract policy agree on every packet. *)
Lemma forward_packet_policy p st dev_up pkt :
  Compile p = Ok st → forward_packet dev_up st pkt = policy_forward dev_up p pkt.
Proof.
  intros (_ & Hn & prio & table & Hi & Hr)%Compile_inv.
  unfold forward_packet, policy_forward. rewrite Hn, Hi, Hr, eval_prerouting.
  destruct (Is6 (dst pkt)); [done|]. rewrite eval_forward.
  destruct (inbound p && _ && _); [done|]. f_equal. cbn [route_packet ir_Mark ir_Table].
  destruct (direct p (dst pkt)).
  - rewrite (proj2 (Z.eqb_neq _ _)); [done|]. apply policy_mark_nonzero.
  - rewrite Z.eqb_refl, best_route_routesForTunnel. by destruct (TunnelUp p && _).
Qed.

(** ** Properties *)

(** C4. Refinement: the state [Compile] makes of a policy treats every packet
    the gateway forwards as the policy says, whichever devices are there: IPv6
    and inbound-to-home packets are dropped, direct destinations (LANs, the
    endpoint, the direct prefixes) use the main table, and all others the tunnel
    when it is up, else the blackhole. *)
Theorem Compile_refines_policy p st dev_up pkt :
  Compile p = Ok st → forward_packet dev_up st pkt = policy_forward dev_up p pkt.
Proof. apply forward_packet_policy. Qed.

(** C7. Fail closed: when routes of the compiled state disappear, as long as
    the blackhole stays, a marked packet never falls through to the main table,
    whatever the state of the devices. *)
Theorem Compile_fail_closed p st routes dev_up :
  Compile p = Ok st →
  (∀ r, r ∈ Routes st → Blackhole r = true → r ∈ routes) →
  route_packet dev_up (IPRules st) routes (policy_mark p) ≠ MainTable.
Proof.
  intros (_ & _ & prio & table & Hi & Hr)%Compile_inv Hbh. rewrite Hi. cbn [route_packet ir_Mark ir_Table].
  rewrite Z.eqb_refl.
  destruct (best_route_blackhole dev_up routes table (RouteSpecMk table default_dst true "" FailClosedRouteMetric))
    as [r ->]; [|done|done|by destruct (Blackhole r)].
  apply Hbh; [|done]. rewrite Hr. unfold routesForTunnel. destruct (TunnelUp p); simpl; [right; left|left].
Qed.

(** [Compile] succeeds exactly on valid policies: an endpoint is given, the
    direct prefixes are valid IPv4, and an inbound interface comes with LANs to
    isolate. *)
Theorem Compile_succeeds_iff p : (∃ st, Compile p = Ok st) ↔ policy_valid p.
Proof.
  split; [by intros [st (Hv & _)%Compile_inv]|].
  intros Hv%Compile_ok. destruct (Compile p) as [st|]; [by exists st|done].
Qed.

Lemma valid_ipv4 p : policy_valid p → forallb ipv4 (DirectPrefixes p) = true.
Proof.
  intros (_ & Hd & _). apply forallb_forall. intros q Hq%list_elem_of_In. rewrite list.Forall_forall in Hd.
  destruct (Hd q Hq) as [Hv H6]. unfold ipv4. by rewrite Hv, H6.
Qed.

(** C8. What [validate] leaves open: the compiled state is well typed (sets,
    rules, names, marks and tables) exactly when the LANs and the tunnel
    endpoint are IPv4; only the direct prefixes are checked for it. *)
Theorem Compile_well_typed p st :
  Compile p = Ok st → well_typed st = forallb ipv4 (LANs p) && Is4 (TunnelEndpoint p).
Proof.
  intros Hc. destruct (Compile_inv p st Hc) as (Hv & Hn & prio & table & Hi & Hr).
  pose proof (valid_ipv4 p Hv) as Hd. unfold well_typed, routing_typed. rewrite Hi, Hr, Hn.
  assert (nft_typed (NftSpecMk OwnedNftFamily OwnedNftTable (compiled_sets p) (compiled_chains p)) =
    forallb ipv4 (LANs p) && Is4 (TunnelEndpoint p)) as ->.
  { unfold nft_typed, compiled_sets, compiled_chains, set_typed, chain_typed, rule_typed. destruct (inbound p); cbn; rewrite Hd;
      by destruct (forallb ipv4 (LANs p)), (Is4 (TunnelEndpoint p)). }
  transitivity (forallb ipv4 (LANs p) && Is4 (TunnelEndpoint p) && true); [|by rewrite andb_true_r]. f_equal.
  pose proof (policy_mark_nonzero p) as Hm%Z.eqb_neq.
  assert (policy_iface p ≠ "") as Hif%String.eqb_neq by (unfold policy_iface; by destruct (String.eqb_spec (TunnelInterface p) "")).
  unfold compiled_chains, routesForTunnel. destruct (inbound p), (TunnelUp p); cbn; by rewrite Hm, !Z.eqb_refl, ?Hif.
Qed.

(** ** Witnesses *)

Definition ex_policy : Policy :=
  PolicyMk [PrefixMk (Addr4 180879360) 24] "wg-exit" (Addr4 168427522) [PrefixMk (Addr4 168427520) 24]
    1 100 100 FailClosed true WireGuardConfigZero
    (WireGuardConfigMk "CLIENTPRIV" 51821 (PrefixMk (Addr4 174194689) 30) WireGuardPeerZero).

Definition ex_state : DesiredKernelState :=
  match Compile ex_policy with Ok st => st | Err _ => DesiredKernelStateMk [] (NftSpecMk "" "" [] []) [] []
    (WireGuardSpecMk "" "" 0 PrefixZero WireGuardPeerZero false false)
    (WireGuardSpecMk "" "" 0 PrefixZero WireGuardPeerZero false false) end.

Lemma Compile_refines_policy_witness :
  forward_packet (λ _, false) ex_state (Packet "eth0" (Addr4 134744072)) = Some Blackholed.
Proof.
  rewrite (Compile_refines_policy ex_policy ex_state (λ _, false) (Packet "eth0" (Addr4 134744072)) eq_refl).
  vm_compute. reflexivity.
Defined.

Lemma Compile_well_typed_witness :
  well_typed ex_state = forallb ipv4 [PrefixMk (Addr4 168427520) 24] && Is4 (Addr4 168427522).
Proof. exact (Compile_well_typed ex_policy ex_state eq_refl). Defined.

(** A LAN of IPv6 compiles. *)
Definition ex_lan6 : Policy :=
  PolicyMk [] "" (Addr4 168427522) [PrefixMk (Addr6 (2 ^ 120) "") 8] 0 0 0 FailClosed true WireGuardConfigZero WireGuardConfigZero.
Example ex_lan6_ill_typed : match Compile ex_lan6 with Ok st => well_typed st = false | Err _ => False end.
Proof. by vm_compute. Qed.

Lemma Compile_fail_closed_witness :
  route_packet (λ _, true) (IPRules ex_state) [RouteSpecMk 100 default_dst true "" 100] (policy_mark ex_policy) ≠ MainTable.
Proof.
  apply (Compile_fail_closed ex_policy ex_state); [vm_compute; reflexivity|].
  intros r Hr Hb. unfold ex_state in Hr. simpl in Hr.
  apply elem_of_cons in Hr as [->|Hr]; [done|exact Hr].
Defined.
