(* ===== verification/Json.v ===== *)
(** * [encoding/json] as the program uses it

    [parse_json] reads a JSON text as [json.Unmarshal] does before it decodes:
    the lexer cuts the text into tokens, the parser is a push-down machine whose
    stack is the one of Go's scanner (at most [maxNestingDepth] open arrays and
    objects).  Numbers keep their literal, strings are unquoted (escapes,
    surrogate pairs, invalid UTF-8 replaced by U+FFFD).

    The decoders follow [Unmarshal] into the types the program uses: structs
    (field names match exactly, else case-insensitively; unknown members are
    skipped; a repeated member overwrites or merges; [null] changes nothing),
    strings, ints, [[]json.RawMessage] and [map[string]json.RawMessage].  A
    [json.RawMessage] is the value it holds, [None] when it was never set, which
    [Unmarshal] rejects.  Every caller discards the target on an error, so a
    decoder is an option.

    The order in which [range] visits a map is not specified: it is the
    parameter [ord], a permutation of the entries. *)

From stdpp Require Import base list strings gmap option.
From Stdlib Require Import ZArith Lia Ascii.
From S2P Require Import Prelude GoStrings.

Inductive json :=
| JNull
| JBool (b : bool)
| JNum (lit : string)
| JStr (s : string)
| JArr (l : list json)
| JObj (l : list (string * json)).

(** ** Strings *)

Definition hex4 (a b c d : ascii) : option Z :=
  let hex := λ x, match digit_val x with Some v => if v <? 16 then Some v else None | None => None end in
  a ← hex a; b ← hex b; c ← hex c; d ← hex d; Some (a * 4096 + b * 256 + c * 16 + d).

(** The UTF-8 encoding of a code point. *)
Definition utf8 (r : Z) : string :=
  let cont := λ n, char_of (128 + Z.land (Z.shiftr r n) 63) in
  if r <? 128 then String (char_of r) ""
  else if r <? 2048 then String (char_of (192 + Z.shiftr r 6)) (String (cont 0) "")
  else if r <? 65536 then String (char_of (224 + Z.shiftr r 12)) (String (cont 6) (String (cont 0) ""))
  else String (char_of (240 + Z.shiftr r 18)) (String (cont 12) (String (cont 6) (String (cont 0) ""))).

(** [utf8.RuneError]. *)
Definition rune_error : string := utf8 65533.

Definition between (lo hi : Z) (c : ascii) : bool := (lo <=? byte_of c) && (byte_of c <=? hi).

(** The second byte that may follow a first byte of a three- or four-byte sequence. *)
Definition second3 (a b : ascii) : bool :=
  if byte_of a =? 224 then between 160 191 b
  else if byte_of a =? 237 then between 128 159 b
  else between 225 239 a && between 128 191 b.
Definition second4 (a b : ascii) : bool :=
  if byte_of a =? 240 then between 144 191 b
  else if byte_of a =? 244 then between 128 143 b
  else between 241 243 a && between 128 191 b.

Definition backslash : ascii := char_of 92.

(** What may follow a backslash, apart from [u]. *)
Definition simple_escape (c : ascii) : option ascii :=
  if Ascii.eqb c dq || Ascii.eqb c backslash || Ascii.eqb c "/" then Some c
  else if Ascii.eqb c "b" then Some (char_of 8)
  else if Ascii.eqb c "f" then Some (char_of 12)
  else if Ascii.eqb c "n" then Some (char_of 10)
  else if Ascii.eqb c "r" then Some (char_of 13)
  else if Ascii.eqb c "t" then Some tab
  else None.

Definition surrogate (r : Z) : bool := (55296 <=? r) && (r <? 57344).

(** [utf16.DecodeRune]. *)
Definition utf16_decode (r1 r2 : Z) : option Z :=
  if (55296 <=? r1) && (r1 <? 56320) && (56320 <=? r2) && (r2 <? 57344)
  then Some ((r1 - 55296) * 1024 + (r2 - 56320) + 65536) else None.

(** The value of the text between two quotes. *)
Fixpoint unquote (s : string) : option string :=
  match s with
  | EmptyString => Some ""
  | String c s1 =>
      if Ascii.eqb c backslash then
        match s1 with
        | EmptyString => None
        | String e s2 =>
            if Ascii.eqb e "u" then
              match s2 with
              | String h1 (String h2 (String h3 (String h4 s6))) =>
                  match hex4 h1 h2 h3 h4 with
                  | None => None
                  | Some r =>
                      if surrogate r then
                        match s6 with
                        | String b (String u (String g1 (String g2 (String g3 (String g4 s12))))) =>
                            match (if Ascii.eqb b backslash && Ascii.eqb u "u"
                                   then hex4 g1 g2 g3 g4 ≫= utf16_decode r else None) with
                            | Some r => String.append (utf8 r) <$> unquote s12
                            | None => String.append rune_error <$> unquote s6
                            end
                        | _ => String.append rune_error <$> unquote s6
                        end
                      else String.append (utf8 r) <$> unquote s6
                  end
              | _ => None
              end
            else
              match simple_escape e with
              | Some c => String c <$> unquote s2
              | None => None
              end
        end
      else if byte_of c <? 128 then String c <$> unquote s1
      else
        match s1 with
        | String c2 s2 =>
            if between 194 223 c && between 128 191 c2
            then (λ t, String c (String c2 t)) <$> unquote s2
            else
            match s2 with
            | String c3 s3 =>
                if second3 c c2 && between 128 191 c3
                then (λ t, String c (String c2 (String c3 t))) <$> unquote s3
                else
                match s3 with
                | String c4 s4 =>
                    if second4 c c2 && between 128 191 c3 && between 128 191 c4
                    then (λ t, String c (String c2 (String c3 (String c4 t)))) <$> unquote s4
                    else String.append rune_error <$> unquote s1
                | EmptyString => String.append rune_error <$> unquote s1
                end
            | EmptyString => String.append rune_error <$> unquote s1
            end
        | EmptyString => Some rune_error
        end
  end.

(** ** Numbers *)

Fixpoint skip_digits (s : string) : string :=
  match s with
  | String c s' => if is_digit c then skip_digits s' else s
  | EmptyString => s
  end.

(** At least one digit, then the rest. *)
Definition digits1 (s : string) : option string :=
  match s with
  | String c s => if is_digit c then Some (skip_digits s) else None
  | EmptyString => None
  end.

Definition valid_number (s : string) : bool :=
  let s := match s with String c s' => if Ascii.eqb c "-" then s' else s | EmptyString => s end in
  let int :=
    match s with
    | String c s' => if Ascii.eqb c "0" then Some s' else digits1 s
    | EmptyString => None
    end in
  let frac := s ← int;
    match s with
    | String c s' => if Ascii.eqb c "." then digits1 s' else Some s
    | EmptyString => Some s
    end in
  let exp := s ← frac;
    match s with
    | String c s' =>
        if Ascii.eqb c "e" || Ascii.eqb c "E" then
          match s' with
          | String d s'' => if Ascii.eqb d "+" || Ascii.eqb d "-" then digits1 s'' else digits1 s'
          | EmptyString => None
          end
        else Some s
    | EmptyString => Some s
    end in
  match exp with Some s => String.eqb s "" | None => false end.

(** ** Tokens *)

Inductive token :=
| TPunct (c : ascii)
| TVal (v : json).

Definition literal (w : string) : option json :=
  if String.eqb w "null" then Some JNull
  else if String.eqb w "true" then Some (JBool true)
  else if String.eqb w "false" then Some (JBool false)
  else if valid_number w then Some (JNum w) else None.

Definition is_json_space (c : ascii) : bool :=
  Ascii.eqb c " " || Ascii.eqb c tab || Ascii.eqb c (char_of 10) || Ascii.eqb c (char_of 13).
Definition is_json_punct (c : ascii) : bool :=
  Ascii.eqb c "{" || Ascii.eqb c "}" || Ascii.eqb c "[" || Ascii.eqb c "]" || Ascii.eqb c ":" || Ascii.eqb c ",".

(** Outside of a string, with the literal read so far; or inside a string, with
    its text so far and whether the last character is an open backslash. *)
Inductive lex_mode :=
| Word (w : string)
| InStr (raw : string) (esc : bool).

Definition flush (w : string) (ts : option (list token)) : option (list token) :=
  if String.eqb w "" then ts else v ← literal w; ts ← ts; Some (TVal v :: ts).

Fixpoint lex (m : lex_mode) (s : string) : option (list token) :=
  match s, m with
  | EmptyString, Word w => flush w (Some [])
  | EmptyString, InStr _ _ => None
  | String c s, Word w =>
      if is_json_space c then flush w (lex (Word "") s)
      else if is_json_punct c then flush w (ts ← lex (Word "") s; Some (TPunct c :: ts))
      else if Ascii.eqb c dq then flush w (lex (InStr "" false) s)
      else lex (Word (w +:+ String c "")) s
  | String c s, InStr raw true => lex (InStr (raw +:+ String c "") false) s
  | String c s, InStr raw false =>
      if Ascii.eqb c dq then v ← unquote raw; ts ← lex (Word "") s; Some (TVal (JStr v) :: ts)
      else if byte_of c <? 32 then None
      else lex (InStr (raw +:+ String c "") (Ascii.eqb c backslash)) s
  end.

(** ** The parser *)

Inductive frame :=
| FArr (elems : list json)
| FObj (members : list (string * json)) (key : string).

(** What the next token may be: a value (or the end of an empty array), a key
    (or the end of an empty object), a colon, a comma or an end; or nothing. *)
Inductive pstate :=
| PValue (end_ok : bool) (st : list frame)
| PKey (end_ok : bool) (st : list frame)
| PColon (st : list frame)
| PSep (st : list frame)
| PDone (v : json).

Definition maxNestingDepth : Z := 10000.

Definition push (st : list frame) (f : frame) (mk : list frame → pstate) : option pstate :=
  if Z.of_nat (length st) <? maxNestingDepth then Some (mk (f :: st)) else None.

Definition complete (v : json) (st : list frame) : pstate :=
  match st with
  | [] => PDone v
  | FArr elems :: st => PSep (FArr (elems ++ [v]) :: st)
  | FObj members key :: st => PSep (FObj (members ++ [(key, v)]) key :: st)
  end.

Definition pstep (p : pstate) (t : token) : option pstate :=
  match p, t with
  | PValue _ st, TVal v => Some (complete v st)
  | PValue end_ok st, TPunct c =>
      if Ascii.eqb c "[" then push st (FArr []) (PValue true)
      else if Ascii.eqb c "{" then push st (FObj [] "") (PKey true)
      else if Ascii.eqb c "]" && end_ok then
        match st with FArr elems :: st => Some (complete (JArr elems) st) | _ => None end
      else None
  | PKey _ (FObj members _ :: st), TVal (JStr k) => Some (PColon (FObj members k :: st))
  | PKey true (FObj members _ :: st), TPunct c =>
      if Ascii.eqb c "}" then Some (complete (JObj members) st) else None
  | PColon st, TPunct c => if Ascii.eqb c ":" then Some (PValue false st) else None
  | PSep (FArr elems :: st), TPunct c =>
      if Ascii.eqb c "," then Some (PValue false (FArr elems :: st))
      else if Ascii.eqb c "]" then Some (complete (JArr elems) st) else None
  | PSep (FObj members k :: st), TPunct c =>
      if Ascii.eqb c "," then Some (PKey false (FObj members k :: st))
      else if Ascii.eqb c "}" then Some (complete (JObj members) st) else None
  | _, _ => None
  end.

Fixpoint psteps (p : pstate) (ts : list token) : option pstate :=
  match ts with
  | [] => Some p
  | t :: ts => p ← pstep p t; psteps p ts
  end.

Definition parse_json (s : string) : option json :=
  ts ← lex (Word "") s;
  p ← psteps (PValue false []) ts;
  match p with PDone v => Some v | _ => None end.

(** ** Decoding *)

(** [strconv.ParseInt(lit, 10, 64)] of a number literal. *)
Definition lit_int (lit : string) : option Z :=
  match lit with
  | String c s =>
      if Ascii.eqb c "-" then match ParseUint s 10 64 with NumOk n => if n <=? 2 ^ 63 then Some (- n) else None | _ => None end
      else match ParseUint lit 10 64 with NumOk n => if n <? 2 ^ 63 then Some n else None | _ => None end
  | EmptyString => None
  end.

(** Into a [string], an [int], a [uint32], a [*int], with the target's value. *)
Definition into_string (j : json) (old : string) : option string :=
  match j with JStr s => Some s | JNull => Some old | _ => None end.
Definition into_int (j : json) (old : Z) : option Z :=
  match j with JNum lit => lit_int lit | JNull => Some old | _ => None end.
Definition into_uint32 (j : json) (old : Z) : option Z :=
  match j with
  | JNum lit => match ParseUint lit 10 64 with NumOk n => if n <? 2 ^ 32 then Some n else None | _ => None end
  | JNull => Some old
  | _ => None
  end.
Definition into_int_ptr (j : json) (old : option Z) : option (option Z) :=
  match j with JNull => Some None | JNum lit => Some <$> lit_int lit | _ => None end.
(** Into a [[]json.RawMessage] and a [map[string]json.RawMessage]. *)
Definition into_raws (j : json) : option (list json) :=
  match j with JArr l => Some l | JNull => Some [] | _ => None end.
Definition into_raw_map (j : json) : option (gmap string json) :=
  match j with
  | JObj l => Some (foldl (λ m '(k, v), <[k := v]> m) ∅ l)
  | JNull => Some ∅
  | _ => None
  end.

(** Field names are compared in upper case; of the letters outside of ASCII
    only the long s and the Kelvin sign have an ASCII upper case. *)
Fixpoint fold_name (s : string) : string :=
  match s with
  | EmptyString => ""
  | String a s1 =>
      match s1 with
      | String b s2 =>
          if (byte_of a =? 197) && (byte_of b =? 191) then String "S" (fold_name s2)
          else match s2 with
          | String c s3 =>
              if (byte_of a =? 226) && (byte_of b =? 132) && (byte_of c =? 170) then String "K" (fold_name s3)
              else String (upper_char a) (fold_name s1)
          | EmptyString => String (upper_char a) (fold_name s1)
          end
      | EmptyString => String (upper_char a) (fold_name s1)
      end
  end.

Definition match_field (names : list string) (key : string) : option string :=
  match List.find (String.eqb key) names with
  | Some n => Some n
  | None => List.find (λ n, String.eqb (fold_name n) (fold_name key)) names
  end.

(** Into a struct with the given fields, [set] decoding a member into the
    field of that name. *)
Definition into_struct {A} (names : list string) (set : string → json → A → option A) (j : json) (old : A) : option A :=
  match j with
  | JNull => Some old
  | JObj l =>
      foldl (λ acc '(k, v), a ← acc;
        match match_field names k with Some n => set n v a | None => Some a end) (Some old) l
  | _ => None
  end.

(** [json.Unmarshal] of a [json.RawMessage] that may be unset. *)
Definition unmarshal_raw {A} (raw : option json) (into : json → option A) : option A := raw ≫= into.

#[global] Arguments match_field : simpl never.

(** Decoding an object with known keys. *)
Ltac eval_fields :=
  repeat match goal with
  | |- context [match_field ?ns ?k] =>
      let v := eval vm_compute in (match_field ns k) in change (match_field ns k) with v
  end.
Ltac decode_struct :=
  unfold into_struct; cbn [foldl mbind option_bind]; eval_fields;
  repeat (cbn [foldl mbind option_bind into_string into_raws String.eqb Ascii.eqb Bool.eqb fmap option_fmap option_map]; eval_fields).

(** ** Nesting *)

Fixpoint json_depth (j : json) : nat :=
  match j with
  | JArr l => S (foldr (λ j n, Nat.max (json_depth j) n) O l)
  | JObj l => S (foldr (λ kv n, Nat.max (json_depth kv.2) n) O l)
  | _ => O
  end.

Definition jsons_depth (l : list json) : nat := foldr (λ j n, Nat.max (json_depth j) n) O l.

Lemma jsons_depth_le l n : (jsons_depth l ≤ n)%nat ↔ Forall (λ j, (json_depth j ≤ n)%nat) l.
Proof.
  induction l as [|j l IH]; simpl; [split; [constructor|lia]|].
  change (jsons_depth (j :: l)) with (Nat.max (json_depth j) (jsons_depth l)).
  rewrite list.Forall_cons, <-IH. lia.
Qed.

Lemma jsons_depth_elem l j : j ∈ l → (json_depth j ≤ jsons_depth l)%nat.
Proof. assert (H := proj1 (jsons_depth_le l (jsons_depth l)) ltac:(lia)). intros Hj. rewrite list.Forall_forall in H. by apply H. Qed.

Lemma raw_map_elem l (m : gmap string json) k v :
  into_raw_map (JObj l) = Some m → m !! k = Some v → (k, v) ∈ l.
Proof.
  simpl. intros [= <-].
  assert (∀ m0 : gmap string json, foldl (λ m '(k, v), <[k := v]> m) m0 l !! k = Some v →
    m0 !! k = Some v ∨ (k, v) ∈ l) as H.
  { induction l as [|[k' v'] l IH]; simpl; intros m0 Hm; [by left|].
    destruct (IH _ Hm) as [Hi|Hi]; [|right; by right].
    apply lookup_insert_Some in Hi as [[-> ->]|[_ Hi]]; [right; by left|by left]. }
  intros Hm. destruct (H ∅ Hm) as [He|He]; [by rewrite lookup_empty in He|done].
Qed.

(** A value found in a decoded object is nested less deeply. *)
Lemma raw_map_depth j (m : gmap string json) k v :
  into_raw_map j = Some m → m !! k = Some v → (json_depth v < json_depth j)%nat.
Proof.
  destruct j as [| | | | |l]; try (simpl; discriminate).
  - simpl. intros [= <-]. by rewrite lookup_empty.
  - intros Hm Hk. pose proof (raw_map_elem _ _ _ _ Hm Hk) as He. clear Hm Hk.
    simpl. induction l as [|kv l IH]; [by apply list_elem_of_In in He; destruct He|].
    apply elem_of_cons in He as [<-|He]; simpl; [lia|]. specialize (IH He). lia.
Qed.

Lemma into_raws_depth j l : into_raws j = Some l → (jsons_depth l ≤ json_depth j)%nat.
Proof. destruct j; simpl; try discriminate; intros [= <-]; [simpl; lia|]. unfold jsons_depth. lia. Qed.
