(* ===== verification/Nftables.v ===== *)
(** * [internal/linux/nftables]: the owned nftables table

    [Reconcile] lists the owned table as JSON, and unless the listing shows the
    desired table it loads, in one [nft -f -] transaction, a script that deletes
    the old table and declares the new one ([RenderFullTable], elements in
    batches of [ElementBatchSize]).

    A listing is read by [parseNftJSON] into a [liveNft]; [semanticMatch] is the
    comparison of [semanticMatchJSON] with a [policy.NftSpec].  The expressions
    of a rule are searched for marks, addresses, interfaces and set names
    through every object and array below them; [ord] is the order in which the
    code ranges over the members of an object, which Go does not fix. *)

From stdpp Require Import base list strings gmap option.
From Stdlib Require Import ZArith Lia Ascii.
From S2P Require Import Prelude GoStrings Netip Runner Policy Json.

Definition ElementBatchSize : Z := 4000.

(** ** The live table *)

Record liveChain := LiveChainMk {
  lc_Type : string;
  lc_Hook : string;
  lc_Priority : Z;
  lc_Policy : string;
}.

Record liveRule := LiveRuleMk {
  lr_Chain : string;
  lr_Comment : string;
  lr_Mark : option Z;
  lr_DAddrs : list string;
  lr_IIfNames : list string;
  lr_SetNames : list string;
}.

Record liveNft := LiveNftMk {
  sets : gmap string (gset string);
  chains : gmap string liveChain;
  rules : list liveRule;
}.

(** ** The comparison *)

Definition containsStr (ss : list string) (want : string) : bool := existsb (λ s, String.eqb s want) ss.

Definition of_comment (chain comment : string) (r : liveRule) : bool :=
  String.eqb (lr_Chain r) chain && String.eqb (lr_Comment r) comment.

Definition countComments (rs : list liveRule) (chain comment : string) : Z :=
  foldl (λ n r, if of_comment chain comment r then n + 1 else n) 0 rs.

Definition daddrsForComment (rs : list liveRule) (chain comment : string) : gset string :=
  foldl (λ out r, if of_comment chain comment r then foldl (λ out d, {[d]} ∪ out) out (lr_DAddrs r) else out) ∅ rs.

(** Sets are compared by their sizes, then by the membership of each element. *)
Definition stringSetsEqual (a b : gset string) : bool :=
  bool_decide (size a = size b) && bool_decide (set_Forall (λ k, k ∈ b) a).

(** The set of the texts of the values of a list. *)
Definition string_set {A} (to_string : A → string) (l : list A) : gset string :=
  foldl (λ s x, {[to_string x]} ∪ s) ∅ l.

Definition liveHasRule (rs : list liveRule) (chain : string) (want : NftRuleSpec) : bool :=
  if DropIPv6 want then 1 <=? countComments rs chain "drop-ipv6"
  else if String.eqb (Description want) "mark-non-direct" then
    let wantLAN := string_set prefix_string (ExcludePrefixes want) in
    let wantEP := string_set addr_string (ExcludeAddrs want) in
    if negb (stringSetsEqual (daddrsForComment rs chain "exclude-lan") wantLAN) then false
    else if negb (stringSetsEqual (daddrsForComment rs chain "exclude-endpoint") wantEP) then false
    else
      match List.find (of_comment chain "mark-non-direct") rs with
      | Some r => match lr_Mark r with Some m => m =? rule_Mark want | None => false end
      | None => false
      end
  else if String.eqb (Description want) "isolate-inbound-from-home" then
    match List.find (of_comment chain "isolate-inbound-from-home") rs with
    | Some r =>
        if negb (String.eqb (IIfName want) "") && negb (containsStr (lr_IIfNames r) (IIfName want)) then false
        else if negb (String.eqb (DropDstSet want) "") && negb (containsStr (lr_SetNames r) (DropDstSet want)) then false
        else true
    | None => false
    end
  else 1 <=? countComments rs chain (Description want).

Definition set_matches (live : liveNft) (set : NftSetSpec) : bool :=
  match sets live !! set_Name set with
  | None => false
  | Some have =>
      let want := string_set prefix_string (set_Elements set) in
      bool_decide (size have = size want) && bool_decide (set_Forall (λ cidr, cidr ∈ have) want)
  end.

Definition chain_matches (live : liveNft) (ch : NftChainSpec) : bool :=
  match chains live !! ch_Name ch with
  | None => false
  | Some lc =>
      String.eqb (lc_Type lc) (ch_Type ch) && String.eqb (lc_Hook lc) (ch_Hook ch) &&
      (lc_Priority lc =? ch_Priority ch) && String.eqb (lc_Policy lc) (ch_Policy ch) &&
      forallb (liveHasRule (rules live) (ch_Name ch)) (ch_Rules ch)
  end.

Definition semanticMatch (live : liveNft) (spec : NftSpec) : bool :=
  forallb (set_matches live) (Sets spec) && forallb (chain_matches live) (Chains spec).

(** ** Reading a listing *)

(** [fmt.Sprintf("%s/%d", addr, len)] of a JSON object with these fields. *)
Definition into_pref (j : json) (old : string * Z) : option (string * Z) :=
  into_struct ["addr"; "len"]
    (λ n v '(a, l), if String.eqb n "addr" then (λ a, (a, l)) <$> into_string v a else (λ l, (a, l)) <$> into_int v l)
    j old.
Definition pref_string (p : string * Z) : option string :=
  if String.eqb p.1 "" then None else Some (p.1 +:+ "/" +:+ itoa p.2).

(** Three ways to write an element; the last two recurse into a wrapper. *)
Fixpoint elemToCIDR_fuel (fuel : nat) (raw : json) : option string :=
  match fuel with
  | O => None
  | S fuel =>
      let s := match into_string raw "" with
               | Some s => if contains s "/" then Some s else None
               | None => None
               end in
      match s with
      | Some s => Some s
      | None =>
          match into_raw_map raw with
          | None => None
          | Some obj =>
              match obj !! "prefix" ≫= (λ p, into_pref p ("", 0) ≫= pref_string) with
              | Some cidr => Some cidr
              | None =>
                  match obj !! "elem", obj !! "val" with
                  | Some inner, _ => elemToCIDR_fuel fuel inner
                  | None, Some val => elemToCIDR_fuel fuel val
                  | None, None => None
                  end
              end
          end
      end
  end.
Definition elemToCIDR (raw : json) : option string := elemToCIDR_fuel (S (json_depth raw)) raw.

Definition parseSetJSON (raw : json) : string * gset string :=
  let obj := into_struct ["name"; "elem"]
    (λ n v '(name, elem), if String.eqb n "name" then (λ s, (s, elem)) <$> into_string v name
                          else (λ l, (name, l)) <$> into_raws v) raw ("", []) in
  match obj with
  | None => ("", ∅)
  | Some (name, elem) =>
      (name, foldl (λ (elems : gset string) e, match elemToCIDR e with Some cidr => {[cidr]} ∪ elems | None => elems end) ∅ elem)
  end.

Record chainObj := ChainObjMk {
  co_Name : string; co_Type : string; co_Hook : string;
  co_Prio : option Z; co_Priority : option Z; co_Policy : string }.

Definition set_chainObj (n : string) (v : json) (c : chainObj) : option chainObj :=
  let '(ChainObjMk name ty hook prio priority pol) := c in
  if String.eqb n "name" then (λ s, ChainObjMk s ty hook prio priority pol) <$> into_string v name
  else if String.eqb n "type" then (λ s, ChainObjMk name s hook prio priority pol) <$> into_string v ty
  else if String.eqb n "hook" then (λ s, ChainObjMk name ty s prio priority pol) <$> into_string v hook
  else if String.eqb n "prio" then (λ p, ChainObjMk name ty hook p priority pol) <$> into_int_ptr v prio
  else if String.eqb n "priority" then (λ p, ChainObjMk name ty hook prio p pol) <$> into_int_ptr v priority
  else (λ s, ChainObjMk name ty hook prio priority s) <$> into_string v pol.

Definition parseChainJSON (raw : json) : option (string * liveChain) :=
  match into_struct ["name"; "type"; "hook"; "prio"; "priority"; "policy"] set_chainObj raw
          (ChainObjMk "" "" "" None None "") with
  | None => None
  | Some ch =>
      if String.eqb (co_Name ch) "" then None
      else
        let prio := match co_Prio ch, co_Priority ch with Some p, _ => p | None, Some p => p | None, None => 0 end in
        Some (co_Name ch, LiveChainMk (co_Type ch) (co_Hook ch) prio (co_Policy ch))
  end.

Definition parseJSONUint32 (raw : option json) : option Z :=
  match unmarshal_raw raw (λ j, into_uint32 j 0) with
  | Some n => Some n
  | None =>
      match unmarshal_raw raw (λ j, into_string j "") with
      | Some s =>
          if has_prefix s "0x" then match ParseUint (trim_prefix s "0x") 16 32 with NumOk v => Some v | _ => None end
          else match ParseUint s 10 32 with NumOk v => Some v | _ => None end
      | None => None
      end
  end.

(** The members [left] and [right] of a match. *)
Definition into_match (j : json) : option (option json * option json) :=
  into_struct ["left"; "right"]
    (λ n v '(l, r), Some (if String.eqb n "left" then (Some v, r) else (l, Some v))) j (None, None).

Definition into_payload (j : json) (old : string * string) : option (string * string) :=
  into_struct ["protocol"; "field"]
    (λ n v '(p, f), if String.eqb n "protocol" then (λ p, (p, f)) <$> into_string v p else (λ f, (p, f)) <$> into_string v f)
    j old.

Definition isIPDAddrPayload (left : option json) : bool :=
  let is_daddr := λ o, match o with Some (p, f) => String.eqb p "ip" && String.eqb f "daddr" | None => false end in
  if is_daddr (unmarshal_raw left (λ j, into_struct ["payload"] (λ _ v p, into_payload v p) j ("", ""))) then true
  else is_daddr (unmarshal_raw left (λ j, into_payload j ("", ""))).

Definition non_empty (s : string) : option string := if String.eqb s "" then None else Some s.

Definition matchRightToString (right : option json) : option string :=
  match unmarshal_raw right (λ j, into_string j "") ≫= non_empty with
  | Some s => Some s
  | None =>
      match unmarshal_raw right (λ j, into_struct ["prefix"] (λ _ v p, into_pref v p) j ("", 0)) ≫= pref_string with
      | Some s => Some s
      | None => unmarshal_raw right (λ j, into_pref j ("", 0)) ≫= pref_string
      end
  end.

Definition daddrFromMatch (mraw : json) : option string :=
  '(lhs, rhs) ← into_match mraw;
  if negb (isIPDAddrPayload lhs) then None else matchRightToString rhs.

(** The field [meta.key] of an object. *)
Definition into_meta_key (j : json) (old : string) : option string :=
  into_struct ["meta"] (λ _ v k, into_struct ["key"] (λ _ v k, into_string v k) v k) j old.

Definition iifNameFromMatch (mraw : json) : option string :=
  '(lhs, rhs) ← into_match mraw;
  match unmarshal_raw lhs (λ j, into_meta_key j "") with
  | Some key => if String.eqb key "iifname" then unmarshal_raw rhs (λ j, into_string j "") ≫= non_empty else None
  | None => None
  end.

Definition setNameFromMatch (mraw : json) : option string :=
  rhs ← into_struct ["right"] (λ _ v _, Some (Some v)) mraw None;
  match unmarshal_raw rhs (λ j, into_struct ["set"] (λ _ v s, into_string v s) j "") ≫= non_empty with
  | Some s => Some s
  | None =>
      unmarshal_raw rhs (λ j, into_struct ["set"] (λ _ v s, into_struct ["name"] (λ _ v s, into_string v s) v s) j "")
        ≫= non_empty
  end.

(** The mark that a [mangle] object sets. *)
Definition markFromMangle (mraw : json) : option Z :=
  '(key, value) ← into_struct ["key"; "value"]
    (λ n v '(k, val), if String.eqb n "key" then (λ k, (k, val)) <$> into_meta_key v k else Some (k, Some v))
    mraw ("", None);
  if String.eqb key "mark" then parseJSONUint32 value else None.

Section listing.
Context (ord : gmap string json → list json).

(** The first [Some] of a list. *)
Fixpoint first_some {A B} (f : A → option B) (l : list A) : option B :=
  match l with
  | [] => None
  | x :: l => match f x with Some y => Some y | None => first_some f l end
  end.

Fixpoint findMark_fuel (fuel : nat) (exprs : list json) : option Z :=
  match fuel with
  | O => None
  | S fuel =>
      first_some (λ raw,
        match into_raw_map raw with
        | None => None
        | Some obj =>
            match obj !! "mangle" ≫= markFromMangle with
            | Some v => Some v
            | None =>
                first_some (λ v, match into_raws v with Some nested => findMark_fuel fuel nested | None => None end) (ord obj)
            end
        end) exprs
  end.
Definition findMarkInExpr (exprs : list json) : option Z := findMark_fuel (S (jsons_depth exprs)) exprs.

(** [seen] holds the elements of [out]. *)
Definition add_new (out : list string) (d : string) : list string :=
  if bool_decide (d ∈ out) then out else out ++ [d].

(** The three finders differ in the function that reads a [match] object. *)
Fixpoint walk (from_match : json → option string) (fuel : nat) (out : list string) (exprs : list json) : list string :=
  match fuel with
  | O => out
  | S fuel =>
      foldl (λ out raw,
        match into_raw_map raw with
        | None => out
        | Some obj =>
            let out := match obj !! "match" ≫= from_match with Some d => add_new out d | None => out end in
            foldl (λ out v, match into_raws v with Some nested => walk from_match fuel out nested | None => out end) out (ord obj)
        end) out exprs
  end.
Definition findDAddrsInExpr (exprs : list json) : list string := walk daddrFromMatch (S (jsons_depth exprs)) [] exprs.
Definition findIIfNamesInExpr (exprs : list json) : list string := walk iifNameFromMatch (S (jsons_depth exprs)) [] exprs.
Definition findSetNamesInExpr (exprs : list json) : list string := walk setNameFromMatch (S (jsons_depth exprs)) [] exprs.

Definition parseRuleJSON (raw : json) : option liveRule :=
  let obj := into_struct ["chain"; "comment"; "expr"]
    (λ n v '(chain, comment, expr),
       if String.eqb n "chain" then (λ s, (s, comment, expr)) <$> into_string v chain
       else if String.eqb n "comment" then (λ s, (chain, s, expr)) <$> into_string v comment
       else (λ l, (chain, comment, l)) <$> into_raws v) raw ("", "", []) in
  match obj with
  | None => None
  | Some (chain, comment, expr) =>
      if String.eqb chain "" then None
      else Some (LiveRuleMk chain comment (findMarkInExpr expr) (findDAddrsInExpr expr)
                   (findIIfNamesInExpr expr) (findSetNamesInExpr expr))
  end.

Definition into_root (j : json) : option (list json) :=
  into_struct ["nftables"] (λ _ v _, into_raws v) j [].

Definition live_step (live : liveNft) (raw : json) : liveNft :=
  match into_raw_map raw with
  | None => live
  | Some wrap =>
      match wrap !! "set", wrap !! "chain", wrap !! "rule" with
      | Some setRaw, _, _ =>
          let '(name, elems) := parseSetJSON setRaw in
          if String.eqb name "" then live else LiveNftMk (<[name := elems]> (sets live)) (chains live) (rules live)
      | None, Some chainRaw, _ =>
          match parseChainJSON chainRaw with
          | Some (name, ch) => LiveNftMk (sets live) (<[name := ch]> (chains live)) (rules live)
          | None => live
          end
      | None, None, Some ruleRaw =>
          match parseRuleJSON ruleRaw with
          | Some r => LiveNftMk (sets live) (chains live) (rules live ++ [r])
          | None => live
          end
      | None, None, None => live
      end
  end.

Definition liveNftZero : liveNft := LiveNftMk ∅ ∅ [].

Definition parseNftJSON (out : string) : option liveNft :=
  match parse_json out ≫= into_root with
  | None => None
  | Some Nftables => Some (foldl live_step liveNftZero Nftables)
  end.

Definition semanticMatchJSON (out : string) (spec : NftSpec) : bool :=
  match parseNftJSON out with
  | None => false
  | Some live => semanticMatch live spec
  end.

End listing.

(** ** The script *)

Definition writeBatchedElements (family table setName : string) (elements : list string) : string :=
  String.concat "" ((λ batch,
    "add element " +:+ family +:+ " " +:+ table +:+ " " +:+ setName +:+ " { " +:+ join batch ", " +:+ " }" +:+ nl)
    <$> chunks (length elements) (Z.to_nat ElementBatchSize) elements).

Definition prefixesToStrings (set : NftSetSpec) : list string := prefix_string <$> set_Elements set.

Definition renderRule (rule : NftRuleSpec) : list string :=
  if DropIPv6 rule then [dquoted "meta nfproto ipv6 drop comment 'drop-ipv6'"]
  else if String.eqb (Description rule) "mark-non-direct" then
    ((λ p, "ip daddr " +:+ prefix_string p +:+ dquoted " return comment 'exclude-lan'") <$> ExcludePrefixes rule) ++
    ((λ a, "ip daddr " +:+ addr_string a +:+ dquoted " counter return comment 'exclude-endpoint'") <$> ExcludeAddrs rule) ++
    ["ip daddr != @" +:+ DirectSet rule +:+ " meta mark set 0x" +:+ fmt_x (rule_Mark rule) +:+ dquoted " comment 'mark-non-direct'"]
  else if String.eqb (Description rule) "isolate-inbound-from-home" then
    [dquoted "iifname '" +:+ IIfName rule +:+ dquoted "' ip daddr @" +:+ DropDstSet rule +:+
     dquoted " drop comment 'isolate-inbound-from-home'"]
  else [].
Definition renderRuleLines (chain : NftChainSpec) : list string := concat (renderRule <$> ch_Rules chain).

Definition renderSet (family table : string) (set : NftSetSpec) : string :=
  "add set " +:+ family +:+ " " +:+ table +:+ " " +:+ set_Name set +:+ " { type " +:+ set_Type set +:+ "; flags interval; }" +:+ nl +:+
  writeBatchedElements family table (set_Name set) (prefixesToStrings set).

Definition renderChain (family table : string) (chain : NftChainSpec) : string :=
  "add chain " +:+ family +:+ " " +:+ table +:+ " " +:+ ch_Name chain +:+ " { type " +:+ ch_Type chain +:+ " hook " +:+
  ch_Hook chain +:+ " priority " +:+ itoa (ch_Priority chain) +:+ "; policy " +:+ ch_Policy chain +:+ "; }" +:+ nl +:+
  String.concat "" ((λ line, "add rule " +:+ family +:+ " " +:+ table +:+ " " +:+ ch_Name chain +:+ " " +:+ line +:+ nl)
    <$> renderRuleLines chain).

Definition RenderFullTable (spec : NftSpec) : string :=
  "add table " +:+ Family spec +:+ " " +:+ nft_Table spec +:+ nl +:+
  String.concat "" (renderSet (Family spec) (nft_Table spec) <$> Sets spec) +:+
  String.concat "" (renderChain (Family spec) (nft_Table spec) <$> Chains spec).

(** ** The operations *)

Definition Reconcile (ord : gmap string json → list json) (spec : NftSpec) : prog (Z * option error) :=
  let family := Family spec in
  let table := nft_Table spec in
  '(listedJSON, err) ← Run "nft" ["-j"; "list"; "table"; family; table];
  let tableExists := bool_decide (err = None) && negb (String.eqb listedJSON "") && negb (contains listedJSON "Error") in
  if tableExists && semanticMatchJSON ord listedJSON spec then mret (0, None)
  else
    let b := (if tableExists then "delete table " +:+ family +:+ " " +:+ table +:+ nl else "") +:+ RenderFullTable spec in
    '(_, err) ← RunWithInput "nft" b ["-f"; "-"];
    match err with
    | Some e => mret (0, Some (ErrFmt "nft apply table: %w" [] [ErrText e]))
    | None => mret (1, None)
    end.

(** [sort.Strings] sorts by bytes. *)
Fixpoint string_less (a b : string) : bool :=
  match a, b with
  | _, EmptyString => false
  | EmptyString, String _ _ => true
  | String x a, String y b => if byte_of x =? byte_of y then string_less a b else byte_of x <? byte_of y
  end.

Definition SwapSetElements (family table liveName : string) (elements : list string) : prog (Z * option error) :=
  let elements := sort_slice string_less elements in
  let b := "flush set " +:+ family +:+ " " +:+ table +:+ " " +:+ liveName +:+ nl +:+
           writeBatchedElements family table liveName elements in
  '(_, err) ← RunWithInput "nft" b ["-f"; "-"];
  match err with
  | Some e => mret (0, Some (ErrText e))
  | None => mret (1, None)
  end.

Fixpoint count_char (c : ascii) (s : string) : Z :=
  match s with
  | EmptyString => 0
  | String x s => (if Ascii.eqb x c then 1 else 0) + count_char c s
  end.

Definition countElementsJSON (out : string) : Z * option error :=
  match parse_json out ≫= into_root with
  | None => (count_char "/" out, Some (ErrFmt "nft json: %w" [] [ErrStd "json.Unmarshal" out]))
  | Some Nftables =>
      (foldl (λ n raw,
         match into_raw_map raw with
         | None => n
         | Some wrap =>
             match wrap !! "set" with
             | None => n
             | Some setRaw => n + Z.of_nat (size (parseSetJSON setRaw).2)
             end
         end) 0 Nftables, None)
  end.

Definition CountSetElements (family table setName : string) : prog (Z * option error) :=
  '(out, err) ← Run "nft" ["-j"; "list"; "set"; family; table; setName];
  match err with
  | Some e => mret (0, Some (ErrText e))
  | None => mret (countElementsJSON out)
  end.

Definition Clear (family table : string) : prog (option error) :=
  '(_, err) ← Run "nft" ["delete"; "table"; family; table];
  match err with
  | Some e =>
      if contains e "No such file" then mret None
      else if contains e "does not exist" then mret None
      else mret (Some (ErrText e))
  | None => mret None
  end.

(** ** Lemmas: sets *)

Lemma string_set_spec {A} (f : A → string) l : string_set f l = list_to_set (f <$> l).
Proof. unfold string_set. rewrite foldl_union. set_solver. Qed.

Lemma stringSetsEqual_spec a b : stringSetsEqual a b = true ↔ a = b.
Proof.
  unfold stringSetsEqual. rewrite andb_true_iff, !bool_decide_eq_true, <-same_size_subset. done.
Qed.

Lemma stringSetsEqual_bool a b : stringSetsEqual a b = bool_decide (a = b).
Proof. apply eq_true_iff_eq. by rewrite stringSetsEqual_spec, bool_decide_eq_true. Qed.

Lemma set_matches_spec live s :
  set_matches live s = true ↔ sets live !! set_Name s = Some (list_to_set (prefix_string <$> set_Elements s)).
Proof.
  unfold set_matches. destruct (sets live !! set_Name s) as [have|]; [|split; discriminate].
  rewrite string_set_spec, andb_true_iff, !bool_decide_eq_true. split.
  - intros [Hs Hsub]. f_equal. symmetry. by apply same_size_subset.
  - intros [= ->]. split; [done|]. by intros x.
Qed.

Definition daddrs_of (rs : list liveRule) : gset string := list_to_set (rs ≫= lr_DAddrs).

Lemma daddrsForComment_spec rs chain comment :
  daddrsForComment rs chain comment = daddrs_of (List.filter (of_comment chain comment) rs).
Proof.
  unfold daddrsForComment, daddrs_of.
  assert (∀ s : gset string,
    foldl (λ out r, if of_comment chain comment r then foldl (λ out d, {[d]} ∪ out) out (lr_DAddrs r) else out) s rs =
    list_to_set (List.filter (of_comment chain comment) rs ≫= lr_DAddrs) ∪ s) as H.
  { induction rs as [|r rs IH]; simpl; intros s; [set_solver|]. rewrite IH.
    destruct (of_comment chain comment r); simpl; [|done].
    rewrite list_to_set_app_L, (foldl_union id), list_fmap_id. set_solver. }
  rewrite H. set_solver.
Qed.

Lemma countComments_spec rs chain comment :
  countComments rs chain comment = Z.of_nat (length (List.filter (of_comment chain comment) rs)).
Proof.
  unfold countComments.
  assert (∀ n, foldl (λ n r, if of_comment chain comment r then n + 1 else n) n rs =
               n + Z.of_nat (length (List.filter (of_comment chain comment) rs))) as H.
  { induction rs as [|r rs IH]; simpl; intros n; [lia|]. rewrite IH. destruct (of_comment _ _ _); simpl; lia. }
  rewrite H. lia.
Qed.

(** ** What nft lists

    The JSON that [nft -j list table] prints for a table loaded from
    [RenderFullTable]: some metainfo, the table, its sets and chains in any
    order, then the rules; elements, in any order, and prefix operands are
    networks (the host bits are gone), a host is a bare address, a named set is
    [@] and its name, comments and statements come back as in the script.
    Handles, counters, the flags of the sets and the metainfo are arbitrary. *)
Module Listing.

Definition obj1 (k : string) (v : json) : json := JObj [(k, v)].

Definition net_json (p : Prefix) : json :=
  let p := Masked p in
  if p_bits p =? 32 then JStr (addr_string (p_ip p))
  else obj1 "prefix" (JObj [("addr", JStr (addr_string (p_ip p))); ("len", JNum (itoa (p_bits p)))]).

Definition ip_daddr : json := obj1 "payload" (JObj [("protocol", JStr "ip"); ("field", JStr "daddr")]).
Definition meta_key (k : string) : json := obj1 "meta" (obj1 "key" (JStr k)).
Definition match_json (op : string) (lhs rhs : json) : json :=
  obj1 "match" (JObj [("op", JStr op); ("left", lhs); ("right", rhs)]).
Definition counter_json (packets bytes : string) : json :=
  obj1 "counter" (JObj [("packets", JNum packets); ("bytes", JNum bytes)]).

Section listing_of.
Context (fam tab : string).

Definition set_json (handle : string) (flags : json) (elements : list Prefix) (s : NftSetSpec) : json :=
  obj1 "set" (JObj ([("family", JStr fam); ("name", JStr (set_Name s)); ("table", JStr tab);
    ("type", JStr (set_Type s)); ("handle", JNum handle); ("flags", flags)] ++
    match elements with [] => [] | l => [("elem", JArr (net_json <$> l))] end)).

Definition chain_json (handle : string) (c : NftChainSpec) : json :=
  obj1 "chain" (JObj [("family", JStr fam); ("table", JStr tab); ("name", JStr (ch_Name c)); ("handle", JNum handle);
    ("type", JStr (ch_Type c)); ("hook", JStr (ch_Hook c)); ("prio", JNum (itoa (ch_Priority c))); ("policy", JStr (ch_Policy c))]).

Definition rule_json (handle chain comment : string) (exprs : list json) : json :=
  obj1 "rule" (JObj [("family", JStr fam); ("table", JStr tab); ("chain", JStr chain); ("handle", JNum handle);
    ("comment", JStr comment); ("expr", JArr exprs)]).

(** The rules of a rule specification: the comment and the statements of each,
    where only a counter is not fixed. *)
Definition rule_bodies (r : NftRuleSpec) : list (string * (json → list json)) :=
  if DropIPv6 r then
    [("drop-ipv6", λ _, [match_json "==" (meta_key "nfproto") (JStr "ipv6"); obj1 "drop" JNull])]
  else if String.eqb (Description r) "mark-non-direct" then
    ((λ p, ("exclude-lan", λ _, [match_json "==" ip_daddr (net_json p); obj1 "return" JNull])) <$> ExcludePrefixes r) ++
    ((λ a, ("exclude-endpoint", λ counter,
       [match_json "==" ip_daddr (JStr (addr_string a)); counter; obj1 "return" JNull])) <$> ExcludeAddrs r) ++
    [("mark-non-direct", λ _,
       [match_json "!=" ip_daddr (JStr ("@" +:+ DirectSet r));
        obj1 "mangle" (JObj [("key", meta_key "mark"); ("value", JNum (itoa (rule_Mark r)))])])]
  else if String.eqb (Description r) "isolate-inbound-from-home" then
    [("isolate-inbound-from-home", λ _,
       [match_json "==" (meta_key "iifname") (JStr (IIfName r));
        match_json "==" ip_daddr (JStr ("@" +:+ DropDstSet r)); obj1 "drop" JNull])]
  else [].

Definition set_shown (s : NftSetSpec) (j : json) : Prop :=
  ∃ handle flags elements, Permutation elements (set_Elements s) ∧ j = set_json handle flags elements s.
Definition chain_shown (c : NftChainSpec) (j : json) : Prop := ∃ handle, j = chain_json handle c.
Definition rule_shown (chain : string) (body : string * (json → list json)) (j : json) : Prop :=
  ∃ handle packets bytes, j = rule_json handle chain body.1 (body.2 (counter_json packets bytes)).
Definition rules_shown (c : NftChainSpec) (js : list json) : Prop :=
  Forall2 (rule_shown (ch_Name c)) (ch_Rules c ≫= rule_bodies) js.

End listing_of.

(** [shown spec j]: [j] is a listing of the table of [spec]. *)
Definition shown (spec : NftSpec) (j : json) : Prop :=
  let fam := Family spec in
  let tab := nft_Table spec in
  ∃ info handle sets chains declared rules,
    Forall2 (set_shown fam tab) (Sets spec) sets ∧
    Forall2 (chain_shown fam tab) (Chains spec) chains ∧
    Permutation declared (sets ++ chains) ∧
    Forall2 (rules_shown fam tab) (Chains spec) rules ∧
    j = obj1 "nftables" (JArr (obj1 "metainfo" info ::
          obj1 "table" (JObj [("family", JStr fam); ("name", JStr tab); ("handle", JNum handle)]) ::
          declared ++ concat rules)).

End Listing.

Import Policy.Spec Listing.

(** ** Lemmas: reading a listing back *)

Lemma lit_int_itoa n : 0 <= n < 2 ^ 63 → lit_int (itoa n) = Some n.
Proof.
  intros Hn. rewrite itoa_nonneg by lia.
  pose proof (fmt_uint_chars 10 n ltac:(lia) ltac:(lia)) as Hc.
  pose proof (ParseUint_fmt 10 64 n ltac:(lia) ltac:(lia)) as Hp.
  destruct (fmt_uint 10 n) as [|c s] eqn:E; [by apply fmt_uint_nonempty in E|].
  unfold lit_int. rewrite Hp. simpl in Hc. apply andb_true_iff in Hc as [Hc _].
  destruct (Ascii.eqb_spec c "-") as [->|]; [by vm_compute in Hc|].
  rewrite (proj2 (Z.ltb_lt _ _)) by lia. done.
Qed.

Lemma into_uint32_itoa n old : 0 <= n < 2 ^ 32 → into_uint32 (JNum (itoa n)) old = Some n.
Proof.
  intros Hn. unfold into_uint32. rewrite itoa_nonneg by lia.
  rewrite (ParseUint_fmt 10 64 n) by lia. by rewrite (proj2 (Z.ltb_lt _ _)) by lia.
Qed.

Lemma itoa_octet_nonempty n i : itoa (octet n i) ≠ "".
Proof. rewrite itoa_nonneg by apply octet_range. apply fmt_uint_nonempty. Qed.

Lemma string4_nonempty n s : (string4 n +:+ s =? "")%string = false.
Proof.
  unfold string4. apply String.eqb_neq.
  destruct (itoa (octet n 0)) eqn:E; [by apply itoa_octet_nonempty in E|done].
Qed.

Lemma raw_map_single k v : into_raw_map (obj1 k v) = Some {[k := v]}.
Proof. done. Qed.

(** The three readings of a network. *)
Lemma into_pref_net n b :
  0 <= b <= 32 →
  into_pref (JObj [("addr", JStr (string4 n)); ("len", JNum (itoa b))]) ("", 0) = Some (string4 n, b).
Proof. intros Hb. unfold into_pref. cbn -[lit_int itoa]. by rewrite lit_int_itoa by lia. Qed.

Lemma pref_string_net n b : 0 <= b <= 32 → pref_string (string4 n, b) = Some (prefix_string (PrefixMk (Addr4 n) b)).
Proof.
  intros Hb. unfold pref_string. cbn [fst snd]. rewrite <-(app_nil_r_str (string4 n)) at 1.
  rewrite string4_nonempty. by rewrite prefix_string4.
Qed.

Lemma elemToCIDR_net p :
  prefix4 p → elemToCIDR (net_json p) = if p_bits p =? 32 then None else Some (prefix_string (Masked p)).
Proof.
  intros Hp. pose proof (prefix4_Masked p Hp) as Hm.
  destruct (prefix4_inv p Hp) as (n & b & -> & Hn & Hb). unfold net_json.
  rewrite Masked4 in * by done. cbn [p_bits p_ip addr_string]. destruct (b =? 32) eqn:E.
  - unfold elemToCIDR. cbn [json_depth elemToCIDR_fuel into_string into_raw_map].
    destruct (contains _ "/") eqn:Hc; [|done]. apply contains_spec in Hc as (l & r & Hs).
    pose proof (string4_no_slash (n / 2 ^ (32 - b) * 2 ^ (32 - b))) as H. rewrite Hs in H.
    unfold no_char in H. rewrite string_forall_app in H. apply andb_true_iff in H as [_ H]. by simpl in H.
  - unfold elemToCIDR. set (o := JObj _). cbn [elemToCIDR_fuel]. cbn [into_string obj1].
    rewrite raw_map_single, lookup_singleton_eq. cbn [mbind option_bind]. unfold o.
    rewrite into_pref_net by done. cbn [mbind option_bind]. by rewrite pref_string_net.
Qed.

Lemma matchRightToString_net p :
  prefix4 p →
  matchRightToString (Some (net_json p)) =
  Some (if p_bits p =? 32 then addr_string (p_ip (Masked p)) else prefix_string (Masked p)).
Proof.
  intros Hp. pose proof (prefix4_Masked p Hp) as Hm.
  destruct (prefix4_inv p Hp) as (n & b & -> & Hn & Hb). unfold net_json.
  rewrite Masked4 in * by done. cbn [p_bits p_ip addr_string]. unfold matchRightToString, unmarshal_raw.
  destruct (b =? 32) eqn:E; cbn [mbind option_bind into_string obj1].
  - unfold non_empty. rewrite <-(app_nil_r_str (string4 _)) at 1. by rewrite string4_nonempty.
  - change (into_struct ["prefix"] _ _ _) with
      (into_pref (JObj [("addr", JStr (string4 (n / 2 ^ (32 - b) * 2 ^ (32 - b)))); ("len", JNum (itoa b))]) ("", 0)).
    rewrite into_pref_net by done. cbn [mbind option_bind]. by rewrite pref_string_net.
Qed.

Lemma non_empty_string4 n : non_empty (string4 n) = Some (string4 n).
Proof. unfold non_empty. rewrite <-(app_nil_r_str (string4 n)) at 1. by rewrite string4_nonempty. Qed.

(** The readings of a match. *)
Definition match_obj (op : string) (lhs rhs : json) : json := JObj [("op", JStr op); ("left", lhs); ("right", rhs)].

Lemma into_match_obj op lhs rhs : into_match (match_obj op lhs rhs) = Some (Some lhs, Some rhs).
Proof. unfold into_match, match_obj. by decode_struct. Qed.

Lemma isIPDAddrPayload_daddr : isIPDAddrPayload (Some ip_daddr) = true.
Proof. by vm_compute. Qed.

Lemma isIPDAddrPayload_meta k : isIPDAddrPayload (Some (meta_key k)) = false.
Proof.
  unfold isIPDAddrPayload, unmarshal_raw, into_payload, meta_key, obj1. cbn [mbind option_bind]. by decode_struct.
Qed.

Lemma daddrFromMatch_daddr op rhs : daddrFromMatch (match_obj op ip_daddr rhs) = matchRightToString (Some rhs).
Proof. unfold daddrFromMatch. rewrite into_match_obj. cbn [mbind option_bind]. by rewrite isIPDAddrPayload_daddr. Qed.

Lemma daddrFromMatch_meta op k rhs : daddrFromMatch (match_obj op (meta_key k) rhs) = None.
Proof. unfold daddrFromMatch. rewrite into_match_obj. cbn [mbind option_bind]. by rewrite isIPDAddrPayload_meta. Qed.

Lemma iifNameFromMatch_daddr op rhs : iifNameFromMatch (match_obj op ip_daddr rhs) = None.
Proof. unfold iifNameFromMatch. rewrite into_match_obj. cbn [mbind option_bind]. by vm_compute. Qed.

Lemma iifNameFromMatch_meta op k s :
  iifNameFromMatch (match_obj op (meta_key k) (JStr s)) = if String.eqb k "iifname" then non_empty s else None.
Proof.
  unfold iifNameFromMatch. rewrite into_match_obj. cbn [mbind option_bind unmarshal_raw].
  unfold into_meta_key, meta_key, obj1. by decode_struct.
Qed.

Lemma setNameFromMatch_str op lhs s : setNameFromMatch (match_obj op lhs (JStr s)) = None.
Proof. unfold setNameFromMatch, match_obj, unmarshal_raw. by decode_struct. Qed.

Lemma setNameFromMatch_net op lhs p : setNameFromMatch (match_obj op lhs (net_json p)) = None.
Proof.
  unfold setNameFromMatch, match_obj, net_json, unmarshal_raw, obj1. destruct (p_bits (Masked p) =? 32); by decode_struct.
Qed.

Lemma matchRightToString_str s : matchRightToString (Some (JStr s)) = non_empty s.
Proof.
  unfold matchRightToString, unmarshal_raw, non_empty, into_pref. cbn [mbind option_bind into_string].
  by destruct (s =? "")%string.
Qed.

Lemma markFromMangle_mark m :
  0 <= m < 2 ^ 32 →
  markFromMangle (JObj [("key", meta_key "mark"); ("value", JNum (itoa m))]) = Some m.
Proof.
  intros Hm. unfold markFromMangle, into_meta_key, meta_key, obj1. decode_struct.
  unfold parseJSONUint32, unmarshal_raw. cbn [mbind option_bind]. by rewrite into_uint32_itoa.
Qed.

(** [range] visits the values of a map, in some order. *)
Definition range_order (ord : gmap string json → list json) : Prop :=
  ∀ m, Permutation (ord m) (map_to_list m).*2.

Section reading.
Context (ord : gmap string json → list json) (Hord : range_order ord).

Lemma ord_single k v : ord {[k := v]} = [v].
Proof.
  apply Permutation_length_1_inv. symmetry. etrans; [apply Hord|]. by rewrite map_to_list_singleton.
Qed.

(** A statement whose value holds no array is skipped, or read when it has
    the right key. *)
Definition no_array (v : json) : Prop := into_raws v = None ∨ into_raws v = Some [].

Lemma walk_nil fm n out : walk ord fm n out [] = out.
Proof. by destruct n. Qed.

Lemma walk_obj1 fm n out k v l :
  no_array v →
  walk ord fm (S n) out (obj1 k v :: l) =
  walk ord fm (S n) (match (if String.eqb k "match" then fm v else None) with Some d => add_new out d | None => out end) l.
Proof.
  intros Hv. cbn [walk foldl]. rewrite raw_map_single, ord_single. cbn [foldl].
  assert (({[k := v]} : gmap string json) !! "match" ≫= fm = if String.eqb k "match" then fm v else None) as ->.
  { destruct (String.eqb_spec k "match") as [->|Hk]; [by rewrite lookup_singleton_eq|by rewrite lookup_singleton_ne]. }
  destruct Hv as [-> | ->]; [done|]. by rewrite walk_nil.
Qed.

Lemma findMark_obj1 n k v l :
  no_array v →
  findMark_fuel ord (S n) (obj1 k v :: l) =
  match (if String.eqb k "mangle" then markFromMangle v else None) with
  | Some m => Some m
  | None => findMark_fuel ord (S n) l
  end.
Proof.
  intros Hv. cbn [findMark_fuel first_some]. rewrite raw_map_single, ord_single. cbn [first_some].
  assert (({[k := v]} : gmap string json) !! "mangle" ≫= markFromMangle =
          if String.eqb k "mangle" then markFromMangle v else None) as ->.
  { destruct (String.eqb_spec k "mangle") as [->|Hk]; [by rewrite lookup_singleton_eq|by rewrite lookup_singleton_ne]. }
  destruct (if String.eqb k "mangle" then _ else _); [done|].
  destruct Hv as [-> | ->]; [done|]. by destruct n.
Qed.

(** The reading of a rule as [rule_json] writes it. *)
Lemma parseRuleJSON_rule handle fam tab chain comment exprs k v :
  rule_json fam tab handle chain comment exprs = obj1 k v →
  chain ≠ "" →
  parseRuleJSON ord v = Some (LiveRuleMk chain comment (findMarkInExpr ord exprs) (findDAddrsInExpr ord exprs)
    (findIIfNamesInExpr ord exprs) (findSetNamesInExpr ord exprs)).
Proof.
  intros [= <- <-] Hc%String.eqb_neq. unfold parseRuleJSON. decode_struct. by rewrite Hc.
Qed.

(** The rules that a rule specification is listed as, once read. *)
Definition net_text (p : Prefix) : string :=
  if p_bits p =? 32 then addr_string (p_ip (Masked p)) else prefix_string (Masked p).

Definition live_rules (chain : string) (r : NftRuleSpec) : list liveRule :=
  if DropIPv6 r then [LiveRuleMk chain "drop-ipv6" None [] [] []]
  else if String.eqb (Description r) "mark-non-direct" then
    ((λ p, LiveRuleMk chain "exclude-lan" None [net_text p] [] []) <$> ExcludePrefixes r) ++
    ((λ a, LiveRuleMk chain "exclude-endpoint" None [addr_string a] [] []) <$> ExcludeAddrs r) ++
    [LiveRuleMk chain "mark-non-direct" (Some (rule_Mark r)) ["@" +:+ DirectSet r] [] []]
  else if String.eqb (Description r) "isolate-inbound-from-home" then
    [LiveRuleMk chain "isolate-inbound-from-home" None ["@" +:+ DropDstSet r] [IIfName r] []]
  else [].

(** What a listing needs to be read back. *)
Definition rule_ok (r : NftRuleSpec) : Prop :=
  Forall prefix4 (ExcludePrefixes r) ∧ Forall (λ a, ∃ n, a = Addr4 n) (ExcludeAddrs r) ∧ 0 <= rule_Mark r < 2 ^ 32 ∧
  (Description r = "isolate-inbound-from-home" → IIfName r ≠ "").

Definition add_rules (live : liveNft) (rs : list liveRule) : liveNft := LiveNftMk (sets live) (chains live) (rules live ++ rs).

Lemma live_step_rule live handle fam tab chain comment exprs :
  chain ≠ "" →
  live_step ord live (rule_json fam tab handle chain comment exprs) =
  add_rules live [LiveRuleMk chain comment (findMarkInExpr ord exprs) (findDAddrsInExpr ord exprs)
    (findIIfNamesInExpr ord exprs) (findSetNamesInExpr ord exprs)].
Proof.
  intros Hc. unfold live_step. unfold rule_json at 1. rewrite raw_map_single.
  rewrite !lookup_singleton_ne by done. rewrite lookup_singleton_eq.
  rewrite (parseRuleJSON_rule handle fam tab chain comment exprs "rule" _ eq_refl Hc). done.
Qed.

Ltac read_stmts :=
  repeat first [rewrite walk_obj1 by (by (left + right)) | rewrite findMark_obj1 by (by (left + right))];
  cbn [String.eqb Ascii.eqb Bool.eqb];
  rewrite ?daddrFromMatch_daddr, ?daddrFromMatch_meta, ?iifNameFromMatch_daddr, ?iifNameFromMatch_meta,
    ?setNameFromMatch_str, ?setNameFromMatch_net, ?matchRightToString_str;
  cbn [String.eqb Ascii.eqb Bool.eqb non_empty]; try done.

Ltac read_rule :=
  rewrite live_step_rule by done; unfold match_json;
  repeat match goal with |- context [JObj [("op", JStr ?op); ("left", ?l); ("right", ?r)]] =>
    change (JObj [("op", JStr op); ("left", l); ("right", r)]) with (match_obj op l r) end;
  unfold findMarkInExpr, findDAddrsInExpr, findIIfNamesInExpr, findSetNamesInExpr; read_stmts.

Lemma live_step_exclude_lan live handle fam tab chain p :
  chain ≠ "" → prefix4 p →
  live_step ord live (rule_json fam tab handle chain "exclude-lan"
    [match_json "==" ip_daddr (net_json p); obj1 "return" JNull]) =
  add_rules live [LiveRuleMk chain "exclude-lan" None [net_text p] [] []].
Proof. intros Hc Hp. read_rule. by rewrite matchRightToString_net by done. Qed.

Lemma live_step_exclude_endpoint live handle packets bytes fam tab chain n :
  chain ≠ "" →
  live_step ord live (rule_json fam tab handle chain "exclude-endpoint"
    [match_json "==" ip_daddr (JStr (addr_string (Addr4 n))); counter_json packets bytes; obj1 "return" JNull]) =
  add_rules live [LiveRuleMk chain "exclude-endpoint" None [addr_string (Addr4 n)] [] []].
Proof.
  intros Hc. unfold counter_json. read_rule. cbn [addr_string]. by rewrite non_empty_string4.
Qed.

Lemma live_step_mark live handle fam tab chain set m :
  chain ≠ "" → 0 <= m < 2 ^ 32 →
  live_step ord live (rule_json fam tab handle chain "mark-non-direct"
    [match_json "!=" ip_daddr (JStr ("@" +:+ set));
     obj1 "mangle" (JObj [("key", meta_key "mark"); ("value", JNum (itoa m))])]) =
  add_rules live [LiveRuleMk chain "mark-non-direct" (Some m) ["@" +:+ set] [] []].
Proof. intros Hc Hm. read_rule. by rewrite markFromMangle_mark. Qed.

(** The set of the drop rule is listed by its name, as an address would be. *)
Lemma live_step_isolate live handle fam tab chain iface set :
  chain ≠ "" → iface ≠ "" →
  live_step ord live (rule_json fam tab handle chain "isolate-inbound-from-home"
    [match_json "==" (meta_key "iifname") (JStr iface);
     match_json "==" ip_daddr (JStr ("@" +:+ set)); obj1 "drop" JNull]) =
  add_rules live [LiveRuleMk chain "isolate-inbound-from-home" None ["@" +:+ set] [iface] []].
Proof.
  intros Hc Hi%String.eqb_neq. read_rule. unfold non_empty. by rewrite Hi.
Qed.

Lemma live_step_drop_ipv6 live handle fam tab chain :
  chain ≠ "" →
  live_step ord live (rule_json fam tab handle chain "drop-ipv6"
    [match_json "==" (meta_key "nfproto") (JStr "ipv6"); obj1 "drop" JNull]) =
  add_rules live [LiveRuleMk chain "drop-ipv6" None [] [] []].
Proof. intros Hc. read_rule. Qed.

Lemma add_rules_app live rs1 rs2 : add_rules (add_rules live rs1) rs2 = add_rules live (rs1 ++ rs2).
Proof. unfold add_rules. simpl. by rewrite app_assoc. Qed.

Lemma add_rules_nil live : add_rules live [] = live.
Proof. destruct live. unfold add_rules. simpl. by rewrite app_nil_r. Qed.

Lemma fold_shown {A} (R : A → json → Prop) (g : A → liveRule) l js live :
  (∀ live x j, x ∈ l → R x j → live_step ord live j = add_rules live [g x]) → Forall2 R l js →
  foldl (live_step ord) live js = add_rules live (g <$> l).
Proof.
  intros Hf HR. revert live. induction HR as [|x j l js Hx _ IH]; intros live; simpl; [by rewrite add_rules_nil|].
  rewrite (Hf _ x) by (done || left). rewrite IH by (intros; apply Hf; [by right|done]). by rewrite add_rules_app.
Qed.

Lemma live_steps_rule live fam tab chain r js :
  chain ≠ "" → rule_ok r → Forall2 (rule_shown fam tab chain) (rule_bodies r) js →
  foldl (live_step ord) live js = add_rules live (live_rules chain r).
Proof.
  intros Hc (Hp & Ha & Hm & Hi). unfold rule_bodies, live_rules.
  destruct (DropIPv6 r).
  { intros (j & ? & (h & ? & ? & ->) & ->%Forall2_nil_inv_l & ->)%Forall2_cons_inv_l. cbn [foldl fst snd].
    by apply live_step_drop_ipv6. }
  destruct (Description r =? "mark-non-direct")%string.
  - intros (js1 & js2 & H1 & (js3 & js4 & H3 & H4 & ->)%Forall2_app_inv_l & ->)%Forall2_app_inv_l. rewrite !foldl_app.
    apply (proj1 (Forall2_fmap_l _ _ _ _)) in H1, H3. rewrite list.Forall_forall in Hp. rewrite list.Forall_forall in Ha.
    rewrite (fold_shown _ (λ p, LiveRuleMk chain "exclude-lan" None [net_text p] [] []) _ js1 live) with (2 := H1).
    2:{ intros live' q j Hq (h & n & b & ->). cbn [fst snd]. by apply live_step_exclude_lan, Hp. }
    rewrite (fold_shown _ (λ a, LiveRuleMk chain "exclude-endpoint" None [addr_string a] [] []) _ js3) with (2 := H3).
    2:{ intros live' a j Hin (h & n & b & ->). cbn [fst snd]. destruct (Ha a Hin) as [x ->]. by apply live_step_exclude_endpoint. }
    apply Forall2_cons_inv_l in H4 as (j & ? & (h & n & b & ->) & ->%Forall2_nil_inv_l & ->). cbn [foldl fst snd].
    rewrite live_step_mark by done. by rewrite !add_rules_app, app_assoc.
  - destruct (Description r =? "isolate-inbound-from-home")%string eqn:E.
    + intros (j & ? & (h & n & b & ->) & ->%Forall2_nil_inv_l & ->)%Forall2_cons_inv_l. cbn [foldl fst snd].
      apply String.eqb_eq in E. apply live_step_isolate; auto.
    + intros ->%Forall2_nil_inv_l. cbn [foldl]. by rewrite add_rules_nil.
Qed.

Lemma live_steps_rules live fam tab chain rs js :
  chain ≠ "" → Forall rule_ok rs → Forall2 (rule_shown fam tab chain) (rs ≫= rule_bodies) js →
  foldl (live_step ord) live js = add_rules live (rs ≫= live_rules chain).
Proof.
  intros Hc Hrs. revert live js. induction Hrs as [|r rs Hr _ IH]; intros live js; cbn [mbind list_bind].
  - intros ->%Forall2_nil_inv_l. cbn [foldl]. by rewrite add_rules_nil.
  - intros (js1 & js2 & H1 & H2 & ->)%Forall2_app_inv_l. rewrite foldl_app.
    rewrite (live_steps_rule live fam tab chain r js1) by done. rewrite (IH _ js2) by done. by rewrite add_rules_app.
Qed.

(** The networks of an element list that are read back: a host, which nft lists
    as a bare address, is not. *)
Definition is_net (p : Prefix) : bool := negb (p_bits p =? 32).
Definition nets (l : list Prefix) : list Prefix := Masked <$> List.filter is_net l.
Definition texts (l : list Prefix) : gset string := list_to_set (prefix_string <$> l).

Lemma nets_cons p l : nets (p :: l) = (if is_net p then [Masked p] else []) ++ nets l.
Proof. unfold nets. cbn [List.filter]. by destruct (is_net p). Qed.

Lemma elem_of_nets n l : n ∈ nets l ↔ ∃ d, d ∈ l ∧ is_net d = true ∧ n = Masked d.
Proof.
  unfold nets. rewrite list_elem_of_fmap. setoid_rewrite list_elem_of_In at 1. setoid_rewrite filter_In.
  setoid_rewrite <-list_elem_of_In. naive_solver.
Qed.

Lemma nets_prefix4 l : Forall prefix4 l → Forall prefix4 (nets l).
Proof.
  rewrite !list.Forall_forall. intros Hl n (d & Hd & _ & ->)%elem_of_nets. by apply prefix4_Masked, Hl.
Qed.

Lemma texts_perm l l' : Permutation l l' → texts (nets l) = texts (nets l').
Proof.
  intros Hp. apply set_eq. intros x. unfold texts. rewrite !elem_of_list_to_set, !list_elem_of_fmap.
  setoid_rewrite elem_of_nets. by setoid_rewrite Hp.
Qed.

Lemma parse_elements l : Forall prefix4 l → ∀ acc : gset string,
  foldl (λ (elems : gset string) e, match elemToCIDR e with Some cidr => {[cidr]} ∪ elems | None => elems end) acc (net_json <$> l) =
  texts (nets l) ∪ acc.
Proof.
  induction 1 as [|p l Hx _ IH]; intros acc; [unfold texts; simpl; set_solver|].
  cbn [fmap list_fmap foldl]. rewrite elemToCIDR_net, nets_cons by done. unfold is_net.
  destruct (p_bits p =? 32); cbn [negb app]; [apply IH|]. rewrite IH. unfold texts. simpl. set_solver.
Qed.

Definition add_set (live : liveNft) (name : string) (elems : gset string) : liveNft :=
  LiveNftMk (<[name := elems]> (sets live)) (chains live) (rules live).
Definition add_chain (live : liveNft) (name : string) (c : liveChain) : liveNft :=
  LiveNftMk (sets live) (<[name := c]> (chains live)) (rules live).

Lemma live_step_set live fam tab s j :
  set_Name s ≠ "" → Forall prefix4 (set_Elements s) → set_shown fam tab s j →
  live_step ord live j = add_set live (set_Name s) (texts (nets (set_Elements s))).
Proof.
  intros Hn%String.eqb_neq Hp (handle & flags & els & Hels & ->). unfold live_step, set_json.
  rewrite raw_map_single, lookup_singleton_eq. rewrite <-(texts_perm _ _ Hels). rewrite <-Hels in Hp.
  assert (parseSetJSON (JObj ([("family", JStr fam); ("name", JStr (set_Name s)); ("table", JStr tab);
    ("type", JStr (set_Type s)); ("handle", JNum handle); ("flags", flags)] ++
    match els with [] => [] | l => [("elem", JArr (net_json <$> l))] end)) = (set_Name s, texts (nets els))) as ->;
    [|by rewrite Hn].
  unfold parseSetJSON. cbn [app]. destruct els as [|p l]; decode_struct; [done|].
  f_equal. rewrite parse_elements by done. by rewrite union_empty_r_L.
Qed.

Definition live_chain (c : NftChainSpec) : liveChain := LiveChainMk (ch_Type c) (ch_Hook c) (ch_Priority c) (ch_Policy c).

Lemma live_step_chain live fam tab c j :
  ch_Name c ≠ "" → lit_int (itoa (ch_Priority c)) = Some (ch_Priority c) → chain_shown fam tab c j →
  live_step ord live j = add_chain live (ch_Name c) (live_chain c).
Proof.
  intros Hn%String.eqb_neq Hl [handle ->]. unfold live_step, chain_json. rewrite raw_map_single.
  rewrite lookup_singleton_ne, lookup_singleton_eq by done.
  unfold parseChainJSON. decode_struct.
  cbn [set_chainObj into_string into_int_ptr String.eqb Ascii.eqb Bool.eqb fmap option_fmap option_map mbind option_bind].
  rewrite Hl. cbn [option_map]. cbn [set_chainObj into_string String.eqb Ascii.eqb Bool.eqb fmap option_fmap option_map mbind option_bind].
  cbn [co_Name]. by rewrite Hn.
Qed.

(** The live table read from a listing of a compiled policy. *)
Definition compiled_live (p : Policy) : liveNft :=
  LiveNftMk
    (let m := <[RuNetsSetName := texts (nets (DirectPrefixes p))]> ∅ in
     if inbound p then <[HomeNetsSetName := texts (nets (LANs p))]> m else m)
    (let m := <["prerouting" := LiveChainMk "filter" "prerouting" (-150) "accept"]> ∅ in
     if inbound p then <["forward" := LiveChainMk "filter" "forward" 0 "accept"]> m else m)
    (live_rules "prerouting" drop_ipv6_rule ++ live_rules "prerouting" (mark_rule p) ++
     if inbound p then live_rules "forward" isolate_rule else []).

Definition compiled_nft (p : Policy) : NftSpec := NftSpecMk OwnedNftFamily OwnedNftTable (compiled_sets p) (compiled_chains p).

(** A policy of IPv4 throughout, as the command line makes it. *)
Definition renderable (p : Policy) : Prop :=
  Forall prefix4 (DirectPrefixes p) ∧ Forall prefix4 (LANs p) ∧
  (∃ e, TunnelEndpoint p = Addr4 e ∧ 0 <= e < 2 ^ 32) ∧ 0 <= Mark p < 2 ^ 32.

Lemma ip4_mark p : renderable p → 0 <= policy_mark p < 2 ^ 32.
Proof. intros (_ & _ & _ & Hm). unfold policy_mark, DefaultMark. bcase; lia. Qed.

Lemma compiled_rules_ok p : renderable p → Forall rule_ok [drop_ipv6_rule; mark_rule p] ∧ Forall rule_ok [isolate_rule].
Proof.
  intros Hp. pose proof (ip4_mark p Hp) as Hm. destruct Hp as (_ & Hl & (e & He & _) & _).
  assert (rule_ok drop_ipv6_rule) by (unfold rule_ok; split_and!; cbn; first [done|lia|constructor]).
  assert (rule_ok isolate_rule) by (unfold rule_ok; split_and!; cbn; first [done|lia|constructor]).
  split; repeat (apply list.Forall_cons; split); try constructor; try done.
  unfold rule_ok. cbn [mark_rule ExcludePrefixes ExcludeAddrs rule_Mark Description]. split_and!; try (done || lia).
  rewrite He. constructor; [by eexists|constructor].
Qed.

Lemma parse_listing p j out :
  renderable p → parse_json out = Some j → shown (compiled_nft p) j → parseNftJSON ord out = Some (compiled_live p).
Proof.
  intros Hp Hout (info & handle & jsets & jchains & declared & jrules & Hsets & Hchains & Hdecl & Hrules & ->).
  destruct (compiled_rules_ok p Hp) as [Hr1 Hr2]. destruct Hp as (Hd & Hl & _).
  unfold parseNftJSON. rewrite Hout. cbn [mbind option_bind].
  unfold into_root. unfold obj1 at 1. decode_struct. f_equal. cbn [Family nft_Table foldl] in *.
  assert (∀ live v k, k ≠ "set" → k ≠ "chain" → k ≠ "rule" → live_step ord live (obj1 k v) = live) as Hskip.
  { intros live v k H1 H2 H3. unfold live_step. by rewrite raw_map_single, !lookup_singleton_ne by done. }
  rewrite !Hskip by done. rewrite foldl_app. unfold compiled_nft in *. cbn [Sets Chains] in *.
  unfold compiled_sets, compiled_chains, compiled_live in *. destruct (inbound p).
  - apply Forall2_cons_inv_l in Hsets as (j1 & ? & J1 & (j2 & ? & J2 & ->%Forall2_nil_inv_l & ->)%Forall2_cons_inv_l & ->).
    apply Forall2_cons_inv_l in Hchains as (j3 & ? & J3 & (j4 & ? & J4 & ->%Forall2_nil_inv_l & ->)%Forall2_cons_inv_l & ->).
    apply Forall2_cons_inv_l in Hrules as (r1 & ? & R1 & (r2 & ? & R2 & ->%Forall2_nil_inv_l & ->)%Forall2_cons_inv_l & ->).
    assert (∀ live, live_step ord live j1 = add_set live RuNetsSetName (texts (nets (DirectPrefixes p)))) as E1
      by (intros; by eapply (live_step_set _ _ _ (NftSetSpecMk RuNetsSetName _ _ (DirectPrefixes p)))).
    assert (∀ live, live_step ord live j2 = add_set live HomeNetsSetName (texts (nets (LANs p)))) as E2
      by (intros; by eapply (live_step_set _ _ _ (NftSetSpecMk HomeNetsSetName _ _ (LANs p)))).
    assert (∀ live, live_step ord live j3 = add_chain live "prerouting" (LiveChainMk "filter" "prerouting" (-150) "accept")) as E3
      by (intros; by eapply (live_step_chain _ _ _ (NftChainSpecMk "prerouting" "filter" "prerouting" (-150) "accept" _))).
    assert (∀ live, live_step ord live j4 = add_chain live "forward" (LiveChainMk "filter" "forward" 0 "accept")) as E4
      by (intros; by eapply (live_step_chain _ _ _ (NftChainSpecMk "forward" "filter" "forward" 0 "accept" _))).
    rewrite (foldl_perm _ _ _ Hdecl).
    2:{ intros x y b. rewrite Hdecl. cbn [app]. rewrite !elem_of_cons, !elem_of_nil.
        intros [->|[->|[->|[->|[]]]]] [->|[->|[->|[->|[]]]]]; try done;
          rewrite ?E1, ?E2, ?E3, ?E4; unfold add_set, add_chain; cbn [sets chains rules]; try done;
          f_equal; apply insert_insert_ne; discriminate. }
    cbn [app foldl concat]. rewrite E1, E2, E3, E4. rewrite foldl_app, app_nil_r.
    erewrite live_steps_rules with (3 := R1) by done. erewrite live_steps_rules with (3 := R2) by done.
    rewrite !add_rules_app. cbn [ch_Rules ch_Name mbind list_bind]. rewrite !app_nil_r, <-app_assoc. done.
  - apply Forall2_cons_inv_l in Hsets as (j1 & ? & J1 & ->%Forall2_nil_inv_l & ->).
    apply Forall2_cons_inv_l in Hchains as (j3 & ? & J3 & ->%Forall2_nil_inv_l & ->).
    apply Forall2_cons_inv_l in Hrules as (r1 & ? & R1 & ->%Forall2_nil_inv_l & ->).
    assert (∀ live, live_step ord live j1 = add_set live RuNetsSetName (texts (nets (DirectPrefixes p)))) as E1
      by (intros; by eapply (live_step_set _ _ _ (NftSetSpecMk RuNetsSetName _ _ (DirectPrefixes p)))).
    assert (∀ live, live_step ord live j3 = add_chain live "prerouting" (LiveChainMk "filter" "prerouting" (-150) "accept")) as E3
      by (intros; by eapply (live_step_chain _ _ _ (NftChainSpecMk "prerouting" "filter" "prerouting" (-150) "accept" _))).
    rewrite (foldl_perm _ _ _ Hdecl).
    2:{ intros x y b. rewrite Hdecl. cbn [app]. rewrite !elem_of_cons, !elem_of_nil.
        intros [->|[->|[]]] [->|[->|[]]]; try done; by rewrite ?E1, ?E3, ?E1, ?E3. }
    cbn [app foldl concat]. rewrite E1, E3. rewrite app_nil_r.
    erewrite live_steps_rules with (3 := R1) by done.
    cbn [ch_Rules ch_Name mbind list_bind]. rewrite !app_nil_r. done.
Qed.

(** *** The comparison of a listed policy with a wanted one *)

Lemma texts_eq l l' :
  Forall prefix4 l → Forall prefix4 l' → texts l = texts l' ↔ ∀ n, n ∈ l ↔ n ∈ l'.
Proof.
  assert (∀ l l', Forall prefix4 l → Forall prefix4 l' → texts l ⊆ texts l' ↔ ∀ n, n ∈ l → n ∈ l') as Hsub.
  { intros k k' Hk Hk'. rewrite list.Forall_forall in Hk. rewrite list.Forall_forall in Hk'. unfold texts.
    unfold subseteq, set_subseteq_instance. setoid_rewrite elem_of_list_to_set. split.
    - intros H n Hn. destruct (proj1 (list_elem_of_fmap _ _ _) (H _ (list_elem_of_fmap_2 prefix_string _ _ Hn))) as (n' & E & Hn').
      apply prefix_string_inj in E as ->; auto.
    - intros H x (n & -> & Hn)%list_elem_of_fmap. apply list_elem_of_fmap_2. auto. }
  intros Hl Hl'. rewrite set_eq_subseteq, !Hsub by done. naive_solver.
Qed.

(** A host is listed by a text that no prefix has. *)
Lemma net_texts_eq l l' :
  Forall prefix4 l → Forall prefix4 l' →
  (list_to_set (net_text <$> l) : gset string) = texts l' ↔ forallb is_net l = true ∧ ∀ n, n ∈ nets l ↔ n ∈ l'.
Proof.
  intros Hl Hl'.
  assert (∀ l, forallb is_net l = true → net_text <$> l = prefix_string <$> nets l) as Hnets.
  { intros k. induction k as [|p k IH]; [done|]. cbn [forallb]. intros [Hp Hk]%andb_true_iff. rewrite nets_cons, Hp.
    cbn [fmap list_fmap app]. rewrite <-IH by done. f_equal. unfold net_text, is_net in *. by destruct (p_bits p =? 32). }
  rewrite <-(texts_eq (nets l) l' (nets_prefix4 _ Hl) Hl'). split.
  - intros H. assert (forallb is_net l = true) as Hn; [|split; [done|]; unfold texts; by rewrite <-Hnets].
    apply forallb_forall_elem. intros p Hp. destruct (is_net p) eqn:E; [done|]. exfalso.
    assert (net_text p ∈ texts l') as (q & Hq & Hin)%elem_of_list_to_set%list_elem_of_fmap.
    { rewrite <-H. apply elem_of_list_to_set. by apply list_elem_of_fmap_2. }
    unfold net_text, is_net in *. destruct (p_bits p =? 32); [|done]. rewrite list.Forall_forall in Hl. rewrite list.Forall_forall in Hl'.
    destruct (prefix4_inv p (Hl p Hp)) as (n & b & -> & Hr & Hb). destruct (prefix4_inv q (Hl' q Hin)) as (n' & b' & -> & _ & Hb').
    rewrite prefix_string4, Masked4 in Hq by done. cbn [p_ip addr_string] in Hq.
    pose proof (string4_no_slash (n / 2 ^ (32 - b) * 2 ^ (32 - b))) as Hs. rewrite Hq in Hs.
    unfold no_char in Hs. rewrite string_forall_app in Hs. apply andb_true_iff in Hs as [_ Hs]. discriminate Hs.
  - intros [Hn <-]. unfold texts. by rewrite <-Hnets.
Qed.

Lemma filter_map_comment {A} (g : A → liveRule) chain comment (b : bool) l :
  (∀ x, of_comment chain comment (g x) = b) →
  List.filter (of_comment chain comment) (g <$> l) = if b then g <$> l else [].
Proof.
  intros H. induction l as [|x l IH]; [by destruct b|].
  change (g <$> x :: l) with (g x :: (g <$> l)). cbn [List.filter]. rewrite H, IH. by destruct b.
Qed.

Lemma bind_texts {A} (g : A → liveRule) (t : A → string) l :
  (∀ x, lr_DAddrs (g x) = [t x]) → (g <$> l) ≫= lr_DAddrs = t <$> l.
Proof.
  intros H. induction l as [|x l IH]; [done|].
  change ((g <$> x :: l) ≫= lr_DAddrs) with (lr_DAddrs (g x) ++ ((g <$> l) ≫= lr_DAddrs)). by rewrite H, IH.
Qed.

(** The rules of the listed policy, by comment. *)
Definition compiled_rules (p : Policy) : list liveRule :=
  live_rules "prerouting" drop_ipv6_rule ++ live_rules "prerouting" (mark_rule p) ++
  if inbound p then live_rules "forward" isolate_rule else [].

Lemma compiled_rules_filter p chain comment :
  List.filter (of_comment chain comment) (compiled_rules p) =
  (if String.eqb "prerouting" chain && String.eqb "drop-ipv6" comment then live_rules "prerouting" drop_ipv6_rule else []) ++
  (if String.eqb "prerouting" chain && String.eqb "exclude-lan" comment
   then (λ q, LiveRuleMk "prerouting" "exclude-lan" None [net_text q] [] []) <$> LANs p else []) ++
  (if String.eqb "prerouting" chain && String.eqb "exclude-endpoint" comment
   then [LiveRuleMk "prerouting" "exclude-endpoint" None [addr_string (TunnelEndpoint p)] [] []] else []) ++
  (if String.eqb "prerouting" chain && String.eqb "mark-non-direct" comment
   then [LiveRuleMk "prerouting" "mark-non-direct" (Some (policy_mark p)) ["@" +:+ RuNetsSetName] [] []] else []) ++
  (if inbound p && String.eqb "forward" chain && String.eqb "isolate-inbound-from-home" comment
   then live_rules "forward" isolate_rule else []).
Proof.
  unfold compiled_rules, live_rules. cbn [DropIPv6 Description drop_ipv6_rule mark_rule isolate_rule].
  change (("mark-non-direct" =? "mark-non-direct")%string) with true.
  change (("isolate-inbound-from-home" =? "mark-non-direct")%string) with false.
  change (("isolate-inbound-from-home" =? "isolate-inbound-from-home")%string) with true.
  cbn [ExcludePrefixes ExcludeAddrs mark_rule rule_Mark DirectSet IIfName DropDstSet isolate_rule].
  rewrite !List.filter_app.
  rewrite (filter_map_comment _ chain comment (String.eqb "prerouting" chain && String.eqb "exclude-lan" comment))
    by (intros; done).
  cbn [fmap list_fmap]. unfold of_comment at 1 2 3. cbn [List.filter lr_Chain lr_Comment].
  rewrite <-!app_assoc. by destruct (inbound p).
Qed.

Lemma find_filter {A} (f : A → bool) l : List.find f l = head (List.filter f l).
Proof. induction l as [|x l IH]; simpl; [done|]. by destruct (f x). Qed.

Ltac eval_texts :=
  repeat match goal with |- context [String.eqb ?a ?b] => let v := eval cbv in (String.eqb a b) in
    match v with true => idtac | false => idtac end; change (String.eqb a b) with v end;
  rewrite ?andb_false_r, ?andb_true_r; cbn [andb app].

(** What the comparison establishes of the policy [q] whose table is listed and
    the policy [p] it is compared with. *)
Definition taken_for (q p : Policy) : Prop :=
  inbound p = false ∧ policy_mark q = policy_mark p ∧ TunnelEndpoint q = TunnelEndpoint p ∧
  (∀ n, n ∈ nets (DirectPrefixes q) ↔ n ∈ DirectPrefixes p) ∧
  forallb is_net (LANs q) = true ∧ (∀ n, n ∈ nets (LANs q) ↔ n ∈ LANs p).

Lemma addr_string_inj4 e e' : 0 <= e < 2 ^ 32 → 0 <= e' < 2 ^ 32 → addr_string (Addr4 e) = addr_string (Addr4 e') → e = e'.
Proof. intros He He' [= H]. pose proof (parseIPv4_string4 e He) as H1. rewrite H, parseIPv4_string4 in H1 by done. congruence. Qed.

Lemma liveHasRule_mark q p :
  renderable q → renderable p →
  liveHasRule (compiled_rules q) "prerouting" (mark_rule p) = true ↔
  policy_mark q = policy_mark p ∧ TunnelEndpoint q = TunnelEndpoint p ∧
  forallb is_net (LANs q) = true ∧ (∀ n, n ∈ nets (LANs q) ↔ n ∈ LANs p).
Proof.
  intros (_ & Hl & (e & He & Hr) & _) (_ & Hl' & (e' & He' & Hr') & _).
  unfold liveHasRule. cbn [DropIPv6 Description mark_rule]. eval_texts.
  cbn [ExcludePrefixes ExcludeAddrs mark_rule rule_Mark].
  rewrite !stringSetsEqual_bool, !daddrsForComment_spec, !string_set_spec, find_filter, !compiled_rules_filter. eval_texts.
  rewrite !app_nil_r. cbn [head lr_Mark]. unfold daddrs_of. rewrite (bind_texts _ net_text) by done. fold (texts (LANs p)).
  rewrite <-(net_texts_eq (LANs q) (LANs p) Hl Hl'). rewrite He, He'.
  case_bool_decide as H1; cbn [negb]; [|split; [done|by intros (_ & _ & ?)]].
  case_bool_decide as H2; cbn [negb].
  - rewrite Z.eqb_eq. split; [|by intros [-> _]]. intros ->. split; [done|]. split; [|done]. f_equal.
    apply addr_string_inj4; [done..|].
    change (({[addr_string (Addr4 e)]} ∪ ∅ : gset string) = {[addr_string (Addr4 e')]} ∪ ∅) in H2.
    rewrite !union_empty_r_L in H2. by apply (inj _) in H2.
  - split; [done|]. intros (_ & [= ->] & _). by destruct H2.
Qed.

Lemma liveHasRule_drop q : liveHasRule (compiled_rules q) "prerouting" drop_ipv6_rule = true.
Proof.
  unfold liveHasRule. cbn [DropIPv6 drop_ipv6_rule]. rewrite countComments_spec, compiled_rules_filter. eval_texts. done.
Qed.

(** The drop rule of the clients is never found: its set is looked for in an
    object, and nft writes a text. *)
Lemma liveHasRule_isolate q : liveHasRule (compiled_rules q) "forward" isolate_rule = false.
Proof.
  unfold liveHasRule. cbn [DropIPv6 Description isolate_rule]. eval_texts.
  rewrite find_filter, compiled_rules_filter. eval_texts. by destruct (inbound q); vm_compute.
Qed.

Lemma direct_set_matches q p :
  renderable q → renderable p →
  set_matches (compiled_live q) (NftSetSpecMk RuNetsSetName "ipv4_addr" ["interval"] (DirectPrefixes p)) = true ↔
  ∀ n, n ∈ nets (DirectPrefixes q) ↔ n ∈ DirectPrefixes p.
Proof.
  intros (Hd & _) (Hd' & _). rewrite set_matches_spec. cbn [set_Name set_Elements].
  assert (sets (compiled_live q) !! RuNetsSetName = Some (texts (nets (DirectPrefixes q)))) as ->
    by (unfold compiled_live; by destruct (inbound q)).
  fold (texts (DirectPrefixes p)). rewrite <-(texts_eq _ _ (nets_prefix4 _ Hd) Hd'). split; congruence.
Qed.

Lemma prerouting_matches q p :
  renderable q → renderable p →
  chain_matches (compiled_live q)
    (NftChainSpecMk "prerouting" "filter" "prerouting" (-150) "accept" [drop_ipv6_rule; mark_rule p]) = true ↔
  policy_mark q = policy_mark p ∧ TunnelEndpoint q = TunnelEndpoint p ∧
  forallb is_net (LANs q) = true ∧ (∀ n, n ∈ nets (LANs q) ↔ n ∈ LANs p).
Proof.
  intros Hq Hp. rewrite <-liveHasRule_mark by done. unfold chain_matches.
  replace (chains (compiled_live q) !! _) with (Some (LiveChainMk "filter" "prerouting" (-150) "accept"))
    by (unfold compiled_live; by destruct (inbound q)).
  change (rules (compiled_live q)) with (compiled_rules q). cbn [ch_Name ch_Type ch_Hook ch_Priority ch_Policy ch_Rules forallb].
  rewrite liveHasRule_drop. cbn [lc_Type lc_Hook lc_Priority lc_Policy]. eval_texts.
  change (-150 =? -150) with true. cbn [andb]. done.
Qed.

Lemma forward_matches q : chain_matches (compiled_live q) (NftChainSpecMk "forward" "filter" "forward" 0 "accept" [isolate_rule]) = false.
Proof.
  unfold chain_matches. cbn [ch_Name ch_Rules forallb]. destruct (chains (compiled_live q) !! _) as [lc|]; [|done].
  change (rules (compiled_live q)) with (compiled_rules q). rewrite liveHasRule_isolate. cbn [andb]. by rewrite !andb_false_r.
Qed.

(** The comparison, exactly. *)
Lemma semanticMatch_compiled q p :
  renderable q → renderable p → semanticMatch (compiled_live q) (compiled_nft p) = true ↔ taken_for q p.
Proof.
  intros Hq Hp. unfold semanticMatch, compiled_nft, compiled_sets, compiled_chains, taken_for. cbn [Sets Chains forallb].
  rewrite !andb_true_iff, direct_set_matches, prerouting_matches by done.
  destruct (inbound p); cbn [forallb]; [|naive_solver]. rewrite forward_matches. cbn [andb]. naive_solver.
Qed.

Lemma listing_matches q p j out :
  renderable q → renderable p → parse_json out = Some j → shown (compiled_nft q) j →
  semanticMatchJSON ord out (compiled_nft p) = true ↔ taken_for q p.
Proof.
  intros Hq Hp Hout Hj. unfold semanticMatchJSON. rewrite (parse_listing q j out Hq Hout Hj). by apply semanticMatch_compiled.
Qed.

(** The networks that nft lists by their own text. *)
Definition listed_as_is (p : Prefix) : bool := is_net p && bool_decide (Masked p = p).

Lemma nets_same l : Forall prefix4 l → (∀ n, n ∈ nets l ↔ n ∈ l) ↔ forallb listed_as_is l = true.
Proof.
  intros Hl. rewrite list.Forall_forall in Hl. rewrite forallb_forall_elem. unfold listed_as_is.
  setoid_rewrite andb_true_iff. setoid_rewrite bool_decide_eq_true. setoid_rewrite elem_of_nets. split.
  - intros H n Hn. destruct (proj2 (H n) Hn) as (d & Hd & Hnet & ->).
    destruct (prefix4_inv d (Hl d Hd)) as (x & b & -> & Hx & Hb). unfold is_net in *.
    pose proof (prefix4_Masked _ (Hl _ Hd)) as Hm. rewrite Masked4 in * by done. cbn [p_bits] in *. split; [done|].
    assert (0 < 2 ^ (32 - b)) by (apply pow2_pos; lia).
    destruct (prefix4_inv _ Hm) as (y & b' & [= <- <-] & Hy & _). rewrite Masked4 by done. by rewrite Z.div_mul by lia.
  - intros H n. split; [intros (d & Hd & _ & ->); by rewrite (proj2 (H d Hd))|]. intros Hn. exists n.
    destruct (H n Hn). by split_and!.
Qed.

(** A policy is taken for itself. *)
Lemma taken_for_self p :
  renderable p → taken_for p p ↔ negb (inbound p) && forallb listed_as_is (DirectPrefixes p ++ LANs p) = true.
Proof.
  intros (Hd & Hl & _). unfold taken_for. rewrite forallb_app, !andb_true_iff, negb_true_iff, <-!nets_same by done.
  split; [naive_solver|]. intros (-> & H1 & H2). split_and!; try done. apply nets_same in H2; [|done].
  rewrite forallb_forall_elem in *. intros x Hx. specialize (H2 x Hx). unfold listed_as_is in H2. by apply andb_true_iff in H2 as [? _].
Qed.

End reading.

(** ** Lemmas: the depth of a listing is enough fuel *)

Section fuel.
Context (ord : gmap string json → list json) (Hord : range_order ord).

Lemma ord_depth j (obj : gmap string json) v :
  into_raw_map j = Some obj → v ∈ ord obj → (json_depth v < json_depth j)%nat.
Proof.
  intros Hj Hv. rewrite (Hord obj) in Hv. apply list_elem_of_fmap in Hv as ([k v'] & -> & Hin).
  apply elem_of_map_to_list in Hin. by apply (raw_map_depth j obj k).
Qed.

Lemma first_some_ext {A B} (f g : A → option B) l : (∀ x, x ∈ l → f x = g x) → first_some f l = first_some g l.
Proof.
  induction l as [|x l IH]; intros H; simpl; [done|]. rewrite (H x) by left.
  rewrite IH; [done|]. intros y Hy. apply H. by right.
Qed.

Lemma foldl_ext_elem {A B} (f g : B → A → B) l b : (∀ b x, x ∈ l → f b x = g b x) → foldl f b l = foldl g b l.
Proof.
  revert b. induction l as [|x l IH]; intros b H; simpl; [done|]. rewrite (H b x) by left.
  apply IH. intros b' y Hy. apply H. by right.
Qed.

Lemma findMark_fuel_enough n m exprs :
  (jsons_depth exprs < n)%nat → (jsons_depth exprs < m)%nat → findMark_fuel ord n exprs = findMark_fuel ord m exprs.
Proof.
  revert m exprs. induction n as [|n IH]; intros [|m] exprs Hn Hm; try lia. cbn [findMark_fuel].
  apply first_some_ext. intros raw Hr%jsons_depth_elem. destruct (into_raw_map raw) as [obj|] eqn:E; [|done].
  destruct (obj !! "mangle" ≫= markFromMangle); [done|].
  apply first_some_ext. intros v Hv. pose proof (ord_depth _ _ _ E Hv).
  destruct (into_raws v) as [nested|] eqn:Ev; [|done]. apply into_raws_depth in Ev. apply IH; lia.
Qed.

Lemma walk_fuel_enough fm n m out exprs :
  (jsons_depth exprs < n)%nat → (jsons_depth exprs < m)%nat → walk ord fm n out exprs = walk ord fm m out exprs.
Proof.
  revert m out exprs. induction n as [|n IH]; intros [|m] out exprs Hn Hm; try lia. cbn [walk].
  apply foldl_ext_elem. intros out' raw Hr%jsons_depth_elem. destruct (into_raw_map raw) as [obj|] eqn:E; [|done].
  apply foldl_ext_elem. intros out'' v Hv. pose proof (ord_depth _ _ _ E Hv).
  destruct (into_raws v) as [nested|] eqn:Ev; [|done]. apply into_raws_depth in Ev. apply IH; lia.
Qed.

End fuel.

Lemma elemToCIDR_fuel_enough n m raw :
  (json_depth raw < n)%nat → (json_depth raw < m)%nat → elemToCIDR_fuel n raw = elemToCIDR_fuel m raw.
Proof.
  revert m raw. induction n as [|n IH]; intros [|m] raw Hn Hm; try lia. cbn [elemToCIDR_fuel].
  destruct (match into_string raw "" with Some s => _ | None => _ end); [done|].
  destruct (into_raw_map raw) as [obj|] eqn:E; [|done].
  destruct (obj !! "prefix" ≫= _); [done|].
  destruct (obj !! "elem") as [v|] eqn:Ev; [|destruct (obj !! "val") as [v|] eqn:Ev'; [|done]].
  - apply (raw_map_depth _ _ _ _ E) in Ev. apply IH; lia.
  - apply (raw_map_depth _ _ _ _ E) in Ev'. apply IH; lia.
Qed.

(** ** Lemmas: what an accepted table does *)

Lemma Contains_Masked p a : prefix4 p → Contains (Masked p) a = Contains p a.
Proof.
  intros (n & b & -> & Hn & Hb)%prefix4_inv. rewrite Masked4 by done. unfold Contains. cbn [p_ip p_bits].
  destruct a as [|m|]; [done| |done]. unfold prefix_valid. cbn [p_bits]. f_equal. f_equal.
  rewrite !Z.shiftr_lxor, !(Z.shiftr_div_pow2 _ (32 - b)) by lia. by rewrite Z.div_mul by (pose proof (pow2_pos (32 - b)); lia).
Qed.

Lemma in_prefixes_nets l l' a :
  Forall prefix4 l → (∀ n, n ∈ nets l ↔ n ∈ l') →
  (∀ h, h ∈ l → is_net h = false → Contains h a = true → in_prefixes l' a = true) → in_prefixes l a = in_prefixes l' a.
Proof.
  intros Hl Hn Hh. rewrite list.Forall_forall in Hl. apply eq_true_iff_eq. split.
  - intros (h & Hin & Hc)%existsb_exists_elem. destruct (is_net h) eqn:E; [|by eapply Hh].
    apply existsb_exists_elem. exists (Masked h). split; [apply Hn, elem_of_nets; by exists h|]. rewrite Contains_Masked; auto.
  - intros (n & (h & Hin & _ & ->)%Hn%elem_of_nets & Hc)%existsb_exists_elem. apply existsb_exists_elem. exists h.
    split; [done|]. rewrite <-Contains_Masked; auto.
Qed.

(** The packets whose treatment the comparison does not see: those of home
    isolation, and those to a host of the direct prefixes. *)
Definition unseen (q p : Policy) (hook : string) (a : Addr) : Prop :=
  (inbound q = true ∧ hook = "forward") ∨
  ∃ h, h ∈ DirectPrefixes q ∧ is_net h = false ∧ Contains h a = true ∧ in_prefixes (DirectPrefixes p) a = false.

Lemma taken_for_verdict q p hook pkt m :
  renderable q → taken_for q p → ¬ unseen q p hook (dst pkt) →
  eval_hook (compiled_nft q) hook pkt m = eval_hook (compiled_nft p) hook pkt m.
Proof.
  intros (Hd & Hl & _) (Hin & Hm & He & Hnd & Hln & Hnl) Hu. unfold compiled_nft.
  assert (∀ a, in_prefixes (LANs q) a = in_prefixes (LANs p) a) as EL.
  { intros a. apply in_prefixes_nets; [done..|]. intros h Hh Hx. rewrite forallb_forall_elem in Hln. by rewrite Hln in Hx. }
  assert (in_prefixes (DirectPrefixes q) (dst pkt) = in_prefixes (DirectPrefixes p) (dst pkt)) as ED.
  { apply in_prefixes_nets; [done..|]. intros h Hh Hx Hc. destruct (in_prefixes (DirectPrefixes p) _) eqn:E; [done|].
    destruct Hu. right. by exists h. }
  destruct (String.eqb_spec hook "prerouting") as [->|H1].
  { rewrite !eval_prerouting. unfold direct. by rewrite EL, ED, He, Hm. }
  destruct (String.eqb_spec hook "forward") as [->|H2].
  { rewrite !eval_forward, Hin. destruct (inbound q) eqn:E; [|done]. destruct Hu. by left. }
  unfold eval_hook, compiled_chains. rewrite Hin.
  assert (("prerouting" =? hook)%string = false) as E1 by (apply String.eqb_neq; congruence).
  assert (("forward" =? hook)%string = false) as E2 by (apply String.eqb_neq; congruence).
  destruct (inbound q); cbn [Chains foldl ch_Hook]; by rewrite E1, ?E2.
Qed.

Lemma Compile_nft p st : Compile p = Ok st → Nft st = compiled_nft p.
Proof. intros (_ & Hn & _)%Compile_inv. done. Qed.

(** ** Properties *)

Definition list_call (spec : NftSpec) : call := Call "nft" "" ["-j"; "list"; "table"; Family spec; nft_Table spec].
Definition load_call (script : string) : call := Call "nft" script ["-f"; "-"].

(** A run on a listed table. *)
Lemma exec_listed `{Runner St} ord q p (s s1 : St) j out :
  range_order ord → renderable q → renderable p →
  run_call (list_call (compiled_nft p)) s = ((out, None), s1) →
  parse_json out = Some j → shown (compiled_nft q) j → contains out "Error" = false →
  (taken_for q p → exec (Reconcile ord (compiled_nft p)) s = ((0, None), s1, [list_call (compiled_nft p)])) ∧
  (¬ taken_for q p → (exec (Reconcile ord (compiled_nft p)) s).2 =
     [list_call (compiled_nft p); load_call ("delete table inet gotun" +:+ nl +:+ RenderFullTable (compiled_nft p))]).
Proof.
  intros Hord Hq Hp Hrun Hout Hj Herr.
  assert (out ≠ "") as Hne%String.eqb_neq by (intros ->; discriminate Hout).
  pose proof (listing_matches ord Hord q p j out Hq Hp Hout Hj) as Hs.
  unfold Reconcile. change (Run "nft" _) with (PCall (list_call (compiled_nft p)) PRet).
  cbn [mbind prog_bind prog_bind_def exec]. rewrite Hrun, Hne, Herr.
  rewrite bool_decide_true by done. cbn [negb andb]. split.
  - intros ->%Hs. done.
  - intros Ht. destruct (semanticMatchJSON _ _ _) eqn:E; [by destruct Ht; apply Hs|].
    cbn [mbind prog_bind prog_bind_def RunWithInput exec].
    change (Family (compiled_nft p)) with "inet". change (nft_Table (compiled_nft p)) with "gotun".
    by destruct (run_call _ s1) as [[o2 [e2|]] s2].
Qed.

(** C10. Idempotency of the nftables step: when nft lists the table that the
    script of a compiled policy declares, [Reconcile] changes nothing and makes
    no other call if the policy has no inbound clients and every direct prefix
    and LAN is a network without host bits and shorter than 32 bits; otherwise
    [Reconcile] deletes and reloads the table although nothing changed. *)
Theorem nft_Reconcile_converged `{Runner St} ord p st (s s1 : St) j out :
  range_order ord →
  Compile p = Ok st → renderable p →
  run_call (list_call (Nft st)) s = ((out, None), s1) →
  parse_json out = Some j → shown (Nft st) j → contains out "Error" = false →
  let '(_, _, cs) := exec (Reconcile ord (Nft st)) s in
  if negb (inbound p) && forallb listed_as_is (DirectPrefixes p ++ LANs p)
  then exec (Reconcile ord (Nft st)) s = ((0, None), s1, [list_call (Nft st)])
  else cs = [list_call (Nft st); load_call ("delete table inet gotun" +:+ nl +:+ RenderFullTable (Nft st))].
Proof.
  intros Hord Hc Hr Hrun Hout Hj Herr. rewrite (Compile_nft _ _ Hc) in *.
  destruct (exec_listed ord p p s s1 j out Hord Hr Hr Hrun Hout Hj Herr) as [Hyes Hno].
  destruct (negb (inbound p) && _) eqn:E.
  - rewrite Hyes; [done|]. by apply taken_for_self.
  - destruct (exec _ s) as [[? ?] cs]. apply Hno. intros Ht%taken_for_self; [congruence|done].
Qed.

(** What the first call shows: whether the table is there. *)
Definition table_listed (a : answer) : bool :=
  bool_decide (a.2 = None) && negb (String.eqb a.1 "") && negb (contains a.1 "Error").

(** One transaction: [Reconcile] lists the table and, unless it is there
    and shows the specification, makes exactly one other call, which loads a
    script that declares the whole table, preceded by its deletion when it is
    there; it reports one change exactly when that load succeeds. *)
Theorem nft_Reconcile_transaction `{Runner St} ord spec (s : St) :
  let '(n, err, _, cs) := exec (Reconcile ord spec) s in
  let shown := (run_call (list_call spec) s).1 in
  let script := (if table_listed shown then "delete table " +:+ Family spec +:+ " " +:+ nft_Table spec +:+ nl else "") +:+
                RenderFullTable spec in
  if table_listed shown && semanticMatchJSON ord shown.1 spec
  then n = 0 ∧ err = None ∧ cs = [list_call spec]
  else cs = [list_call spec; load_call script] ∧
    match (run_call (load_call script) (run_call (list_call spec) s).2).1.2 with
    | None => n = 1 ∧ err = None
    | Some e => n = 0 ∧ err = Some (ErrFmt "nft apply table: %w" [] [ErrText e])
    end.
Proof.
  unfold Reconcile. change (Run "nft" _) with (PCall (list_call spec) PRet).
  cbn [mbind prog_bind prog_bind_def exec]. destruct (run_call (list_call spec) s) as [[out err] s1]. cbn [fst snd].
  change (bool_decide (err = None) && negb (out =? "")%string && negb (contains out "Error")) with (table_listed (out, err)).
  destruct (table_listed (out, err)), (semanticMatchJSON ord out spec); cbn [andb]; [done|..];
    cbn [mbind prog_bind prog_bind_def RunWithInput exec]; unfold load_call;
    destruct (run_call _ s1) as [[o2 [e2|]] s2]; done.
Qed.

(** C37. Batches: the elements of a set are written each exactly once and in
    order, in as few statements of at most [ElementBatchSize] elements as it
    takes. *)
Theorem writeBatchedElements_batches family table setName elements :
  ∃ batches,
    writeBatchedElements family table setName elements =
      String.concat "" ((λ batch, "add element " +:+ family +:+ " " +:+ table +:+ " " +:+ setName +:+ " { " +:+
                                  join batch ", " +:+ " }" +:+ nl) <$> batches) ∧
    concat batches = elements ∧
    Forall (λ batch, 0 < Z.of_nat (length batch) <= ElementBatchSize) batches ∧
    Z.of_nat (length batches) = (Z.of_nat (length elements) + ElementBatchSize - 1) / ElementBatchSize.
Proof.
  eexists. split; [reflexivity|]. unfold ElementBatchSize.
  split; [apply chunks_concat; lia|]. split.
  - eapply list.Forall_impl; [apply (chunks_bound _ (Z.to_nat 4000)); lia|]. intros b Hb. cbv beta in Hb. lia.
  - rewrite chunks_length by lia. rewrite Nat2Z.inj_div, Nat2Z.inj_sub, Nat2Z.inj_add, Z2Nat.id by lia. done.
Qed.

(** C36. The comparison, exactly: when nft lists the table of a policy [q],
    [semanticMatchJSON] takes it for that of [p] if and only if [p] has no
    inbound clients, mark and endpoint are the same, and the LANs and direct
    prefixes of [q], as networks and except the hosts among the direct prefixes,
    are those of [p].  A table that is taken then treats every packet as [p]
    asks, except for home isolation and for addresses that are hosts of [q]'s
    direct prefixes. *)
Theorem semanticMatchJSON_exact ord q p stq st j out :
  range_order ord → Compile q = Ok stq → Compile p = Ok st → renderable q → renderable p →
  parse_json out = Some j → shown (Nft stq) j →
  (semanticMatchJSON ord out (Nft st) = true ↔
     inbound p = false ∧ policy_mark q = policy_mark p ∧ TunnelEndpoint q = TunnelEndpoint p ∧
     (∀ n, n ∈ DirectPrefixes p ↔ ∃ d, d ∈ DirectPrefixes q ∧ p_bits d ≠ 32 ∧ n = Masked d) ∧
     (∀ l, l ∈ LANs q → p_bits l ≠ 32) ∧ (∀ n, n ∈ LANs p ↔ ∃ l, l ∈ LANs q ∧ n = Masked l)) ∧
  (semanticMatchJSON ord out (Nft st) = true → ∀ hook pkt m,
     (inbound q = true → hook ≠ "forward") →
     (∀ h, h ∈ DirectPrefixes q → p_bits h = 32 → Contains h (dst pkt) = true → in_prefixes (DirectPrefixes p) (dst pkt) = true) →
     eval_hook (Nft stq) hook pkt m = eval_hook (Nft st) hook pkt m).
Proof.
  intros Hord Hcq Hcp Hq Hp Hout Hj. rewrite (Compile_nft _ _ Hcq), (Compile_nft _ _ Hcp) in *.
  rewrite (listing_matches ord Hord q p j out Hq Hp Hout Hj).
  assert (∀ d, is_net d = true ↔ p_bits d ≠ 32) as En by (intros d; unfold is_net; by rewrite negb_true_iff, Z.eqb_neq).
  split.
  - unfold taken_for. rewrite forallb_forall_elem. setoid_rewrite elem_of_nets. setoid_rewrite En.
    split; intros (H1 & H2 & H3 & H4 & H5 & H6); (do 3 (split; [done|])); (split; [intros n; by rewrite H4|]); (split; [done|]).
    + intros n. rewrite <-H6. split; [intros (d & ? & _ & ?)|intros (d & ? & ?)]; exists d; auto.
    + intros n. rewrite H6. split; [intros (d & ? & _ & ?)|intros (d & ? & ?)]; exists d; auto.
  - intros Ht hook pkt m Hiso Hhost. apply taken_for_verdict; [done..|]. intros [[Hi ->]|(h & Hh & Hx & Hc & Hno)]; [by apply Hiso|].
    rewrite (Hhost h) in Hno; [done..| |done]. destruct (Z.eq_dec (p_bits h) 32) as [|Hb%En]; [done|congruence].
Qed.

(** The same policy without the inbound interface and without the hosts among
    its direct prefixes. *)
Definition narrowed (p : Policy) : Policy :=
  PolicyMk (List.filter is_net (DirectPrefixes p)) (TunnelInterface p) (TunnelEndpoint p) (LANs p) (Mark p) (Table p)
    (RulePriority p) (FailModeOf p) (TunnelUp p) (WireGuard p) WireGuardConfigZero.

Lemma narrowed_taken p :
  renderable p → Forall (λ d, Masked d = d) (DirectPrefixes p) → forallb listed_as_is (LANs p) = true →
  renderable (narrowed p) ∧ taken_for p (narrowed p).
Proof.
  intros (Hd & Hl & He & Hm) Hmask Has. split.
  - split; [|done]. cbn [narrowed DirectPrefixes]. rewrite list.Forall_forall in *. intros d [Hin _]%list_elem_of_In%filter_In.
    by apply Hd, list_elem_of_In.
  - unfold taken_for. cbn [narrowed inbound TunnelEndpoint DirectPrefixes LANs]. split_and!; try done.
    + intros n. unfold nets. rewrite list_elem_of_fmap. split.
      * intros (d & -> & Hin). rewrite list.Forall_forall in Hmask. rewrite Hmask; [done|].
        apply list_elem_of_In in Hin. by apply filter_In in Hin as [Hin%list_elem_of_In _].
      * intros Hin. exists n. split; [|done]. rewrite list.Forall_forall in Hmask. symmetry. apply Hmask.
        apply list_elem_of_In in Hin. by apply filter_In in Hin as [Hin%list_elem_of_In _].
    + rewrite forallb_forall_elem in *. intros x Hx. specialize (Has x Hx). unfold listed_as_is in Has. by apply andb_true_iff in Has as [? _].
    + by apply nets_same.
Qed.

(** C39. The comparison does not see what the table has in excess: after the
    inbound interface and the host addresses are removed from a policy, the
    table of the old policy is accepted as that of the new one, so its home
    isolation stays in force and the removed hosts stay direct. *)
Theorem nft_Reconcile_keeps_isolation `{Runner St} ord p st (s s1 : St) j out :
  range_order ord →
  Compile p = Ok st → renderable p →
  Forall (λ d, Masked d = d) (DirectPrefixes p) → forallb listed_as_is (LANs p) = true →
  run_call (list_call (Nft st)) s = ((out, None), s1) →
  parse_json out = Some j → shown (Nft st) j → contains out "Error" = false →
  ∃ st', Compile (narrowed p) = Ok st' ∧
    (inbound p = true → Chains (Nft st') ≠ Chains (Nft st)) ∧
    (forallb is_net (DirectPrefixes p) = false → Sets (Nft st') ≠ Sets (Nft st)) ∧
    exec (Reconcile ord (Nft st')) s = ((0, None), s1, [list_call (Nft st)]).
Proof.
  intros Hord Hc Hr Hmask Has Hrun Hout Hj Herr. destruct (Compile_inv p st Hc) as ((Hv1 & Hv2 & _) & _).
  destruct (narrowed_taken p Hr Hmask Has) as [Hr' Ht].
  assert (policy_valid (narrowed p)) as Hv'%Compile_ok.
  { split; [done|]. split; [|done]. cbn [narrowed DirectPrefixes]. rewrite list.Forall_forall in *. intros d [Hin _]%list_elem_of_In%filter_In.
    by apply Hv2, list_elem_of_In. }
  destruct (Compile (narrowed p)) as [st'|] eqn:Hc'; [|done]. exists st'. split; [done|].
  rewrite (Compile_nft _ _ Hc), (Compile_nft _ _ Hc') in *.
  split; [|split].
  - intros Hin. unfold compiled_nft, compiled_chains. cbn [Chains]. by rewrite Hin.
  - intros Hf E. unfold compiled_nft, compiled_sets in E. cbn [Sets narrowed DirectPrefixes] in E. injection E as E _.
    assert (forallb is_net (DirectPrefixes p) = true); [|congruence]. rewrite <-E. apply forallb_forall_elem.
    intros x [_ Hx]%list_elem_of_In%filter_In. done.
  - destruct (exec_listed ord p (narrowed p) s s1 j out Hord Hr Hr' Hrun Hout Hj Herr) as [Hyes _]. by rewrite Hyes.
Qed.

(** ** Witnesses *)

Definition ex_ord (m : gmap string json) : list json := (map_to_list m).*2.

Lemma ex_ord_range : range_order ex_ord.
Proof. intros m. done. Qed.

(** A listing of the table of [ex_policy]. *)
Definition ex_listing : string := dquoted
"{'nftables': [{'metainfo': {'version': '1.0.9', 'release_name': 'Old Doc Yak #3', 'json_schema_version': 1}},
 {'table': {'family': 'inet', 'name': 'gotun', 'handle': 7}},
 {'set': {'family': 'inet', 'name': 'ru_nets', 'table': 'gotun', 'type': 'ipv4_addr', 'handle': 1, 'flags': ['interval'],
   'elem': [{'prefix': {'addr': '10.200.0.0', 'len': 24}}]}},
 {'set': {'family': 'inet', 'name': 'home_nets', 'table': 'gotun', 'type': 'ipv4_addr', 'handle': 2, 'flags': ['interval'],
   'elem': [{'prefix': {'addr': '10.10.0.0', 'len': 24}}]}},
 {'chain': {'family': 'inet', 'table': 'gotun', 'name': 'prerouting', 'handle': 3,
   'type': 'filter', 'hook': 'prerouting', 'prio': -150, 'policy': 'accept'}},
 {'chain': {'family': 'inet', 'table': 'gotun', 'name': 'forward', 'handle': 8,
   'type': 'filter', 'hook': 'forward', 'prio': 0, 'policy': 'accept'}},
 {'rule': {'family': 'inet', 'table': 'gotun', 'chain': 'prerouting', 'handle': 4, 'comment': 'drop-ipv6', 'expr': [
   {'match': {'op': '==', 'left': {'meta': {'key': 'nfproto'}}, 'right': 'ipv6'}}, {'drop': null}]}},
 {'rule': {'family': 'inet', 'table': 'gotun', 'chain': 'prerouting', 'handle': 5, 'comment': 'exclude-lan', 'expr': [
   {'match': {'op': '==', 'left': {'payload': {'protocol': 'ip', 'field': 'daddr'}},
     'right': {'prefix': {'addr': '10.10.0.0', 'len': 24}}}}, {'return': null}]}},
 {'rule': {'family': 'inet', 'table': 'gotun', 'chain': 'prerouting', 'handle': 6, 'comment': 'exclude-endpoint', 'expr': [
   {'match': {'op': '==', 'left': {'payload': {'protocol': 'ip', 'field': 'daddr'}}, 'right': '10.10.0.2'}},
   {'counter': {'packets': 12, 'bytes': 1020}}, {'return': null}]}},
 {'rule': {'family': 'inet', 'table': 'gotun', 'chain': 'prerouting', 'handle': 7, 'comment': 'mark-non-direct', 'expr': [
   {'match': {'op': '!=', 'left': {'payload': {'protocol': 'ip', 'field': 'daddr'}}, 'right': '@ru_nets'}},
   {'mangle': {'key': {'meta': {'key': 'mark'}}, 'value': 1}}]}},
 {'rule': {'family': 'inet', 'table': 'gotun', 'chain': 'forward', 'handle': 9, 'comment': 'isolate-inbound-from-home', 'expr': [
   {'match': {'op': '==', 'left': {'meta': {'key': 'iifname'}}, 'right': 'wg-clients'}},
   {'match': {'op': '==', 'left': {'payload': {'protocol': 'ip', 'field': 'daddr'}}, 'right': '@home_nets'}},
   {'drop': null}]}}]}".

(** The same policy without clients, and a listing of its table, as a later
    version of nft writes it: chains first, a single flag without brackets. *)
Definition ex_outbound : Policy := narrowed ex_policy.
Definition ex_outbound_state : DesiredKernelState := match Compile ex_outbound with Ok st => st | Err _ => ex_state end.

Definition ex_outbound_listing : string := dquoted
"{'nftables': [{'metainfo': {'version': '1.1.3', 'release_name': 'Commodore Bullmoose #4', 'json_schema_version': 1}},
 {'table': {'family': 'inet', 'name': 'gotun', 'handle': 11}},
 {'chain': {'family': 'inet', 'table': 'gotun', 'name': 'prerouting', 'handle': 2,
   'type': 'filter', 'hook': 'prerouting', 'prio': -150, 'policy': 'accept'}},
 {'set': {'family': 'inet', 'name': 'ru_nets', 'table': 'gotun', 'type': 'ipv4_addr', 'handle': 1, 'flags': 'interval',
   'elem': [{'prefix': {'addr': '10.200.0.0', 'len': 24}}]}},
 {'rule': {'family': 'inet', 'table': 'gotun', 'chain': 'prerouting', 'handle': 3, 'comment': 'drop-ipv6', 'expr': [
   {'match': {'op': '==', 'left': {'meta': {'key': 'nfproto'}}, 'right': 'ipv6'}}, {'drop': null}]}},
 {'rule': {'family': 'inet', 'table': 'gotun', 'chain': 'prerouting', 'handle': 4, 'comment': 'exclude-lan', 'expr': [
   {'match': {'op': '==', 'left': {'payload': {'protocol': 'ip', 'field': 'daddr'}},
     'right': {'prefix': {'addr': '10.10.0.0', 'len': 24}}}}, {'return': null}]}},
 {'rule': {'family': 'inet', 'table': 'gotun', 'chain': 'prerouting', 'handle': 5, 'comment': 'exclude-endpoint', 'expr': [
   {'match': {'op': '==', 'left': {'payload': {'protocol': 'ip', 'field': 'daddr'}}, 'right': '10.10.0.2'}},
   {'counter': {'packets': 0, 'bytes': 0}}, {'return': null}]}},
 {'rule': {'family': 'inet', 'table': 'gotun', 'chain': 'prerouting', 'handle': 6, 'comment': 'mark-non-direct', 'expr': [
   {'match': {'op': '!=', 'left': {'payload': {'protocol': 'ip', 'field': 'daddr'}}, 'right': '@ru_nets'}},
   {'mangle': {'key': {'meta': {'key': 'mark'}}, 'value': 1}}]}}]}".

Definition kernel_listing (out : string) : RecordingRunner :=
  RecordingRunnerMk [] {["nft -j list table inet gotun" := out]} ∅ "" 0 false.
Definition ex_kernel : RecordingRunner := kernel_listing ex_listing.
Definition ex_kernel_after : RecordingRunner := (run_call (list_call (Nft ex_state)) ex_kernel).2.
Definition ex_outbound_kernel : RecordingRunner := kernel_listing ex_outbound_listing.
Definition ex_outbound_kernel_after : RecordingRunner := (run_call (list_call (Nft ex_outbound_state)) ex_outbound_kernel).2.

Definition ex_json (out : string) : json := default JNull (parse_json out).

Lemma ex_renderable : renderable ex_policy.
Proof. split_and!; try (by repeat constructor). by exists 168427522. Qed.
Lemma ex_outbound_renderable : renderable ex_outbound.
Proof. split_and!; try (by repeat constructor). by exists 168427522. Qed.

(** The objects of a listing. *)
Definition ex_objects (out : string) : list json :=
  match ex_json out with JObj [(_, JArr l)] => l | _ => [] end.
Definition ex_object (out : string) (i : nat) : json := nth i (ex_objects out) JNull.
Definition ex_value (j : json) : json := match j with JObj [(_, v)] => v | _ => JNull end.

Ltac show_object := first [by eexists _, "0", "0"; vm_compute; reflexivity | by repeat eexists; vm_compute; reflexivity].

Lemma ex_shown : shown (Nft ex_state) (ex_json ex_listing).
Proof.
  pose (o := ex_object ex_listing).
  exists (ex_value (o 0%nat)), "7", [o 2%nat; o 3%nat], [o 4%nat; o 5%nat], [o 2%nat; o 3%nat; o 4%nat; o 5%nat],
    [[o 6%nat; o 7%nat; o 8%nat; o 9%nat]; [o 10%nat]].
  split_and!.
  - repeat constructor; [exists "1"|exists "2"]; eexists (JArr [JStr "interval"]), _; (split; [reflexivity|]); by vm_compute.
  - repeat constructor; unfold chain_shown; show_object.
  - done.
  - repeat constructor; unfold rule_shown; show_object.
  - by vm_compute.
Qed.

Lemma ex_outbound_shown : shown (Nft ex_outbound_state) (ex_json ex_outbound_listing).
Proof.
  pose (o := ex_object ex_outbound_listing).
  exists (ex_value (o 0%nat)), "11", [o 3%nat], [o 2%nat], [o 2%nat; o 3%nat], [[o 4%nat; o 5%nat; o 6%nat; o 7%nat]].
  split_and!.
  - repeat constructor. exists "1". eexists (JStr "interval"), _. split; [reflexivity|]. by vm_compute.
  - repeat constructor; unfold chain_shown; show_object.
  - constructor.
  - repeat constructor; unfold rule_shown; show_object.
  - by vm_compute.
Qed.

Lemma ex_listed :
  run_call (list_call (Nft ex_state)) ex_kernel = ((ex_listing, None), ex_kernel_after) ∧
  parse_json ex_listing = Some (ex_json ex_listing) ∧ contains ex_listing "Error" = false.
Proof. split_and!; by vm_compute. Qed.
Lemma ex_outbound_listed :
  run_call (list_call (Nft ex_outbound_state)) ex_outbound_kernel = ((ex_outbound_listing, None), ex_outbound_kernel_after) ∧
  parse_json ex_outbound_listing = Some (ex_json ex_outbound_listing) ∧ contains ex_outbound_listing "Error" = false.
Proof. split_and!; by vm_compute. Qed.

(** Nothing is done for the policy without clients; the table of the policy
    with clients is reloaded. *)
Lemma nft_Reconcile_converged_witness :
  exec (Reconcile ex_ord (Nft ex_outbound_state)) ex_outbound_kernel =
    ((0, None), ex_outbound_kernel_after, [list_call (Nft ex_outbound_state)]) ∧
  (exec (Reconcile ex_ord (Nft ex_state)) ex_kernel).2 =
    [list_call (Nft ex_state); load_call ("delete table inet gotun" +:+ nl +:+ RenderFullTable (Nft ex_state))].
Proof.
  split.
  - destruct ex_outbound_listed as (Hrun & Hp & He).
    pose proof (nft_Reconcile_converged ex_ord ex_outbound ex_outbound_state ex_outbound_kernel ex_outbound_kernel_after _ _
      ex_ord_range eq_refl ex_outbound_renderable Hrun Hp ex_outbound_shown He) as Hc.
    by destruct (exec _ ex_outbound_kernel) as [[? ?] ?].
  - destruct ex_listed as (Hrun & Hp & He).
    pose proof (nft_Reconcile_converged ex_ord ex_policy ex_state ex_kernel ex_kernel_after _ _
      ex_ord_range eq_refl ex_renderable Hrun Hp ex_shown He) as Hc.
    by destruct (exec _ ex_kernel) as [[? ?] ?].
Defined.

(** The table of the policy with clients is taken for that without. *)
Lemma semanticMatchJSON_exact_witness :
  semanticMatchJSON ex_ord ex_listing (Nft ex_outbound_state) = true ∧
  ∀ pkt m, eval_hook (Nft ex_state) "prerouting" pkt m = eval_hook (Nft ex_outbound_state) "prerouting" pkt m.
Proof.
  destruct ex_listed as (_ & Hp & _).
  destruct (semanticMatchJSON_exact ex_ord ex_policy ex_outbound ex_state ex_outbound_state _ _
    ex_ord_range eq_refl eq_refl ex_renderable ex_outbound_renderable Hp ex_shown) as [Hiff Hverdict].
  assert (semanticMatchJSON ex_ord ex_listing (Nft ex_outbound_state) = true) as Hs by (by vm_compute).
  split; [done|]. intros pkt m. apply Hverdict; [done|done|].
  intros h Hh Hb. apply list_elem_of_singleton in Hh as ->. discriminate Hb.
Defined.

Lemma nft_Reconcile_keeps_isolation_witness :
  ∃ st', Compile (narrowed ex_policy) = Ok st' ∧
    (inbound ex_policy = true → Chains (Nft st') ≠ Chains (Nft ex_state)) ∧
    (forallb is_net (DirectPrefixes ex_policy) = false → Sets (Nft st') ≠ Sets (Nft ex_state)) ∧
    exec (Reconcile ex_ord (Nft st')) ex_kernel = ((0, None), ex_kernel_after, [list_call (Nft ex_state)]).
Proof.
  destruct ex_listed as (Hrun & Hp & He).
  refine (nft_Reconcile_keeps_isolation ex_ord ex_policy ex_state ex_kernel ex_kernel_after _ _
    ex_ord_range eq_refl ex_renderable _ eq_refl Hrun Hp ex_shown He).
  constructor; [done|constructor].
Defined.
