(* ===== verification/NftScript.v ===== *)
(** * The meaning of the nftables scripts

    [nft -f] reads a script of commands, one per line, and runs all of them or
    none.  This file gives the commands and statements that [RenderFullTable]
    writes the meaning the manual gives them: [exec_script] is the effect of a
    script on a ruleset (it is [None] for a command outside this language, or
    one that fails), [table_verdict] what a table does with a packet at a hook.

    The result is that the table declared by the script of a compiled policy
    does with every packet what the policy data model says ([Spec.eval_hook]):
    the rendering of rules as text loses nothing. *)

From stdpp Require Import base list strings sorting gmap.
From Stdlib Require Import ZArith Lia Ascii.
From S2P Require Import Prelude GoStrings Netip Runner Policy Json Nftables.

Import Policy.Spec.

(** ** Tables *)

Inductive operand :=
| OpNet (p : Prefix)
| OpSet (name : string).

(** The statements of a rule: matches, then effects. *)
Inductive stmt :=
| MatchIPv6
| MatchDaddr (neg : bool) (o : operand)
| MatchIif (name : string)
| Counter
| SetMark (mark : Z)
| DropIt
| Return.

Record chain := ChainMk { c_hook : string; c_prio : Z; c_accept : bool; c_rules : list (list stmt) }.
Record table := TableMk { t_sets : gmap string (list Prefix); t_chains : list (string * chain) }.

#[global] Instance operand_eq_dec : EqDecision operand.
Proof. solve_decision. Defined.
#[global] Instance stmt_eq_dec : EqDecision stmt.
Proof. solve_decision. Defined.
#[global] Instance chain_eq_dec : EqDecision chain.
Proof. solve_decision. Defined.
#[global] Instance table_eq_dec : EqDecision table.
Proof. solve_decision. Defined.

(** The tables, by family and name. *)
Definition ruleset : Type := gmap (string * string) table.

(** ** Packets *)

Inductive progress :=
| Next (mark : Z)
| Done (v : verdict).

Definition member (sets : gmap string (list Prefix)) (o : operand) (a : Addr) : bool :=
  match o with
  | OpNet p => Contains p a
  | OpSet name => in_prefixes (default [] (sets !! name)) a
  end.

(** One rule: the statements until one does not match or ends the chain.
    [ip daddr] only matches IPv4 packets. A return from a chain attached to a
    hook is its policy. *)
Fixpoint run_rule (sets : gmap string (list Prefix)) (final : Z → verdict) (pkt : packet) (mark : Z) (ss : list stmt) : progress :=
  match ss with
  | [] => Next mark
  | MatchIPv6 :: ss => if Is6 (dst pkt) then run_rule sets final pkt mark ss else Next mark
  | MatchDaddr neg o :: ss =>
      if Is4 (dst pkt) && xorb neg (member sets o (dst pkt)) then run_rule sets final pkt mark ss else Next mark
  | MatchIif name :: ss => if String.eqb (iif pkt) name then run_rule sets final pkt mark ss else Next mark
  | Counter :: ss => run_rule sets final pkt mark ss
  | SetMark m :: ss => run_rule sets final pkt m ss
  | DropIt :: _ => Done Drop
  | Return :: _ => Done (final mark)
  end.

Fixpoint run_rules (sets : gmap string (list Prefix)) (final : Z → verdict) (pkt : packet) (mark : Z) (rs : list (list stmt)) : verdict :=
  match rs with
  | [] => final mark
  | r :: rs => match run_rule sets final pkt mark r with
               | Done v => v
               | Next mark => run_rules sets final pkt mark rs
               end
  end.

Definition chain_verdict (sets : gmap string (list Prefix)) (c : chain) (pkt : packet) (mark : Z) : verdict :=
  run_rules sets (λ m, if c_accept c then Pass m else Drop) pkt mark (c_rules c).

Definition before (a b : chain) : Prop := c_prio a <= c_prio b.
#[global] Instance before_dec : RelDecision before.
Proof. unfold before. solve_decision. Defined.

(** The chains of a hook, by priority. *)
Definition at_hook (t : table) (hook : string) : list chain :=
  merge_sort before (List.filter (λ c, String.eqb (c_hook c) hook) (t_chains t).*2).

Definition table_verdict (t : table) (hook : string) (pkt : packet) (mark : Z) : verdict :=
  foldl (λ v c, match v with Drop => Drop | Pass m => chain_verdict (t_sets t) c pkt m end) (Pass mark) (at_hook t hook).

(** ** Commands *)

(** A word ended by one given character, without it. *)
Definition chop (sep : ascii) (w : string) : option string :=
  match cut w sep with Some (x, "") => Some x | _ => None end.

Definition unquote (w : string) : option string :=
  match w with
  | String c w => if Ascii.eqb c dq then chop dq w else None
  | "" => None
  end.

(** An IPv4 network or address. *)
Definition parse_net (w : string) : option Prefix :=
  match ParsePrefix w with
  | Ok p => if Is4 (p_ip p) then Some p else None
  | Err _ => match ParseAddr_opt w with Some (Addr4 n) => Some (PrefixMk (Addr4 n) 32) | _ => None end
  end.

Definition parse_operand (w : string) : option operand :=
  match w with
  | String c name => if Ascii.eqb c "@" then Some (OpSet name) else OpNet <$> parse_net w
  | "" => None
  end.

Definition parse_hex (w : string) : option Z :=
  if has_prefix w "0x" then match ParseUint (trim_prefix w "0x") 16 32 with NumOk m => Some m | _ => None end else None.

Fixpoint parse_stmts (ws : list string) : option (list stmt) :=
  match ws with
  | [] => Some []
  | w :: ws =>
      if String.eqb w "drop" then cons DropIt <$> parse_stmts ws
      else if String.eqb w "return" then cons Return <$> parse_stmts ws
      else if String.eqb w "counter" then cons Counter <$> parse_stmts ws
      else match ws with
      | [] => None
      | w2 :: ws =>
          if String.eqb w "comment" then if bool_decide (ws = []) then Some [] else None
          else if String.eqb w "iifname" then n ← unquote w2; cons (MatchIif n) <$> parse_stmts ws
          else match ws with
          | [] => None
          | w3 :: ws =>
              if String.eqb w "meta" && String.eqb w2 "nfproto" then
                if String.eqb w3 "ipv6" then cons MatchIPv6 <$> parse_stmts ws else None
              else if String.eqb w "ip" && String.eqb w2 "daddr" && negb (String.eqb w3 "!=") then
                o ← parse_operand w3; cons (MatchDaddr false o) <$> parse_stmts ws
              else match ws with
              | [] => None
              | w4 :: ws =>
                  if String.eqb w "ip" && String.eqb w2 "daddr" then
                    o ← parse_operand w4; cons (MatchDaddr true o) <$> parse_stmts ws
                  else if String.eqb w "meta" && String.eqb w2 "mark" && String.eqb w3 "set" then
                    m ← parse_hex w4; cons (SetMark m) <$> parse_stmts ws
                  else None
              end
          end
      end
  end.

(** The elements of [{ e1, e2, ... }], after the opening brace. *)
Fixpoint parse_elements (ws : list string) : option (list Prefix) :=
  match ws with
  | [] => None
  | w :: ws =>
      if String.eqb w "}" then if bool_decide (ws = []) then Some [] else None
      else p ← parse_net (default w (chop "," w)); cons p <$> parse_elements ws
  end.

(** Adding to a table; a set or chain that is there stays as it is. *)
Definition add_set (name : string) (ws : list string) (t : table) : option table :=
  if bool_decide (ws = ["{"; "type"; "ipv4_addr;"; "flags"; "interval;"; "}"]) then
    Some (if bool_decide (is_Some (t_sets t !! name)) then t else TableMk (<[name := []]> (t_sets t)) (t_chains t))
  else None.

(** Different networks that have an address in common: an interval set holds no
    two such, while an element that is there may be added again. *)
Definition clash (p q : Prefix) : bool :=
  (Contains p (p_ip q) || Contains q (p_ip p)) && negb (bool_decide (Masked p = Masked q)).
Definition conflict_free (l : list Prefix) : bool := forallb (λ p, forallb (λ q, negb (clash p q)) l) l.

Definition add_element (name : string) (ws : list string) (t : table) : option table :=
  match ws with
  | w :: ws =>
      if String.eqb w "{" then
        old ← t_sets t !! name;
        els ← parse_elements ws;
        if conflict_free (old ++ els) then Some (TableMk (<[name := old ++ els]> (t_sets t)) (t_chains t)) else None
      else None
  | [] => None
  end.

Definition add_chain (name : string) (ws : list string) (t : table) : option table :=
  match ws with
  | [o; ty; filter; hk; hook; pr; prio; po; pol; c] =>
      if bool_decide ([o; ty; filter; hk; pr; po; c] = ["{"; "type"; "filter"; "hook"; "priority"; "policy"; "}"]) then
        prio ← chop ";" prio;
        pol ← chop ";" pol;
        if (Atoi prio).2 && (String.eqb pol "accept" || String.eqb pol "drop") then
          Some (if bool_decide (name ∈ (t_chains t).*1) then t
                else TableMk (t_sets t) (t_chains t ++ [(name, ChainMk hook (Atoi prio).1 (String.eqb pol "accept") [])]))
        else None
      else None
  | _ => None
  end.

(** A rule is added at the end of its chain. *)
Fixpoint add_to_chain (name : string) (r : list stmt) (cs : list (string * chain)) : option (list (string * chain)) :=
  match cs with
  | [] => None
  | (n, c) :: cs =>
      if String.eqb n name then Some ((n, ChainMk (c_hook c) (c_prio c) (c_accept c) (c_rules c ++ [r])) :: cs)
      else cons (n, c) <$> add_to_chain name r cs
  end.

Definition add_rule (name : string) (ws : list string) (t : table) : option table :=
  r ← parse_stmts ws; cs ← add_to_chain name r (t_chains t); Some (TableMk (t_sets t) cs).

Definition add_to (obj name : string) (ws : list string) (t : table) : option table :=
  if String.eqb obj "set" then add_set name ws t
  else if String.eqb obj "element" then add_element name ws t
  else if String.eqb obj "chain" then add_chain name ws t
  else if String.eqb obj "rule" then add_rule name ws t
  else None.

Definition exec_words (ws : list string) (r : ruleset) : option ruleset :=
  match ws with
  | verb :: obj :: fam :: tab :: ws =>
      if String.eqb obj "table" then
        if negb (bool_decide (ws = [])) then None
        else if String.eqb verb "add" then
          Some (if bool_decide (is_Some (r !! (fam, tab))) then r else <[(fam, tab) := TableMk ∅ []]> r)
        else if String.eqb verb "delete" then _ ← r !! (fam, tab); Some (delete (fam, tab) r)
        else None
      else if String.eqb verb "add" then
        match ws with
        | name :: ws => t ← r !! (fam, tab); t' ← add_to obj name ws t; Some (<[(fam, tab) := t']> r)
        | [] => None
        end
      else None
  | _ => None
  end.

Fixpoint exec_lines (ls : list string) (r : ruleset) : option ruleset :=
  match ls with
  | [] => Some r
  | l :: ls =>
      r' ← (if String.eqb l "" then Some r else exec_words (split l " ") r);
      exec_lines ls r'
  end.

Definition exec_script (script : string) (r : ruleset) : option ruleset := exec_lines (split script (char_of 10)) r.

(** ** Lemmas: the script as lines *)

Lemma concat_cons_str s l : String.concat "" (s :: l) = s +:+ String.concat "" l.
Proof. destruct l; simpl; [by rewrite app_nil_r_str|done]. Qed.

Lemma lines_text_app l1 l2 : lines_text (l1 ++ l2) = lines_text l1 +:+ lines_text l2.
Proof. induction l1 as [|l l1 IH]; [done|]. cbn [app]. by rewrite !lines_text_cons, IH, !app_assoc_str. Qed.

Lemma concat_lines {A} (f : A → string) (g : A → list string) xs :
  (∀ x, f x = lines_text (g x)) → String.concat "" (f <$> xs) = lines_text (xs ≫= g).
Proof.
  intros Hf. induction xs as [|x xs IH]; [done|].
  change (f <$> x :: xs) with (f x :: (f <$> xs)). change ((x :: xs) ≫= g) with (g x ++ (xs ≫= g)).
  by rewrite concat_cons_str, lines_text_app, IH, Hf.
Qed.

Lemma concat_nl {A} (f : A → string) xs : String.concat "" ((λ x, f x +:+ nl) <$> xs) = lines_text (f <$> xs).
Proof. unfold lines_text. by rewrite <-list_fmap_compose. Qed.

(** The lines for a set and for a chain of a table. *)
Section lines.
Context (fam tab : string).

Definition batch_line (name : string) (batch : list string) : string :=
  "add element " +:+ fam +:+ " " +:+ tab +:+ " " +:+ name +:+ " { " +:+ join batch ", " +:+ " }".
Definition set_lines (s : NftSetSpec) : list string :=
  ("add set " +:+ fam +:+ " " +:+ tab +:+ " " +:+ set_Name s +:+ " { type " +:+ set_Type s +:+ "; flags interval; }") ::
  (batch_line (set_Name s) <$> chunks (length (prefixesToStrings s)) (Z.to_nat ElementBatchSize) (prefixesToStrings s)).
Definition rule_line (chain line : string) : string := "add rule " +:+ fam +:+ " " +:+ tab +:+ " " +:+ chain +:+ " " +:+ line.
Definition chain_lines (c : NftChainSpec) : list string :=
  ("add chain " +:+ fam +:+ " " +:+ tab +:+ " " +:+ ch_Name c +:+ " { type " +:+ ch_Type c +:+ " hook " +:+
   ch_Hook c +:+ " priority " +:+ itoa (ch_Priority c) +:+ "; policy " +:+ ch_Policy c +:+ "; }") ::
  (rule_line (ch_Name c) <$> renderRuleLines c).

Lemma renderSet_lines s : renderSet fam tab s = lines_text (set_lines s).
Proof.
  unfold renderSet, set_lines. rewrite lines_text_cons, !app_assoc_str. do 10 f_equal.
  unfold writeBatchedElements. rewrite <-concat_nl. f_equal. apply list_fmap_ext. intros i b _.
  unfold batch_line. by rewrite !app_assoc_str.
Qed.

Lemma renderChain_lines c : renderChain fam tab c = lines_text (chain_lines c).
Proof.
  unfold renderChain, chain_lines. rewrite lines_text_cons, !app_assoc_str. do 16 f_equal.
  rewrite <-concat_nl. f_equal. apply list_fmap_ext. intros i l _. unfold rule_line. by rewrite !app_assoc_str.
Qed.
End lines.

Definition script_lines (spec : NftSpec) : list string :=
  ("add table " +:+ Family spec +:+ " " +:+ nft_Table spec) ::
  (Sets spec ≫= set_lines (Family spec) (nft_Table spec)) ++ (Chains spec ≫= chain_lines (Family spec) (nft_Table spec)).

Lemma RenderFullTable_lines spec : RenderFullTable spec = lines_text (script_lines spec).
Proof.
  unfold RenderFullTable, script_lines. rewrite lines_text_cons, lines_text_app, !app_assoc_str. do 4 f_equal.
  by rewrite (concat_lines _ _ _ (renderSet_lines _ _)), (concat_lines _ _ _ (renderChain_lines _ _)).
Qed.

(** ** Lemmas: running the lines *)

Lemma exec_lines_app l1 l2 r : exec_lines (l1 ++ l2) r = r' ← exec_lines l1 r; exec_lines l2 r'.
Proof.
  revert r. induction l1 as [|l l1 IH]; intros r; [done|]. cbn [app exec_lines].
  destruct (if String.eqb l "" then Some r else _) as [r'|]; [|done]. apply IH.
Qed.

Lemma exec_lines_cons l ls r : exec_lines (l :: ls) r = r' ← exec_lines [l] r; exec_lines ls r'.
Proof. apply (exec_lines_app [l]). Qed.

(** The owned table. *)
Definition own (r : ruleset) (t : table) : ruleset := <[("inet", "gotun") := t]> r.

(** A line whose words are known, which changes the owned table. *)
Lemma exec_own l obj name ws r t t' :
  split l " " = "add" :: obj :: "inet" :: "gotun" :: name :: ws → String.eqb obj "table" = false →
  add_to obj name ws t = t' → exec_lines [l] (own r t) = own r <$> t'.
Proof.
  intros Hs Ho <-. cbn [exec_lines].
  assert (String.eqb l "" = false) as -> by (apply String.eqb_neq; intros ->; by vm_compute in Hs).
  rewrite Hs. unfold exec_words, own. rewrite Ho. change (("add" =? "add")%string) with true. cbn iota.
  unfold ruleset in *. rewrite lookup_insert_eq. cbn [mbind option_bind].
  destruct (add_to obj name ws t); [|done]. cbn [mbind option_bind fmap option_fmap option_map]. by rewrite insert_insert_eq.
Qed.

(** *** Operands *)

Lemma parse_net_prefix p : prefix4 p → parse_net (prefix_string p) = Some p.
Proof.
  intros Hp. unfold parse_net. rewrite ParsePrefix_string by done.
  destruct (prefix4_inv p Hp) as (n & b & -> & _). done.
Qed.

Lemma cidr_not c d s : is_cidr_char d = false → string_forall is_cidr_char (String c s) = true → Ascii.eqb c d = false.
Proof.
  intros Hd [Hc _]%andb_true_iff. destruct (Ascii.eqb_spec c d) as [->|]; [congruence|done].
Qed.

Lemma parse_operand_cidr w p :
  w ≠ "" → string_forall is_cidr_char w = true → parse_net w = Some p → parse_operand w = Some (OpNet p).
Proof.
  intros Hne Hw Hp. destruct w as [|c w]; [done|]. unfold parse_operand. rewrite (cidr_not c "@" w) by done. by rewrite Hp.
Qed.

Lemma parse_net_addr n : 0 <= n < 2 ^ 32 → parse_net (string4 n) = Some (PrefixMk (Addr4 n) 32).
Proof.
  intros Hn. unfold parse_net. rewrite ParseAddr_string4 by done.
  assert (∃ e, ParsePrefix (string4 n) = Err e) as [e ->]; [|done].
  unfold ParsePrefix, ParsePrefix_opt. rewrite cut_last_no_char by apply string4_no_slash. by eexists.
Qed.

Lemma parse_hex_fmt m : 0 <= m < 2 ^ 32 → parse_hex ("0x" +:+ fmt_x m) = Some m.
Proof.
  intros Hm. unfold parse_hex. rewrite (proj2 (has_prefix_spec _ _)) by by eexists. rewrite trim_prefix_app.
  unfold fmt_x. by rewrite ParseUint_fmt.
Qed.

(** *** Elements *)

Lemma cut_no_char sep s : no_char sep s = true → cut s sep = None.
Proof.
  induction s as [|c s IH]; simpl; [done|]. intros [Hc%negb_true_iff Hs]%andb_true_iff. by rewrite Hc, (IH Hs).
Qed.

Lemma not_brace w s : w ≠ "" → string_forall is_cidr_char w = true → String.eqb (w +:+ s) "}" = false.
Proof.
  intros Hne Hw. destruct w as [|c w]; [done|]. apply String.eqb_neq. intros [= -> _].
  by apply (cidr_not "}" "}" w) in Hw.
Qed.

Lemma parse_elements_batch batch :
  Forall prefix4 batch → batch ≠ [] → parse_elements (split (join (prefix_string <$> batch) ", " +:+ " }") " ") = Some batch.
Proof.
  intros Hb Hne. induction Hb as [|p ps Hp Hps IH]; [done|].
  pose proof (prefix_string_chars p Hp) as Hc. pose proof (prefix_string_nonempty p Hp) as Hn.
  assert (∀ s ws, chop "," (prefix_string p +:+ s) = (if String.eqb s "," then Some (prefix_string p) else None) →
    parse_elements ((prefix_string p +:+ s) :: ws) = if String.eqb s "" || String.eqb s "," then cons p <$> parse_elements ws else
      q ← parse_net (default (prefix_string p +:+ s) (chop "," (prefix_string p +:+ s))); cons q <$> parse_elements ws) as Hstep.
  { intros s ws Hch. cbn [parse_elements]. rewrite not_brace, Hch by done.
    destruct (String.eqb_spec s "") as [->|]; [|destruct (String.eqb s ","); [|done]]; cbn [orb default];
      rewrite ?app_nil_r_str; cbn; by rewrite parse_net_prefix. }
  destruct ps as [|q ps].
  - cbn [fmap list_fmap join]. change (prefix_string p +:+ " }") with (prefix_string p +:+ String " " "}").
    rewrite split_app by (by apply cidr_chars_no_char). rewrite <-(app_nil_r_str (prefix_string p)) at 1. rewrite Hstep; [done|].
    rewrite app_nil_r_str. unfold chop. by rewrite cut_no_char by (by apply cidr_chars_no_char).
  - change (join (prefix_string <$> p :: q :: ps) ", ")
      with (prefix_string p +:+ String "," (String " " (join (prefix_string <$> q :: ps) ", "))).
    assert (∀ w s, w +:+ String "," (String " " s) = (w +:+ ",") +:+ String " " s) as Hcomma by (intros; by rewrite app_assoc_str).
    rewrite Hcomma, app_assoc_str. cbn [String.append]. rewrite split_app.
    2:{ unfold no_char. rewrite string_forall_app. fold (no_char " " (prefix_string p)). by rewrite cidr_chars_no_char. }
    rewrite Hstep; [cbn [orb String.eqb]; by rewrite IH|]. unfold chop. by rewrite cut_app by (by apply cidr_chars_no_char).
Qed.

Lemma conflict_free_app l1 l2 : conflict_free (l1 ++ l2) = true → conflict_free l1 = true.
Proof.
  unfold conflict_free. rewrite !forallb_forall_elem. setoid_rewrite forallb_forall_elem. intros H p Hp q Hq.
  apply H; apply elem_of_app; by left.
Qed.

Lemma exec_batches name S C r ls : no_char " " name = true → Forall (λ b, Forall prefix4 b ∧ b ≠ []) ls →
  ∀ old, conflict_free old = true →
  exec_lines (batch_line "inet" "gotun" name <$> ((fmap prefix_string) <$> ls)) (own r (TableMk (<[name := old]> S) C)) =
  if conflict_free (old ++ concat ls) then Some (own r (TableMk (<[name := old ++ concat ls]> S) C)) else None.
Proof.
  intros Hname Hls. induction Hls as [|b ls [Hb Hne] _ IH]; intros old Hold; [by rewrite app_nil_r, Hold|].
  rewrite !fmap_cons, exec_lines_cons.
  rewrite (exec_own _ "element" name ("{" :: split (join (prefix_string <$> b) ", " +:+ " }") " ") r _
             (if conflict_free (old ++ b) then Some (TableMk (<[name := old ++ b]> S) C) else None)).
  - cbn [concat]. rewrite app_assoc. destruct (conflict_free (old ++ b)) eqn:E; cbn [mbind option_bind fmap option_fmap option_map]; [by apply IH|].
    destruct (conflict_free ((old ++ b) ++ concat ls)) eqn:E'; [|done]. apply conflict_free_app in E'. congruence.
  - unfold batch_line. transitivity ("add" :: "element" :: "inet" :: "gotun" ::
      split (name +:+ String " " ("{" +:+ String " " (join (prefix_string <$> b) ", " +:+ " }"))) " "); [reflexivity|].
    rewrite (split_app " " name) by done. by rewrite (split_app " " "{") by done.
  - done.
  - unfold add_to, add_element. cbn [String.eqb]. simpl String.eqb. cbn [t_sets t_chains]. rewrite lookup_insert_eq. cbn [mbind option_bind].
    rewrite parse_elements_batch by done. cbn [mbind option_bind]. by rewrite insert_insert_eq.
Qed.

(** *** Rules *)

Lemma add_to_chain_last name g C c :
  name ∉ C.*1 →
  add_to_chain name g (C ++ [(name, c)]) = Some (C ++ [(name, ChainMk (c_hook c) (c_prio c) (c_accept c) (c_rules c ++ [g]))]).
Proof.
  induction C as [|[n c'] C IH]; intros Hn; [simpl; by rewrite String.eqb_refl|]. cbn [app add_to_chain].
  apply not_elem_of_cons in Hn as [Hne Hn]. rewrite (proj2 (String.eqb_neq _ _)) by (intros ->; by apply Hne).
  by rewrite IH.
Qed.

Lemma exec_rules name S C h pr a r lines gs : no_char " " name = true → name ∉ C.*1 →
  Forall2 (λ l g, parse_stmts (split l " ") = Some g) lines gs →
  ∀ rs, exec_lines (rule_line "inet" "gotun" name <$> lines) (own r (TableMk S (C ++ [(name, ChainMk h pr a rs)]))) =
        Some (own r (TableMk S (C ++ [(name, ChainMk h pr a (rs ++ gs))]))).
Proof.
  intros Hname Hfresh Hl. induction Hl as [|l g lines gs Hg _ IH]; intros rs; [by rewrite app_nil_r|].
  rewrite fmap_cons, exec_lines_cons.
  rewrite (exec_own _ "rule" name (split l " ") r _ (Some (TableMk S (C ++ [(name, ChainMk h pr a (rs ++ [g]))])))).
  - cbn [mbind option_bind fmap option_fmap option_map]. rewrite IH. by rewrite <-app_assoc.
  - transitivity ("add" :: "rule" :: "inet" :: "gotun" :: split (name +:+ String " " l) " "); [reflexivity|].
    by rewrite split_app.
  - done.
  - change (add_to "rule" name (split l " ")) with (add_rule name (split l " ")). unfold add_rule. rewrite Hg.
    cbn [mbind option_bind t_chains t_sets]. by rewrite add_to_chain_last.
Qed.

Lemma parse_daddr w o ws :
  String.eqb w "!=" = false → parse_operand w = Some o →
  parse_stmts ("ip" :: "daddr" :: w :: ws) = cons (MatchDaddr false o) <$> parse_stmts ws.
Proof. intros Hw Ho. simpl. rewrite Hw. simpl. by rewrite Ho. Qed.

Lemma cidr_not_bang w : w ≠ "" → string_forall is_cidr_char w = true → String.eqb w "!=" = false.
Proof. intros Hne Hw. apply String.eqb_neq. by intros ->. Qed.

(** The statements of the rules of the compiled policy. *)
Definition lan_stmts (q : Prefix) : list stmt := [MatchDaddr false (OpNet q); Return].
Definition endpoint_stmts (e : Z) : list stmt := [MatchDaddr false (OpNet (PrefixMk (Addr4 e) 32)); Counter; Return].
Definition mark_stmts (m : Z) : list stmt := [MatchDaddr true (OpSet RuNetsSetName); SetMark m].
Definition isolate_stmts : list stmt := [MatchIif DefaultClientsIface; MatchDaddr false (OpSet HomeNetsSetName); DropIt].

Lemma parse_lan q : prefix4 q →
  parse_stmts (split ("ip daddr " +:+ prefix_string q +:+ dquoted " return comment 'exclude-lan'") " ") = Some (lan_stmts q).
Proof.
  intros Hq. pose proof (prefix_string_chars q Hq). pose proof (prefix_string_nonempty q Hq).
  transitivity (parse_stmts ("ip" :: "daddr" :: split (prefix_string q +:+ String " " (dquoted "return comment 'exclude-lan'")) " ")); [reflexivity|].
  rewrite split_app by (by apply cidr_chars_no_char).
  by rewrite (parse_daddr _ (OpNet q)) by (by first [apply cidr_not_bang | apply parse_operand_cidr; [..|apply parse_net_prefix]]).
Qed.

Lemma parse_endpoint e : 0 <= e < 2 ^ 32 →
  parse_stmts (split ("ip daddr " +:+ addr_string (Addr4 e) +:+ dquoted " counter return comment 'exclude-endpoint'") " ") =
  Some (endpoint_stmts e).
Proof.
  intros He. pose proof (string4_chars e). pose proof (string4_nonempty e "") as Hn. rewrite app_nil_r_str in Hn.
  apply String.eqb_neq in Hn. change (addr_string (Addr4 e)) with (string4 e).
  transitivity (parse_stmts ("ip" :: "daddr" :: split (string4 e +:+ String " " (dquoted "counter return comment 'exclude-endpoint'")) " ")); [reflexivity|].
  rewrite split_app by (by apply cidr_chars_no_char).
  by rewrite (parse_daddr _ (OpNet (PrefixMk (Addr4 e) 32)))
    by (by first [apply cidr_not_bang | apply parse_operand_cidr; [..|apply parse_net_addr]]).
Qed.

Lemma parse_mark m : 0 <= m < 2 ^ 32 →
  parse_stmts (split ("ip daddr != @" +:+ RuNetsSetName +:+ " meta mark set 0x" +:+ fmt_x m +:+ dquoted " comment 'mark-non-direct'") " ") =
  Some (mark_stmts m).
Proof.
  intros Hm.
  transitivity (parse_stmts ("ip" :: "daddr" :: "!=" :: "@ru_nets" :: "meta" :: "mark" :: "set" ::
    split (("0x" +:+ fmt_x m) +:+ String " " (dquoted "comment 'mark-non-direct'")) " ")); [reflexivity|].
  rewrite split_app. 2:{ unfold no_char. rewrite string_forall_app. apply andb_true_iff. split; [done|].
    apply num_chars_no_char; [done|]. apply fmt_uint_chars; lia. }
  pose proof (parse_hex_fmt m Hm) as Hw. set (w := "0x" +:+ fmt_x m) in *. clearbody w. simpl. by rewrite Hw.
Qed.

(** ** The table of a compiled policy *)

Definition prerouting_rules (p : Policy) (e : Z) : list (list stmt) :=
  [MatchIPv6; DropIt] :: (lan_stmts <$> LANs p) ++ [endpoint_stmts e; mark_stmts (policy_mark p)].

Definition compiled_table (p : Policy) (e : Z) : table :=
  let pre := ("prerouting", ChainMk "prerouting" (-150) true (prerouting_rules p e)) in
  if inbound p
  then TableMk (<[HomeNetsSetName := LANs p]> (<[RuNetsSetName := DirectPrefixes p]> ∅))
         [pre; ("forward", ChainMk "forward" 0 true [isolate_stmts])]
  else TableMk (<[RuNetsSetName := DirectPrefixes p]> ∅) [pre].

Lemma chunks_fmap {A B : Type} (f : A → B) fuel n (l : list A) :
  chunks fuel n (fmap (M:=list) f l) = fmap (M:=list) (fmap (M:=list) f) (chunks fuel n l).
Proof.
  revert l. induction fuel as [|fuel IH]; intros [|x l]; [done..|]. cbn [chunks fmap list_fmap].
  rewrite <-fmap_cons, <-fmap_take, <-fmap_drop. f_equal. apply IH.
Qed.

(** A set declared with its elements. *)
Lemma exec_set name els S C r :
  no_char " " name = true → S !! name = None → Forall prefix4 els →
  exec_lines (set_lines "inet" "gotun" (NftSetSpecMk name "ipv4_addr" ["interval"] els)) (own r (TableMk S C)) =
  if conflict_free els then Some (own r (TableMk (<[name := els]> S) C)) else None.
Proof.
  intros Hname Hfresh Hels. unfold set_lines. rewrite exec_lines_cons. cbn [set_Name set_Type].
  rewrite (exec_own _ "set" name ["{"; "type"; "ipv4_addr;"; "flags"; "interval;"; "}"] r _ (Some (TableMk (<[name := []]> S) C))).
  - cbn [mbind option_bind fmap option_fmap option_map]. unfold prefixesToStrings. cbn [set_Elements]. rewrite length_fmap, chunks_fmap.
    rewrite exec_batches; [|done| |done].
    + by rewrite app_nil_l, chunks_concat by (unfold ElementBatchSize; lia).
    + pose proof (chunks_bound (length els) (Z.to_nat ElementBatchSize) els ltac:(unfold ElementBatchSize; lia)) as Hb.
      apply list.Forall_forall. intros b Hin. rewrite list.Forall_forall in Hb. specialize (Hb b Hin).
      split; [|intros ->; simpl in Hb; lia]. apply list.Forall_forall. intros q Hq.
      rewrite list.Forall_forall in Hels. apply Hels. rewrite <-(chunks_concat (length els) (Z.to_nat ElementBatchSize) els)
        by (unfold ElementBatchSize; lia).
      apply list_elem_of_In, in_concat. exists b. by rewrite <-!list_elem_of_In.
  - transitivity ("add" :: "set" :: "inet" :: "gotun" :: split (name +:+ String " " "{ type ipv4_addr; flags interval; }") " "); [reflexivity|].
    by rewrite split_app.
  - done.
  - change (add_to "set" name ?ws) with (add_set name ws). unfold add_set. rewrite bool_decide_true by done. cbn [t_sets t_chains].
    by rewrite Hfresh, bool_decide_false by (by intros [? ?]).
Qed.

(** A chain declared with its rules. *)
Lemma exec_chain c prio S C r gs :
  no_char " " (ch_Name c) = true → ch_Name c ∉ C.*1 →
  split ("{ type " +:+ ch_Type c +:+ " hook " +:+ ch_Hook c +:+ " priority " +:+ itoa (ch_Priority c) +:+ "; policy " +:+ ch_Policy c +:+ "; }") " " =
    ["{"; "type"; "filter"; "hook"; ch_Hook c; "priority"; prio; "policy"; "accept;"; "}"] →
  chop ";" prio = Some (itoa (ch_Priority c)) → Atoi (itoa (ch_Priority c)) = (ch_Priority c, true) →
  Forall2 (λ l g, parse_stmts (split l " ") = Some g) (renderRuleLines c) gs →
  exec_lines (chain_lines "inet" "gotun" c) (own r (TableMk S C)) =
  Some (own r (TableMk S (C ++ [(ch_Name c, ChainMk (ch_Hook c) (ch_Priority c) true gs)]))).
Proof.
  intros Hname Hfresh Hwords Hprio Hatoi Hrules. unfold chain_lines. rewrite exec_lines_cons.
  rewrite (exec_own _ "chain" (ch_Name c) ["{"; "type"; "filter"; "hook"; ch_Hook c; "priority"; prio; "policy"; "accept;"; "}"] r _
    (Some (TableMk S (C ++ [(ch_Name c, ChainMk (ch_Hook c) (ch_Priority c) true [])])))).
  - cbn [mbind option_bind fmap option_fmap option_map]. by rewrite (exec_rules _ _ _ _ _ _ _ _ gs) by done.
  - rewrite <-Hwords. transitivity ("add" :: "chain" :: "inet" :: "gotun" :: split (ch_Name c +:+ String " "
      ("{ type " +:+ ch_Type c +:+ " hook " +:+ ch_Hook c +:+ " priority " +:+ itoa (ch_Priority c) +:+ "; policy " +:+ ch_Policy c +:+ "; }")) " ");
      [reflexivity|]. by rewrite split_app.
  - done.
  - change (add_to "chain" ?n ?ws) with (add_chain n ws). unfold add_chain. rewrite bool_decide_true by done.
    rewrite Hprio. cbn [mbind option_bind]. change (chop ";" "accept;") with (Some "accept"). cbn [mbind option_bind].
    rewrite Hatoi. change (("accept" =? "accept")%string) with true. cbn [fst snd orb andb t_chains t_sets].
    by rewrite bool_decide_false.
Qed.

(** *** No line contains a newline *)

Definition flat (s : string) : Prop := no_char (char_of 10) s = true.

Lemma flat_app s t : flat s → flat t → flat (s +:+ t).
Proof. unfold flat, no_char. rewrite string_forall_app. by intros -> ->. Qed.

Lemma flat_cidr s : string_forall is_cidr_char s = true → flat s.
Proof. by apply cidr_chars_no_char. Qed.

Lemma flat_join sep ws : flat sep → Forall flat ws → flat (join ws sep).
Proof. intros. by apply no_char_join. Qed.

Lemma set_lines_flat name els :
  flat name → Forall prefix4 els → Forall flat (set_lines "inet" "gotun" (NftSetSpecMk name "ipv4_addr" ["interval"] els)).
Proof.
  intros Hname Hels. unfold set_lines. apply list.Forall_cons. split; [by repeat apply flat_app|].
  apply list.Forall_forall. intros l (b & -> & Hb)%list_elem_of_fmap. unfold batch_line. cbn [set_Name].
  repeat (apply flat_app; [done|]). apply flat_app; [|done]. apply flat_join; [done|].
  apply list.Forall_forall. intros w Hw. assert (w ∈ concat (chunks (length (prefixesToStrings (NftSetSpecMk name "ipv4_addr" ["interval"] els)))
    (Z.to_nat ElementBatchSize) (prefixesToStrings (NftSetSpecMk name "ipv4_addr" ["interval"] els)))) as Hin.
  { apply list_elem_of_In, in_concat. exists b. by rewrite <-!list_elem_of_In. }
  rewrite chunks_concat in Hin by (unfold ElementBatchSize; lia). apply list_elem_of_fmap in Hin as (q & -> & Hq).
  rewrite list.Forall_forall in Hels. by apply flat_cidr, prefix_string_chars, Hels.
Qed.

Lemma chain_lines_flat c : flat (ch_Name c) →
  flat (ch_Type c +:+ " hook " +:+ ch_Hook c +:+ " priority " +:+ itoa (ch_Priority c) +:+ "; policy " +:+ ch_Policy c +:+ "; }") →
  Forall flat (renderRuleLines c) → Forall flat (chain_lines "inet" "gotun" c).
Proof.
  intros Hname Hattr Hrules. unfold chain_lines. apply list.Forall_cons. split; [by repeat (apply flat_app; [done|])|].
  apply list.Forall_fmap. eapply list.Forall_impl; [done|]. intros l Hl. unfold compose, rule_line. by repeat (apply flat_app; [done|]).
Qed.

(** The rule lines of the prerouting chain. *)
Definition prerouting_spec (p : Policy) : NftChainSpec :=
  NftChainSpecMk "prerouting" "filter" "prerouting" (-150) "accept" [drop_ipv6_rule; mark_rule p].
Definition forward_spec : NftChainSpec := NftChainSpecMk "forward" "filter" "forward" 0 "accept" [isolate_rule].

Lemma prerouting_lines p :
  renderRuleLines (prerouting_spec p) = dquoted "meta nfproto ipv6 drop comment 'drop-ipv6'" ::
    ((λ q, "ip daddr " +:+ prefix_string q +:+ dquoted " return comment 'exclude-lan'") <$> LANs p) ++
    ["ip daddr " +:+ addr_string (TunnelEndpoint p) +:+ dquoted " counter return comment 'exclude-endpoint'";
     "ip daddr != @" +:+ RuNetsSetName +:+ " meta mark set 0x" +:+ fmt_x (policy_mark p) +:+ dquoted " comment 'mark-non-direct'"].
Proof.
  unfold renderRuleLines, prerouting_spec. cbn [ch_Rules fmap list_fmap concat app]. f_equal. rewrite app_nil_r.
  unfold renderRule, mark_rule. cbn [DropIPv6 Description ExcludePrefixes ExcludeAddrs DirectSet rule_Mark].
  change (("mark-non-direct" =? "mark-non-direct")%string) with true. done.
Qed.

Lemma prerouting_flat p e : Forall prefix4 (LANs p) → TunnelEndpoint p = Addr4 e → 0 <= policy_mark p →
  Forall flat (renderRuleLines (prerouting_spec p)).
Proof.
  intros Hl He Hm. rewrite prerouting_lines, He. apply list.Forall_cons. split; [done|]. apply Forall_app. split.
  - apply list.Forall_fmap. eapply list.Forall_impl; [done|]. intros q Hq. unfold compose.
    repeat (apply flat_app; [done|]). apply flat_app; [|done]. by apply flat_cidr, prefix_string_chars.
  - repeat (apply list.Forall_cons; split); [..|constructor]; repeat (apply flat_app; [done|]); (apply flat_app; [|done]).
    + apply flat_cidr, string4_chars.
    + by apply num_chars_no_char, fmt_uint_chars.
Qed.

Lemma prerouting_stmts p e :
  Forall prefix4 (LANs p) → TunnelEndpoint p = Addr4 e → 0 <= e < 2 ^ 32 → 0 <= policy_mark p < 2 ^ 32 →
  Forall2 (λ l g, parse_stmts (split l " ") = Some g) (renderRuleLines (prerouting_spec p)) (prerouting_rules p e).
Proof.
  intros Hl Hep He Hm. rewrite prerouting_lines, Hep. unfold prerouting_rules. constructor; [by vm_compute|]. apply Forall2_app.
  - induction Hl as [|q l Hq _ IH]; constructor; [by apply parse_lan|done].
  - repeat constructor; [by apply parse_endpoint|by apply parse_mark].
Qed.

Lemma exec_script_lines ls r : Forall flat ls → exec_script (lines_text ls) r = exec_lines ls r.
Proof.
  intros Hls. unfold exec_script. rewrite split_lines by done. rewrite exec_lines_app.
  by destruct (exec_lines ls r).
Qed.

Lemma Contains_host n m : Contains (PrefixMk (Addr4 n) 32) (Addr4 m) = bool_decide (Addr4 n = Addr4 m).
Proof.
  unfold Contains, prefix_valid. cbn [p_ip p_bits]. change (0 <=? 32) with true. change (32 - 32) with 0. cbn [andb].
  rewrite Z.shiftr_0_r. apply eq_true_iff_eq. rewrite bool_decide_eq_true, Z.eqb_eq, Z.lxor_eq_0_iff. naive_solver.
Qed.

(** The sets of a compiled policy have no overlaps. *)
Definition set_conflict_free (p : Policy) : bool :=
  conflict_free (DirectPrefixes p) && (negb (inbound p) || conflict_free (LANs p)).

(** What is rendered for a compiled policy. *)
Section compiled.
Context (p : Policy) (e : Z).
Context (Hd : Forall prefix4 (DirectPrefixes p)) (Hl : Forall prefix4 (LANs p)).
Context (Hep : TunnelEndpoint p = Addr4 e) (He : 0 <= e < 2 ^ 32) (Hm : 0 <= Mark p < 2 ^ 32).

Lemma policy_mark_range : 0 <= policy_mark p < 2 ^ 32.
Proof. unfold policy_mark, DefaultMark. bcase; lia. Qed.

Lemma compiled_lines : script_lines (compiled_nft p) =
  "add table inet gotun" ::
  (set_lines "inet" "gotun" (NftSetSpecMk RuNetsSetName "ipv4_addr" ["interval"] (DirectPrefixes p)) ++
   if inbound p then set_lines "inet" "gotun" (NftSetSpecMk HomeNetsSetName "ipv4_addr" ["interval"] (LANs p)) else []) ++
  (chain_lines "inet" "gotun" (prerouting_spec p) ++ if inbound p then chain_lines "inet" "gotun" forward_spec else []).
Proof.
  unfold script_lines, compiled_nft, compiled_sets, compiled_chains. cbn [Family nft_Table Sets Chains].
  destruct (inbound p); cbn [mbind list_bind]; by rewrite !app_nil_r.
Qed.

Lemma compiled_flat : Forall flat (script_lines (compiled_nft p)).
Proof.
  rewrite compiled_lines. apply list.Forall_cons. split; [done|]. rewrite !Forall_app. split_and!.
  - by apply set_lines_flat.
  - destruct (inbound p); [by apply set_lines_flat|constructor].
  - apply chain_lines_flat; [done..|]. apply (prerouting_flat p e); [done..|]. apply policy_mark_range.
  - destruct (inbound p); [|constructor]. apply chain_lines_flat; [done..|]. repeat constructor.
Qed.

Lemma exec_script_lines_compiled r :
  r !! ("inet", "gotun") = None →
  exec_lines (script_lines (compiled_nft p)) r = if set_conflict_free p then Some (own r (compiled_table p e)) else None.
Proof.
  intros Hr. rewrite compiled_lines, exec_lines_cons.
  assert (exec_lines ["add table inet gotun"] r = Some (own r (TableMk ∅ []))) as ->.
  { cbn [exec_lines]. change (("add table inet gotun" =? "")%string) with false.
    change (split "add table inet gotun" " ") with ["add"; "table"; "inet"; "gotun"]. unfold exec_words.
    change (("table" =? "table")%string) with true. change (("add" =? "add")%string) with true. cbn iota.
    unfold ruleset in *. by rewrite Hr. }
  cbn [mbind option_bind]. rewrite !exec_lines_app. rewrite exec_set by done. unfold set_conflict_free.
  destruct (conflict_free (DirectPrefixes p)); cbn [andb mbind option_bind]; [|done].
  pose proof (prerouting_stmts p e Hl Hep He policy_mark_range) as Hpre.
  unfold compiled_table. destruct (inbound p); cbn [negb orb].
  - rewrite exec_set by done. destruct (conflict_free (LANs p)); cbn [mbind option_bind]; [|done]. rewrite exec_lines_app.
    rewrite (exec_chain (prerouting_spec p) "-150;" _ [] _ (prerouting_rules p e)) by (by first [done|apply not_elem_of_nil]).
    cbn [mbind option_bind app].
    rewrite (exec_chain forward_spec "0;" _ [_] _ [isolate_stmts]); [done|done| |done..|].
    + by intros [Hn|Hn%elem_of_nil]%elem_of_cons.
    + by repeat constructor.
  - cbn [exec_lines mbind option_bind]. rewrite app_nil_r.
    rewrite (exec_chain (prerouting_spec p) "-150;" _ [] _ (prerouting_rules p e)) by (by first [done|apply not_elem_of_nil]). done.
Qed.

(** *** What the table does *)

Lemma run_lans sets fin pkt m ls rest : Is4 (dst pkt) = true →
  run_rules sets fin pkt m ((lan_stmts <$> ls) ++ rest) = if in_prefixes ls (dst pkt) then fin m else run_rules sets fin pkt m rest.
Proof.
  intros H4. induction ls as [|q ls IH]; [done|]. rewrite fmap_cons. cbn [app run_rules].
  unfold lan_stmts at 1. cbn [run_rule member xorb]. rewrite H4. cbn [andb in_prefixes existsb].
  destruct (Contains q (dst pkt)); [done|]. apply IH.
Qed.

Lemma in_prefixes_6 ls a : Forall prefix4 ls → Is6 a = true → in_prefixes ls a = false.
Proof.
  intros Hls Ha. destruct (in_prefixes ls a) eqn:E; [|done]. apply existsb_exists_elem in E as (q & Hq & Hc).
  rewrite list.Forall_forall in Hls. destruct (prefix4_inv q (Hls q Hq)) as (n & b & -> & _).
  destruct a; try done. unfold Contains in Hc. cbn [p_ip] in Hc. by rewrite andb_false_r in Hc.
Qed.

Lemma verdict_prerouting pkt m : addr_valid (dst pkt) = true →
  table_verdict (compiled_table p e) "prerouting" pkt m =
  if Is6 (dst pkt) then Drop else Pass (if direct p (dst pkt) then m else policy_mark p).
Proof.
  intros Hv. assert (∀ sets, sets !! RuNetsSetName = Some (DirectPrefixes p) →
    chain_verdict sets (ChainMk "prerouting" (-150) true (prerouting_rules p e)) pkt m =
    if Is6 (dst pkt) then Drop else Pass (if direct p (dst pkt) then m else policy_mark p)) as Hchain.
  { intros sets Hs. unfold chain_verdict, prerouting_rules. cbn [c_rules c_accept run_rules run_rule].
    destruct (dst pkt) as [|n|n z] eqn:Ed; [done| |done]. cbn [Is6]. rewrite run_lans by (by rewrite Ed).
    unfold direct. rewrite Hep, Ed. destruct (in_prefixes (LANs p) (Addr4 n)); [done|].
    cbn [run_rules endpoint_stmts mark_stmts run_rule member]. rewrite Ed. cbn [Is4 andb]. rewrite Contains_host, Hs.
    destruct (bool_decide (Addr4 e = Addr4 n)); [done|]. cbn [xorb default orb id].
    by destruct (in_prefixes (DirectPrefixes p) (Addr4 n)). }
  unfold table_verdict, at_hook, compiled_table. destruct (inbound p); cbn; apply Hchain.
  - by rewrite lookup_insert_ne, lookup_insert_eq.
  - by rewrite lookup_insert_eq.
Qed.

Lemma verdict_forward pkt m : addr_valid (dst pkt) = true →
  table_verdict (compiled_table p e) "forward" pkt m =
  if inbound p && String.eqb (iif pkt) DefaultClientsIface && in_prefixes (LANs p) (dst pkt) then Drop else Pass m.
Proof.
  intros Hv. unfold table_verdict, at_hook, compiled_table. destruct (inbound p); [|done]. cbn [t_chains t_sets].
  match goal with |- foldl _ _ (merge_sort _ ?l) = _ => change l with [ChainMk "forward" 0 true [isolate_stmts]] end.
  change (merge_sort before [?c]) with [c]. cbn [foldl]. unfold chain_verdict, isolate_stmts.
  cbn [c_rules c_accept run_rules run_rule member andb]. rewrite lookup_insert_eq. cbn [xorb default id].
  destruct (iif pkt =? DefaultClientsIface)%string; [|done]. cbn [andb].
  destruct (dst pkt) as [|n|n z] eqn:Ed; [done| |].
  - cbn [Is4 andb]. by destruct (in_prefixes (LANs p) (Addr4 n)).
  - cbn [Is4 andb]. by rewrite in_prefixes_6.
Qed.

End compiled.

(** A table that does what a specification says at every hook. *)
Definition means (t : table) (spec : NftSpec) : Prop :=
  ∀ hook pkt m, addr_valid (dst pkt) = true → table_verdict t hook pkt m = eval_hook spec hook pkt m.

Lemma compiled_means p e :
  Forall prefix4 (LANs p) → TunnelEndpoint p = Addr4 e → 0 <= e < 2 ^ 32 → 0 <= Mark p < 2 ^ 32 →
  means (compiled_table p e) (compiled_nft p).
Proof.
  intros Hl Hep He Hm hook pkt m Hv. destruct (String.eqb_spec hook "prerouting") as [->|H1].
  { rewrite verdict_prerouting by done. by rewrite <-eval_prerouting. }
  destruct (String.eqb_spec hook "forward") as [->|H2].
  { rewrite verdict_forward by done. by rewrite <-eval_forward. }
  assert (("prerouting" =? hook)%string = false) as E1 by (apply String.eqb_neq; congruence).
  assert (("forward" =? hook)%string = false) as E2 by (apply String.eqb_neq; congruence).
  unfold table_verdict, at_hook, compiled_table, eval_hook, compiled_nft, compiled_chains.
  destruct (inbound p); cbn [t_chains Chains fmap list_fmap snd List.filter c_hook foldl ch_Hook]; by rewrite E1, ?E2.
Qed.

Definition owned : string * string := ("inet", "gotun").

Lemma rendered p st : Compile p = Ok st → renderable p → ∃ t, means t (Nft st) ∧
  ∀ r, exec_script ((if bool_decide (is_Some (r !! owned)) then "delete table inet gotun" +:+ nl else "") +:+ RenderFullTable (Nft st)) r =
       if set_conflict_free p then Some (own r t) else None.
Proof.
  intros Hc (Hd & Hl & (e & Hep & He) & Hm). rewrite (Compile_nft _ _ Hc).
  exists (compiled_table p e). split; [by apply compiled_means|]. intros r. rewrite RenderFullTable_lines.
  pose proof (compiled_flat p e Hd Hl Hep Hm) as Hflat. case_bool_decide as Hr.
  - rewrite app_assoc_str, <-lines_text_cons, exec_script_lines by (by constructor). rewrite exec_lines_cons.
    assert (exec_lines ["delete table inet gotun"] r = Some (delete owned r)) as ->.
    { destruct Hr as [told Hr]. cbn [exec_lines]. change (("delete table inet gotun" =? "")%string) with false.
      change (split "delete table inet gotun" " ") with ["delete"; "table"; "inet"; "gotun"]. unfold exec_words.
      change (("table" =? "table")%string) with true. change (("delete" =? "add")%string) with false.
      change (("delete" =? "delete")%string) with true. cbn iota. unfold ruleset, owned in *. by rewrite Hr. }
    cbn [mbind option_bind]. rewrite (exec_script_lines_compiled p e); [|done..|].
    + unfold own, owned, ruleset in *. by rewrite insert_delete_eq.
    + unfold owned, ruleset in *. apply lookup_delete_eq.
  - change ("" +:+ ?s) with s. rewrite exec_script_lines by done. apply exec_script_lines_compiled; [done..|]. by apply eq_None_not_Some.
Qed.

(** A policy that nft takes. *)
Definition loadable (p : Policy) : Prop := renderable p ∧ set_conflict_free p = true.

(** ** The kernel's tables

    A successful load has the effect of the script, a failed one none, and so
    for a deletion; listing changes nothing and shows whether the table is
    there. *)
Definition delete_call (family table : string) : call := Call "nft" "" ["delete"; "table"; family; table].

Class NftKernel (St : Type) `{Runner St} := {
  ruleset_of : St → ruleset;
  list_law s spec :
    ruleset_of (run_call (list_call spec) s).2 = ruleset_of s ∧
    (table_listed (run_call (list_call spec) s).1 = true ↔ is_Some (ruleset_of s !! (Family spec, nft_Table spec)));
  load_law s script r' :
    exec_script script (ruleset_of s) = Some r' →
    ruleset_of (run_call (load_call script) s).2 =
    if bool_decide ((run_call (load_call script) s).1.2 = None) then r' else ruleset_of s;
  delete_law s family tab :
    let '((_, err), s') := run_call (delete_call family tab) s in
    ruleset_of s' = match err with None => delete (family, tab) (ruleset_of s) | Some _ => ruleset_of s end
}.

Section kernel.
Context `{NftKernel St}.

(** The owned table, if there is one, is that of an earlier policy [q], and nft
    lists it as such; the new policy does not drop what the comparison does not
    see: the clients of [q] and the hosts of its direct prefixes. *)
Definition own_table (p : Policy) (s : St) : Prop :=
  ∀ t, ruleset_of s !! owned = Some t →
  ∃ q stq j, Compile q = Ok stq ∧ renderable q ∧ means t (Nft stq) ∧
    parse_json (run_call (list_call (Nft stq)) s).1.1 = Some j ∧ Listing.shown (Nft stq) j ∧
    (inbound q = true → inbound p = true) ∧
    (∀ h, h ∈ DirectPrefixes q → p_bits h = 32 → in_prefixes (DirectPrefixes p) (p_ip h) = true).

Lemma Contains_host_eq h a : prefix4 h → p_bits h = 32 → Contains h a = true → a = p_ip h.
Proof.
  intros (n & b & -> & Hn & _)%prefix4_inv. cbn [p_bits p_ip]. intros ->. destruct a as [|m|]; [done| |done].
  rewrite Contains_host. by intros <-%bool_decide_eq_true.
Qed.

(** A table that is accepted does what the policy says. *)
Lemma accepted_means ord p st (s : St) :
  range_order ord → Compile p = Ok st → renderable p → own_table p s →
  table_listed (run_call (list_call (Nft st)) s).1 = true →
  semanticMatchJSON ord (run_call (list_call (Nft st)) s).1.1 (Nft st) = true →
  ∃ t, ruleset_of s !! owned = Some t ∧ means t (Nft st).
Proof.
  intros Hord Hc Hp Hown Hlist Hs. destruct (list_law s (Nft st)) as [_ [t Ht]%proj1]; [done|].
  rewrite (Compile_nft _ _ Hc) in *. change (ruleset_of s !! owned = Some t) in Ht. exists t. split; [done|].
  destruct (Hown t Ht) as (q & stq & j & Hcq & Hq & Hm & Hout & Hj & Hin & Hhost).
  rewrite (Compile_nft _ _ Hcq) in *. change (list_call (compiled_nft q)) with (list_call (compiled_nft p)) in Hout.
  apply (listing_matches ord Hord q p j _ Hq Hp Hout Hj) in Hs. intros hook pkt m Hv. rewrite Hm by done.
  apply taken_for_verdict; [done..|]. destruct Hs as (Hno & _). intros [[Hi _]|(h & Hh & Hx & Hcn & Hf)]; [rewrite Hin in Hno; done|].
  unfold is_net in Hx. apply negb_false_iff, Z.eqb_eq in Hx.
  rewrite (Contains_host_eq h (dst pkt)) in Hf; [by rewrite Hhost in Hf| |done..].
  destruct Hq as (Hd & _). rewrite list.Forall_forall in Hd. by apply Hd.
Qed.

Lemma nft_Reconcile_spec ord p st (s : St) :
  range_order ord → Compile p = Ok st → loadable p → own_table p s →
  let '((n, err), s', _) := exec (Nftables.Reconcile ord (Nft st)) s in
  (err = None → ∃ t, ruleset_of s' !! owned = Some t ∧ means t (Nft st)) ∧
  (err ≠ None → ruleset_of s' = ruleset_of s) ∧
  (∀ k, k ≠ owned → ruleset_of s' !! k = ruleset_of s !! k).
Proof.
  intros Hord Hc [Hp Hfree] Hown. destruct (rendered p st Hc Hp) as (t & Ht & Hscript). rewrite Hfree in Hscript.
  pose proof (accepted_means ord p st s Hord Hc Hp Hown) as Hacc.
  destruct (list_law s (Nft st)) as [Hsame Hlist].
  assert (Family (Nft st) = "inet" ∧ nft_Table (Nft st) = "gotun") as [Hf Htab] by (by rewrite (Compile_nft _ _ Hc)).
  rewrite Hf, Htab in Hlist. fold owned in Hlist.
  unfold Nftables.Reconcile. change (Run "nft" _) with (run (list_call (Nft st))). rewrite exec_run.
  destruct (run_call (list_call (Nft st)) s) as [[out err] s1]. cbn [fst snd] in *.
  change (bool_decide (err = None) && negb (out =? "")%string && negb (contains out "Error")) with (table_listed (out, err)).
  destruct (table_listed (out, err) && semanticMatchJSON ord out (Nft st)) eqn:E.
  { apply andb_true_iff in E as [E1 E2]. cbn [mret prog_ret exec]. rewrite Hsame. split_and!; [auto|done|done]. }
  rewrite Hf, Htab. clear Hacc E.
  assert ((if table_listed (out, err) then "delete table " +:+ "inet" +:+ " " +:+ "gotun" +:+ nl else "") =
          (if bool_decide (is_Some (ruleset_of s !! owned)) then "delete table inet gotun" +:+ nl else "")) as ->.
  { case_bool_decide as Hex; [by rewrite (proj2 Hlist Hex)|]. destruct (table_listed _); [|done]. by destruct Hex; apply Hlist. }
  specialize (Hscript (ruleset_of s)). pose proof (load_law s1) as Hload. rewrite Hsame in Hload. apply Hload in Hscript. clear Hload.
  match goal with |- context [RunWithInput "nft" ?b _] => change (RunWithInput "nft" b _) with (run (load_call b)) end.
  rewrite exec_run.
  destruct (run_call (load_call _) s1) as [[o2 [e2|]] s2]; cbn [fst snd] in Hscript; cbn [mret prog_ret exec]; rewrite Hscript.
  - by rewrite bool_decide_false by done.
  - rewrite bool_decide_true by done. unfold own, ruleset in *. split_and!; [|done|].
    + intros _. exists t. split; [apply lookup_insert_eq|done].
    + intros k Hk. by rewrite lookup_insert_ne.
Qed.

End kernel.

(** ** Properties *)

(** C6. The script is the policy: it is taken exactly when the networks of each
    declared set that differ have no address in common; run on a system without
    the owned table, or after its deletion, it then declares that one table and
    touches no other, and at every hook the table does with every packet what
    the rules of the policy data model say. *)
Theorem RenderFullTable_meaning p st r :
  Compile p = Ok st → renderable p →
  ∃ t, (∀ hook pkt m, addr_valid (dst pkt) = true → table_verdict t hook pkt m = eval_hook (Nft st) hook pkt m) ∧
    exec_script ((if bool_decide (is_Some (r !! owned)) then "delete table inet gotun" +:+ nl else "") +:+ RenderFullTable (Nft st)) r =
    if conflict_free (DirectPrefixes p) && (negb (inbound p) || conflict_free (LANs p)) then Some (<[owned := t]> r) else None.
Proof.
  intros Hc Hp. destruct (rendered p st Hc Hp) as (t & Ht & Hscript). exists t. split; [done|]. apply Hscript.
Qed.

(** C9. After a successful [nftables.Reconcile] of a compiled policy the kernel
    has an owned table that does at every hook what the policy says; a failed
    one changes no table, and no run touches another table.  The prefixes are
    IPv4 and those of a set do not overlap; an owned table that is there before
    is that of an earlier policy and listed as such, and the new policy keeps
    the earlier one's clients and direct hosts, whose removal the comparison
    does not see. *)
Theorem nft_Reconcile_establishes `{NftKernel St} ord p st (s : St) :
  range_order ord → Compile p = Ok st → loadable p → own_table p s →
  let '((n, err), s', _) := exec (Nftables.Reconcile ord (Nft st)) s in
  (err = None → ∃ t, ruleset_of s' !! owned = Some t ∧ means t (Nft st)) ∧
  (err ≠ None → ruleset_of s' = ruleset_of s) ∧
  (∀ k, k ≠ owned → ruleset_of s' !! k = ruleset_of s !! k).
Proof. apply nft_Reconcile_spec. Qed.

(** ** A kernel *)

Module Sim.

(** The listing of the tables of the example policies; other tables are listed
    as an object that shows nothing. *)
Definition listing (t : table) : string :=
  if decide (t = compiled_table ex_policy 168427522) then ex_listing
  else if decide (t = compiled_table ex_outbound 168427522) then ex_outbound_listing
  else "{}".

(** A script that the language above does not have is rejected. *)
Definition step (c : call) (r : ruleset) : answer * ruleset :=
  match c_args c with
  | ["-j"; "list"; "table"; fam; tab] =>
      (match r !! (fam, tab) with
       | Some t => (listing t, None)
       | None => (dquoted "Error: No such file or directory", Some "exit status 1")
       end, r)
  | ["-f"; "-"] =>
      match exec_script (c_stdin c) r with
      | Some r' => (("", None), r')
      | None => (("Error: syntax error", Some "exit status 1"), r)
      end
  | ["delete"; "table"; fam; tab] =>
      if bool_decide (is_Some (r !! (fam, tab))) then (("", None), delete (fam, tab) r)
      else ((dquoted "Error: No such file or directory", Some "exit status 1"), r)
  | _ => (("", Some "exit status 1"), r)
  end.

End Sim.

#[global] Instance sim_runner : Runner ruleset := Sim.step.

#[global] Program Instance sim_nft_kernel : NftKernel ruleset := {| ruleset_of := λ r, r |}.
Next Obligation.
  intros r spec. unfold run_call, sim_runner, Sim.step, list_call. cbn [c_args fst snd]. split; [done|].
  destruct (r !! _) as [t|]; split; try done. intros _. unfold Sim.listing.
  destruct (decide (t = _)); [by vm_compute|]. destruct (decide (t = _)); by vm_compute.
Qed.
Next Obligation.
  intros r script r' Hs. unfold run_call, sim_runner, Sim.step, load_call. cbn [c_args c_stdin]. rewrite Hs. done.
Qed.
Next Obligation.
  intros r family tab. unfold run_call, sim_runner, Sim.step, delete_call. cbn [c_args]. by case_bool_decide.
Qed.

(** ** Witnesses *)

Definition ex_old : ruleset := {[("inet", "gotun") := TableMk ∅ []; ("ip", "nat") := TableMk ∅ []]}.

Lemma ex_loadable : loadable ex_policy.
Proof. split; [apply ex_renderable|]. by vm_compute. Qed.

Lemma RenderFullTable_meaning_witness :
  ∃ t, (∀ hook pkt m, addr_valid (dst pkt) = true → table_verdict t hook pkt m = eval_hook (Nft ex_state) hook pkt m) ∧
    exec_script ((if bool_decide (is_Some (ex_old !! owned)) then "delete table inet gotun" +:+ nl else "") +:+ RenderFullTable (Nft ex_state)) ex_old =
    if conflict_free (DirectPrefixes ex_policy) && (negb (inbound ex_policy) || conflict_free (LANs ex_policy))
    then Some (<[owned := t]> ex_old) else None.
Proof. exact (RenderFullTable_meaning ex_policy ex_state ex_old eq_refl ex_renderable). Defined.

(** Overlapping networks are refused. *)
Example ex_overlap :
  exec_script ("add table inet gotun" +:+ nl +:+ renderSet "inet" "gotun" (NftSetSpecMk "ru_nets" "ipv4_addr" ["interval"]
    [PrefixMk (Addr4 167772160) 8; PrefixMk (Addr4 167772160) 16])) ∅ = None.
Proof. by vm_compute. Qed.

(** The table of the policy without clients, to which clients are added. *)
Definition ex_before : ruleset :=
  {[("inet", "gotun") := compiled_table ex_outbound 168427522; ("ip", "nat") := TableMk ∅ []]}.

Lemma ex_own_table : own_table ex_policy ex_before.
Proof.
  intros t Ht. exists ex_outbound, ex_outbound_state, (ex_json ex_outbound_listing).
  change (Some (compiled_table ex_outbound 168427522) = Some t) in Ht. injection Ht as <-.
  split; [done|]. split; [apply ex_outbound_renderable|]. split; [by apply compiled_means; first [done|apply ex_outbound_renderable]|].
  split; [by vm_compute|]. split; [apply ex_outbound_shown|]. split; [done|].
  intros h Hh Hb. apply list_elem_of_singleton in Hh as ->. discriminate Hb.
Qed.

Lemma nft_Reconcile_establishes_witness :
  let '((n, err), s', _) := exec (Nftables.Reconcile ex_ord (Nft ex_state)) ex_before in
  (err = None → ∃ t, ruleset_of s' !! owned = Some t ∧ means t (Nft ex_state)) ∧
  (err ≠ None → ruleset_of s' = ruleset_of ex_before) ∧
  (∀ k, k ≠ owned → ruleset_of s' !! k = ruleset_of ex_before !! k).
Proof. exact (nft_Reconcile_establishes ex_ord ex_policy ex_state ex_before ex_ord_range eq_refl ex_loadable ex_own_table). Defined.

Example ex_load : (exec (Nftables.Reconcile ex_ord (Nft ex_state)) ex_before).1.1 = (1, None).
Proof. by vm_compute. Qed.
Example ex_no_load : (exec (Nftables.Reconcile ex_ord (Nft ex_outbound_state)) ex_before).1.1 = (0, None).
Proof. by vm_compute. Qed.
