(* ===== verification/Sysctl.v ===== *)
(** * [internal/linux/sysctl]: the sysctls of the policy

    [Reconcile] reads each key, writes it when it differs (through /proc, then
    through [sysctl -w]), and accepts a failed write when the value turns out
    to be the desired one.  [ProcKernel] states what it relies on in the system
    it runs on: the commands it uses to read a key give its value and change
    none; those it uses to write a key set that key, and of the others change at
    most those that it [affects] (a write of [net.ipv6.conf.all.disable_ipv6]
    also sets that of [default] and of every interface), or fail and change
    none. *)

From stdpp Require Import base list strings sorting gmap.
From Stdlib Require Import ZArith Lia Ascii.
From S2P Require Import Prelude GoStrings Runner Policy.

Definition proc_path (key : string) : string := "/proc/sys/" +:+ replace_char key "." "/".

Definition read_call (key : string) : call :=
  Call "bash" "" ["-c"; "cat " +:+ proc_path key +:+ " 2>/dev/null || sysctl -n " +:+ key].
Definition reread_call (key : string) : call :=
  Call "bash" "" ["-c"; "cat " +:+ proc_path key +:+ " 2>/dev/null || true"].
Definition echo_call (key value : string) : call :=
  Call "bash" "" ["-c"; "echo " +:+ value +:+ " > " +:+ proc_path key].
Definition sysctl_w_call (key value : string) : call := Call "sysctl" "" ["-w"; key +:+ "=" +:+ value].

(** One round of the loop: whether the key was changed. *)
Definition reconcile_one (s : SysctlSpec) : prog (result bool) :=
  let key := sy_Key s in
  '(cur, err) ← run (read_call key);
  if bool_decide (err = None) && String.eqb (trim_space cur) (sy_Value s) then mret (Ok false)
  else
    '(_, err) ← run (echo_call key (sy_Value s));
    match err with
    | None => mret (Ok true)
    | Some err =>
        '(_, err2) ← run (sysctl_w_call key (sy_Value s));
        match err2 with
        | None => mret (Ok true)
        | Some err2 =>
            '(out, rerr) ← run (reread_call key);
            if bool_decide (rerr = None) && String.eqb (trim_space out) (sy_Value s) then mret (Ok false)
            else mret (Err (ErrFmt "%s: %v / %w" [key] [ErrText err; ErrText err2]))
        end
    end.

Fixpoint reconcile_from (changes : Z) (specs : list SysctlSpec) : prog (Z * option error) :=
  match specs with
  | [] => mret (changes, None)
  | s :: specs =>
      r ← reconcile_one s;
      match r with
      | Err e => mret (changes, Some e)
      | Ok changed => reconcile_from (if changed : bool then changes + 1 else changes) specs
      end
  end.

Definition Reconcile (specs : list SysctlSpec) : prog (Z * option error) := reconcile_from 0 specs.

(** ** The system *)

(** A key or value that the shell and [sysctl] take literally. *)
Definition plain_char (c : ascii) : bool := is_num_char c || Ascii.eqb c "." || Ascii.eqb c "_".
Definition plain (s : string) : bool := negb (String.eqb s "") && string_forall plain_char s.

(** The values of a switch, which a key gives back as they were written. *)
Definition switch (v : string) : Prop := v = "0" ∨ v = "1".

Definition plain_spec (sp : SysctlSpec) : Prop := plain (sy_Key sp) = true ∧ switch (sy_Value sp).

Class ProcKernel (St : Type) `{Runner St} := {
  sysctl_value : St → string → string;
  (** [affects k k']: a write of [k] may change [k'], another key. *)
  affects : string → string → bool;
  read_law s key c : plain key = true → c ∈ [read_call key; reread_call key] →
    (∀ k, sysctl_value (run_call c s).2 k = sysctl_value s k) ∧
    ((run_call c s).1.2 = None → trim_space (run_call c s).1.1 = sysctl_value s key);
  write_law s key v c : plain key = true → switch v → c ∈ [echo_call key v; sysctl_w_call key v] →
    match (run_call c s).1.2 with
    | None => sysctl_value (run_call c s).2 key = v ∧
              ∀ k, k ≠ key → affects key k = false → sysctl_value (run_call c s).2 k = sysctl_value s k
    | Some _ => ∀ k, sysctl_value (run_call c s).2 k = sysctl_value s k
    end
}.

Section laws.
Context `{ProcKernel St}.

(** The values after a round. *)
Lemma reconcile_one_spec sp (s : St) :
  plain_spec sp →
  let '(r, s', _) := exec (reconcile_one sp) s in
  match r with
  | Ok _ => sysctl_value s' (sy_Key sp) = sy_Value sp ∧
            ∀ k, k ≠ sy_Key sp → affects (sy_Key sp) k = false → sysctl_value s' k = sysctl_value s k
  | Err _ => ∀ k, sysctl_value s' k = sysctl_value s k
  end.
Proof.
  intros [Hpk Hpv]. unfold reconcile_one. rewrite exec_run.
  destruct (read_law s (sy_Key sp) (read_call (sy_Key sp)) Hpk) as [Hv Hr]; [left|].
  destruct (run_call (read_call (sy_Key sp)) s) as [[cur err] s1]. cbn [fst snd] in *.
  destruct (bool_decide (err = None) && _) eqn:E.
  { apply andb_true_iff in E as [Ee%bool_decide_eq_true Ec%String.eqb_eq]. cbn [mret prog_ret exec].
    split; [|auto]. rewrite Hv. rewrite <-Ec, Hr by done. done. }
  rewrite exec_run.
  pose proof (write_law s1 (sy_Key sp) (sy_Value sp) (echo_call (sy_Key sp) (sy_Value sp)) Hpk Hpv ltac:(left)) as Hw.
  destruct (run_call (echo_call _ _) s1) as [[out1 [e1|]] s2]; cbn [fst snd] in *.
  2:{ cbn. destruct Hw as [Hw Hk]. split; [done|]. intros k Hne Ha. rewrite Hk by done. apply Hv. }
  rewrite exec_run.
  pose proof (write_law s2 (sy_Key sp) (sy_Value sp) (sysctl_w_call (sy_Key sp) (sy_Value sp)) Hpk Hpv ltac:(right; left)) as Hw'.
  destruct (run_call (sysctl_w_call _ _) s2) as [[out2 [e2|]] s3]; cbn [fst snd] in *.
  2:{ cbn. destruct Hw' as [Hw' Hk]. split; [done|]. intros k Hne Ha. rewrite Hk, Hw by done. apply Hv. }
  rewrite exec_run.
  destruct (read_law s3 (sy_Key sp) (reread_call (sy_Key sp)) Hpk) as [Hv3 Hr3]; [right; left|].
  destruct (run_call (reread_call _) s3) as [[out3 err3] s4]. cbn [fst snd] in *.
  assert (∀ k, sysctl_value s4 k = sysctl_value s k) as Hsame by (intros k; by rewrite Hv3, Hw', Hw, Hv).
  destruct (bool_decide (err3 = None) && _) eqn:E3; cbn [mret prog_ret exec]; [|done].
  apply andb_true_iff in E3 as [Ee%bool_decide_eq_true Ec%String.eqb_eq]. split; [|auto].
  rewrite Hv3, <-Ec, Hr3 by done. done.
Qed.

Lemma reconcile_from_spec specs : ∀ changes (s : St),
  NoDup (sy_Key <$> specs) → Forall plain_spec specs →
  let '(n, err, s', _) := exec (reconcile_from changes specs) s in
  ∃ done rest, specs = done ++ rest ∧ (err = None ↔ rest = []) ∧
    (∀ d1 sp d2, done = d1 ++ sp :: d2 → Forall (λ sp', affects (sy_Key sp') (sy_Key sp) = false) d2 →
       sysctl_value s' (sy_Key sp) = sy_Value sp) ∧
    (∀ k, k ∉ sy_Key <$> done → Forall (λ sp, affects (sy_Key sp) k = false) done → sysctl_value s' k = sysctl_value s k) ∧
    changes <= n <= changes + Z.of_nat (length done).
Proof.
  induction specs as [|sp specs IH]; intros changes s Hnd Hpl.
  { exists [], []. cbn. split_and!; [done|done| |done|lia|lia]. by intros [|]. }
  cbn [reconcile_from]. rewrite exec_bind. apply list.Forall_cons in Hpl as [Hp Hpl].
  pose proof (reconcile_one_spec sp s Hp) as H1.
  destruct (exec (reconcile_one sp) s) as [[r s1] cs1].
  cbn [fmap list_fmap] in Hnd. apply NoDup_cons in Hnd as [Hni Hnd]. destruct r as [changed|e].
  - destruct H1 as [Hset Hother]. specialize (IH (if changed : bool then changes + 1 else changes) s1 Hnd Hpl).
    destruct (exec (reconcile_from _ specs) s1) as [[[n err] s2] cs2].
    destruct IH as (done & rest & -> & Herr & Hdone & Hkeep & Hn). exists (sp :: done), rest. split_and!; try done.
    + intros [|sp1 d1] sp' d2; cbn [app]; intros [= -> ->] Ha; [|by eapply Hdone].
      rewrite Hkeep; [done| |done]. intros Hin. apply Hni. rewrite fmap_app. apply elem_of_app. by left.
    + intros k Hk [Ha Hall]%list.Forall_cons. cbn [fmap list_fmap] in Hk. apply not_elem_of_cons in Hk as [Hk1 Hk2].
      rewrite Hkeep by done. by apply Hother.
    + destruct changed; lia.
    + simpl. destruct changed; lia.
  - cbn [mret prog_ret exec]. exists [], (sp :: specs). cbn. split_and!; try done; try lia. by intros [|].
Qed.

(** Without an error, and when no key affects an earlier one, all are set. *)
Lemma reconcile_all specs changes (s : St) :
  NoDup (sy_Key <$> specs) → Forall plain_spec specs →
  StronglySorted (λ k k', affects k' k = false) (sy_Key <$> specs) →
  let '(n, err, s', _) := exec (reconcile_from changes specs) s in
  err = None → Forall (λ sp, sysctl_value s' (sy_Key sp) = sy_Value sp) specs.
Proof.
  intros Hnd Hpl Hs. pose proof (reconcile_from_spec specs changes s Hnd Hpl) as H1.
  destruct (exec (reconcile_from changes specs) s) as [[[n err] s'] cs]. intros He.
  destruct H1 as (dn & rest & -> & Hnone & Hset & _). rewrite (proj1 Hnone He), app_nil_r in *.
  apply list.Forall_forall. intros sp (d1 & d2 & E)%list_elem_of_split. apply (Hset d1 sp d2 E).
  rewrite E, fmap_app, fmap_cons in Hs. clear -Hs. induction d1 as [|x d1 IH]; cbn [fmap list_fmap app] in Hs.
  - apply StronglySorted_inv in Hs as [_ Hs]. by apply list.Forall_fmap in Hs.
  - apply StronglySorted_inv in Hs as [Hs _]. by apply IH.
Qed.

(** C29. [sysctl.Reconcile] sets the keys in order up to the first one it
    cannot set: each of those has the desired value at the end unless the write
    of a later one affects it, a key that is not written and that no written key
    affects keeps its value, and without an error all were set.  It counts at
    most one change per key.  The keys are plain and distinct, the values 0
    or 1. *)
Theorem sysctl_Reconcile_establishes specs (s : St) :
  NoDup (sy_Key <$> specs) → Forall plain_spec specs →
  let '(n, err, s', _) := exec (Reconcile specs) s in
  ∃ done rest, specs = done ++ rest ∧ (err = None ↔ rest = []) ∧
    (∀ d1 sp d2, done = d1 ++ sp :: d2 → Forall (λ sp', affects (sy_Key sp') (sy_Key sp) = false) d2 →
       sysctl_value s' (sy_Key sp) = sy_Value sp) ∧
    (∀ k, k ∉ sy_Key <$> done → Forall (λ sp, affects (sy_Key sp) k = false) done → sysctl_value s' k = sysctl_value s k) ∧
    0 <= n <= Z.of_nat (length done).
Proof. apply (reconcile_from_spec specs 0). Qed.

(** When every key already has the desired value and can be read,
    [sysctl.Reconcile] only reads, and reports no change. *)
Theorem sysctl_Reconcile_idempotent specs (s : St) :
  (∀ (s : St) k, (run_call (read_call k) s).1.2 = None) → Forall plain_spec specs →
  Forall (λ sp, sysctl_value s (sy_Key sp) = sy_Value sp) specs →
  let '(res, s', cs) := exec (Reconcile specs) s in
  res = (0, None) ∧ cs = (read_call <$> (sy_Key <$> specs)) ∧ ∀ k, sysctl_value s' k = sysctl_value s k.
Proof.
  intros Hread Hpl. unfold Reconcile. revert s. induction Hpl as [|sp specs [Hpk _] _ IH]; intros s Hall; [done|].
  apply list.Forall_cons in Hall as [Hsp Hall]. cbn [reconcile_from]. unfold reconcile_one, run.
  cbn [RunWithInput mbind prog_bind prog_bind_def exec read_call c_name c_stdin c_args]. fold (read_call (sy_Key sp)).
  destruct (read_law s (sy_Key sp) (read_call (sy_Key sp)) Hpk) as [Hv Hr]; [left|]. specialize (Hread s (sy_Key sp)) as Hnone.
  destruct (run_call (read_call (sy_Key sp)) s) as [[cur err] s1]. cbn [fst snd] in *. subst err.
  rewrite Hr, Hsp, String.eqb_refl, bool_decide_true by done. cbn [andb mbind prog_bind prog_bind_def mret prog_ret].
  assert (Forall (λ sp, sysctl_value s1 (sy_Key sp) = sy_Value sp) specs) as Hall'.
  { eapply list.Forall_impl; [done|]. intros x Hx. cbv beta in *. by rewrite Hv. }
  specialize (IH s1 Hall'). destruct (exec (reconcile_from 0 specs) s1) as [[res s2] cs2].
  destruct IH as (-> & -> & Hv2). split; [done|]. split; [done|]. intros k. by rewrite Hv2, Hv.
Qed.

End laws.

(** ** A system

    The keys and their values; a write to an unknown key fails, and one of
    [net.ipv6.conf.all.disable_ipv6] also sets the value of [default]. *)
Module Sim.

Definition state : Type := gmap string string.

Definition key_of_path (p : string) : string := replace_char (trim_prefix p "/proc/sys/") "/" ".".

Definition read (m : state) (k : string) : answer * state := ((default "" (m !! k) +:+ nl, None), m).
Definition all_key : string := "net.ipv6.conf.all.disable_ipv6".
Definition default_key : string := "net.ipv6.conf.default.disable_ipv6".
Definition reaches (k k' : string) : bool := String.eqb k all_key && String.eqb k' default_key.

Definition write (m : state) (k v : string) : answer * state :=
  if bool_decide (is_Some (m !! k))
  then (("", None), <[k := v]> (if String.eqb k all_key then <[default_key := v]> m else m))
  else (("", Some "exit status 1"), m).

Definition step (c : call) (m : state) : answer * state :=
  match c_args c with
  | ["-c"; cmd] =>
      match split cmd " " with
      | ["echo"; v; ">"; p] => write m (key_of_path p) v
      | "cat" :: p :: _ => read m (key_of_path p)
      | _ => (("", Some "exit status 127"), m)
      end
  | ["-w"; kv] =>
      match cut kv "=" with
      | Some (k, v) => write m k v
      | None => (("", Some "exit status 1"), m)
      end
  | _ => (("", Some "exit status 127"), m)
  end.

End Sim.

#[global] Instance sim_runner : Runner Sim.state := Sim.step.

Lemma plain_no_char sep s : plain s = true → plain_char sep = false → no_char sep s = true.
Proof.
  unfold plain, no_char. intros [_ H]%andb_true_iff Hs. revert H. apply string_forall_impl. intros c Hc.
  destruct (Ascii.eqb_spec c sep) as [->|]; [congruence|done].
Qed.

Lemma trim_space_plain s : plain s = true → trim_space (s +:+ nl) = s.
Proof.
  unfold plain. intros [Hne H]%andb_true_iff. apply negb_true_iff, String.eqb_neq in Hne.
  apply trim_space_snoc; [done|]. apply visible_visible_ends; [done|]. revert H. apply string_forall_impl.
  intros c. unfold plain_char. intros [[Hc|Hc%Ascii.eqb_eq]%orb_true_iff|Hc%Ascii.eqb_eq]%orb_true_iff; [|by subst c..].
  unfold is_visible. unfold is_num_char in Hc. lia.
Qed.

Lemma key_of_proc_path k : plain k = true → Sim.key_of_path (proc_path k) = k.
Proof.
  intros Hk. unfold Sim.key_of_path, proc_path. rewrite trim_prefix_app.
  pose proof (plain_no_char "/" k Hk eq_refl) as Hn. clear Hk. unfold replace_char.
  induction k as [|c k IH]; [done|]. cbn [no_char string_forall] in Hn. apply andb_true_iff in Hn as [Hc Hn].
  cbn [map_string]. rewrite IH by done. apply negb_true_iff in Hc.
  destruct (Ascii.eqb_spec c "."%char) as [->|]; [done|]. by rewrite Hc.
Qed.

Lemma no_char_proc_path k : plain k = true → no_char " " (proc_path k) = true.
Proof.
  intros Hk. unfold proc_path, no_char. rewrite string_forall_app. cbn [string_forall].
  pose proof (plain_no_char " " k Hk eq_refl) as Hn. clear Hk. unfold replace_char, no_char in *.
  induction k as [|c k IH]; [done|]. cbn [string_forall] in Hn. apply andb_true_iff in Hn as [Hc Hn].
  cbn [map_string string_forall]. destruct (Ascii.eqb_spec c "."%char); simpl in *; rewrite ?Hc; auto.
Qed.

Lemma sim_echo k v m :
  plain k = true → plain v = true → run_call (echo_call k v) m = Sim.write m k v.
Proof.
  intros Hk Hv. unfold run_call, sim_runner, Sim.step, echo_call. cbn [c_args].
  change ("echo " +:+ v +:+ " > " +:+ proc_path k) with ("echo" +:+ String " " (v +:+ String " " (">" +:+ String " " (proc_path k)))).
  rewrite split_app by done. rewrite split_app by (by apply plain_no_char). rewrite split_app by done.
  rewrite split_no_char by (by apply no_char_proc_path). by rewrite key_of_proc_path.
Qed.

Lemma sim_sysctl_w k v m :
  plain k = true → run_call (sysctl_w_call k v) m = Sim.write m k v.
Proof.
  intros Hk. unfold run_call, sim_runner, Sim.step, sysctl_w_call. cbn [c_args].
  change (k +:+ "=" +:+ v) with (k +:+ String "=" v). by rewrite cut_app by (by apply plain_no_char).
Qed.

Lemma sim_cat k rest m :
  plain k = true →
  run_call (Call "bash" "" ["-c"; "cat " +:+ proc_path k +:+ String " " rest]) m = Sim.read m k.
Proof.
  intros Hk. unfold run_call, sim_runner, Sim.step. cbn [c_args].
  change ("cat " +:+ proc_path k +:+ String " " rest) with ("cat" +:+ String " " (proc_path k +:+ String " " rest)).
  rewrite split_app by done. rewrite split_app by (by apply no_char_proc_path). by rewrite key_of_proc_path.
Qed.

Lemma switch_plain v : switch v → plain v = true.
Proof. by intros [-> | ->]. Qed.

#[global] Program Instance sim_proc_kernel : ProcKernel Sim.state :=
  {| sysctl_value := λ m k, trim_space (default "" (m !! k) +:+ nl); affects := Sim.reaches |}.
Next Obligation.
  intros m k c Hk Hc. assert (run_call c m = Sim.read m k) as ->; [|done].
  apply elem_of_cons in Hc as [->|Hc%list_elem_of_singleton]; [by apply sim_cat|subst c; by apply sim_cat].
Qed.
Next Obligation.
  intros m k v c Hk Hv%switch_plain Hc. assert (run_call c m = Sim.write m k v) as ->.
  { apply elem_of_cons in Hc as [->|Hc%list_elem_of_singleton]; [by apply sim_echo|subst c; by apply sim_sysctl_w]. }
  unfold Sim.write, Sim.state, Sim.reaches in *. destruct (bool_decide (is_Some (m !! k))); cbn [fst snd]; [|done].
  rewrite lookup_insert_eq. split; [by apply trim_space_plain|]. intros k' Hne Hr. rewrite lookup_insert_ne by done.
  destruct (k =? Sim.all_key)%string; [|done]. cbn [andb] in Hr. apply String.eqb_neq in Hr. by rewrite lookup_insert_ne by done.
Qed.

(** ** Witnesses *)

Definition ex_specs : list SysctlSpec :=
  [SysctlSpecMk "net.ipv4.ip_forward" "1"; SysctlSpecMk "net.ipv6.conf.all.disable_ipv6" "1"].
Definition ex_sys : Sim.state := list_to_map [("net.ipv4.ip_forward", "0"); ("net.ipv6.conf.default.disable_ipv6", "0")].
Definition ex_sys_set : Sim.state := list_to_map [("net.ipv4.ip_forward", "1"); ("net.ipv6.conf.all.disable_ipv6", "1")].

Lemma ex_specs_ok : NoDup (sy_Key <$> ex_specs) ∧ Forall plain_spec ex_specs.
Proof.
  split.
  - apply (bool_decide_unpack (NoDup (sy_Key <$> ex_specs))). by vm_compute.
  - repeat (apply list.Forall_cons; split); [..|constructor]; (split; [done|by right]).
Qed.

Lemma sysctl_Reconcile_establishes_witness :
  let '(n, err, s', _) := exec (Reconcile ex_specs) ex_sys in
  ∃ done rest, ex_specs = done ++ rest ∧ (err = None ↔ rest = []) ∧
    (∀ d1 sp d2, done = d1 ++ sp :: d2 → Forall (λ sp', affects (sy_Key sp') (sy_Key sp) = false) d2 →
       sysctl_value s' (sy_Key sp) = sy_Value sp) ∧
    (∀ k, k ∉ sy_Key <$> done → Forall (λ sp, affects (sy_Key sp) k = false) done → sysctl_value s' k = sysctl_value ex_sys k) ∧
    0 <= n <= Z.of_nat (length done).
Proof. destruct ex_specs_ok as [Hn Hp]. apply (sysctl_Reconcile_establishes ex_specs ex_sys Hn Hp). Defined.

Lemma sim_read_ok (s : Sim.state) k : (run_call (read_call k) s).1.2 = None.
Proof.
  unfold run_call, sim_runner, Sim.step, read_call. cbn [c_args].
  change ("cat " +:+ proc_path k +:+ " 2>/dev/null || sysctl -n " +:+ k) with
    ("cat" +:+ String " " (proc_path k +:+ " 2>/dev/null || sysctl -n " +:+ k)).
  rewrite split_app by done. destruct (split _ " ") as [|p l] eqn:E; [|done].
  exfalso. revert E. generalize (proc_path k +:+ " 2>/dev/null || sysctl -n " +:+ k). intros t.
  destruct t as [|c t]; simpl; [done|]. destruct (Ascii.eqb c " "); [done|]. by destruct (split t " ").
Qed.

Lemma sysctl_Reconcile_idempotent_witness :
  let '(res, s', cs) := exec (Reconcile ex_specs) ex_sys_set in
  res = (0, None) ∧ cs = (read_call <$> (sy_Key <$> ex_specs)) ∧ ∀ k, sysctl_value s' k = sysctl_value ex_sys_set k.
Proof.
  apply (sysctl_Reconcile_idempotent ex_specs ex_sys_set sim_read_ok (proj2 ex_specs_ok)).
  constructor; [by vm_compute|]. constructor; [by vm_compute|constructor].
Defined.
