(* ===== verification/Routing.v ===== *)
(** * [internal/linux/routing]: the policy rule and the routing table

    [Reconcile] adds each ip rule unless the listing of the rules contains its
    priority, mark and table, and refills each table of the routes (a flush,
    then each route in order) unless its listing has exactly the keys of the
    desired routes.  [ord] is the order in which the code ranges over the
    tables.

    [RouteKernel] states what the routing part relies on: a listing that
    succeeds shows the rules, or the routes of the table, one that fails
    nothing; a flush that succeeds empties the table, one that fails adds
    nothing; a [route replace] that succeeds sets the route of its metric.  A
    table may hold any routes: default routes as the policy makes them
    ([OwnRoute]) and others ([OtherRoute]), known by their listing only. *)

From stdpp Require Import base list strings gmap.
From Stdlib Require Import ZArith Lia Ascii.
From S2P Require Import Prelude GoStrings Netip Runner Policy.

(** ** The code *)

Definition rule_present (out : string) (rule : IPRuleSpec) : bool :=
  contains out (itoa (Priority rule) +:+ ":") &&
  contains out ("fwmark 0x" +:+ fmt_x (ir_Mark rule)) &&
  contains out ("lookup " +:+ itoa (ir_Table rule)).

Definition rule_show_call : call := Call "ip" "" ["rule"; "show"].
Definition rule_del_call (prio : Z) : call := Call "ip" "" ["rule"; "del"; "priority"; itoa prio].
Definition rule_add_call (rule : IPRuleSpec) : call :=
  Call "ip" "" ["rule"; "add"; "priority"; itoa (Priority rule);
                "fwmark"; "0x" +:+ fmt_x (ir_Mark rule); "lookup"; itoa (ir_Table rule)].
Definition route_show_call (table : Z) : call := Call "ip" "" ["route"; "show"; "table"; itoa table].
Definition route_flush_call (table : Z) : call := Call "ip" "" ["route"; "flush"; "table"; itoa table].

Fixpoint reconcile_rules (changes : Z) (rules : list IPRuleSpec) : prog (Z * option error) :=
  match rules with
  | [] => mret (changes, None)
  | rule :: rules =>
      '(out, _) ← run rule_show_call;
      if rule_present out rule then reconcile_rules changes rules
      else
        _ ← run (rule_del_call (Priority rule));
        '(_, err) ← run (rule_add_call rule);
        match err with
        | Some e => mret (changes, Some (ErrText e))
        | None => reconcile_rules (changes + 1) rules
        end
  end.

Definition routeKey (rt : RouteSpec) : string :=
  if Blackhole rt then "blackhole|default|metric=" +:+ itoa (Metric rt)
  else "dev=" +:+ Device rt +:+ "|default|metric=" +:+ itoa (Metric rt).

(** The value after the last [metric] that is not the last field. *)
Fixpoint metric_of (metric : Z) (fs : list string) : Z :=
  match fs with
  | f :: (g :: _) as rest => metric_of (if String.eqb f "metric" then (Atoi g).1 else metric) rest
  | _ => metric
  end.

(** The field after the first [dev]. *)
Fixpoint dev_of (fs : list string) : string :=
  match fs with
  | f :: (g :: _) as rest => if String.eqb f "dev" then g else dev_of rest
  | _ => ""
  end.

Definition parseRouteLine (line : string) : option string :=
  match fields line with
  | [] => None
  | f0 :: _ as fs =>
      let metric := metric_of 0 fs in
      if String.eqb f0 "blackhole" || String.eqb f0 "unreachable" then
        Some ("blackhole|default|metric=" +:+ itoa metric)
      else if String.eqb f0 "default" then
        let dev := dev_of fs in
        if String.eqb dev "" then None
        else Some ("dev=" +:+ dev +:+ "|default|metric=" +:+ itoa metric)
      else None
  end.

Definition add_key (keys : gset string) (line : string) : gset string :=
  let line := trim_space line in
  if String.eqb line "" then keys
  else match parseRouteLine line with Some k => {[k]} ∪ keys | None => keys end.
Definition parseRouteKeys (out : string) : gset string := foldl add_key ∅ (split out (char_of 10)).

Definition tableRoutesMatch (out : string) (want : list RouteSpec) : bool :=
  let live := parseRouteKeys out in
  let desired : gset string := foldl (λ d rt, {[routeKey rt]} ∪ d) ∅ want in
  bool_decide (size live = size desired) && bool_decide (set_Forall (λ k, k ∈ live) desired).

Definition addRoute_args (rt : RouteSpec) : list string :=
  let table := itoa (rt_Table rt) in
  (if Blackhole rt then ["route"; "replace"; "blackhole"; "default"; "table"; table]
   else ["route"; "replace"; "default"; "dev"; Device rt; "table"; table]) ++
  (if 0 <? Metric rt then ["metric"; itoa (Metric rt)] else []).
Definition addRoute_call (rt : RouteSpec) : call := Call "ip" "" (addRoute_args rt).

Definition addRoute (rt : RouteSpec) : prog (option error) :=
  '(_, err) ← run (addRoute_call rt);
  mret (option_map ErrText err).

Fixpoint add_routes (want : list RouteSpec) : prog (option error) :=
  match want with
  | [] => mret None
  | rt :: want =>
      err ← addRoute rt;
      match err with
      | Some e => mret (Some e)
      | None => add_routes want
      end
  end.

Fixpoint reconcile_tables (changes : Z) (tables : list (Z * list RouteSpec)) : prog (Z * option error) :=
  match tables with
  | [] => mret (changes, None)
  | (table, want) :: tables =>
      '(out, _) ← run (route_show_call table);
      if tableRoutesMatch out want then reconcile_tables changes tables
      else
        _ ← run (route_flush_call table);
        err ← add_routes want;
        match err with
        | Some e => mret (changes, Some e)
        | None => reconcile_tables (changes + 1) tables
        end
  end.

(** [byTable]. *)
Definition by_table (routes : list RouteSpec) : gmap Z (list RouteSpec) :=
  foldl (λ m rt, <[rt_Table rt := default [] (m !! rt_Table rt) ++ [rt]]> m) ∅ routes.

Definition Reconcile (ord : gmap Z (list RouteSpec) → list (Z * list RouteSpec))
    (rules : list IPRuleSpec) (routes : list RouteSpec) : prog (Z * option error) :=
  '(changes, err) ← reconcile_rules 0 rules;
  match err with
  | Some e => mret (changes, Some e)
  | None => reconcile_tables changes (ord (by_table routes))
  end.

Definition Clear (priority table : Z) : prog (option error) :=
  _ ← run (rule_del_call priority);
  _ ← run (route_flush_call table);
  mret None.

(** ** The system *)

(** A default route as the policy makes it. *)
Definition wf_route (rt : RouteSpec) : Prop :=
  0 <= Metric rt < 2 ^ 63 ∧ (Blackhole rt = false → word (Device rt)) ∧ 0 <= rt_Table rt < 2 ^ 63 ∧
  Destination rt = default_dst ∧ (Blackhole rt = true → Device rt = "").

(** What a route does: its kind and device, and its metric. *)
Definition effect (rt : RouteSpec) : bool * string * Z :=
  (Blackhole rt, if Blackhole rt then "" else Device rt, Metric rt).

(** The words of a line of [ip route show table]. *)
Definition route_words (rt : RouteSpec) : list string :=
  (if Blackhole rt then ["blackhole"; "default"] else ["default"; "dev"; Device rt; "scope"; "link"]) ++
  (if 0 <? Metric rt then ["metric"; itoa (Metric rt)] else []).

(** A route of a table of the system: a default route of the form above, or any
    other, with the words it is listed by. *)
Inductive live_route :=
| OwnRoute (rt : RouteSpec)
| OtherRoute (words : list string).

Definition live_words (r : live_route) : list string :=
  match r with OwnRoute rt => route_words rt | OtherRoute ws => ws end.
Definition show_routes (l : list live_route) : string := lines_text ((λ r, join (live_words r) " " +:+ " ") <$> l).

Definition own_of (r : live_route) : option RouteSpec := match r with OwnRoute rt => Some rt | OtherRoute _ => None end.

(** An ip rule of the system; the mark is absent from the rules the system
    starts with, whose tables have names. *)
Record liveRule := LiveRuleMk { lr_prio : Z; lr_mark : option Z; lr_table : string }.

Definition live_of (rule : IPRuleSpec) : liveRule :=
  LiveRuleMk (Priority rule) (Some (ir_Mark rule)) (itoa (ir_Table rule)).

(** A line of [ip rule show]. *)
Definition rule_line (r : liveRule) : string :=
  itoa (lr_prio r) +:+ ":" +:+ String tab ("from all " +:+
  match lr_mark r with Some m => "fwmark 0x" +:+ fmt_x m +:+ " " | None => "" end +:+ "lookup " +:+ lr_table r).
Definition show_rules (l : list liveRule) : string := lines_text (rule_line <$> l).

Definition wf_int (n : Z) : Prop := 0 <= n < 2 ^ 63.
Definition wf_rule (rule : IPRuleSpec) : Prop :=
  wf_int (Priority rule) ∧ 0 <= ir_Mark rule < 2 ^ 32 ∧ wf_int (ir_Table rule).

Class RouteKernel (St : Type) `{Runner St} := {
  rules_of : St → list liveRule;
  routes_of : St → Z → list live_route;
  rule_show_law s :
    let '((out, err), s') := run_call rule_show_call s in
    out = match err with None => show_rules (rules_of s) | Some _ => "" end ∧
    rules_of s' = rules_of s ∧ ∀ t, routes_of s' t = routes_of s t;
  rule_del_law s prio : wf_int prio →
    let '((_, err), s') := run_call (rule_del_call prio) s in
    match err with
    | None => ∃ r, lr_prio r = prio ∧ rules_of s ≡ₚ r :: rules_of s'
    | Some _ => rules_of s' = rules_of s
    end ∧
    ∀ t, routes_of s' t = routes_of s t;
  rule_add_law s rule : wf_rule rule →
    let '((_, err), s') := run_call (rule_add_call rule) s in
    rules_of s' ≡ₚ match err with None => live_of rule :: rules_of s | Some _ => rules_of s end ∧
    ∀ t, routes_of s' t = routes_of s t;
  show_law s t : wf_int t →
    let '((out, err), s') := run_call (route_show_call t) s in
    out = match err with None => show_routes (routes_of s t) | Some _ => "" end ∧
    rules_of s' = rules_of s ∧ ∀ t', routes_of s' t' = routes_of s t';
  flush_law s t : wf_int t →
    let '((_, err), s') := run_call (route_flush_call t) s in
    rules_of s' = rules_of s ∧ (∀ t', t' ≠ t → routes_of s' t' = routes_of s t') ∧
    match err with None => routes_of s' t = [] | Some _ => ∀ r, r ∈ routes_of s' t → r ∈ routes_of s t end;
  add_law s rt : wf_route rt →
    let '((_, err), s') := run_call (addRoute_call rt) s in
    rules_of s' = rules_of s ∧ (∀ t, t ≠ rt_Table rt → routes_of s' t = routes_of s t) ∧
    match err with
    | None => OwnRoute rt ∈ routes_of s' (rt_Table rt) ∧
              (∀ r, r ∈ routes_of s' (rt_Table rt) → r = OwnRoute rt ∨ r ∈ routes_of s (rt_Table rt)) ∧
              ∀ r, OwnRoute r ∈ routes_of s (rt_Table rt) → Metric r ≠ Metric rt → OwnRoute r ∈ routes_of s' (rt_Table rt)
    | Some _ => routes_of s' (rt_Table rt) = routes_of s (rt_Table rt)
    end
}.

(** ** Lemmas: listings *)

Lemma route_words_ok rt : wf_route rt → Forall word (route_words rt) ∧ route_words rt ≠ [].
Proof.
  intros (Hm & Hd & _). unfold route_words. split; [|by destruct (Blackhole rt)].
  apply Forall_app. split.
  - destruct (Blackhole rt); rewrite !list.Forall_cons; repeat split; try done; by apply Hd.
  - destruct (0 <? Metric rt); [|done]. rewrite !list.Forall_cons. split; [done|]. split; [|done]. apply itoa_word. lia.
Qed.

Lemma parseRouteLine_words rt : wf_route rt → parseRouteLine (join (route_words rt) " ") = Some (routeKey rt).
Proof.
  intros Hwf. pose proof (route_words_ok rt Hwf) as [Hw _]. unfold parseRouteLine. rewrite fields_join by done.
  destruct Hwf as (Hm & Hd & _). unfold route_words, routeKey.
  assert (∀ m, metric_of m (if 0 <? Metric rt then ["metric"; itoa (Metric rt)] else []) =
               if 0 <? Metric rt then Metric rt else m) as Hmet.
  { intros m. destruct (0 <? Metric rt); [|done]. cbn [metric_of]. by rewrite (Atoi_itoa (Metric rt)) by lia. }
  destruct (Blackhole rt).
  - cbn [app metric_of String.eqb Ascii.eqb Bool.eqb orb].
    destruct (Z.ltb_spec 0 (Metric rt)); cbn [metric_of String.eqb Ascii.eqb Bool.eqb].
    + by rewrite Atoi_itoa by lia.
    + by replace (Metric rt) with 0 by lia.
  - destruct (Hd eq_refl) as [Hne%String.eqb_neq _].
    cbn [app metric_of dev_of String.eqb Ascii.eqb Bool.eqb orb]. rewrite Hne.
    destruct (Z.ltb_spec 0 (Metric rt)); cbn [metric_of String.eqb Ascii.eqb Bool.eqb fst].
    + by rewrite Atoi_itoa by lia.
    + replace (Metric rt) with 0 by lia. by destruct (String.eqb (Device rt) "metric").
Qed.

Lemma add_key_line keys rt :
  wf_route rt → add_key keys (join (route_words rt) " " +:+ " ") = {[routeKey rt]} ∪ keys.
Proof.
  intros Hwf. unfold add_key. pose proof (route_words_ok rt Hwf) as [Hw Hne].
  pose proof (visible_ends_join " " _ Hne Hw) as Hv. rewrite trim_space_snoc by done. rewrite parseRouteLine_words by done.
  by destruct (String.eqb_spec (join (route_words rt) " ") "") as [E|_]; [rewrite E in Hv|].
Qed.

Lemma keys_fold l (acc : gset string) :
  Forall wf_route l →
  foldl add_key acc ((λ rt, join (route_words rt) " " +:+ " ") <$> l) = list_to_set (routeKey <$> l) ∪ acc.
Proof.
  intros Hl. revert acc. induction Hl as [|rt l Hwf _ IH]; intros acc; [simpl; set_solver|].
  cbn [fmap list_fmap foldl]. rewrite add_key_line by done. rewrite IH. simpl. set_solver.
Qed.

Lemma parseRouteKeys_show l :
  Forall wf_route l → parseRouteKeys (show_routes (OwnRoute <$> l)) = list_to_set (routeKey <$> l).
Proof.
  intros Hl. unfold parseRouteKeys, show_routes. rewrite <-list_fmap_compose. unfold compose. cbn [live_words]. rewrite split_lines.
  2:{ apply Forall_fmap. eapply list.Forall_impl; [done|]. intros rt Hwf. simpl.
      pose proof (route_words_ok rt Hwf) as [Hw _]. unfold no_char. rewrite string_forall_app. apply andb_true_iff.
      split; [|done]. apply no_char_join; [|done]. eapply list.Forall_impl; [done|]. intros w [_ Hv].
      by apply visible_no_char. }
  rewrite foldl_app. cbn [foldl]. rewrite keys_fold by done.
  transitivity (list_to_set (routeKey <$> l) ∪ ∅ : gset string); [done|]. apply union_empty_r_L.
Qed.

Lemma app_inj_str s t t' : s +:+ t = s +:+ t' → t = t'.
Proof. induction s as [|c s IH]; [done|]. cbn [String.append]. intros [= H]. auto. Qed.

Lemma routeKey_inj rt rt' : wf_route rt → wf_route rt' → routeKey rt = routeKey rt' → effect rt = effect rt'.
Proof.
  intros (Hm & Hd & _) (Hm' & Hd' & _). unfold routeKey, effect. destruct (Blackhole rt), (Blackhole rt'); try done.
  - intros H%app_inj_str%itoa_inj_nonneg; [congruence|lia..].
  - intros H.
    assert (∀ D n, 0 <= n → cut_last ("dev=" +:+ D +:+ "|default|metric=" +:+ itoa n) "|" = Some ("dev=" +:+ D +:+ "|default", "metric=" +:+ itoa n)) as Hcut.
    { intros D n Hn. replace ("dev=" +:+ D +:+ "|default|metric=" +:+ itoa n) with (("dev=" +:+ D +:+ "|default") +:+ String "|" ("metric=" +:+ itoa n))
        by (rewrite !app_assoc_str; done).
      apply cut_last_app. unfold no_char. rewrite string_forall_app. apply andb_true_iff. split; [done|].
      by apply num_chars_no_char, itoa_chars. }
    pose proof (Hcut (Device rt) (Metric rt) ltac:(lia)) as H1. rewrite H, Hcut in H1 by lia.
    injection H1 as HD HM%itoa_inj_nonneg; [|lia..]. 
    assert (∀ D, cut_last (D +:+ "|default") "|" = Some (D, "default")) as Hcut2 by (intros D; by apply cut_last_app).
    pose proof (Hcut2 (Device rt')) as H2. rewrite HD, Hcut2 in H2. congruence.
Qed.

Lemma keys_effects l l' :
  Forall wf_route l → Forall wf_route l' →
  (list_to_set (routeKey <$> l) : gset string) = list_to_set (routeKey <$> l') → ∀ e, e ∈ (effect <$> l) → e ∈ (effect <$> l').
Proof.
  intros Hl Hl' H e (rt & -> & Hin)%list_elem_of_fmap.
  assert (routeKey rt ∈ (list_to_set (routeKey <$> l) : gset string)) as Hk.
  { apply elem_of_list_to_set, list_elem_of_fmap. by exists rt. }
  rewrite H in Hk. apply elem_of_list_to_set, list_elem_of_fmap in Hk as (rt' & Hk & Hin').
  apply list_elem_of_fmap. exists rt'. split; [|done]. rewrite list.Forall_forall in Hl, Hl'. apply routeKey_inj; auto.
Qed.

Lemma tableRoutesMatch_show l want :
  Forall wf_route l →
  tableRoutesMatch (show_routes (OwnRoute <$> l)) want = true ↔
  (list_to_set (routeKey <$> l) : gset string) = list_to_set (routeKey <$> want).
Proof.
  intros Hl. unfold tableRoutesMatch. rewrite parseRouteKeys_show by done.
  rewrite foldl_union, union_empty_r_L. rewrite andb_true_iff, !bool_decide_eq_true.
  rewrite (symmetry_iff (=) (list_to_set (routeKey <$> l))), <-same_size_subset. split; intros [H1 H2]; split; done.
Qed.

(** ** Lemmas: the tables *)

(** A listing of nothing matches no routes. *)
Lemma tableRoutesMatch_nothing want : want ≠ [] → tableRoutesMatch "" want = false.
Proof.
  intros Hne. destruct want as [|rt want]; [done|]. unfold tableRoutesMatch.
  change (parseRouteKeys "") with (∅ : gset string). rewrite foldl_union, union_empty_r_L.
  rewrite bool_decide_false; [done|]. rewrite size_empty. intros E. symmetry in E. apply size_empty_inv in E.
  cbn [fmap list_fmap list_to_set] in E. set_solver.
Qed.

Lemma by_table_spec routes t :
  by_table routes !! t = match List.filter (λ rt, rt_Table rt =? t) routes with [] => None | l => Some l end.
Proof.
  unfold by_table. induction routes as [|rt routes IH] using rev_ind; [done|].
  rewrite foldl_app, List.filter_app. cbn [foldl List.filter]. destruct (Z.eqb_spec (rt_Table rt) t) as [<-|Hne].
  - rewrite lookup_insert_eq, IH. by destruct (List.filter _ routes).
  - rewrite lookup_insert_ne by done. by rewrite IH, app_nil_r.
Qed.

Lemma hex_no_space m : no_char " " ("0x" +:+ fmt_x m) = true.
Proof. unfold no_char. rewrite string_forall_app. apply fmt_x_no_space. Qed.

Lemma hex_not_fwmark m : has_suffix ("0x" +:+ fmt_x m) "fwmark" = false.
Proof.
  destruct (has_suffix _ _) eqn:E; [|done]. apply has_suffix_spec in E as [t E].
  assert (string_forall (λ c, negb (Ascii.eqb c "k")) (t +:+ "fwmark") = true) as Hk by (rewrite <-E, string_forall_app; apply fmt_x_no_k).
  rewrite string_forall_app in Hk. apply andb_true_iff in Hk as [_ Hk]. discriminate Hk.
Qed.

Lemma from_not_fwmark pre : has_suffix (pre +:+ "from") "fwmark" = false.
Proof.
  destruct (has_suffix _ _) eqn:E; [|done]. apply has_suffix_spec in E as [t E].
  apply (f_equal String.rev) in E. by rewrite !rev_append_str in E.
Qed.

Section laws.
Context `{RouteKernel St}.

Lemma add_routes_spec t want : ∀ s : St,
  Forall wf_route want → Forall (λ rt, rt_Table rt = t) want → NoDup (Metric <$> want) →
  let '(err, s', _) := exec (add_routes want) s in
  rules_of s' = rules_of s ∧
  (∀ t', t' ≠ t → routes_of s' t' = routes_of s t') ∧
  (∀ r, r ∈ routes_of s' t → r ∈ routes_of s t ∨ r ∈ (OwnRoute <$> want)) ∧
  (∀ r, OwnRoute r ∈ routes_of s t → Metric r ∉ (Metric <$> want) → OwnRoute r ∈ routes_of s' t) ∧
  (err = None → ∀ rt, rt ∈ want → OwnRoute rt ∈ routes_of s' t).
Proof.
  induction want as [|rt want IH]; intros s Hwf Ht Hnd.
  { cbn. split_and!; [done|done|by left|done|by intros _ ? ?%elem_of_nil]. }
  apply list.Forall_cons in Hwf as [Hrt Hwf]. apply list.Forall_cons in Ht as [<- Ht].
  cbn [fmap list_fmap] in Hnd. apply NoDup_cons in Hnd as [Hni Hnd].
  cbn [add_routes]. rewrite exec_bind. unfold addRoute. rewrite exec_run. pose proof (add_law s rt Hrt) as Ha.
  destruct (run_call (addRoute_call rt) s) as [[out [e|]] s1]; cbn [mret prog_ret option_map exec]; destruct Ha as (Hr & Ho & Ha).
  - rewrite Ha. split_and!; [done|done|by left|done|done].
  - destruct Ha as (Hin & Hsub & Hkeep).
    specialize (IH s1 Hwf Ht Hnd). destruct (exec (add_routes want) s1) as [[err s2] cs].
    destruct IH as (Hrules & Hother & Hsub2 & Hkeep2 & Hdone). split_and!.
    + by rewrite Hrules.
    + intros t' Hne. rewrite Hother by done. by apply Ho.
    + intros r [Hr2|Hr2]%Hsub2; [|right; by right]. apply Hsub in Hr2 as [->|Hr2]; [right; left|by left].
    + intros r Hr0 Hm. cbn [fmap list_fmap] in Hm. apply not_elem_of_cons in Hm as [Hm1 Hm2]. apply Hkeep2; [|done]. by apply Hkeep.
    + intros He rt' [->|Hrt']%elem_of_cons; [|by apply Hdone]. by apply Hkeep2.
Qed.

(** A table with routes of the program's form only; one that a flush empties. *)
Definition only_own (s : St) (t : Z) : Prop := ∀ r, r ∈ routes_of s t → ∃ rt, r = OwnRoute rt ∧ wf_route rt.
Definition flushable (t : Z) : Prop := ∀ s : St, routes_of s t ≠ [] → (run_call (route_flush_call t) s).1.2 = None.
Definition own_routes (s : St) (t : Z) : list RouteSpec := omap own_of (routes_of s t).

(** A flush adds nothing, and empties a table that it can. *)
Lemma flush_incl (s : St) t r : wf_int t → r ∈ routes_of (run_call (route_flush_call t) s).2 t → r ∈ routes_of s t.
Proof.
  intros Ht. pose proof (flush_law s t Ht) as Hf. destruct (run_call (route_flush_call t) s) as [[out [e|]] s1]; destruct Hf as (_ & _ & Hf).
  - apply Hf.
  - cbn [snd]. rewrite Hf. by intros ?%elem_of_nil.
Qed.
Lemma flush_empties (s : St) t : wf_int t → flushable t → routes_of (run_call (route_flush_call t) s).2 t = [].
Proof.
  intros Ht Hfl. destruct (routes_of s t) as [|r0 l0] eqn:E.
  - destruct (routes_of (run_call (route_flush_call t) s).2 t) as [|r l] eqn:E1; [done|]. exfalso. assert (r ∈ routes_of s t) as Hr; [|rewrite E in Hr; by apply elem_of_nil in Hr].
    apply flush_incl; [done|]. rewrite E1. left.
  - specialize (Hfl s). pose proof (flush_law s t Ht) as Hf. destruct (run_call (route_flush_call t) s) as [[out err] s1]. cbn [fst snd] in *.
    rewrite Hfl in Hf; [apply Hf|]. by rewrite E.
Qed.

Lemma only_own_list s t : only_own s t → routes_of s t = OwnRoute <$> own_routes s t ∧ Forall wf_route (own_routes s t).
Proof.
  unfold only_own, own_routes. induction (routes_of s t) as [|r l IH]; intros Ho; [done|].
  destruct (Ho r ltac:(left)) as (rt & -> & Hrt). destruct IH as [E Hwf]; [intros r' Hr'; apply Ho; by right|].
  cbn [omap list_omap own_of]. split; [cbn [fmap list_fmap]; by rewrite <-E|by constructor].
Qed.

Lemma elem_of_own_routes s t rt : rt ∈ own_routes s t ↔ OwnRoute rt ∈ routes_of s t.
Proof.
  unfold own_routes. rewrite list_elem_of_omap. split.
  - intros ([rt'|ws] & Hin & E); [by injection E as <-|done].
  - intros Hin. by exists (OwnRoute rt).
Qed.

(** A table that is to hold the routes [want]; it holds them when it has routes
    that do the same, and no others. *)
Definition wf_table (tw : Z * list RouteSpec) : Prop :=
  wf_int tw.1 ∧ Forall wf_route tw.2 ∧ Forall (λ rt, rt_Table rt = tw.1) tw.2 ∧ NoDup (Metric <$> tw.2) ∧ tw.2 ≠ [].
Definition holds (s : St) (tw : Z * list RouteSpec) : Prop :=
  only_own s tw.1 ∧ ∀ e, e ∈ (effect <$> own_routes s tw.1) ↔ e ∈ (effect <$> tw.2).

Lemma match_holds s t want :
  Forall wf_route want → only_own s t → tableRoutesMatch (show_routes (routes_of s t)) want = true → holds s (t, want).
Proof.
  intros Hwf Ho. destruct (only_own_list s t Ho) as [E Hl]. rewrite E. intros Hm%tableRoutesMatch_show; [|done].
  split; [done|]. intros e. cbn [fst snd]. split; apply keys_effects; auto.
Qed.

Lemma effect_key rt rt' : effect rt = effect rt' → routeKey rt = routeKey rt'.
Proof. unfold effect, routeKey. intros [= Hb Hd ->]. destruct (Blackhole rt), (Blackhole rt'); congruence. Qed.

Lemma holds_match s t want : holds s (t, want) → tableRoutesMatch (show_routes (routes_of s t)) want = true.
Proof.
  intros [Ho Hh]. destruct (only_own_list s t Ho) as [E Hl]. rewrite E. apply tableRoutesMatch_show; [done|].
  assert (∀ l l' : list RouteSpec, (∀ e, e ∈ (effect <$> l) → e ∈ (effect <$> l')) →
    ∀ k, k ∈ (routeKey <$> l) → k ∈ (routeKey <$> l')) as Hsub.
  { intros l l' He k (rt & -> & Hin)%list_elem_of_fmap.
    destruct (proj1 (list_elem_of_fmap _ _ _) (He (effect rt) (list_elem_of_fmap_2 _ _ _ Hin))) as (rt' & E' & Hin').
    apply list_elem_of_fmap. exists rt'. split; [by apply effect_key|done]. }
  apply set_eq. intros k. rewrite !elem_of_list_to_set. split; apply Hsub; intros e; apply Hh.
Qed.

Lemma holds_keep (s s' : St) t want : routes_of s' t = routes_of s t → holds s (t, want) → holds s' (t, want).
Proof. unfold holds, only_own, own_routes. cbn [fst snd]. by intros ->. Qed.

(** What a table has after its turn: nothing new but what is wanted; on success
    all of that, in a table of the program's routes, and nothing else where a
    flush works. *)
Definition filled (s s' : St) (t : Z) (want : list RouteSpec) : Prop :=
  only_own s t → (∀ e, e ∈ (effect <$> want) → e ∈ (effect <$> own_routes s' t)) ∧ (flushable t → holds s' (t, want)).

Lemma refill_spec (s : St) t want :
  wf_table (t, want) →
  let '(a, s1) := run_call (route_flush_call t) s in
  let '(err, s', _) := exec (add_routes want) s1 in
  rules_of s' = rules_of s ∧ (∀ t', t' ≠ t → routes_of s' t' = routes_of s t') ∧
  (∀ r, r ∈ routes_of s' t → r ∈ routes_of s t ∨ r ∈ (OwnRoute <$> want)) ∧ (err = None → filled s s' t want).
Proof.
  intros (Hti & Hw & Ht & Hm & _). cbn [fst snd] in *. pose proof (flush_law s t Hti) as Hf.
  pose proof (λ r, flush_incl s t r Hti) as Hsub1. pose proof (flush_empties s t Hti) as Hempty.
  destruct (run_call (route_flush_call t) s) as [[fout ferr] s1]. cbn [snd] in *. destruct Hf as (Hr & Ho & _).
  pose proof (add_routes_spec t want s1 Hw Ht Hm) as Ha. destruct (exec (add_routes want) s1) as [[err s2] cs].
  destruct Ha as (Hr2 & Ho2 & Hsub & _ & Hdone). split_and!; [congruence|intros t' Hne; by rewrite Ho2, Ho| |].
  { intros r [Hin|Hin]%Hsub; auto. }
  intros He Hown. specialize (Hdone He).
  assert (∀ e, e ∈ effect <$> want → e ∈ effect <$> own_routes s2 t) as Hall.
  { intros e (rt & -> & Hin)%list_elem_of_fmap. apply list_elem_of_fmap_2. apply elem_of_own_routes. by apply Hdone. }
  split; [done|]. intros Hflush.
  assert (∀ r, r ∈ routes_of s2 t → r ∈ OwnRoute <$> want) as Hsub2.
  { intros r [Hin|Hin]%Hsub; [|done]. rewrite Hempty in Hin by done. by apply elem_of_nil in Hin. }
  rewrite list.Forall_forall in Hw. split; cbn [fst snd].
  - intros r (rt & -> & Hin)%Hsub2%list_elem_of_fmap. exists rt. split; [done|]. by apply Hw.
  - intros e. split; [|apply Hall]. intros (rt & -> & Hin%elem_of_own_routes)%list_elem_of_fmap.
    apply Hsub2, list_elem_of_fmap in Hin as (rt' & [= <-] & Hin). by apply list_elem_of_fmap_2.
Qed.

(** The turn of one table only depends on what it had. *)
Lemma filled_from (s s1 s' : St) t want : routes_of s1 t = routes_of s t → filled s1 s' t want → filled s s' t want.
Proof. unfold filled, only_own. by intros ->. Qed.
Lemma filled_to (s s1 s' : St) t want : routes_of s' t = routes_of s1 t → filled s s1 t want → filled s s' t want.
Proof. unfold filled, holds, only_own, own_routes. cbn [fst snd]. intros E Hf. by rewrite E. Qed.

Lemma reconcile_tables_spec tables : ∀ changes (s : St),
  Forall wf_table tables → NoDup tables.*1 →
  let '(n, err, s', _) := exec (reconcile_tables changes tables) s in
  rules_of s' = rules_of s ∧
  (∀ t, t ∉ tables.*1 → routes_of s' t = routes_of s t) ∧
  Forall (λ tw, ∀ r, r ∈ routes_of s' tw.1 → r ∈ routes_of s tw.1 ∨ r ∈ (OwnRoute <$> tw.2)) tables ∧
  (err = None → Forall (λ tw, filled s s' tw.1 tw.2) tables) ∧ changes <= n <= changes + Z.of_nat (length tables).
Proof.
  induction tables as [|[t want] tables IH]; intros changes s Hwf Hnd.
  { cbn. split_and!; [done|done|constructor|constructor|lia|lia]. }
  apply list.Forall_cons in Hwf as [Htw Hwf]. cbn [fst snd fmap list_fmap length] in *. rewrite Nat2Z.inj_succ.
  apply NoDup_cons in Hnd as [Hni Hnd]. cbn [reconcile_tables]. rewrite exec_run.
  pose proof (show_law s t (proj1 Htw)) as Hshow.
  destruct (run_call (route_show_call t) s) as [[out oerr] s1]. destruct Hshow as (Hout & Hru & Hsame).
  assert (∀ (f : Z * list RouteSpec → Prop) g, (∀ tw, tw ∈ tables → t ≠ tw.1 → f tw → g tw) → Forall f tables → Forall g tables) as Hrest.
  { intros f g Hfg. rewrite !list.Forall_forall. intros Hf [t' w'] Hin. apply Hfg; [done| |by apply Hf].
    intros ->. apply Hni. by apply (list_elem_of_fmap_2 fst) in Hin. }
  destruct (tableRoutesMatch out want) eqn:E.
  - specialize (IH changes s1 Hwf Hnd). destruct (exec (reconcile_tables changes tables) s1) as [[[n err] s2] cs].
    destruct IH as (Hru2 & Hother & Hsub & Hdone & Hn). rewrite <-Hru.
    assert (routes_of s2 t = routes_of s t) as Ht by (by rewrite Hother).
    split_and!; [done|..|lia|lia].
    + intros t' [Hne Hin]%not_elem_of_cons. by rewrite Hother, Hsame.
    + constructor; [cbn [fst snd]; rewrite Ht; by left|]. revert Hsub. apply Hrest. intros tw _ _ Hs r. rewrite <-Hsame. apply Hs.
    + intros He. constructor; cbn [fst snd].
      * intros Hown. assert (holds s (t, want)) as Hh.
        { apply match_holds; [apply Htw|done|]. destruct oerr; [|by subst out].
          subst out. rewrite tableRoutesMatch_nothing in E; [done|apply Htw]. }
        apply (holds_keep _ s2) in Hh; [|done]. split; [intros e; apply Hh|done].
      * revert Hdone. intros Hd. generalize (Hd He). apply Hrest. intros tw _ _. by apply filled_from.
  - rewrite exec_run. pose proof (refill_spec s1 t want Htw) as Hf.
    destruct (run_call (route_flush_call t) s1) as [[fout ferr] s2]. rewrite exec_bind.
    destruct (exec (add_routes want) s2) as [[aerr s3] cs3]. destruct Hf as (Hru3 & Ho3 & Hsub3 & Hfill).
    rewrite <-Hru, <-Hru3. rewrite Hsame in Hsub3. destruct aerr as [e|].
    + cbn [mret prog_ret exec]. split_and!; [done| | |done|lia|lia].
      * intros t' [Hne Hin]%not_elem_of_cons. by rewrite Ho3, Hsame.
      * constructor; [done|]. apply (Hrest (λ _, True)); [|by apply list.Forall_true]. intros tw _ Hne _ r. rewrite Ho3, Hsame by done. by left.
    + specialize (IH (changes + 1) s3 Hwf Hnd). destruct (exec (reconcile_tables _ tables) s3) as [[[n err] s4] cs].
      destruct IH as (Hru4 & Hother & Hsub & Hdone & Hn).
      assert (routes_of s4 t = routes_of s3 t) as Ht by (by apply Hother). split_and!; [done|..|lia|lia].
      * intros t' [Hne Hin]%not_elem_of_cons. rewrite Hother by done. by rewrite Ho3, Hsame.
      * constructor; [cbn [fst snd]; by rewrite Ht|]. revert Hsub. apply Hrest. intros tw _ Hne Hs r. rewrite <-Hsame, <-Ho3 by done. apply Hs.
      * intros He. constructor; cbn [fst snd].
        -- apply (filled_from _ s1); [done|]. apply (filled_to _ s3); [done|]. by apply Hfill.
        -- generalize (Hdone He). apply Hrest. intros tw _ Hne. apply filled_from. by rewrite Ho3, Hsame.
Qed.

Lemma holds_some s t want : want ≠ [] → holds s (t, want) → routes_of s t ≠ [].
Proof.
  intros Hne [_ Hh] E. destruct want as [|rt want]; [done|]. cbn [fst snd] in Hh. unfold own_routes in Hh. rewrite E in Hh.
  pose proof (proj2 (Hh (effect rt)) ltac:(left)) as Hin. by apply elem_of_nil in Hin.
Qed.

Lemma reconcile_tables_noop tables : ∀ changes (s : St),
  (∀ (s : St) t, wf_int t → routes_of s t ≠ [] → (run_call (route_show_call t) s).1.2 = None) →
  Forall wf_table tables → Forall (holds s) tables →
  let '(res, s', cs) := exec (reconcile_tables changes tables) s in
  res = (changes, None) ∧ cs = (route_show_call <$> tables.*1) ∧ rules_of s' = rules_of s ∧
  ∀ t, routes_of s' t = routes_of s t.
Proof.
  induction tables as [|[t want] tables IH]; intros changes s Hlist Hwf Hh; [done|].
  apply list.Forall_cons in Hwf as [(Hti & Hw & _ & _ & Hne) Hwf]. apply list.Forall_cons in Hh as [Hth Hh]. cbn [fst snd] in *.
  cbn [reconcile_tables]. rewrite exec_run. pose proof (show_law s t Hti) as Hshow. specialize (Hlist s t Hti (holds_some s t want Hne Hth)) as Hnone.
  destruct (run_call (route_show_call t) s) as [[out oerr] s1]. cbn [fst snd] in Hnone. subst oerr. destruct Hshow as (-> & Hru & Hsame).
  rewrite holds_match by done.
  assert (Forall (holds s1) tables) as Hh1.
  { eapply list.Forall_impl; [done|]. intros [t' w] Hx. by apply (holds_keep s). }
  specialize (IH changes s1 Hlist Hwf Hh1). destruct (exec (reconcile_tables changes tables) s1) as [[res s2] cs].
  destruct IH as (-> & -> & Hr & Hs). split_and!; [done|done|congruence|]. intros t'. by rewrite Hs.
Qed.

(** The rule loop. *)
Lemma rule_present_show (l : list liveRule) rule : live_of rule ∈ l → rule_present (show_rules l) rule = true.
Proof.
  intros Hin. assert (rule_line (live_of rule) ∈ rule_line <$> l) as Hl by (by apply list_elem_of_fmap_2).
  unfold rule_present, show_rules.
  rewrite !andb_true_iff. split_and!; apply (contains_lines _ _ _ Hl); unfold rule_line, live_of; cbn [lr_prio lr_mark lr_table].
  - rewrite <-app_assoc_str. apply contains_here.
  - do 2 apply contains_app_r. apply (contains_app_r (String tab "from all ")).
    rewrite !app_assoc_str. rewrite <-(app_assoc_str "fwmark 0x"). apply contains_here.
  - do 2 apply contains_app_r. apply (contains_app_r (String tab "from all ")). apply contains_app_r.
    apply contains_refl.
Qed.

(** The words of a listing of rules: only a mark follows the word [fwmark]. *)
Ltac same_text := repeat progress (cbn [String.append]; rewrite ?app_assoc_str); reflexivity.

Lemma followed_mark pre rs h :
  no_char " " pre = true → Forall (λ r, no_char " " (lr_table r) = true) rs →
  followed (λ x y, has_suffix x "fwmark" = true ∧ has_prefix y h = true) (split (pre +:+ show_rules rs) " ") →
  ∃ r m, r ∈ rs ∧ lr_mark r = Some m ∧ has_prefix ("0x" +:+ fmt_x m) h = true.
Proof.
  intros Hpre Hrs. revert pre Hpre. induction Hrs as [|r rs Hr _ IH]; intros pre Hpre.
  { change (show_rules []) with "". rewrite app_nil_r_str, split_no_char by done. done. }
  change (show_rules (r :: rs)) with (lines_text (rule_line r :: (rule_line <$> rs))). rewrite lines_text_cons.
  fold (show_rules rs). unfold rule_line.
  assert (∀ s, split (pre +:+ (itoa (lr_prio r) +:+ ":" +:+ String tab ("from all " +:+ s))) " " =
    (pre +:+ itoa (lr_prio r) +:+ ":" +:+ String tab "from") :: "all" :: split s " ") as Hfirst.
  { intros s. replace (pre +:+ (itoa (lr_prio r) +:+ ":" +:+ String tab ("from all " +:+ s)))
      with ((pre +:+ itoa (lr_prio r) +:+ ":" +:+ String tab "from") +:+ String " " ("all" +:+ String " " s))
      by (by rewrite !app_assoc_str).
    rewrite split_app; [by rewrite (split_app " " "all")|]. unfold no_char in *. rewrite !string_forall_app, Hpre.
    assert (string_forall (λ c, negb (Ascii.eqb c " ")) (itoa (lr_prio r)) = true) as -> by apply itoa_no_space. done. }
  assert (∀ s, split ("lookup " +:+ lr_table r +:+ nl +:+ s) " " = "lookup" :: split ((lr_table r +:+ nl) +:+ s) " ") as Hlast.
  { intros s. rewrite app_assoc_str. change ("lookup " +:+ ?t) with ("lookup" +:+ String " " t). by rewrite split_app. }
  assert (has_suffix (pre +:+ itoa (lr_prio r) +:+ ":" +:+ String tab "from") "fwmark" = false) as Hfrom.
  { replace (pre +:+ itoa (lr_prio r) +:+ ":" +:+ String tab "from") with ((pre +:+ itoa (lr_prio r) +:+ ":" +:+ String tab "") +:+ "from")
      by (by rewrite !app_assoc_str). apply from_not_fwmark. }
  assert (followed (λ x y, has_suffix x "fwmark" = true ∧ has_prefix y h = true)
    ("lookup" :: split ((lr_table r +:+ nl) +:+ show_rules rs) " ") →
    ∃ r0 m, r0 ∈ r :: rs ∧ lr_mark r0 = Some m ∧ has_prefix ("0x" +:+ fmt_x m) h = true) as Hnext.
  { rewrite followed_cons. intros [(y & _ & [=] & _)|Hf]. destruct (IH (lr_table r +:+ nl)) as (r0 & m & Hin & Hm); [|done|].
    - unfold no_char in *. by rewrite string_forall_app, Hr.
    - exists r0, m. split; [by right|done]. }
  destruct (lr_mark r) as [m|] eqn:Em.
  - match goal with |- followed _ (split ?t _) → _ =>
      replace t with (pre +:+ (itoa (lr_prio r) +:+ ":" +:+ String tab ("from all " +:+
        ("fwmark" +:+ String " " (("0x" +:+ fmt_x m) +:+ String " " ("lookup " +:+ lr_table r +:+ nl +:+ show_rules rs))))))
        by same_text end.
    rewrite Hfirst, (split_app " " "fwmark"), (split_app " " ("0x" +:+ fmt_x m)), Hlast by (done || apply hex_no_space).
    rewrite !followed_cons. intros [(y & _ & E & _)|[(y & _ & [=] & _)|[(y & [= <-] & _ & Hp)|[(y & _ & E & _)|Hf]]]].
    + congruence.
    + exists r, m. split; [left|done].
    + exfalso. revert E. change ("0x" +:+ fmt_x m) with ("0x" +:+ fmt_x m). intros E. by rewrite hex_not_fwmark in E.
    + apply Hnext. by apply followed_cons.
  - match goal with |- followed _ (split ?t _) → _ =>
      replace t with (pre +:+ (itoa (lr_prio r) +:+ ":" +:+ String tab ("from all " +:+ ("lookup " +:+ lr_table r +:+ nl +:+ show_rules rs))))
        by same_text end.
    rewrite Hfirst, Hlast, !followed_cons. intros [(y & _ & E & _)|[(y & _ & [=] & _)|Hf]]; [congruence|].
    apply Hnext. by apply followed_cons.
Qed.

Lemma reconcile_rules_noop rules : ∀ changes (s : St),
  (∀ s : St, (run_call rule_show_call s).1.2 = None) →
  Forall (λ rule, live_of rule ∈ rules_of s) rules →
  let '(res, s', cs) := exec (reconcile_rules changes rules) s in
  res = (changes, None) ∧ cs = (const rule_show_call <$> rules) ∧ rules_of s' = rules_of s ∧
  ∀ t, routes_of s' t = routes_of s t.
Proof.
  induction rules as [|rule rules IH]; intros changes s Hlist Hp; [done|].
  apply list.Forall_cons in Hp as [Hr Hp]. cbn [reconcile_rules]. rewrite exec_run.
  pose proof (rule_show_law s) as Hshow. specialize (Hlist s) as Hnone.
  destruct (run_call rule_show_call s) as [[out oerr] s1]. cbn [fst snd] in Hnone. subst oerr. destruct Hshow as (-> & Hru & Hsame).
  rewrite rule_present_show by done. rewrite <-Hru in Hp. specialize (IH changes s1 Hlist Hp).
  destruct (exec (reconcile_rules changes rules) s1) as [[res s2] cs]. destruct IH as (-> & -> & Hr2 & Hs2).
  split_and!; [done|done|congruence|]. intros t. by rewrite Hs2.
Qed.

Lemma rule_present_nothing rule : rule_present "" rule = false.
Proof. unfold rule_present. change (contains "" ("lookup " +:+ ?t)) with false. by rewrite andb_false_r. Qed.

(** The other rules are told apart by their marks: no mark begins with the
    digits of the rule's. *)
Definition marks_apart (s : St) (rule : IPRuleSpec) : Prop :=
  ∀ r, r ∈ rules_of s → r = live_of rule ∨
    no_char " " (lr_table r) = true ∧ ∀ m, lr_mark r = Some m → has_prefix (fmt_x m) (fmt_x (ir_Mark rule)) = false.

(** The listing then shows the rule only when the rule is there. *)
Lemma marks_apart_present s rule :
  wf_rule rule → marks_apart s rule → rule_present (show_rules (rules_of s)) rule = true → live_of rule ∈ rules_of s.
Proof.
  intros (_ & _ & Ht) Hma Hp. unfold rule_present in Hp. apply andb_true_iff in Hp as [[_ Hp]%andb_true_iff _].
  change ("fwmark 0x" +:+ fmt_x (ir_Mark rule)) with ("fwmark" +:+ String " " ("0x" +:+ fmt_x (ir_Mark rule))) in Hp.
  apply contains_followed in Hp; [|done|apply hex_no_space].
  destruct (followed_mark "" (rules_of s) ("0x" +:+ fmt_x (ir_Mark rule)) eq_refl) as (r & m & Hin & Hm & Hx); [|done|].
  - apply list.Forall_forall. intros r Hr. destruct (Hma r Hr) as [->|[]]; [|done]. cbn [live_of lr_table]. apply itoa_no_space.
  - rewrite has_prefix_app in Hx. destruct (Hma r Hin) as [->|[_ Hno]]; [done|]. by rewrite (Hno m Hm) in Hx.
Qed.

(** A deletion at a priority where there is no rule deletes none. *)
Lemma rule_del_free prio (s : St) :
  wf_int prio → (∀ r, r ∈ rules_of s → lr_prio r ≠ prio) → rules_of (run_call (rule_del_call prio) s).2 = rules_of s.
Proof.
  intros Hp Hfree. pose proof (rule_del_law s prio Hp) as Hl. destruct (run_call (rule_del_call prio) s) as [[out [e|]] s'].
  - apply Hl.
  - destruct Hl as [(r & Hr & Hperm) _]. exfalso. apply (Hfree r); [|done]. rewrite Hperm. left.
Qed.

(** What the rule loop leaves: the rule is there on success, no other is new,
    and where its priority was free, it is the only change. *)
Lemma reconcile_rule_spec rule (s : St) :
  wf_rule rule → marks_apart s rule →
  let '((n, err), s', _) := exec (reconcile_rules 0 [rule]) s in
  (∀ t, routes_of s' t = routes_of s t) ∧ 0 <= n <= 1 ∧
  (∀ r, r ∈ rules_of s' → r = live_of rule ∨ r ∈ rules_of s) ∧
  (err = None → live_of rule ∈ rules_of s') ∧
  ((∀ r, r ∈ rules_of s → lr_prio r ≠ Priority rule) →
     rules_of s' ≡ₚ match err with None => live_of rule :: rules_of s | Some _ => rules_of s end).
Proof.
  intros Hwf Hma. cbn [reconcile_rules]. rewrite exec_run. pose proof (rule_show_law s) as Hshow.
  destruct (run_call rule_show_call s) as [[out oerr] s1]. destruct Hshow as (Hout & Hru & Hsame).
  destruct (rule_present out rule) eqn:E.
  - assert (live_of rule ∈ rules_of s) as Hin.
    { apply marks_apart_present; [done..|]. destruct oerr; subst out; [by rewrite rule_present_nothing in E|done]. }
    cbn. rewrite Hru. split_and!; [done|lia|lia|by right|done|]. intros Hfree. by destruct (Hfree _ Hin).
  - rewrite exec_run. pose proof (rule_del_law s1 (Priority rule) (proj1 Hwf)) as Hdel.
    pose proof (rule_del_free (Priority rule) s1 (proj1 Hwf)) as Hnone.
    destruct (run_call (rule_del_call _) s1) as [[out2 err2] s2]. rewrite Hru in Hdel, Hnone. cbn [snd] in Hnone.
    destruct Hdel as [Hdel Hd]. rewrite exec_run.
    assert (∀ r, r ∈ rules_of s2 → r ∈ rules_of s) as Hsub.
    { intros r Hr. destruct err2; [by rewrite Hdel in Hr|]. destruct Hdel as (r' & _ & ->). by right. }
    pose proof (rule_add_law s2 rule Hwf) as Ha. destruct (run_call (rule_add_call rule) s2) as [[out3 [e|]] s3];
      destruct Ha as [Hin Hroutes]; cbn; rewrite Hin.
    + split_and!; [|lia|lia| |done|by intros ->%Hnone]; [intros t; by rewrite Hroutes, Hd|]. intros r Hr. right. rewrite Hin in Hr. by apply Hsub.
    + split_and!; [|lia|lia| |left|by intros ->%Hnone]; [intros t; by rewrite Hroutes, Hd|].
      intros r Hr. rewrite Hin in Hr. apply elem_of_cons in Hr as [->|Hr]; [by left|]. right. by apply Hsub.
Qed.

End laws.

(** The order of [range] over the tables. *)
Definition table_order (ord : gmap Z (list RouteSpec) → list (Z * list RouteSpec)) : Prop :=
  ∀ m, Permutation (ord m) (map_to_list m).

Definition routes_in (routes : list RouteSpec) (t : Z) : list RouteSpec := List.filter (λ rt, rt_Table rt =? t) routes.

Definition wf_routes (routes : list RouteSpec) : Prop :=
  Forall wf_route routes ∧ ∀ t, NoDup (Metric <$> routes_in routes t).

Lemma by_table_elem ord routes t want :
  table_order ord → (t, want) ∈ ord (by_table routes) ↔ want = routes_in routes t ∧ t ∈ (rt_Table <$> routes).
Proof.
  intros Hord. rewrite (Hord _). rewrite elem_of_map_to_list, by_table_spec. fold (routes_in routes t).
  assert (t ∈ (rt_Table <$> routes) ↔ routes_in routes t ≠ []) as ->.
  { unfold routes_in. induction routes as [|rt routes IH]; cbn [fmap list_fmap List.filter].
    - split; [by intros ?%elem_of_nil|done].
    - rewrite elem_of_cons, IH. destruct (Z.eqb_spec (rt_Table rt) t); naive_solver. }
  destruct (routes_in routes t); naive_solver.
Qed.

Lemma by_table_wf ord routes : table_order ord → wf_routes routes → Forall wf_table (ord (by_table routes)).
Proof.
  intros Hord [Hwf Hnd]. apply list.Forall_forall. intros [t want] [-> Ht]%by_table_elem; [|done].
  apply list_elem_of_fmap in Ht as (rt & -> & Hin). rewrite list.Forall_forall in Hwf. unfold wf_table. cbn [fst snd].
  assert (∀ r, r ∈ routes_in routes (rt_Table rt) → r ∈ routes ∧ rt_Table r = rt_Table rt) as Hf.
  { intros r Hr%list_elem_of_In. unfold routes_in in Hr. apply filter_In in Hr as [Hr%list_elem_of_In He%Z.eqb_eq]. done. }
  split_and!; [apply (Hwf rt Hin)|..|apply Hnd|].
  1,2: apply list.Forall_forall; intros r Hr; destruct (Hf r Hr); auto.
  intros E. assert (rt ∈ routes_in routes (rt_Table rt)) as Hr; [|rewrite E in Hr; by apply elem_of_nil in Hr].
  apply list_elem_of_In, filter_In. rewrite <-list_elem_of_In. split; [done|]. apply Z.eqb_refl.
Qed.

Lemma by_table_nodup ord routes : table_order ord → NoDup (ord (by_table routes)).*1.
Proof. intros Hord. rewrite (Hord _). apply NoDup_fst_map_to_list. Qed.

Lemma tables_elem ord routes t : table_order ord → t ∈ (ord (by_table routes)).*1 ↔ t ∈ (rt_Table <$> routes).
Proof.
  intros Hord. rewrite list_elem_of_fmap. split.
  - intros ([t' want] & -> & [_ Ht]%by_table_elem); done.
  - intros Ht. exists (t, routes_in routes t). split; [done|]. by apply by_table_elem.
Qed.

(** A run of both loops. *)
Lemma Reconcile_spec `{RouteKernel St} ord rule routes (s : St) :
  table_order ord → wf_rule rule → wf_routes routes → marks_apart s rule →
  let '((n, err), s', _) := exec (Reconcile ord [rule] routes) s in
  (∀ t, t ∉ (rt_Table <$> routes) → routes_of s' t = routes_of s t) ∧
  (∀ r, r ∈ rules_of s' → r = live_of rule ∨ r ∈ rules_of s) ∧
  (∀ t r, r ∈ routes_of s' t → r ∈ routes_of s t ∨ r ∈ (OwnRoute <$> routes_in routes t)) ∧
  (err = None → live_of rule ∈ rules_of s' ∧
     ∀ t, t ∈ (rt_Table <$> routes) → filled s s' t (routes_in routes t)) ∧
  0 <= n <= 1 + Z.of_nat (length (ord (by_table routes))) ∧
  ((∀ r, r ∈ rules_of s → lr_prio r ≠ Priority rule) → err = None → rules_of s' ≡ₚ live_of rule :: rules_of s).
Proof.
  intros Hord Hr Hwf Hma. unfold Reconcile. rewrite exec_bind.
  pose proof (reconcile_rule_spec rule s Hr Hma) as H1.
  destruct (exec (reconcile_rules 0 [rule]) s) as [[[n err] s1] cs1]. destruct H1 as (Hsame & Hn & Hsub & Hrule & Hfresh).
  destruct err as [e|].
  { cbn. split_and!; [auto|auto| |done|lia|lia|done]. intros t r. rewrite Hsame. by left. }
  pose proof (reconcile_tables_spec (ord (by_table routes)) n s1 (by_table_wf _ _ Hord Hwf) (by_table_nodup _ _ Hord)) as H2.
  destruct (exec (reconcile_tables n _) s1) as [[[n2 err2] s2] cs2]. destruct H2 as (Hru & Hother & Hnew & Hdone & Hn2).
  assert (∀ t, t ∉ rt_Table <$> routes → routes_of s2 t = routes_of s t) as Ho.
  { intros t Ht. rewrite Hother by (by rewrite tables_elem). apply Hsame. }
  split_and!; [done|by rewrite Hru| |..].
  - intros t r Hin. destruct (decide (t ∈ rt_Table <$> routes)) as [Ht|Ht]; [|left; by rewrite <-Ho].
    rewrite list.Forall_forall in Hnew. rewrite <-Hsame. apply (Hnew (t, routes_in routes t)); [by apply by_table_elem|done].
  - intros He. rewrite Hru. split; [by apply Hrule|]. intros t Ht. specialize (Hdone He).
    rewrite list.Forall_forall in Hdone. apply (filled_from _ s1); [done|].
    apply (Hdone (t, routes_in routes t)). by apply by_table_elem.
  - lia.
  - lia.
  - intros Hfree _. rewrite Hru. by apply Hfresh.
Qed.

(** ** Properties *)

(** C11. What [routing.Reconcile] of a rule and routes leaves: the tables of no
    route are untouched, the others get no route but their wanted ones, and it
    reports at most one change for the rule and each table.  When it succeeds,
    the system has the rule; and a table that only had default routes of the
    program's form has all its wanted routes (kind, device and metric), and no
    others if a flush of the table works when it has routes.  It relies on the
    marks of the other rules not beginning with the digits of the rule's mark
    ([marks_apart]). *)
Theorem routing_Reconcile_establishes `{RouteKernel St} ord rule routes (s : St) :
  table_order ord → wf_rule rule → wf_routes routes → marks_apart s rule →
  let '((n, err), s', _) := exec (Reconcile ord [rule] routes) s in
  (∀ t, t ∉ (rt_Table <$> routes) → routes_of s' t = routes_of s t) ∧
  (∀ t r, r ∈ routes_of s' t → r ∈ routes_of s t ∨ r ∈ (OwnRoute <$> routes_in routes t)) ∧
  (err = None → live_of rule ∈ rules_of s' ∧
     ∀ t, t ∈ (rt_Table <$> routes) → only_own s t →
       (∀ e, e ∈ (effect <$> routes_in routes t) → e ∈ (effect <$> own_routes s' t)) ∧
       (flushable t → only_own s' t ∧ ∀ e, e ∈ (effect <$> own_routes s' t) ↔ e ∈ (effect <$> routes_in routes t))) ∧
  0 <= n <= 1 + Z.of_nat (length (ord (by_table routes))).
Proof.
  intros Hord Hr Hwf Hma. pose proof (Reconcile_spec ord rule routes s Hord Hr Hwf Hma) as Hs.
  destruct (exec (Reconcile ord [rule] routes) s) as [[[n err] s'] cs]. destruct Hs as (? & _ & ? & ? & ? & _). done.
Qed.

(** When the rules are there, the tables have the routes and the listings
    work, [routing.Reconcile] only lists, and reports no change. *)
Theorem routing_Reconcile_idempotent `{RouteKernel St} ord rules routes (s : St) :
  table_order ord → wf_routes routes →
  (∀ s : St, (run_call rule_show_call s).1.2 = None) →
  (∀ (s : St) t, wf_int t → routes_of s t ≠ [] → (run_call (route_show_call t) s).1.2 = None) →
  Forall (λ rule, live_of rule ∈ rules_of s) rules →
  (∀ t, t ∈ (rt_Table <$> routes) → holds s (t, routes_in routes t)) →
  let '(res, s', cs) := exec (Reconcile ord rules routes) s in
  res = (0, None) ∧ cs = (const rule_show_call <$> rules) ++ (route_show_call <$> (ord (by_table routes)).*1) ∧
  rules_of s' = rules_of s ∧ ∀ t, routes_of s' t = routes_of s t.
Proof.
  intros Hord Hwf Hl1 Hl2 Hr Hh. unfold Reconcile. rewrite exec_bind.
  pose proof (reconcile_rules_noop rules 0 s Hl1 Hr) as H1.
  destruct (exec (reconcile_rules 0 rules) s) as [[res s1] cs1]. destruct H1 as (-> & -> & Hru & Hsame).
  assert (Forall (holds s1) (ord (by_table routes))) as Hh1.
  { apply list.Forall_forall. intros [t want] [-> Ht]%by_table_elem; [|done]. apply (holds_keep s); [apply Hsame|by apply Hh]. }
  pose proof (reconcile_tables_noop (ord (by_table routes)) 0 s1 Hl2 (by_table_wf _ _ Hord Hwf) Hh1) as H2.
  destruct (exec (reconcile_tables 0 _) s1) as [[res s2] cs2]. destruct H2 as (-> & -> & Hru2 & Hsame2).
  split_and!; [done|done|congruence|]. intros t. by rewrite Hsame2.
Qed.

(** Rules that together show the texts the test looks for: the digits of the
    priority at the end of one priority, those of the mark at the beginning of
    one mark and those of the table at the beginning of one table's name. *)
Definition scattered (l : list liveRule) (rule : IPRuleSpec) : Prop :=
  (∃ r, r ∈ l ∧ has_suffix (itoa (lr_prio r)) (itoa (Priority rule)) = true) ∧
  (∃ r m, r ∈ l ∧ lr_mark r = Some m ∧ has_prefix (fmt_x m) (fmt_x (ir_Mark rule)) = true) ∧
  (∃ r, r ∈ l ∧ has_prefix (lr_table r) (itoa (ir_Table rule)) = true).

Lemma scattered_present l rule : scattered l rule → rule_present (show_rules l) rule = true.
Proof.
  intros ((r1 & H1 & (a & E1)%has_suffix_spec) & (r2 & m & H2 & Em & (b & E2)%has_prefix_spec) & (r3 & H3 & (c & E3)%has_prefix_spec)).
  assert (∀ r, r ∈ l → rule_line r ∈ rule_line <$> l) as Hin by (intros; by apply list_elem_of_fmap_2).
  unfold rule_present, show_rules. rewrite !andb_true_iff. split_and!.
  - apply (contains_lines _ _ _ (Hin _ H1)). unfold rule_line. rewrite E1. apply contains_spec.
    eexists a, _. rewrite !app_assoc_str. reflexivity.
  - apply (contains_lines _ _ _ (Hin _ H2)). unfold rule_line. rewrite Em, E2. do 2 apply contains_app_r.
    apply (contains_app_r (String tab "from all ")). rewrite !app_assoc_str.
    change ("fwmark 0x" +:+ ?s +:+ ?t) with ("fwmark 0x" +:+ (s +:+ t)). rewrite <-(app_assoc_str "fwmark 0x"). apply contains_here.
  - apply (contains_lines _ _ _ (Hin _ H3)). unfold rule_line. rewrite E3. do 2 apply contains_app_r.
    apply (contains_app_r (String tab "from all ")), contains_app_r. rewrite <-(app_assoc_str "lookup "). apply contains_here.
Qed.

(** A run of the tables makes no call about rules. *)
Lemma sat_reconcile_tables tables changes :
  sat (λ c, head (c_args c) = Some "route") (λ _, True) (reconcile_tables changes tables).
Proof.
  assert (∀ want, sat (λ c, head (c_args c) = Some "route") (λ _, True) (add_routes want)) as Hadd.
  { induction want as [|rt want IH]; [done|]. cbn [add_routes]. apply (sat_bind _ (λ _, True)); [|intros [e|] _; [done|apply IH]].
    unfold addRoute. apply sat_run; [|by intros [o e]]. unfold addRoute_call, addRoute_args. by destruct (Blackhole rt). }
  revert changes. induction tables as [|[t want] tables IH]; intros changes; [done|]. cbn [reconcile_tables].
  apply sat_run; [done|]. intros [out err]. destruct (tableRoutesMatch out want); [apply IH|].
  apply sat_run; [done|]. intros _. apply (sat_bind _ (λ _, True)); [apply Hadd|]. intros [e|] _; [done|apply IH].
Qed.

(** C38. The test for the rule is on substrings of the whole listing: when the
    rule is missing and the other rules, together, show the digits of its
    priority, mark and table, [routing.Reconcile] never adds it and changes no
    rule; its result is that of the routes alone, as if the rule were there. *)
Theorem routing_Reconcile_misses_rule `{RouteKernel St} ord rule routes (s : St) :
  table_order ord → wf_routes routes →
  (run_call rule_show_call s).1.2 = None → scattered (rules_of s) rule → live_of rule ∉ rules_of s →
  let '(res, s', cs) := exec (Reconcile ord [rule] routes) s in
  res = (exec (Reconcile ord [] routes) (run_call rule_show_call s).2).1.1 ∧ rule_add_call rule ∉ cs ∧
  rules_of s' = rules_of s ∧ live_of rule ∉ rules_of s'.
Proof.
  intros Hord Hwf Hnone Hsc Hni. unfold Reconcile. rewrite !exec_bind. cbn [reconcile_rules]. rewrite exec_run.
  pose proof (rule_show_law s) as Hshow. destruct (run_call rule_show_call s) as [[out oerr] s1]. cbn [fst snd] in *.
  subst oerr. destruct Hshow as (-> & Hru & _). rewrite scattered_present by done. cbn [mret prog_ret exec].
  pose proof (reconcile_tables_spec (ord (by_table routes)) 0 s1 (by_table_wf _ _ Hord Hwf) (by_table_nodup _ _ Hord)) as H2.
  pose proof (sat_exec _ _ _ s1 (sat_reconcile_tables (ord (by_table routes)) 0)) as H3.
  destruct (exec (reconcile_tables 0 _) s1) as [[[n err] s2] cs]. destruct H2 as (Hru2 & _), H3 as [_ Hcs].
  rewrite Hru2, Hru. split_and!; [done| |done|done]. cbn [app]. intros [E|Hin]%elem_of_cons; [discriminate E|].
  rewrite list.Forall_forall in Hcs. by specialize (Hcs _ Hin) as [=].
Qed.

(** A blackhole of any prefix counts as the blackhole of the default route. *)
Lemma any_blackhole_is_default :
  parseRouteLine "blackhole 10.0.0.0/8 metric 100" = Some (routeKey (RouteSpecMk 100 default_dst true "" 100)).
Proof. by vm_compute. Qed.

(** ** A system

    Rules and tables as lists; the texts of numbers are read back.  A table
    without routes does not exist: to list or to flush it is an error. *)
Module Sim.

Record state := State { rules : list liveRule; tables : gmap Z (list live_route) }.

Definition valid (rt : RouteSpec) : bool :=
  (0 <=? Metric rt) && (Metric rt <? 2 ^ 63) &&
  (if Blackhole rt then String.eqb (Device rt) "" else negb (String.eqb (Device rt) "") && visible (Device rt)) &&
  (0 <=? rt_Table rt) && (rt_Table rt <? 2 ^ 63) && bool_decide (Destination rt = default_dst).
Definition routes (s : state) (t : Z) : list live_route := default [] (tables s !! t).
Definition num (s : string) : Z := (Atoi s).1.
Definition mark (s : string) : Z := match ParseUint (trim_prefix s "0x") 16 32 with NumOk v => v | _ => 0 end.
Definition metric (args : list string) : Z := match args with ["metric"; m] => num m | _ => 0 end.

Fixpoint del_rule (prio : Z) (l : list liveRule) : list liveRule :=
  match l with
  | [] => []
  | r :: l => if lr_prio r =? prio then l else r :: del_rule prio l
  end.

(** A route replaces the one of its table with its metric. *)
Definition replaces (rt : RouteSpec) (r : live_route) : bool :=
  match r with OwnRoute r => Metric r =? Metric rt | OtherRoute _ => false end.
Definition replace_route (l : list live_route) (rt : RouteSpec) : list live_route :=
  List.filter (λ r, negb (replaces rt r)) l ++ [OwnRoute rt].

Definition failed : answer := ("", Some "exit status 2").
Definition ok (s : state) : answer * state := (("", None), s).
Definition set_table (s : state) (t : Z) (l : list live_route) : state := State (rules s) (<[t := l]> (tables s)).
Definition replace (s : state) (rt : RouteSpec) : answer * state :=
  if valid rt then ok (set_table s (rt_Table rt) (replace_route (routes s (rt_Table rt)) rt)) else (failed, s).

Definition step (c : call) (s : state) : answer * state :=
  match c_args c with
  | ["rule"; "show"] => ((show_rules (rules s), None), s)
  | ["rule"; "del"; "priority"; p] =>
      if existsb (λ r, lr_prio r =? num p) (rules s) then ok (State (del_rule (num p) (rules s)) (tables s)) else (failed, s)
  | ["rule"; "add"; "priority"; p; "fwmark"; m; "lookup"; t] =>
      ok (State (rules s ++ [LiveRuleMk (num p) (Some (mark m)) t]) (tables s))
  | ["route"; "show"; "table"; t] =>
      (match routes s (num t) with [] => failed | l => (show_routes l, None) end, s)
  | ["route"; "flush"; "table"; t] =>
      match routes s (num t) with [] => (failed, s) | _ => ok (set_table s (num t) []) end
  | "route" :: "replace" :: "blackhole" :: "default" :: "table" :: t :: rest =>
      replace s (RouteSpecMk (num t) default_dst true "" (metric rest))
  | "route" :: "replace" :: "default" :: "dev" :: d :: "table" :: t :: rest =>
      replace s (RouteSpecMk (num t) default_dst false d (metric rest))
  | _ => (("", Some "exit status 1"), s)
  end.

End Sim.

#[global] Instance sim_runner : Runner Sim.state := Sim.step.

Lemma num_itoa n : wf_int n → Sim.num (itoa n) = n.
Proof. intros Hn. unfold Sim.num. by rewrite Atoi_itoa. Qed.

Lemma mark_fmt m : 0 <= m < 2 ^ 32 → Sim.mark ("0x" +:+ fmt_x m) = m.
Proof. intros Hm. unfold Sim.mark. rewrite trim_prefix_app. unfold fmt_x. by rewrite ParseUint_fmt by lia. Qed.

Lemma valid_wf rt : Sim.valid rt = true ↔ wf_route rt.
Proof.
  unfold Sim.valid, wf_route, word. rewrite !andb_true_iff, bool_decide_eq_true, !Z.leb_le, !Z.ltb_lt.
  destruct (Blackhole rt); [rewrite String.eqb_eq|rewrite andb_true_iff, negb_true_iff, String.eqb_neq]; naive_solver.
Qed.

Lemma sim_set_table s t l t' : Sim.routes (Sim.set_table s t l) t' = if t' =? t then l else Sim.routes s t'.
Proof.
  unfold Sim.routes, Sim.set_table. cbn [Sim.tables]. destruct (Z.eqb_spec t' t) as [->|Hne].
  - by rewrite lookup_insert_eq.
  - by rewrite lookup_insert_ne.
Qed.

Lemma sim_add s rt : wf_route rt → run_call (addRoute_call rt) s = Sim.replace s rt.
Proof.
  intros (Hm & Hd & Ht & Hdst & Hb). destruct rt as [t dst bh d m]. cbn [Metric Blackhole Device rt_Table Destination] in *.
  subst dst. assert (Sim.metric (if 0 <? m then ["metric"; itoa m] else []) = m) as Hmet.
  { destruct (Z.ltb_spec 0 m); cbn [Sim.metric]; [by apply num_itoa|lia]. }
  unfold run_call, sim_runner, Sim.step, addRoute_call, addRoute_args. cbn [c_args Blackhole Device rt_Table Metric].
  destruct bh; cbn [app]; rewrite num_itoa, Hmet by done; [by rewrite Hb|done].
Qed.

Lemma sim_del_rule prio l :
  existsb (λ r, lr_prio r =? prio) l = true → ∃ r, lr_prio r = prio ∧ l ≡ₚ r :: Sim.del_rule prio l.
Proof.
  induction l as [|r l IH]; [done|]. cbn [existsb Sim.del_rule]. destruct (Z.eqb_spec (lr_prio r) prio) as [Hr|Hr]; [by exists r|].
  intros (r' & Hr' & Hp)%IH. exists r'. split; [done|]. rewrite Hp at 1. constructor.
Qed.

#[global] Program Instance sim_kernel : RouteKernel Sim.state := {| rules_of := Sim.rules; routes_of := Sim.routes |}.
Next Obligation. done. Qed.
Next Obligation.
  intros s prio Hp. unfold run_call, sim_runner, Sim.step. cbn [c_args rule_del_call]. rewrite num_itoa by done.
  pose proof (sim_del_rule prio (Sim.rules s)) as Hd. destruct (existsb _ (Sim.rules s)); cbn; [|done]. split; [by apply Hd|done].
Qed.
Next Obligation.
  intros s rule (Hp & Hm & Ht). unfold run_call, sim_runner, Sim.step. cbn [c_args rule_add_call Sim.ok].
  rewrite num_itoa, mark_fmt by done. split; [|done]. cbn [Sim.rules]. symmetry. apply (Permutation_cons_append (Sim.rules s) (live_of rule)).
Qed.
Next Obligation.
  intros s t Ht. unfold run_call, sim_runner, Sim.step. cbn [c_args route_show_call]. rewrite num_itoa by done.
  by destruct (Sim.routes s t).
Qed.
Next Obligation.
  intros s t Ht. unfold run_call, sim_runner, Sim.step. cbn [c_args route_flush_call]. rewrite num_itoa by done.
  destruct (Sim.routes s t) eqn:E; cbn [Sim.failed Sim.ok]; [split; [done|]; split; [done|]; intros r Hr; by rewrite <-E|]. split; [done|]. split.
  - intros t' Hne. by rewrite sim_set_table, (proj2 (Z.eqb_neq _ _)).
  - by rewrite sim_set_table, Z.eqb_refl.
Qed.
Next Obligation.
  intros s rt Hrt. rewrite sim_add by done. unfold Sim.replace. rewrite (proj2 (valid_wf rt) Hrt). cbn [Sim.ok].
  split; [done|]. split; [intros t Hne; by rewrite sim_set_table, (proj2 (Z.eqb_neq _ _))|].
  rewrite sim_set_table, Z.eqb_refl. unfold Sim.replace_route. split_and!.
  - apply elem_of_app. right. left.
  - intros r [[Hin%list_elem_of_In _]%list_elem_of_In%filter_In|Hin%list_elem_of_singleton]%elem_of_app; auto.
  - intros r Hin Hne. apply elem_of_app. left. apply list_elem_of_In, filter_In. split; [by apply list_elem_of_In|].
    cbn [Sim.replaces]. by rewrite (proj2 (Z.eqb_neq _ _)).
Qed.

(** ** Witnesses *)

Definition ex_table_ord (m : gmap Z (list RouteSpec)) : list (Z * list RouteSpec) := map_to_list m.
Lemma ex_table_order : table_order ex_table_ord.
Proof. by intros m. Qed.

Definition ex_rule : IPRuleSpec := IPRuleSpecMk 100 1 100.
Definition ex_routes : list RouteSpec := routesForTunnel 100 "wg-exit" true FailClosed.

Lemma ex_routes_wf : wf_routes ex_routes.
Proof.
  split.
  - repeat (apply list.Forall_cons; split); [..|constructor]; by apply valid_wf.
  - intros t. unfold ex_routes, routes_in, routesForTunnel. cbn [negb List.filter rt_Table].
    destruct (100 =? t); [|constructor]. apply (bool_decide_unpack (NoDup _)). by vm_compute.
Qed.

(** A system as it starts, whose table 100 has routes of an earlier run, and one
    with the rule and the routes. *)
Definition ex_start : Sim.state :=
  Sim.State [LiveRuleMk 0 None "local"; LiveRuleMk 500 (Some 32) "7"; LiveRuleMk 32766 None "main"; LiveRuleMk 32767 None "default"]
    {[100 := [OwnRoute (RouteSpecMk 100 default_dst true "" 5)]]}.
Definition ex_done : Sim.state := (exec (Reconcile ex_table_ord [ex_rule] ex_routes) ex_start).1.2.

Lemma ex_marks_apart : marks_apart ex_start ex_rule.
Proof.
  intros r Hr. right. repeat (apply elem_of_cons in Hr as [->|Hr]; [split; [done|]; cbn; intros m [=]; by subst|]).
  by apply elem_of_nil in Hr.
Qed.

Lemma routing_Reconcile_establishes_witness :
  let '((n, err), s', _) := exec (Reconcile ex_table_ord [ex_rule] ex_routes) ex_start in
  (∀ t, t ∉ (rt_Table <$> ex_routes) → routes_of s' t = routes_of ex_start t) ∧
  (∀ t r, r ∈ routes_of s' t → r ∈ routes_of ex_start t ∨ r ∈ (OwnRoute <$> routes_in ex_routes t)) ∧
  (err = None → live_of ex_rule ∈ rules_of s' ∧
     ∀ t, t ∈ (rt_Table <$> ex_routes) → only_own ex_start t →
       (∀ e, e ∈ (effect <$> routes_in ex_routes t) → e ∈ (effect <$> own_routes s' t)) ∧
       (flushable (St := Sim.state) t → only_own s' t ∧
          ∀ e, e ∈ (effect <$> own_routes s' t) ↔ e ∈ (effect <$> routes_in ex_routes t))) ∧
  0 <= n <= 1 + Z.of_nat (length (ex_table_ord (by_table ex_routes))).
Proof.
  apply (routing_Reconcile_establishes ex_table_ord ex_rule ex_routes ex_start ex_table_order); [by vm_compute|apply ex_routes_wf|].
  apply ex_marks_apart.
Defined.

(** The hypotheses of the last part hold of this system. *)
Lemma sim_flushable t : wf_int t → flushable (St := Sim.state) t.
Proof.
  intros Ht s Hne. unfold run_call, sim_runner, Sim.step, route_flush_call. cbn [c_args]. rewrite num_itoa by done.
  change (routes_of s t) with (Sim.routes s t) in Hne. by destruct (Sim.routes s t).
Qed.
Lemma ex_only_own : only_own ex_start 100.
Proof. intros r Hr. apply list_elem_of_singleton in Hr as ->. eexists. split; [done|]. by apply valid_wf. Qed.

Lemma routing_Reconcile_idempotent_witness :
  let '(res, s', cs) := exec (Reconcile ex_table_ord [ex_rule] ex_routes) ex_done in
  res = (0, None) ∧ cs = (const rule_show_call <$> [ex_rule]) ++ (route_show_call <$> (ex_table_ord (by_table ex_routes)).*1) ∧
  rules_of s' = rules_of ex_done ∧ ∀ t, routes_of s' t = routes_of ex_done t.
Proof.
  apply (routing_Reconcile_idempotent ex_table_ord [ex_rule] ex_routes ex_done ex_table_order ex_routes_wf).
  - done.
  - intros s t Ht Hne. unfold run_call, sim_runner, Sim.step, route_show_call. cbn [c_args]. rewrite num_itoa by done.
    change (routes_of s t) with (Sim.routes s t) in Hne. by destruct (Sim.routes s t).
  - constructor; [|constructor]. vm_compute. do 4 right. left.
  - intros t Ht. assert (t = 100) as ->.
    { cbn in Ht. by apply elem_of_cons in Ht as [->|[->|Ht%elem_of_nil]%elem_of_cons]. }
    split; [|intros e; by vm_compute]. intros r Hr. change (r ∈ (OwnRoute <$> ex_routes)) in Hr.
    apply list_elem_of_fmap in Hr as (rt & -> & Hr). exists rt. split; [done|].
    destruct ex_routes_wf as [Hwf _]. rewrite list.Forall_forall in Hwf. by apply Hwf.
Defined.

(** Rules of other programs, with priority 1100, mark 0x10 and table 1000. *)
Definition ex_confused : Sim.state :=
  Sim.State [LiveRuleMk 1100 None "main"; LiveRuleMk 1200 (Some 16) "7"; LiveRuleMk 1300 (Some 2) "1000"] ∅.

Lemma routing_Reconcile_misses_rule_witness :
  let '(res, s', cs) := exec (Reconcile ex_table_ord [ex_rule] ex_routes) ex_confused in
  res = (exec (Reconcile ex_table_ord [] ex_routes) (run_call rule_show_call ex_confused).2).1.1 ∧ rule_add_call ex_rule ∉ cs ∧
  rules_of s' = rules_of ex_confused ∧ live_of ex_rule ∉ rules_of s'.
Proof.
  apply (routing_Reconcile_misses_rule ex_table_ord ex_rule ex_routes ex_confused ex_table_order ex_routes_wf).
  - by vm_compute.
  - split_and!.
    + exists (LiveRuleMk 1100 None "main"). split; [left|by vm_compute].
    + exists (LiveRuleMk 1200 (Some 16) "7"), 16. split; [right; left|by vm_compute].
    + exists (LiveRuleMk 1300 (Some 2) "1000"). split; [do 2 right; left|by vm_compute].
  - cbn. intros Hin. repeat (apply elem_of_cons in Hin as [[=]|Hin]). by apply elem_of_nil in Hin.
Defined.
