(* ===== verification/Wireguard.v ===== *)
(** * [internal/wireguard]: the WireGuard interfaces

    [Reconcile] creates the interface when it is missing, takes a managed but
    disabled one down after removing its routes, and leaves an interface alone
    whose link is up and whose [wg show dump] and address show the
    specification ([semanticMatch]); otherwise it sets the key (on the standard
    input of [wg]), the peer, the address and the routes. *)

From stdpp Require Import base list strings gmap.
From Stdlib Require Import ZArith Lia Ascii.
From S2P Require Import Prelude GoStrings Netip Runner Policy.

Record liveWG := LiveWGMk {
  lw_PrivateKey : string;
  lw_ListenPort : Z;
  lw_PeerPublicKey : string;
  lw_Endpoint : string;
  lw_AllowedIPs : gset string;
  lw_Keepalive : Z;
}.

(** ** The dump *)

Definition add_ip (ips : gset string) (ip : string) : gset string :=
  let ip := trim_space ip in
  if String.eqb ip "" || String.eqb ip "(none)" then ips else {[ip]} ∪ ips.

Definition parseWGDump (out : string) : liveWG * bool :=
  let zero := LiveWGMk "" 0 "" "" ∅ 0 in
  match split (trim_space out) (char_of 10) with
  | [] => (zero, false)
  | line0 :: lines =>
      match split line0 tab with
      | key :: _ :: port :: _ =>
          let live := LiveWGMk key (Atoi port).1 "" "" ∅ 0 in
          match lines with
          | [] => (live, true)
          | line1 :: _ =>
              match split line1 tab with
              | pub :: _ :: ep :: ips :: rest =>
                  (LiveWGMk key (Atoi port).1 pub (if String.eqb ep "(none)" then "" else ep)
                     (foldl add_ip ∅ (split ips ","))
                     (match rest with _ :: _ :: _ :: ka :: _ => (Atoi ka).1 | _ => 0 end), true)
              | _ => (live, false)
              end
          end
      | _ => (zero, false)
      end
  end.

Definition addrContainsPrefix (addrOut : string) (want : Prefix) : bool :=
  contains addrOut (prefix_string want) ||
  contains addrOut (addr_string (p_ip want) +:+ "/" +:+ itoa (p_bits want)).

(** The comparison of a dump with the specification. *)
Definition dump_matches (live : liveWG) (spec : WireGuardSpec) : bool :=
  let peer := Peer spec in
  let wantIPs : gset string := foldl (λ s p, {[prefix_string p]} ∪ s) ∅ (AllowedIPs peer) in
  if negb (String.eqb (lw_PrivateKey live) (PrivateKey spec)) then false
  else if (0 <? ListenPort spec) && negb (lw_ListenPort live =? ListenPort spec) then false
  else if negb (String.eqb (lw_PeerPublicKey live) (PublicKey peer)) then false
  else if negb (String.eqb (lw_Endpoint live) (Endpoint peer)) then false
  else if negb (lw_Keepalive live =? PersistentKeepalive peer) then false
  else bool_decide (size wantIPs = size (lw_AllowedIPs live)) && bool_decide (set_Forall (λ ip, ip ∈ lw_AllowedIPs live) wantIPs).

Definition dump_call (iface : string) : call := Call "wg" "" ["show"; iface; "dump"].
Definition addr_call (iface : string) : call := Call "ip" "" ["-4"; "addr"; "show"; "dev"; iface].

Definition semanticMatch (iface link : string) (spec : WireGuardSpec) : prog bool :=
  if negb (contains link "UP") then mret false
  else
    '(dump, err) ← run (dump_call iface);
    if negb (bool_decide (err = None)) || String.eqb dump "" then mret false
    else
      let '(live, ok) := parseWGDump dump in
      if negb ok then mret false
      else if negb (dump_matches live spec) then mret false
      else if prefix_valid (Address spec) then
        '(addrOut, err) ← run (addr_call iface);
        if negb (bool_decide (err = None)) || negb (contains addrOut (prefix_string (Address spec))) then
          if negb (bool_decide (err = None)) || negb (addrContainsPrefix addrOut (Address spec)) then mret false
          else mret true
        else mret true
      else mret true.

(** ** Reconcile *)

Definition link_call (iface : string) : call := Call "ip" "" ["link"; "show"; "dev"; iface].
Definition link_add_call (iface : string) : call := Call "ip" "" ["link"; "add"; "dev"; iface; "type"; "wireguard"].
Definition link_set_call (iface state : string) : call := Call "ip" "" ["link"; "set"; "dev"; iface; state].
Definition route_del_call (p : Prefix) (iface : string) : call := Call "ip" "" ["route"; "del"; prefix_string p; "dev"; iface].
Definition route_replace_call (p : Prefix) (iface : string) : call :=
  Call "ip" "" ["route"; "replace"; prefix_string p; "dev"; iface].
Definition address_call (p : Prefix) (iface : string) : call :=
  Call "ip" "" ["address"; "replace"; prefix_string p; "dev"; iface].
Definition key_call (spec : WireGuardSpec) : call :=
  Call "wg" (PrivateKey spec +:+ nl)
    (["set"; Interface spec; "private-key"; "/dev/stdin"] ++
     (if 0 <? ListenPort spec then ["listen-port"; itoa (ListenPort spec)] else [])).
Definition peer_call (iface : string) (peer : WireGuardPeer) : call :=
  Call "wg" ""
    (["set"; iface; "peer"; PublicKey peer] ++
     (if negb (String.eqb (Endpoint peer) "") then ["endpoint"; Endpoint peer] else []) ++
     (if bool_decide (AllowedIPs peer = []) then [] else ["allowed-ips"; join (prefix_string <$> AllowedIPs peer) ","]) ++
     (if 0 <? PersistentKeepalive peer then ["persistent-keepalive"; itoa (PersistentKeepalive peer)] else [])).

(** A call whose error ends [Reconcile]. *)
Definition must (changes : Z) (c : call) (k : Z → prog (Z * option error)) : prog (Z * option error) :=
  '(_, err) ← run c;
  match err with
  | Some e => mret (changes, Some (ErrText e))
  | None => k (changes + 1)
  end.

Fixpoint del_routes (iface : string) (ps : list Prefix) : prog () :=
  match ps with
  | [] => mret ()
  | p :: ps => if prefix_valid p then _ ← run (route_del_call p iface); del_routes iface ps else del_routes iface ps
  end.

Fixpoint replace_routes (changes : Z) (iface : string) (ps : list Prefix) : prog (Z * option error) :=
  match ps with
  | [] => mret (changes, None)
  | p :: ps =>
      if negb (prefix_valid p) then replace_routes changes iface ps
      else must changes (route_replace_call p iface) (λ changes, replace_routes changes iface ps)
  end.

(** The steps of the reconfiguration. *)
Definition configure_link (changes : Z) (spec : WireGuardSpec) : prog (Z * option error) :=
  let iface := Interface spec in
  let up := λ changes, must changes (link_set_call iface "up") (λ changes,
    replace_routes changes iface (AllowedIPs (Peer spec))) in
  if prefix_valid (Address spec) then must changes (address_call (Address spec) iface) up else up changes.

Definition configure (changes : Z) (spec : WireGuardSpec) : prog (Z * option error) :=
  must changes (key_call spec) (λ changes,
    if negb (String.eqb (PublicKey (Peer spec)) "")
    then must changes (peer_call (Interface spec) (Peer spec)) (λ changes, configure_link changes spec)
    else configure_link changes spec).

Definition bring_down (changes : Z) (spec : WireGuardSpec) : prog (Z * option error) :=
  _ ← del_routes (Interface spec) (AllowedIPs (Peer spec));
  must changes (link_set_call (Interface spec) "down") (λ changes, mret (changes, None)).

Definition link_missing (link : string) (err : option string) : bool :=
  negb (bool_decide (err = None)) || String.eqb link "" || contains link "does not exist" || contains link "Cannot find".

Definition Reconcile (spec : WireGuardSpec) : prog (Z * option error) :=
  if negb (Managed spec) then mret (0, None)
  else
    let iface := Interface spec in
    '(link, err) ← run (link_call iface);
    let missing := link_missing link err in
    let rest := λ changes,
      if negb (Up spec) then bring_down changes spec
      else if negb missing then
        matched ← semanticMatch iface link spec;
        if matched : bool then mret (changes, None) else configure changes spec
      else configure changes spec in
    if missing then must 0 (link_add_call iface) rest else rest 0.

Definition SetDown (iface : string) : prog (option error) :=
  '((_, err) : answer) ← run (link_set_call iface "down");
  mret (option_map ErrText err).

Definition Clear (iface : string) : prog (option error) :=
  '((_, err) : answer) ← run (Call "ip" "" ["link"; "del"; "dev"; iface]);
  match err with
  | Some e => if contains e "Cannot find" then mret None else mret (Some (ErrText e))
  | None => mret None
  end.

(** ** Lemmas: plans

    A sequence of calls of which each must succeed. *)
Fixpoint run_plan (changes : Z) (plan : list call) : prog (Z * option error) :=
  match plan with
  | [] => mret (changes, None)
  | c :: plan => must changes c (λ changes, run_plan changes plan)
  end.

Definition route_plan (spec : WireGuardSpec) : list call :=
  (λ p, route_replace_call p (Interface spec)) <$> List.filter prefix_valid (AllowedIPs (Peer spec)).
Definition configure_plan (spec : WireGuardSpec) : list call :=
  [key_call spec] ++
  (if negb (String.eqb (PublicKey (Peer spec)) "") then [peer_call (Interface spec) (Peer spec)] else []) ++
  (if prefix_valid (Address spec) then [address_call (Address spec) (Interface spec)] else []) ++
  [link_set_call (Interface spec) "up"] ++ route_plan spec.

Section plans.
Context `{Runner St}.

Lemma exec_must changes c (k k' : Z → prog (Z * option error)) (s : St) :
  (∀ n s, exec (k n) s = exec (k' n) s) → exec (must changes c k) s = exec (must changes c k') s.
Proof.
  intros Hk. unfold must. rewrite !exec_run. destruct (run_call c s) as [[out [e|]] s1]; [done|]. by rewrite Hk.
Qed.

Lemma exec_replace_routes changes iface ps (s : St) :
  exec (replace_routes changes iface ps) s =
  exec (run_plan changes ((λ p, route_replace_call p iface) <$> List.filter prefix_valid ps)) s.
Proof.
  revert changes s. induction ps as [|p ps IH]; intros changes s; [done|]. cbn [replace_routes List.filter].
  destruct (prefix_valid p); cbn [negb fmap list_fmap run_plan]; [|apply IH]. apply exec_must. intros. apply IH.
Qed.

Lemma exec_configure changes spec (s : St) :
  exec (configure changes spec) s = exec (run_plan changes (configure_plan spec)) s.
Proof.
  assert (∀ n s, exec (configure_link n spec) s = exec (run_plan n
    ((if prefix_valid (Address spec) then [address_call (Address spec) (Interface spec)] else []) ++
     [link_set_call (Interface spec) "up"] ++ route_plan spec)) s) as Hlink.
  { intros n s'. unfold configure_link.
    destruct (prefix_valid (Address spec)); cbn [app run_plan]; repeat (apply exec_must; intros); apply exec_replace_routes. }
  unfold configure, configure_plan. cbn [app run_plan]. apply exec_must. intros n s1.
  destruct (negb _); cbn [app run_plan]; [apply exec_must; intros|]; apply Hlink.
Qed.

(** A plan makes its calls in order up to the first failure. *)
Lemma run_plan_spec plan : ∀ changes (s : St),
  let '((n, err), _, cs) := exec (run_plan changes plan) s in
  ∃ rest, plan = cs ++ rest ∧
    match err with
    | None => rest = [] ∧ n = changes + Z.of_nat (length cs)
    | Some _ => n + 1 = changes + Z.of_nat (length cs)
    end.
Proof.
  induction plan as [|c plan IH]; intros changes s; [exists []; cbn; split_and!; [done|done|lia]|].
  cbn [run_plan]. unfold must. rewrite exec_run. destruct (run_call c s) as [[out [e|]] s1].
  - exists plan. cbn. split; [done|lia].
  - specialize (IH (changes + 1) s1). destruct (exec (run_plan _ plan) s1) as [[[n err] s2] cs].
    destruct IH as (rest & -> & He). exists rest. split; [done|]. simpl length. destruct err; [lia|destruct He; split; [done|lia]].
Qed.

End plans.

(** ** What wg shows

    The text of [wg show <iface> dump]: the interface's line, and a line per
    peer; the code reads the first peer. *)
Module Dump.

Record peer := PeerMk {
  d_pub : string; d_psk : string; d_endpoint : string; d_ips : list string;
  d_handshake : string; d_rx : string; d_tx : string; d_keepalive : Z }.
Record device := DeviceMk {
  d_key : string; d_public : string; d_port : Z; d_fwmark : string; d_peers : list peer }.

Definition or_none (s : string) : string := if String.eqb s "" then "(none)" else s.
Definition tabs (l : list string) : string := join l (String tab "").

Definition peer_line (p : peer) : string :=
  tabs [d_pub p; d_psk p; or_none (d_endpoint p); or_none (join (d_ips p) ","); d_handshake p; d_rx p; d_tx p;
        if 0 <? d_keepalive p then itoa (d_keepalive p) else "off"].
Definition device_line (d : device) : string := tabs [d_key d; d_public d; itoa (d_port d); d_fwmark d].
Definition dump (d : device) : string := lines_text (device_line d :: (peer_line <$> d_peers d)).

Definition ip_ok (ip : string) : Prop := word ip ∧ no_char "," ip = true ∧ ip ≠ "(none)".
Definition peer_ok (p : peer) : Prop :=
  word (d_pub p) ∧ word (d_psk p) ∧ visible (d_endpoint p) = true ∧ d_endpoint p ≠ "(none)" ∧ Forall ip_ok (d_ips p) ∧
  word (d_handshake p) ∧ word (d_rx p) ∧ word (d_tx p) ∧ 0 <= d_keepalive p < 2 ^ 63.
Definition device_ok (d : device) : Prop :=
  word (d_key d) ∧ word (d_public d) ∧ 0 <= d_port d < 2 ^ 63 ∧ word (d_fwmark d) ∧ Forall peer_ok (d_peers d).

(** What the code keeps of a device. *)
Definition live_of (d : device) : liveWG :=
  match d_peers d with
  | [] => LiveWGMk (d_key d) (d_port d) "" "" ∅ 0
  | p :: _ => LiveWGMk (d_key d) (d_port d) (d_pub p) (d_endpoint p) (list_to_set (d_ips p)) (d_keepalive p)
  end.

End Dump.
Import Dump.

(** ** Lemmas: the dump is read back *)

Lemma tabs_ok ws : ws ≠ [] → Forall word ws → visible_ends (tabs ws) = true ∧ no_char (char_of 10) (tabs ws) = true ∧ split (tabs ws) tab = ws.
Proof.
  intros Hne Hw. split_and!.
  - by apply visible_ends_join.
  - apply no_char_join; [|done]. eapply list.Forall_impl; [done|]. intros w [_ Hv]. by apply visible_no_char.
  - apply split_join; [done|]. eapply list.Forall_impl; [done|]. intros w [_ Hv]. by apply visible_no_char.
Qed.

Lemma or_none_word s : visible s = true → word (or_none s).
Proof. intros Hv. unfold or_none, word. destruct (String.eqb_spec s "") as [->|]; by split. Qed.

Lemma visible_join ws sep : visible sep = true → Forall (λ w, visible w = true) ws → visible (join ws sep) = true.
Proof.
  intros Hs H. induction H as [|w ws Hw Hws IH]; [done|]. destruct ws as [|w' ws]; [done|]. rewrite join_cons.
  unfold visible in *. by rewrite !string_forall_app, Hw, Hs, IH.
Qed.

Definition peer_words (p : peer) : list string :=
  [d_pub p; d_psk p; or_none (d_endpoint p); or_none (join (d_ips p) ","); d_handshake p; d_rx p; d_tx p;
   if 0 <? d_keepalive p then itoa (d_keepalive p) else "off"].

Lemma peer_words_ok p : peer_ok p → Forall word (peer_words p).
Proof.
  intros (H1 & H2 & H3 & _ & H4 & H5 & H6 & H7 & H8). unfold peer_words. rewrite !list.Forall_cons.
  split; [done|]. split; [done|]. split; [by apply or_none_word|]. split.
  { apply or_none_word, visible_join; [done|]. eapply list.Forall_impl; [done|]. by intros ip [[_ ?] _]. }
  split; [done|]. split; [done|]. split; [done|]. split; [|done].
  destruct (0 <? d_keepalive p); [apply itoa_word; lia|by split].
Qed.

Lemma add_ips l : Forall ip_ok l → foldl add_ip ∅ (split (or_none (join l ",")) ",") = list_to_set l.
Proof.
  intros Hl. destruct l as [|ip l]; [by vm_compute|]. unfold or_none.
  assert (join (ip :: l) "," ≠ "") as Hne%String.eqb_neq.
  { apply list.Forall_cons in Hl as [[[Hne _] _] _]. destruct l; [done|]. rewrite join_cons. by destruct ip. }
  rewrite Hne. change (join (ip :: l) ",") with (join (ip :: l) (String "," "")). rewrite split_join; [|done|].
  2:{ eapply list.Forall_impl; [done|]. by intros x (_ & ? & _). }
  assert (∀ (acc : gset string) l, Forall ip_ok l → foldl add_ip acc l = list_to_set l ∪ acc) as H.
  { clear. intros acc l Hl. revert acc. induction Hl as [|x l ([Hx Hv] & _ & Hn) _ IH]; intros acc; [simpl; set_solver|].
    cbn [foldl]. unfold add_ip at 2. rewrite trim_space_visible by done.
    rewrite (proj2 (String.eqb_neq x "") Hx), (proj2 (String.eqb_neq x "(none)") Hn). cbn [orb]. rewrite IH. simpl. set_solver. }
  rewrite H by done. set_solver.
Qed.

Lemma parseWGDump_dump d : device_ok d → parseWGDump (dump d) = (live_of d, true).
Proof.
  intros (H1 & H2 & H3 & H4 & H5).
  assert (Forall word [d_key d; d_public d; itoa (d_port d); d_fwmark d]) as Hdev.
  { rewrite !list.Forall_cons. repeat (split; [done || (apply itoa_word; lia)|]). by constructor. }
  destruct (tabs_ok [d_key d; d_public d; itoa (d_port d); d_fwmark d]) as (Hv0 & Hn0 & Hs0); [done|done|]. fold (device_line d) in Hv0, Hn0, Hs0.
  assert (Forall (λ l, visible_ends l = true ∧ no_char (char_of 10) l = true) (device_line d :: (peer_line <$> d_peers d))) as Hls.
  { constructor; [done|]. apply Forall_fmap. eapply list.Forall_impl; [done|]. intros p Hp%peer_words_ok.
    by destruct (tabs_ok (peer_words p) ltac:(done) Hp) as (? & ? & _). }
  unfold parseWGDump, dump. rewrite trim_lines; [|done|by eapply list.Forall_impl; [done|]; intros ? []].
  unfold nl. rewrite split_join; [|done|by eapply list.Forall_impl; [done|]; intros ? []].
  rewrite Hs0. rewrite Atoi_itoa by done. unfold live_of. destruct (d_peers d) as [|p ps]; [done|].
  apply list.Forall_cons in H5 as [Hp _]. cbn [fmap list_fmap].
  destruct (tabs_ok (peer_words p) ltac:(done) (peer_words_ok p Hp)) as (_ & _ & Hsp). fold (peer_line p) in Hsp.
  change (split (peer_line p) tab = peer_words p) in Hsp. rewrite Hsp. unfold peer_words.
  destruct Hp as (_ & _ & _ & Hen & Hips & _ & _ & _ & Hka). rewrite add_ips by done. cbn [fst]. do 2 f_equal.
  - unfold or_none. destruct (String.eqb_spec (d_endpoint p) "") as [->|]; [done|]. by destruct (String.eqb_spec (d_endpoint p) "(none)").
  - destruct (Z.ltb_spec 0 (d_keepalive p)); [by rewrite Atoi_itoa|]. change (Atoi "off").1 with 0. lia.
Qed.

(** ** Properties *)

(** What the code wants a device to show. *)
Definition device_shows (d : device) (spec : WireGuardSpec) : Prop :=
  lw_PrivateKey (live_of d) = PrivateKey spec ∧
  (0 < ListenPort spec → lw_ListenPort (live_of d) = ListenPort spec) ∧
  lw_PeerPublicKey (live_of d) = PublicKey (Peer spec) ∧
  lw_Endpoint (live_of d) = Endpoint (Peer spec) ∧
  lw_Keepalive (live_of d) = PersistentKeepalive (Peer spec) ∧
  lw_AllowedIPs (live_of d) = list_to_set (prefix_string <$> AllowedIPs (Peer spec)).

#[global] Instance device_shows_dec d spec : Decision (device_shows d spec).
Proof. unfold device_shows. apply _. Defined.

Lemma guard_false (b : bool) (P Q : Prop) (r : bool) :
  (b = true ↔ P) → (r = true ↔ Q) → (if negb b then false else r) = true ↔ P ∧ Q.
Proof. intros <- <-. destruct b; simpl; naive_solver. Qed.

Lemma dump_matches_spec d spec : dump_matches (live_of d) spec = bool_decide (device_shows d spec).
Proof.
  apply eq_true_iff_eq. rewrite bool_decide_eq_true. unfold dump_matches, device_shows.
  rewrite foldl_union, union_empty_r_L.
  apply guard_false; [apply String.eqb_eq|].
  transitivity ((0 < ListenPort spec → lw_ListenPort (live_of d) = ListenPort spec) ∧
    lw_PeerPublicKey (live_of d) = PublicKey (Peer spec) ∧ lw_Endpoint (live_of d) = Endpoint (Peer spec) ∧
    lw_Keepalive (live_of d) = PersistentKeepalive (Peer spec) ∧
    lw_AllowedIPs (live_of d) = list_to_set (prefix_string <$> AllowedIPs (Peer spec))); [|done].
  rewrite <-(negb_involutive ((0 <? ListenPort spec) && _)). apply guard_false.
  { rewrite negb_true_iff, andb_false_iff, Z.ltb_ge, negb_false_iff, Z.eqb_eq.
    destruct (Z.lt_ge_cases 0 (ListenPort spec)); naive_solver lia. }
  apply guard_false; [apply String.eqb_eq|]. apply guard_false; [apply String.eqb_eq|]. apply guard_false; [apply Z.eqb_eq|].
  rewrite andb_true_iff, !bool_decide_eq_true.
  rewrite (symmetry_iff (=) (lw_AllowedIPs (live_of d))), <-same_size_subset. done.
Qed.

(** The address is shown, or there is none to show. *)
Definition address_shown (spec : WireGuardSpec) (addr : answer) : bool :=
  negb (prefix_valid (Address spec)) || (bool_decide (addr.2 = None) && addrContainsPrefix addr.1 (Address spec)).

Lemma semanticMatch_run `{Runner St} iface link spec d (s s1 : St) :
  device_ok d → contains link "UP" = true → run_call (dump_call iface) s = ((dump d, None), s1) →
  let '(matched, _, cs) := exec (semanticMatch iface link spec) s in
  matched = bool_decide (device_shows d spec) && address_shown spec (run_call (addr_call iface) s1).1 ∧
  (cs = [dump_call iface] ∨ cs = [dump_call iface; addr_call iface]).
Proof.
  intros Hd Hup Hrun. unfold semanticMatch. rewrite Hup. cbn [negb]. rewrite exec_run, Hrun.
  rewrite bool_decide_true by done. cbn [negb orb].
  assert ((dump d =? "")%string = false) as ->.
  { apply String.eqb_neq. unfold dump. rewrite lines_text_cons. destruct Hd as ((Hk & _) & _).
    unfold device_line, tabs. rewrite join_cons. by destruct (d_key d). }
  rewrite parseWGDump_dump by done. cbn [negb]. rewrite dump_matches_spec.
  destruct (bool_decide (device_shows d spec)); cbn [negb andb]; [|by cbn; auto]. unfold address_shown.
  destruct (prefix_valid (Address spec)) eqn:Hv; cbn [negb orb]; [|by cbn; auto].
  rewrite exec_run. destruct (run_call (addr_call iface) s1) as [[out err] s2]. cbn [fst snd].
  unfold addrContainsPrefix. destruct (bool_decide (err = None)), (contains out (prefix_string (Address spec))),
    (contains out (addr_string _ +:+ _)); cbn; auto.
Qed.

(** C25. On an interface whose link is up, [wireguard.Reconcile] of an enabled
    specification leaves it alone, with reading calls only and no change, when
    the device dump shows the specification and the address is there; otherwise
    it goes on to the whole configuration, starting with the key. *)
Theorem wg_Reconcile_converged `{Runner St} spec d link (s s1 s2 : St) :
  Managed spec = true → Up spec = true → device_ok d →
  run_call (link_call (Interface spec)) s = ((link, None), s1) →
  link_missing link None = false → contains link "UP" = true →
  run_call (dump_call (Interface spec)) s1 = ((dump d, None), s2) →
  let '(res, _, cs) := exec (Reconcile spec) s in
  let matched := bool_decide (device_shows d spec) && address_shown spec (run_call (addr_call (Interface spec)) s2).1 in
  if matched then res = (0, None) ∧ Forall (λ c, c ∈ [link_call (Interface spec); dump_call (Interface spec); addr_call (Interface spec)]) cs
  else key_call spec ∈ cs.
Proof.
  intros Hm Hu Hd Hlink Hmiss Hup Hdump. unfold Reconcile. rewrite Hm. cbn [negb]. rewrite exec_run, Hlink, Hmiss, Hu. cbn [negb].
  rewrite exec_bind. pose proof (semanticMatch_run (Interface spec) link spec d s1 s2 Hd Hup Hdump) as Hs.
  destruct (exec (semanticMatch _ link spec) s1) as [[matched s3] cs]. destruct Hs as [-> Hcs].
  destruct (bool_decide _ && _).
  - cbn. split; [done|]. rewrite app_nil_r. destruct Hcs as [-> | ->]; repeat constructor; set_solver.
  - rewrite exec_configure. pose proof (run_plan_spec (configure_plan spec) 0 s3) as Hp.
    unfold configure_plan in *. cbn [app run_plan] in *. unfold must in *. rewrite exec_run in *.
    destruct (run_call (key_call spec) s3) as [[out [e|]] s4]; cbn; [|destruct (exec _ s4) as [[[??]?]?]];
      right; apply elem_of_app; right; left.
Qed.

(** The arguments a call of [Reconcile] can have: none depends on the private
    key. *)
Definition public_args (spec : WireGuardSpec) : list (list string) :=
  let iface := Interface spec in
  (c_args <$> ([link_call iface; link_add_call iface; link_set_call iface "up"; link_set_call iface "down";
                dump_call iface; addr_call iface; address_call (Address spec) iface; peer_call iface (Peer spec)] ++
               ((λ p, route_del_call p iface) <$> AllowedIPs (Peer spec)) ++
               ((λ p, route_replace_call p iface) <$> AllowedIPs (Peer spec)))) ++
  [["set"; iface; "private-key"; "/dev/stdin"];
   ["set"; iface; "private-key"; "/dev/stdin"; "listen-port"; itoa (ListenPort spec)]].

Definition discreet (spec : WireGuardSpec) (c : call) : Prop :=
  c_name c ∈ ["ip"; "wg"] ∧ c_args c ∈ public_args spec ∧
  (c_stdin c = "" ∨ c_name c = "wg" ∧ take 3 (c_args c) = ["set"; Interface spec; "private-key"] ∧
                    c_stdin c = PrivateKey spec +:+ nl).

Section discreet.
Context (spec : WireGuardSpec).
Local Notation ok := (discreet spec).
Local Notation any := (λ _ : Z * option error, True).

Lemma sat_must changes c k : ok c → (∀ n, sat ok any (k n)) → sat ok any (must changes c k).
Proof. intros Hc Hk. unfold must. apply sat_run; [done|]. intros [out [e|]]; [done|apply Hk]. Qed.

Lemma ok_elem c : c_name c ∈ ["ip"; "wg"] → c_args c ∈ public_args spec → c_stdin c = "" → ok c.
Proof. intros Hn Ha Hs. split; [done|]. split; [done|by left]. Qed.

Lemma ok_route_del p : p ∈ AllowedIPs (Peer spec) → ok (route_del_call p (Interface spec)).
Proof.
  intros Hp. apply ok_elem; [left| |done]. unfold public_args. apply elem_of_app. left. apply list_elem_of_fmap_2.
  apply elem_of_app. right. apply elem_of_app. left. by apply (list_elem_of_fmap_2 (λ p, route_del_call p (Interface spec))).
Qed.
Lemma ok_route_replace p : p ∈ AllowedIPs (Peer spec) → ok (route_replace_call p (Interface spec)).
Proof.
  intros Hp. apply ok_elem; [left| |done]. unfold public_args. apply elem_of_app. left. apply list_elem_of_fmap_2.
  apply elem_of_app. right. apply elem_of_app. right. by apply (list_elem_of_fmap_2 (λ p, route_replace_call p (Interface spec))).
Qed.
Lemma ok_fixed c :
  c ∈ [link_call (Interface spec); link_add_call (Interface spec); link_set_call (Interface spec) "up";
       link_set_call (Interface spec) "down"; dump_call (Interface spec); addr_call (Interface spec);
       address_call (Address spec) (Interface spec); peer_call (Interface spec) (Peer spec)] → ok c.
Proof.
  intros Hc. apply ok_elem.
  - repeat (apply elem_of_cons in Hc as [->|Hc]; [first [left | right; left]|]). by apply elem_of_nil in Hc.
  - unfold public_args. apply elem_of_app. left. apply list_elem_of_fmap_2. apply elem_of_app. by left.
  - repeat (apply elem_of_cons in Hc as [->|Hc]; [done|]). by apply elem_of_nil in Hc.
Qed.
Lemma ok_key : ok (key_call spec).
Proof.
  split; [right; left|]. split; [|right; done]. unfold public_args. apply elem_of_app. right. unfold key_call. cbn [c_args].
  destruct (0 <? ListenPort spec); [right; left|left].
Qed.

Lemma sat_configure changes : sat ok any (configure changes spec).
Proof.
  assert (∀ ps n, (∀ p, p ∈ ps → p ∈ AllowedIPs (Peer spec)) → sat ok any (replace_routes n (Interface spec) ps)) as Hr.
  { induction ps as [|p ps IH]; intros n Hp; [done|]. cbn [replace_routes].
    destruct (negb (prefix_valid p)); [|apply sat_must; [apply ok_route_replace, Hp; left|]; intros m];
      apply IH; intros q Hq; apply Hp; by right. }
  assert (∀ n, sat ok any (configure_link n spec)) as Hl.
  { intros n. unfold configure_link. destruct (prefix_valid (Address spec));
      repeat (apply sat_must; [apply ok_fixed; set_solver|]; intros); apply Hr; done. }
  unfold configure. apply sat_must; [apply ok_key|]. intros n. destruct (negb _); [|apply Hl].
  apply sat_must; [apply ok_fixed; set_solver|]. apply Hl.
Qed.

Lemma sat_del_routes ps : (∀ p, p ∈ ps → p ∈ AllowedIPs (Peer spec)) → sat ok (λ _ : (), True) (del_routes (Interface spec) ps).
Proof.
  induction ps as [|p ps IH]; intros Hp; [done|]. cbn [del_routes].
  destruct (prefix_valid p); [apply sat_run; [apply ok_route_del, Hp; left|]; intros _|];
    apply IH; intros q Hq; apply Hp; by right.
Qed.

Lemma sat_semanticMatch link : sat ok (λ _ : bool, True) (semanticMatch (Interface spec) link spec).
Proof.
  unfold semanticMatch. destruct (negb _); [done|]. apply sat_run; [apply ok_fixed; set_solver|]. intros [dump err].
  destruct (_ || _); [done|]. destruct (parseWGDump dump) as [live ok']. destruct (negb ok'); [done|].
  destruct (negb _); [done|]. destruct (prefix_valid _); [|done].
  apply sat_run; [apply ok_fixed; set_solver|]. intros [out err']. by repeat case_match.
Qed.

Lemma sat_Reconcile : sat ok any (Reconcile spec).
Proof.
  unfold Reconcile. destruct (negb (Managed spec)); [done|]. apply sat_run; [apply ok_fixed; set_solver|].
  intros [link err].
  assert (∀ n, sat ok any
    (if negb (Up spec) then bring_down n spec
     else if negb (link_missing link err) then
       matched ← semanticMatch (Interface spec) link spec;
       if matched : bool then mret (n, None) else configure n spec
     else configure n spec)) as Hrest.
  { intros n. destruct (negb (Up spec)).
    - unfold bring_down. eapply sat_bind; [by apply sat_del_routes|]. intros _ _.
      apply sat_must; [apply ok_fixed; set_solver|done].
    - destruct (negb (link_missing link err)); [|apply sat_configure].
      eapply sat_bind; [apply sat_semanticMatch|]. intros [] _; [done|apply sat_configure]. }
  destruct (link_missing link err); [apply sat_must; [apply ok_fixed; set_solver|]|]; apply Hrest.
Qed.
End discreet.

(** C28. The private key never appears on a command line: in every run the
    commands are [ip] and [wg], the arguments of each call are among those that
    do not depend on the key, and it is written to the standard input of
    [wg set ... private-key] only. *)
Theorem wg_Reconcile_keeps_key_secret `{Runner St} spec (s : St) :
  let '(_, _, cs) := exec (Reconcile spec) s in Forall (discreet spec) cs.
Proof.
  pose proof (sat_exec (discreet spec) (λ _, True) (Reconcile spec) s (sat_Reconcile spec)) as Hs.
  destruct (exec (Reconcile spec) s) as [[? ?] cs]. apply Hs.
Qed.

Definition route_dels (spec : WireGuardSpec) : list call :=
  (λ p, route_del_call p (Interface spec)) <$> List.filter prefix_valid (AllowedIPs (Peer spec)).

Lemma exec_del_routes `{Runner St} iface ps : ∀ s : St,
  (exec (del_routes iface ps) s).2 = ((λ p, route_del_call p iface) <$> List.filter prefix_valid ps).
Proof.
  induction ps as [|p ps IH]; intros s; [done|]. cbn [del_routes List.filter]. destruct (prefix_valid p); [|apply IH].
  rewrite exec_run. destruct (run_call _ s) as [r s1]. specialize (IH s1).
  destruct (exec (del_routes iface ps) s1) as [[? s2] cs]. cbn in *. by rewrite IH.
Qed.

(** C27. A managed but disabled interface is taken down: [Reconcile] makes sure
    the interface is there, removes the routes of the peer whatever comes of
    it, and sets the link down; it never sets a key, peer or address, never
    brings the link up, and succeeds only when the link was set down. *)
Theorem wg_Reconcile_down `{Runner St} spec (s : St) :
  Managed spec = true → Up spec = false →
  let '((n, err), _, cs) := exec (Reconcile spec) s in
  ∃ create, (create = [link_call (Interface spec)] ∨ create = [link_call (Interface spec); link_add_call (Interface spec)]) ∧
    (cs = create ++ route_dels spec ++ [link_set_call (Interface spec) "down"] ∨
     cs = [link_call (Interface spec); link_add_call (Interface spec)] ∧ n = 0 ∧ err ≠ None) ∧
    (err = None → n = Z.of_nat (length create)).
Proof.
  intros Hm Hu. unfold Reconcile. rewrite Hm, Hu. cbn [negb]. rewrite exec_run.
  destruct (run_call (link_call (Interface spec)) s) as [[link err] s1].
  assert (∀ n (s : St), let '((n', err), _, cs) := exec (bring_down n spec) s in
    cs = route_dels spec ++ [link_set_call (Interface spec) "down"] ∧ (err = None → n' = n + 1)) as Hdown.
  { intros n s'. unfold bring_down. rewrite exec_bind. pose proof (exec_del_routes (Interface spec) (AllowedIPs (Peer spec)) s') as Hd.
    destruct (exec (del_routes _ _) s') as [[? s2] cs]. cbn [snd] in Hd. subst cs. unfold must. rewrite exec_run.
    destruct (run_call _ s2) as [[out [e|]] s3]; cbn; done. }
  destruct (link_missing link err).
  - unfold must. rewrite exec_run. destruct (run_call (link_add_call _) s1) as [[out [e|]] s2].
    + cbn. eexists. split; [by right|]. split; [by right|done].
    + specialize (Hdown (0 + 1) s2). destruct (exec (bring_down _ spec) s2) as [[[n err'] s3] cs]. destruct Hdown as [-> Hn].
      eexists. split; [by right|]. split; [by left|]. intros He. rewrite Hn by done. done.
  - specialize (Hdown 0 s1). destruct (exec (bring_down _ spec) s1) as [[[n err'] s3] cs]. destruct Hdown as [-> Hn].
    eexists. split; [by left|]. split; [by left|]. intros He. by rewrite Hn.
Qed.

(** C26. A missing interface is built: [Reconcile] of an enabled specification
    creates it, then makes the calls of the plan (key, peer, address, link up,
    a route per valid prefix) in order up to the first failure; it succeeds
    exactly when all of them did, and counts those that did. *)
Theorem wg_Reconcile_builds `{Runner St} spec (s s1 : St) link err :
  Managed spec = true → Up spec = true →
  run_call (link_call (Interface spec)) s = ((link, err), s1) → link_missing link err = true →
  let '((n, err), _, cs) := exec (Reconcile spec) s in
  ∃ made rest, cs = link_call (Interface spec) :: made ∧
    link_add_call (Interface spec) :: configure_plan spec = made ++ rest ∧
    match err with
    | None => rest = [] ∧ n = Z.of_nat (length made)
    | Some _ => n + 1 = Z.of_nat (length made)
    end.
Proof.
  intros Hm Hu Hl Hmiss. unfold Reconcile. rewrite Hm, Hu. cbn [negb]. rewrite exec_run, Hl, Hmiss.
  erewrite (exec_must 0 (link_add_call (Interface spec)) _ (λ n, run_plan n (configure_plan spec)))
    by (intros; apply exec_configure).
  pose proof (run_plan_spec (link_add_call (Interface spec) :: configure_plan spec) 0 s1) as Hp.
  cbn [run_plan] in Hp. destruct (exec (must 0 _ _) s1) as [[[n e] s2] cs]. destruct Hp as (rest & -> & He).
  exists cs, rest. split_and!; [done|done|]. destruct e; [lia|]. destruct He. split; [done|lia].
Qed.

(** ** Witnesses *)

Definition ex_peer : WireGuardPeer := WireGuardPeerMk "PUB" "10.10.0.2:51820" [default_dst] 25.
Definition ex_wg (up : bool) : WireGuardSpec :=
  WireGuardSpecMk "wg-exit" "PRIV" 51820 (PrefixMk (Addr4 174260225) 30) ex_peer true up.
Definition ex_device : device :=
  DeviceMk "PRIV" "PUB0" 51820 "off" [PeerMk "PUB" "(none)" "10.10.0.2:51820" ["0.0.0.0/0"] "0" "0" "0" 25].
Definition ex_wg_kernel : RecordingRunner :=
  RecordingRunnerMk [] (list_to_map [
    ("ip link show dev wg-exit", "3: wg-exit: <POINTOPOINT,NOARP,UP,LOWER_UP>");
    ("wg show wg-exit dump", dump ex_device);
    ("ip -4 addr show dev wg-exit", "inet 10.99.0.1/30 scope global wg-exit")]) ∅ "" 0 false.

Lemma ex_device_ok : device_ok ex_device.
Proof.
  unfold ex_device, device_ok. cbn [d_key d_public d_port d_fwmark d_peers]. split_and!; try (by split); try lia.
  constructor; [|constructor]. unfold peer_ok. cbn. split_and!; try (by split); try done; try lia.
  constructor; [|constructor]. by repeat split.
Qed.

Definition ex_wg_s1 : RecordingRunner := (run_call (link_call "wg-exit") ex_wg_kernel).2.

Lemma ex_wg_s1_ok :
  run_call (link_call "wg-exit") ex_wg_kernel = (("3: wg-exit: <POINTOPOINT,NOARP,UP,LOWER_UP>", None), ex_wg_s1).
Proof. vm_compute. reflexivity. Qed.

Lemma ex_wg_s2_ok :
  run_call (dump_call "wg-exit") ex_wg_s1 = ((dump ex_device, None), (run_call (dump_call "wg-exit") ex_wg_s1).2).
Proof. vm_compute. reflexivity. Qed.

Lemma wg_Reconcile_converged_witness :
  let '(res, _, cs) := exec (Reconcile (ex_wg true)) ex_wg_kernel in
  let s2 := (run_call (dump_call "wg-exit") ex_wg_s1).2 in
  let matched := bool_decide (device_shows ex_device (ex_wg true)) && address_shown (ex_wg true) (run_call (addr_call "wg-exit") s2).1 in
  if matched then res = (0, None) ∧ Forall (λ c, c ∈ [link_call "wg-exit"; dump_call "wg-exit"; addr_call "wg-exit"]) cs
  else key_call (ex_wg true) ∈ cs.
Proof.
  exact (wg_Reconcile_converged (ex_wg true) ex_device "3: wg-exit: <POINTOPOINT,NOARP,UP,LOWER_UP>" ex_wg_kernel
    ex_wg_s1 (run_call (dump_call "wg-exit") ex_wg_s1).2 eq_refl eq_refl ex_device_ok ex_wg_s1_ok
    ltac:(vm_compute; reflexivity) ltac:(vm_compute; reflexivity) ex_wg_s2_ok).
Defined.

(** The witness is the case of a match. *)
Lemma ex_wg_matches : fst (fst (exec (Reconcile (ex_wg true)) ex_wg_kernel)) = (0, None).
Proof. by vm_compute. Qed.

Lemma wg_Reconcile_down_witness :
  let '((n, err), _, cs) := exec (Reconcile (ex_wg false)) ex_wg_kernel in
  ∃ create, (create = [link_call "wg-exit"] ∨ create = [link_call "wg-exit"; link_add_call "wg-exit"]) ∧
    (cs = create ++ route_dels (ex_wg false) ++ [link_set_call "wg-exit" "down"] ∨
     cs = [link_call "wg-exit"; link_add_call "wg-exit"] ∧ n = 0 ∧ err ≠ None) ∧
    (err = None → n = Z.of_nat (length create)).
Proof. by apply (wg_Reconcile_down (ex_wg false) ex_wg_kernel). Defined.

Definition ex_new_s1 : RecordingRunner := (run_call (link_call "wg-exit") NewRecordingRunner).2.

Lemma ex_new_s1_ok : run_call (link_call "wg-exit") NewRecordingRunner = (("", None), ex_new_s1).
Proof. vm_compute. reflexivity. Qed.

Lemma wg_Reconcile_builds_witness :
  let '((n, err), _, cs) := exec (Reconcile (ex_wg true)) NewRecordingRunner in
  ∃ made rest, cs = link_call "wg-exit" :: made ∧
    link_add_call "wg-exit" :: configure_plan (ex_wg true) = made ++ rest ∧
    match err with
    | None => rest = [] ∧ n = Z.of_nat (length made)
    | Some _ => n + 1 = Z.of_nat (length made)
    end.
Proof.
  exact (wg_Reconcile_builds (ex_wg true) NewRecordingRunner ex_new_s1 "" None eq_refl eq_refl ex_new_s1_ok
    ltac:(vm_compute; reflexivity)).
Defined.
