(* ===== verification/Apply.v ===== *)
(** * [internal/apply]: applying a policy

    [Reconcile] compiles the policy, then reconciles sysctls, nftables, the
    tunnel interface, the clients interface, and rules and routes, in this
    order; the first error ends it, named by its stage, and nothing is rolled
    back. [Clear] removes what the program owns and ignores every error.

    [ord] and [table_ord] are the orders of the map ranges of the nftables and
    routing components. *)

From stdpp Require Import base list strings gmap.
From Stdlib Require Import ZArith Lia Ascii.
From S2P Require Import Prelude GoStrings Netip Runner Policy Json.
From S2P Require Sysctl Nftables Wireguard Routing.

Record Result := ResultMk { Changes : Z; State : option DesiredKernelState }.

Section apply.
Context (ord : gmap string json → list json) (table_ord : gmap Z (list RouteSpec) → list (Z * list RouteSpec)).

Definition Reconcile (p : Policy) : prog (Result * option error) :=
  match Compile p with
  | Err err => mret (ResultMk 0 None, Some err)
  | Ok st =>
      let failed := λ total name err, mret (ResultMk total (Some st), Some (ErrFmt (name +:+ ": %w") [] [err])) in
      let total := 0 in
      '(c, err) ← Sysctl.Reconcile (Sysctls st);
      let total := total + c in
      match err with
      | Some err => failed total "sysctl" err
      | None =>
          '(c, err) ← Nftables.Reconcile ord (Nft st);
          let total := total + c in
          match err with
          | Some err => failed total "nftables" err
          | None =>
              '(c, err) ← Wireguard.Reconcile (WireGuardOf st);
              let total := total + c in
              match err with
              | Some err => failed total "wireguard" err
              | None =>
                  '(c, err) ← Wireguard.Reconcile (WireGuardClients st);
                  let total := total + c in
                  match err with
                  | Some err => failed total "wireguard-clients" err
                  | None =>
                      '(c, err) ← Routing.Reconcile table_ord (IPRules st) (Routes st);
                      let total := total + c in
                      match err with
                      | Some err => failed total "routing" err
                      | None => mret (ResultMk total (Some st), None)
                      end
                  end
              end
          end
      end
  end.

(** The stages of a compiled state, with their names. *)
Definition stages (st : DesiredKernelState) : list (string * prog (Z * option error)) :=
  [("sysctl", Sysctl.Reconcile (Sysctls st));
   ("nftables", Nftables.Reconcile ord (Nft st));
   ("wireguard", Wireguard.Reconcile (WireGuardOf st));
   ("wireguard-clients", Wireguard.Reconcile (WireGuardClients st));
   ("routing", Routing.Reconcile table_ord (IPRules st) (Routes st))].

End apply.

Definition Clear : prog (option error) :=
  _ ← Wireguard.Clear DefaultTunnelIface;
  _ ← Wireguard.Clear DefaultClientsIface;
  _ ← Routing.Clear DefaultRulePriority DefaultTableID;
  _ ← Nftables.Clear OwnedNftFamily OwnedNftTable;
  mret None.

(** ** The abstract run: stages up to the first failure *)

Section stages.
Context `{Runner St}.

(** [ran stages s total err s' cs]: from [s], the stages ran one after the
    other, each from the state the previous one left; all succeeded, or the
    last that ran failed with [err] under its name. *)
Inductive ran : list (string * prog (Z * option error)) → St → Z → option error → St → list call → Prop :=
| ran_done s : ran [] s 0 None s []
| ran_fail name pr rest s n e s' cs :
    exec pr s = ((n, Some e), s', cs) →
    ran ((name, pr) :: rest) s n (Some (ErrFmt (name +:+ ": %w") [] [e])) s' cs
| ran_next name pr rest s n s1 cs1 total err s' cs :
    exec pr s = ((n, None), s1, cs1) →
    ran rest s1 total err s' cs →
    ran ((name, pr) :: rest) s (n + total) err s' (cs1 ++ cs).

(** C15. The order of [apply.Reconcile]: after a successful compilation it runs
    sysctls, nftables, the tunnel, the clients and the routing, each only when
    the one before it succeeded, and ends with the error of the first stage
    that fails; the changes are those of the stages that ran.  A policy that
    does not compile is rejected without any call. *)
Theorem apply_Reconcile_stages ord table_ord p (s : St) :
  let '((res, err), s', cs) := exec (Reconcile ord table_ord p) s in
  match Compile p with
  | Err e => res = ResultMk 0 None ∧ err = Some e ∧ s' = s ∧ cs = []
  | Ok st => State res = Some st ∧ ran (stages ord table_ord st) s (Changes res) err s' cs
  end.
Proof.
  unfold Reconcile, stages. destruct (Compile p) as [st|e]; [|done].
  rewrite exec_bind. destruct (exec (Sysctl.Reconcile _) s) as [[[n1 [e1|]] s1] cs1] eqn:E1.
  { cbn [mret prog_ret exec Changes State]. rewrite app_nil_r, Z.add_0_l. split; [done|]. by eapply ran_fail. }
  rewrite exec_bind. destruct (exec (Nftables.Reconcile _ _) s1) as [[[n2 [e2|]] s2] cs2] eqn:E2.
  { cbn [mret prog_ret exec Changes State]. rewrite app_nil_r, Z.add_0_l. split; [done|]. eapply ran_next; [done|]. by eapply ran_fail. }
  rewrite exec_bind. destruct (exec (Wireguard.Reconcile (WireGuardOf st)) s2) as [[[n3 [e3|]] s3] cs3] eqn:E3.
  { cbn [mret prog_ret exec Changes State]. rewrite app_nil_r, Z.add_0_l. split; [done|]. rewrite <-!Z.add_assoc.
    eapply ran_next; [done|]. eapply ran_next; [done|]. by eapply ran_fail. }
  rewrite exec_bind. destruct (exec (Wireguard.Reconcile (WireGuardClients st)) s3) as [[[n4 [e4|]] s4] cs4] eqn:E4.
  { cbn [mret prog_ret exec Changes State]. rewrite app_nil_r, Z.add_0_l. split; [done|]. rewrite <-!Z.add_assoc.
    do 3 (eapply ran_next; [done|]). by eapply ran_fail. }
  rewrite exec_bind. destruct (exec (Routing.Reconcile _ _ _) s4) as [[[n5 [e5|]] s5] cs5] eqn:E5.
  { cbn [mret prog_ret exec Changes State]. rewrite app_nil_r, Z.add_0_l. split; [done|]. rewrite <-!Z.add_assoc.
    do 4 (eapply ran_next; [done|]). by eapply ran_fail. }
  cbn [mret prog_ret exec Changes State]. rewrite app_nil_r, Z.add_0_l. split; [done|]. rewrite <-!Z.add_assoc, <-(Z.add_0_r n5), <-(app_nil_r cs5).
  do 5 (eapply ran_next; [done|]). apply ran_done.
Qed.

(** [apply.Clear] makes its five calls whatever their outcome, and reports
    no error: both interfaces, the rule, the routing table, the nftables table. *)
Theorem Clear_calls (s : St) :
  let '(err, _, cs) := exec Clear s in
  err = None ∧
  cs = [Call "ip" "" ["link"; "del"; "dev"; "wg-exit"]; Call "ip" "" ["link"; "del"; "dev"; "wg-clients"];
        Call "ip" "" ["rule"; "del"; "priority"; "100"]; Call "ip" "" ["route"; "flush"; "table"; "100"];
        Call "nft" "" ["delete"; "table"; "inet"; "gotun"]].
Proof.
  assert (∀ iface (s : St), ∃ err s', exec (Wireguard.Clear iface) s = (err, s', [Call "ip" "" ["link"; "del"; "dev"; iface]])) as Hwg.
  { intros iface s'. unfold Wireguard.Clear. rewrite exec_run. destruct (run_call _ s') as [[out [e|]] s1]; [|by do 2 eexists].
    destruct (contains e _); by do 2 eexists. }
  assert (∀ (s : St), ∃ err s', exec (Nftables.Clear OwnedNftFamily OwnedNftTable) s =
            (err, s', [Call "nft" "" ["delete"; "table"; "inet"; "gotun"]])) as Hnft.
  { intros s'. unfold Nftables.Clear.
    change (Run "nft" ["delete"; "table"; OwnedNftFamily; OwnedNftTable]) with (run (Call "nft" "" ["delete"; "table"; "inet"; "gotun"])).
    rewrite exec_run. destruct (run_call _ s') as [[out [e|]] s1]; [|by do 2 eexists].
    destruct (contains e _); [by do 2 eexists|]. destruct (contains e _); by do 2 eexists. }
  unfold Clear. rewrite exec_bind. destruct (Hwg DefaultTunnelIface s) as (e1 & s1 & ->).
  rewrite exec_bind. destruct (Hwg DefaultClientsIface s1) as (e2 & s2 & ->).
  unfold Routing.Clear. rewrite exec_bind, exec_run. destruct (run_call _ s2) as [r3 s3].
  rewrite exec_run. destruct (run_call _ s3) as [r4 s4]. cbn [mret prog_ret exec].
  rewrite exec_bind. destruct (Hnft s4) as (e5 & s5 & ->). done.
Qed.

End stages.

(** ** A converged system

    A system that shows what the policy wants.  Since [Reconcile] then only
    reads, it is enough to say what the reading calls answer, in any state. *)
Section converged.
Context `{Runner St}.


















End converged.

(** ** Witness

    A system with fixed answers, those of a policy with a tunnel and no clients
    applied. *)
Inductive oracle := TheOracle.

Definition ex_tunnel : Policy :=
  PolicyMk (DirectPrefixes ex_policy) "wg-exit" (TunnelEndpoint ex_policy) (LANs ex_policy) 1 100 100 FailClosed true
    (WireGuardConfigMk "PRIV" 51820 (PrefixMk (Addr4 174194690) 30) Wireguard.ex_peer) WireGuardConfigZero.
Definition ex_tunnel_state : DesiredKernelState := match Compile ex_tunnel with Ok st => st | Err _ => ex_state end.

Definition ex_link : string := "4: wg-exit: <POINTOPOINT,NOARP,UP,LOWER_UP>".
Definition ex_addr : string := "inet " +:+ prefix_string (Address (WireGuardOf ex_tunnel_state)) +:+ " scope global wg-exit".
Definition ex_live_rules : list Routing.liveRule :=
  [Routing.LiveRuleMk 0 None "local"; Routing.LiveRuleMk 100 (Some 1) "100"; Routing.LiveRuleMk 32766 None "main"].

Definition ex_answers : list (call * string) :=
  ((λ sp, (Sysctl.read_call (sy_Key sp), "1" +:+ nl)) <$> Sysctls ex_tunnel_state) ++
  [(Nftables.list_call (Nft ex_tunnel_state), Nftables.ex_outbound_listing);
   (Wireguard.link_call "wg-exit", ex_link);
   (Wireguard.dump_call "wg-exit", Wireguard.Dump.dump Wireguard.ex_device);
   (Wireguard.addr_call "wg-exit", ex_addr);
   (Routing.rule_show_call, Routing.show_rules ex_live_rules);
   (Routing.route_show_call 100, Routing.show_routes (Routing.OwnRoute <$> Routes ex_tunnel_state))].

Definition ex_answer (c : call) : answer :=
  match List.find (λ '(c', _), bool_decide (c' = c)) ex_answers with
  | Some (_, out) => (out, None)
  | None => ("", Some "exit status 1")
  end.
#[global] Instance oracle_runner : Runner oracle := λ c s, (ex_answer c, s).





