(* ===== verification/Gateway.v ===== *)
(** * The gateway: what the system does with a packet after an apply

    The components meet here: [apply.Reconcile] on a system whose sysctls
    ([ProcKernel]), tables ([NftKernel]) and rules and routes ([RouteKernel])
    are one state, and which does not mix them up ([Gateway]).  The result is
    that after a successful apply the system forwards every packet as the policy
    says ([Spec.policy_forward]), whatever it did before; and what
    [apply.Clear] then leaves ([clear_spec]).

    [kernel_forward] is the path of a forwarded packet through the owned table,
    the ip rules by ascending priority and the routing tables; it reads the
    default routes of a table ([own_routes]), and the results show that the
    policy's table has no other routes.  What is assumed of the system the apply
    finds is [prepared] and the laws of [Gateway]. *)

From stdpp Require Import base list strings sorting gmap.
From Stdlib Require Import ZArith Lia Ascii.
From S2P Require Import Prelude GoStrings Netip Runner Policy Json Nftables NftScript Sysctl Routing Wireguard Apply.

Import Policy.Spec.

(** ** The path of a packet *)

Definition better (dev_up : string → bool) (best : option RouteSpec) (r : RouteSpec) : option RouteSpec :=
  if usable dev_up r then
    match best with
    | Some b => if Metric r <? Metric b then Some r else best
    | None => Some r
    end
  else best.

(** The usable route of lowest metric of a table. *)
Definition lookup_table (dev_up : string → bool) (routes : list RouteSpec) : option RouteSpec :=
  foldl (better dev_up) None routes.

Definition egress_of (r : RouteSpec) : egress := if Blackhole r then Blackholed else Via (Device r).

(** The rules in their order: the first that matches and whose table has a
    usable route decides. A forwarded packet has no local route. *)
Fixpoint kernel_route (dev_up : string → bool) (routes : Z → list RouteSpec) (rs : list liveRule) (mark : Z) : egress :=
  match rs with
  | [] => MainTable
  | r :: rs =>
      if match lr_mark r with Some m => m =? mark | None => true end then
        if String.eqb (lr_table r) "local" then kernel_route dev_up routes rs mark
        else if String.eqb (lr_table r) "main" || String.eqb (lr_table r) "default" then MainTable
        else match lookup_table dev_up (routes (Atoi (lr_table r)).1) with
             | Some rt => egress_of rt
             | None => kernel_route dev_up routes rs mark
             end
      else kernel_route dev_up routes rs mark
  end.

(** The rules by ascending priority. *)
Definition rule_before (a b : liveRule) : Prop := lr_prio a <= lr_prio b.
Definition in_order (rules rs : list liveRule) : Prop := Permutation rs rules ∧ StronglySorted rule_before rs.

Definition kernel_forward (dev_up : string → bool) (t : table) (rs : list liveRule) (routes : Z → list RouteSpec)
    (pkt : packet) : option egress :=
  match table_verdict t "prerouting" pkt 0 with
  | Drop => None
  | Pass m =>
      match table_verdict t "forward" pkt m with
      | Drop => None
      | Pass m => Some (kernel_route dev_up routes rs m)
      end
  end.

(** ** The system *)

Definition sysctl_call (c : call) : Prop :=
  ∃ k v, plain k = true ∧ plain v = true ∧ c ∈ [read_call k; reread_call k; echo_call k v; sysctl_w_call k v].
Definition nft_call (c : call) : Prop :=
  (∃ spec, c = list_call spec) ∨ (∃ script, c = load_call script) ∨ ∃ family tab, c = delete_call family tab.
Definition ip_call (c : call) : Prop := c_name c ∈ ["ip"; "wg"].

(** A call about an interface, or about a route by it, which is one of the main
    table when no table is named. *)
Definition main_route (args : list string) : bool :=
  match args with [_; _; _; word; _] => String.eqb word "dev" | _ => false end.
Definition iface_call (c : call) : Prop :=
  ip_call c ∧ head (c_args c) ≠ Some "rule" ∧ (head (c_args c) = Some "route" → main_route (c_args c) = true).

(** The tables the system itself keeps: [default], [main] and [local]. *)
Definition system_tables : list Z := [253; 254; 255].

(** The keys of every compiled policy. *)
Definition gateway_keys : list string :=
  ["net.ipv4.ip_forward"; "net.ipv6.conf.all.disable_ipv6"; "net.ipv6.conf.default.disable_ipv6"].

Lemma gateway_keys_NoDup : NoDup gateway_keys.
Proof. apply (bool_decide_unpack _). by vm_compute. Qed.

(** The three parts of the state are changed by their own commands only, but for
    the routes of a table, which go when their interface does; and a key of the
    policy does not affect one that is written before it. *)
Class Gateway (St : Type) `{Runner St} := {
  #[global] gw_proc :: ProcKernel St;
  #[global] gw_nft :: NftKernel St;
  #[global] gw_route :: RouteKernel St;
  gateway_keys_sorted : StronglySorted (λ k k', affects k' k = false) gateway_keys;
  frame_sysctl c s k : k ∈ gateway_keys → nft_call c ∨ ip_call c → sysctl_value (run_call c s).2 k = sysctl_value s k;
  frame_tables c s : sysctl_call c ∨ ip_call c → ruleset_of (run_call c s).2 = ruleset_of s;
  frame_rules c s : sysctl_call c ∨ nft_call c ∨ iface_call c → rules_of (run_call c s).2 = rules_of s;
  frame_routes c s t : sysctl_call c ∨ nft_call c → routes_of (run_call c s).2 t = routes_of s t;
  frame_links c s t : iface_call c → t ∉ system_tables → ∀ r, r ∈ routes_of (run_call c s).2 t → r ∈ routes_of s t
}.

(** ** The calls of the stages *)

Lemma sat_reconcile_from specs n : Forall plain_spec specs → sat sysctl_call (λ _, True) (Sysctl.reconcile_from n specs).
Proof.
  intros Hs. revert n. induction Hs as [|sp specs [Hk Hv%switch_plain] _ IH]; intros n; [done|]. cbn [Sysctl.reconcile_from].
  apply (sat_bind _ (λ _, True)); [|intros [[] |e] _; by try apply IH].
  unfold Sysctl.reconcile_one.
  assert (∀ c, c ∈ [read_call (sy_Key sp); reread_call (sy_Key sp); echo_call (sy_Key sp) (sy_Value sp); sysctl_w_call (sy_Key sp) (sy_Value sp)] →
    sysctl_call c) as Hc by (intros c ?; by exists (sy_Key sp), (sy_Value sp)).
  apply sat_run; [apply Hc; set_solver|]. intros [out err]. destruct (_ && _); [done|].
  apply sat_run; [apply Hc; set_solver|]. intros [out1 [e1|]]; [|done].
  apply sat_run; [apply Hc; set_solver|]. intros [out2 [e2|]]; [|done].
  apply sat_run; [apply Hc; set_solver|]. intros [out3 err3]. by destruct (_ && _).
Qed.

Lemma sat_nft ord spec : sat nft_call (λ _, True) (Nftables.Reconcile ord spec).
Proof.
  unfold Nftables.Reconcile. change (Run "nft" _) with (run (list_call spec)). apply sat_run; [left; by eexists|].
  intros [out err]. destruct (_ && semanticMatchJSON _ _ _); [done|].
  match goal with |- context [RunWithInput "nft" ?b _] => change (RunWithInput "nft" b _) with (run (load_call b)) end.
  apply sat_run; [right; left; by eexists|]. by intros [o [e|]].
Qed.

Lemma sat_wg spec : sat iface_call (λ _, True) (Wireguard.Reconcile spec).
Proof.
  eapply sat_impl; [|done|apply sat_Reconcile]. intros c (Hn & Ha & _). split; [done|]. clear Hn.
  unfold public_args in Ha. apply elem_of_app in Ha as [Ha|Ha].
  - apply list_elem_of_fmap in Ha as (c' & -> & Hc'). apply elem_of_app in Hc' as [Hc'|Hc'].
    + repeat (apply elem_of_cons in Hc' as [->|Hc']; [by split; intros [=]|]). by apply elem_of_nil in Hc'.
    + apply elem_of_app in Hc' as [Hc'|Hc']; apply list_elem_of_fmap in Hc' as (q & -> & _); by split.
  - apply elem_of_cons in Ha as [Ha|Ha%list_elem_of_singleton]; rewrite Ha; by split; intros [=].
Qed.

Lemma ip_routing c : c_name c = "ip" → ip_call c.
Proof. unfold ip_call. intros ->. left. Qed.

Lemma sat_rules rules n : sat ip_call (λ _, True) (Routing.reconcile_rules n rules).
Proof.
  revert n. induction rules as [|rule rules IH]; intros n; [done|]. cbn [Routing.reconcile_rules].
  apply sat_run; [by apply ip_routing|]. intros [out err]. destruct (rule_present out rule); [apply IH|].
  apply sat_run; [by apply ip_routing|]. intros _.
  apply sat_run; [by apply ip_routing|]. intros [o [e|]]; [done|apply IH].
Qed.

Lemma sat_tables tables n : sat ip_call (λ _, True) (Routing.reconcile_tables n tables).
Proof.
  revert n. induction tables as [|[t want] tables IH]; intros n; [done|]. cbn [Routing.reconcile_tables].
  apply sat_run; [by apply ip_routing|]. intros [out err]. destruct (tableRoutesMatch out want); [apply IH|].
  apply sat_run; [by apply ip_routing|]. intros _. apply (sat_bind _ (λ _, True)); [|intros [e|] _; [done|apply IH]].
  induction want as [|rt want IHw]; [done|]. cbn [add_routes]. apply (sat_bind _ (λ _, True)); [|intros [e|] _; [done|apply IHw]].
  unfold addRoute. apply sat_run; [by apply ip_routing|]. by intros [o e].
Qed.

Lemma sat_routing ord rules routes : sat ip_call (λ _, True) (Routing.Reconcile ord rules routes).
Proof.
  unfold Routing.Reconcile. apply (sat_bind _ (λ _, True)); [apply sat_rules|]. intros [n [e|]] _; [done|apply sat_tables].
Qed.

(** ** Lemmas: lookups *)

(** The best route is a usable one of lowest metric. *)
Lemma better_spec dev_up l : ∀ best,
  (∀ b, best = Some b → usable dev_up b = true) →
  match foldl (better dev_up) best l with
  | Some b => (best = Some b ∨ b ∈ l) ∧ usable dev_up b = true ∧
              (∀ r, r ∈ l → usable dev_up r = true → Metric b <= Metric r) ∧ (∀ b0, best = Some b0 → Metric b <= Metric b0)
  | None => best = None ∧ ∀ r, r ∈ l → usable dev_up r = false
  end.
Proof.
  induction l as [|r l IH]; intros best Hbest; cbn [foldl].
  { destruct best as [b|].
    - split; [by left|]. split; [by apply Hbest|]. split; [by intros r ?%elem_of_nil|]. intros b0 [= ->]. lia.
    - split; [done|]. by intros r ?%elem_of_nil. }
  assert (∀ b, better dev_up best r = Some b → usable dev_up b = true) as Hb.
  { intros b. unfold better. destruct (usable dev_up r) eqn:Eu; [|apply Hbest].
    destruct best as [b0|]; [destruct (Metric r <? Metric b0)|]; naive_solver. }
  specialize (IH _ Hb). destruct (foldl (better dev_up) (better dev_up best r) l) as [b|].
  - destruct IH as (Hin & Hu & Hmin & Hle). unfold better in Hin, Hle. split_and!; [| done| |].
    + destruct (usable dev_up r); [|destruct Hin; [by left|right; by right]].
      destruct best as [b0|]; [destruct (Metric r <? Metric b0)|]; destruct Hin as [Hin|Hin];
        try (injection Hin as <-); try (by left); right; try (by left); by right.
    + intros r' [->|Hr']%elem_of_cons Hu'; [|by apply Hmin]. rewrite Hu' in Hle. destruct best as [b0|].
      * destruct (Z.ltb_spec (Metric r) (Metric b0)); [by apply Hle|]. specialize (Hle b0 eq_refl). lia.
      * by apply Hle.
    + intros b0 ->. destruct (usable dev_up r); [|by apply Hle].
      destruct (Z.ltb_spec (Metric r) (Metric b0)); [|by apply Hle]. specialize (Hle r eq_refl). lia.
  - destruct IH as [Hnone Hall]. unfold better in Hnone. destruct (usable dev_up r) eqn:Eu.
    + destruct best as [b0|]; [destruct (Metric r <? Metric b0)|]; done.
    + split; [done|]. intros r' [->|Hr']%elem_of_cons; auto.
Qed.

Lemma lookup_spec dev_up l :
  match lookup_table dev_up l with
  | Some b => b ∈ l ∧ usable dev_up b = true ∧ ∀ r, r ∈ l → usable dev_up r = true → Metric b <= Metric r
  | None => ∀ r, r ∈ l → usable dev_up r = false
  end.
Proof.
  pose proof (better_spec dev_up l None ltac:(done)) as Hs. unfold lookup_table.
  destruct (foldl _ None l) as [b|]; [|apply Hs]. destruct Hs as ([|] & ? & ? & _); [done|]. done.
Qed.

Lemma effect_usable dev_up r r' : effect r = effect r' → usable dev_up r = usable dev_up r'.
Proof. unfold effect, usable. intros [= -> Hd _]. by destruct (Blackhole r'); [|rewrite Hd]. Qed.
Lemma effect_egress r r' : effect r = effect r' → egress_of r = egress_of r'.
Proof. unfold effect, egress_of. intros [= -> Hd _]. by destruct (Blackhole r'); [|rewrite Hd]. Qed.

(** Tables whose routes do the same give the same way out, if the metrics tell
    the routes of one of them apart. *)
Lemma lookup_effects dev_up l l' :
  (∀ e, e ∈ (effect <$> l) ↔ e ∈ (effect <$> l')) → NoDup (Metric <$> l') →
  egress_of <$> lookup_table dev_up l = egress_of <$> lookup_table dev_up l'.
Proof.
  intros He Hnd.
  assert (∀ r, r ∈ l → ∃ r', r' ∈ l' ∧ effect r = effect r') as Hto.
  { intros r Hr. assert (effect r ∈ effect <$> l') as (r' & ? & ?)%list_elem_of_fmap by (apply He; by apply list_elem_of_fmap_2). eauto. }
  assert (∀ r', r' ∈ l' → ∃ r, r ∈ l ∧ effect r' = effect r) as Hfrom.
  { intros r Hr. assert (effect r ∈ effect <$> l) as (r' & ? & ?)%list_elem_of_fmap by (apply He; by apply list_elem_of_fmap_2). eauto. }
  assert (∀ a b, a ∈ l' → b ∈ l' → Metric a = Metric b → a = b) as Hinj.
  { intros a b (i & Ha)%list_elem_of_lookup (j & Hb)%list_elem_of_lookup Hab.
    assert (i = j) as <-; [|congruence]. apply (NoDup_lookup _ i j (Metric a) Hnd); rewrite list_lookup_fmap; [by rewrite Ha|].
    by rewrite Hb, Hab. }
  assert (∀ r r', effect r = effect r' → Metric r = Metric r') as Hmet by (intros r r' [=]; done).
  pose proof (lookup_spec dev_up l) as H1. pose proof (lookup_spec dev_up l') as H2.
  destruct (lookup_table dev_up l) as [b|], (lookup_table dev_up l') as [b'|]; cbn [fmap option_fmap option_map]; [| | |done].
  - destruct H1 as (Hb & Hu & Hmin), H2 as (Hb' & Hu' & Hmin'). f_equal.
    destruct (Hto b Hb) as (c' & Hc' & Ec). destruct (Hfrom b' Hb') as (c & Hc & Ec').
    assert (Metric b' <= Metric c') as L1 by (apply Hmin'; [done|by rewrite <-(effect_usable _ _ _ Ec)]).
    assert (Metric b <= Metric c) as L2 by (apply Hmin; [done|by rewrite <-(effect_usable _ _ _ Ec')]).
    rewrite (effect_egress _ _ Ec). f_equal. apply Hinj; [done..|]. pose proof (Hmet _ _ Ec). pose proof (Hmet _ _ Ec'). lia.
  - destruct H1 as (Hb & Hu & _). destruct (Hto b Hb) as (c' & Hc' & Ec). rewrite (effect_usable _ _ _ Ec) in Hu.
    by rewrite (H2 c' Hc') in Hu.
  - destruct H2 as (Hb & Hu & _). destruct (Hfrom b' Hb) as (c & Hc & Ec). rewrite (effect_usable _ _ _ Ec) in Hu.
    by rewrite (H1 c Hc) in Hu.
Qed.

(** The lookup of the policy data model. *)
Lemma best_route_lookup dev_up routes t : best_route dev_up routes t = lookup_table dev_up (routes_in routes t).
Proof.
  unfold best_route, lookup_table, routes_in. generalize (@None RouteSpec) at 1 2 as best.
  induction routes as [|r routes IH]; intros best; [done|]. cbn [foldl List.filter].
  destruct (rt_Table r =? t); cbn [andb foldl]; apply IH.
Qed.

(** ** Lemmas: the rules *)

(** The other rules of the system: unmarked, they lead to the local table, or
    to the main table after [rule]; marked, they are for other packets. *)
Definition other_rule (rule : IPRuleSpec) (r : liveRule) : Prop :=
  match lr_mark r with
  | None => lr_table r = "local" ∨ (lr_table r = "main" ∨ lr_table r = "default") ∧ Priority rule < lr_prio r
  | Some m => m ≠ 0 ∧ m ≠ ir_Mark rule
  end.

Section rules.
Context (dev_up : string → bool) (routes : Z → list RouteSpec) (rule : IPRuleSpec).
Context (Hwf : wf_rule rule) (Hmark : ir_Mark rule ≠ 0).

(** A marked packet reaches the rule, and leaves as its table says. *)
Lemma kernel_route_marked rs rt :
  StronglySorted rule_before rs → live_of rule ∈ rs → (∀ r, r ∈ rs → r = live_of rule ∨ other_rule rule r) →
  lookup_table dev_up (routes (ir_Table rule)) = Some rt →
  kernel_route dev_up routes rs (ir_Mark rule) = egress_of rt.
Proof.
  intros Hs Hin Hrs Hrt. induction Hs as [|r rs Hs IH Hle]; [by apply elem_of_nil in Hin|]. cbn [kernel_route].
  destruct (Hrs r ltac:(left)) as [->|Ho].
  - unfold live_of. cbn [lr_mark lr_table]. rewrite Z.eqb_refl. destruct Hwf as (_ & _ & Ht).
    assert (∀ s, string_forall is_digit s = false → String.eqb (itoa (ir_Table rule)) s = false) as Hno.
    { intros s Hns. apply String.eqb_neq. intros <-. unfold wf_int in Ht. by rewrite itoa_nonneg, fmt_uint_decimal in Hns by lia. }
    rewrite !Hno by done. rewrite Atoi_itoa by done. cbn [fst]. by rewrite Hrt.
  - assert (live_of rule ∈ rs) as Hin'.
    { apply elem_of_cons in Hin as [<-|]; [|done]. unfold other_rule, live_of in Ho. cbn [lr_mark] in Ho. by destruct Ho. }
    specialize (IH Hin' (λ r' H', Hrs r' (list_elem_of_further _ _ _ H'))).
    rewrite list.Forall_forall in Hle. specialize (Hle _ Hin'). unfold rule_before, live_of in Hle. cbn [lr_prio] in Hle.
    unfold other_rule in Ho. destruct (lr_mark r) as [m|].
    + by rewrite (proj2 (Z.eqb_neq m (ir_Mark rule))) by apply Ho.
    + destruct Ho as [->|[_ Ho]]; [done|lia].
Qed.

(** An unmarked packet uses the main table. *)
Lemma kernel_route_unmarked rs :
  (∀ r, r ∈ rs → r = live_of rule ∨ other_rule rule r) →
  kernel_route dev_up routes rs 0 = MainTable.
Proof.
  intros Hrs. induction rs as [|r rs IH]; [done|]. cbn [kernel_route].
  specialize (IH (λ r' H', Hrs r' (list_elem_of_further _ _ _ H'))).
  destruct (Hrs r ltac:(left)) as [->|Ho].
  - unfold live_of at 1. cbn [lr_mark]. by rewrite (proj2 (Z.eqb_neq _ 0)).
  - unfold other_rule in Ho. destruct (lr_mark r) as [m|].
    + by rewrite (proj2 (Z.eqb_neq m 0)) by apply Ho.
    + by destruct Ho as [->|[[->| ->] _]].
Qed.
End rules.

(** ** The compiled state *)

Definition compiled_rule (p : Policy) : IPRuleSpec :=
  IPRuleSpecMk (if RulePriority p =? 0 then DefaultRulePriority else RulePriority p) (policy_mark p)
    (if Table p =? 0 then DefaultTableID else Table p).

(** The numbers and names of a policy that [ip] prints back, and a table that is
    not one of the system's. *)
Definition routable (p : Policy) : Prop :=
  wf_int (Table p) ∧ Table p ∉ system_tables ∧ wf_int (RulePriority p) ∧ (TunnelInterface p = "" ∨ word (TunnelInterface p)).

Lemma Compile_system p st : Compile p = Ok st →
  Forall plain_spec (Sysctls st) ∧ sy_Key <$> Sysctls st = gateway_keys ∧ IPRules st = [compiled_rule p] ∧
  Routes st = routesForTunnel (ir_Table (compiled_rule p)) (policy_iface p) (TunnelUp p) (FailModeOf p).
Proof.
  unfold Compile. destruct (validate p); [done|]. intros [= <-]. cbn [Sysctls IPRules Routes]. split_and!; [|done..].
  by repeat constructor.
Qed.

Lemma compiled_rule_wf p : routable p → 0 <= Mark p < 2 ^ 32 → wf_rule (compiled_rule p).
Proof.
  intros (Ht & _ & Hp & _) Hm. unfold wf_rule, compiled_rule, wf_int in *. cbn [Priority ir_Mark ir_Table].
  unfold policy_mark, DefaultRulePriority, DefaultTableID, DefaultMark.
  destruct (RulePriority p =? 0), (Mark p =? 0), (Table p =? 0); split_and!; lia.
Qed.

Lemma tunnel_routes_wf p : routable p →
  wf_routes (routesForTunnel (ir_Table (compiled_rule p)) (policy_iface p) (TunnelUp p) (FailModeOf p)).
Proof.
  intros (Ht & _ & _ & Hi).
  assert (0 <= ir_Table (compiled_rule p) < 2 ^ 63) as Htab.
  { unfold compiled_rule, DefaultTableID, wf_int in *. cbn [ir_Table]. destruct (Table p =? 0); lia. }
  assert (word (policy_iface p)) as Hw.
  { unfold policy_iface. destruct Hi as [->|Hi]; [by split|]. destruct Hi as [Hne Hv]. by rewrite (proj2 (String.eqb_neq _ _)). }
  generalize dependent (ir_Table (compiled_rule p)). intros table Htab. unfold routesForTunnel. split.
  - destruct (TunnelUp p); cbn [negb]; repeat (apply list.Forall_cons; split); try constructor;
      unfold wf_route, TunnelRouteMetric, FailClosedRouteMetric; cbn; split_and!; (lia || done).
  - intros t. destruct (TunnelUp p); cbn [negb routes_in List.filter rt_Table]; destruct (table =? t); cbn [fmap list_fmap Metric];
      unfold TunnelRouteMetric, FailClosedRouteMetric; repeat constructor; set_solver.
Qed.

(** ** The main result *)

Section main.
Context `{Gateway St}.

(** The system before the apply.  An owned table is that of an earlier policy
    ([own_table]); the other rules are not for the packets of the program, and
    their marks do not begin with its mark; the policy's routing table has routes
    of an earlier apply or none, and can be flushed. *)
Definition prepared (p : Policy) (s : St) : Prop :=
  (∀ s' : St, ruleset_of s' = ruleset_of s → own_table p s') ∧
  marks_apart s (compiled_rule p) ∧
  (∀ r, r ∈ rules_of s → r = live_of (compiled_rule p) ∨ other_rule (compiled_rule p) r) ∧
  only_own s (ir_Table (compiled_rule p)) ∧ flushable (St := St) (ir_Table (compiled_rule p)).

Lemma marks_apart_same (s s' : St) rule : rules_of s' = rules_of s → marks_apart s rule → marks_apart s' rule.
Proof. unfold marks_apart. by intros ->. Qed.
Lemma only_own_incl (s s' : St) t : (∀ r, r ∈ routes_of s' t → r ∈ routes_of s t) → only_own s t → only_own s' t.
Proof. unfold only_own. auto. Qed.

Lemma compiled_table_apart p : routable p → ir_Table (compiled_rule p) ∉ system_tables.
Proof.
  intros (_ & Hn & _). unfold compiled_rule, DefaultTableID. cbn [ir_Table]. destruct (Table p =? 0); [|done].
  apply (bool_decide_unpack _). by vm_compute.
Qed.

(** The rule and the routes send unmarked packets to the main table and marked
    ones to the tunnel, or nowhere. *)
Definition egress_marked (p : Policy) (dev_up : string → bool) : egress :=
  if TunnelUp p && dev_up (policy_iface p) then Via (policy_iface p) else Blackholed.

Lemma kernel_route_policy dev_up p st routes rs :
  Compile p = Ok st → routable p → 0 <= Mark p < 2 ^ 32 →
  StronglySorted rule_before rs → live_of (compiled_rule p) ∈ rs →
  (∀ r, r ∈ rs → r = live_of (compiled_rule p) ∨ other_rule (compiled_rule p) r) →
  (∀ e, e ∈ (effect <$> routes (ir_Table (compiled_rule p))) ↔ e ∈ (effect <$> routes_in (Routes st) (ir_Table (compiled_rule p)))) →
  kernel_route dev_up routes rs 0 = MainTable ∧ kernel_route dev_up routes rs (policy_mark p) = egress_marked p dev_up.
Proof.
  intros Hc Hp Hm Hs Hin Hrs He. destruct (Compile_system p st Hc) as (_ & _ & Hi & Hr).
  assert (ir_Mark (compiled_rule p) ≠ 0) as Hmark by apply policy_mark_nonzero.
  split; [by apply (kernel_route_unmarked dev_up routes (compiled_rule p))|].
  change (policy_mark p) with (ir_Mark (compiled_rule p)).
  pose proof (tunnel_routes_wf p Hp) as [_ Hnd]. rewrite <-Hr in Hnd.
  pose proof (lookup_effects dev_up _ _ He (Hnd _)) as Hl. rewrite <-best_route_lookup in Hl.
  rewrite Hr, best_route_routesForTunnel in Hl. unfold egress_marked.
  destruct (lookup_table dev_up (routes _)) as [rt|] eqn:El; [|by destruct (TunnelUp p && _)].
  rewrite (kernel_route_marked dev_up routes (compiled_rule p) (compiled_rule_wf p Hp Hm) rs rt) by done.
  cbn [fmap option_fmap option_map] in Hl. injection Hl as ->. by destruct (TunnelUp p && _).
Qed.

(** The table, the rule and the routes together are the policy. *)
Lemma kernel_forward_policy dev_up p st t routes rs pkt :
  Compile p = Ok st → means t (Nft st) → addr_valid (dst pkt) = true →
  kernel_route dev_up routes rs 0 = MainTable → kernel_route dev_up routes rs (policy_mark p) = egress_marked p dev_up →
  kernel_forward dev_up t rs routes pkt = policy_forward dev_up p pkt.
Proof.
  intros Hc Ht Hv Hmain Hmarked. destruct (Compile_inv p st Hc) as (_ & Hn & _).
  unfold kernel_forward, policy_forward. rewrite Ht, Hn, eval_prerouting by done. destruct (Is6 (dst pkt)); [done|].
  rewrite Ht, Hn, eval_forward by done. destruct (inbound p && _ && _); [done|].
  destruct (direct p (dst pkt)); [by rewrite Hmain|]. rewrite Hmarked. unfold egress_marked. by destruct (TunnelUp p && _).
Qed.

(** What the stages of an apply keep. *)
Lemma wg_keeps spec (s : St) :
  let s' := (exec (Wireguard.Reconcile spec) s).1.2 in
  (∀ k, k ∈ gateway_keys → sysctl_value s' k = sysctl_value s k) ∧ ruleset_of s' = ruleset_of s ∧ rules_of s' = rules_of s ∧
  ∀ t, t ∉ system_tables → ∀ r, r ∈ routes_of s' t → r ∈ routes_of s t.
Proof.
  cbv zeta. split_and!.
  - intros k Hk. apply (exec_keeps (λ s, sysctl_value s k) _ _ _ _ (sat_wg spec)). intros c s0 [Hc _]. apply frame_sysctl; auto.
  - apply (exec_keeps ruleset_of _ _ _ _ (sat_wg spec)). intros c s0 [Hc _]. apply frame_tables; auto.
  - apply (exec_keeps rules_of _ _ _ _ (sat_wg spec)). intros c s0 Hc. apply frame_rules; auto.
  - intros t Ht. apply (exec_inv (λ s0, ∀ r, r ∈ routes_of s0 t → r ∈ routes_of s t) _ _ _ _ (sat_wg spec)); [|done].
    intros c s0 Hc Hs r Hr. apply Hs. by apply (frame_links c s0 t Hc Ht).
Qed.

Lemma sysctl_keeps specs (s : St) : Forall plain_spec specs →
  let s' := (exec (Sysctl.Reconcile specs) s).1.2 in
  ruleset_of s' = ruleset_of s ∧ rules_of s' = rules_of s ∧ ∀ t, routes_of s' t = routes_of s t.
Proof.
  intros Hs. cbv zeta. unfold Sysctl.Reconcile. split_and!; [| |intros t].
  - apply (exec_keeps ruleset_of _ _ _ _ (sat_reconcile_from specs 0 Hs)). intros. apply frame_tables; auto.
  - apply (exec_keeps rules_of _ _ _ _ (sat_reconcile_from specs 0 Hs)). intros. apply frame_rules; auto.
  - apply (exec_keeps (λ s, routes_of s t) _ _ _ _ (sat_reconcile_from specs 0 Hs)). intros. apply frame_routes; auto.
Qed.

Lemma nft_keeps ord spec (s : St) :
  let s' := (exec (Nftables.Reconcile ord spec) s).1.2 in
  (∀ k, k ∈ gateway_keys → sysctl_value s' k = sysctl_value s k) ∧ rules_of s' = rules_of s ∧ ∀ t, routes_of s' t = routes_of s t.
Proof.
  cbv zeta. split_and!; [intros k Hk| |intros t].
  - apply (exec_keeps (λ s, sysctl_value s k) _ _ _ _ (sat_nft ord spec)). intros. apply frame_sysctl; auto.
  - apply (exec_keeps rules_of _ _ _ _ (sat_nft ord spec)). intros. apply frame_rules; auto.
  - apply (exec_keeps (λ s, routes_of s t) _ _ _ _ (sat_nft ord spec)). intros. apply frame_routes; auto.
Qed.

Lemma routing_keeps ord rules routes (s : St) :
  let s' := (exec (Routing.Reconcile ord rules routes) s).1.2 in
  (∀ k, k ∈ gateway_keys → sysctl_value s' k = sysctl_value s k) ∧ ruleset_of s' = ruleset_of s.
Proof.
  cbv zeta. split.
  - intros k Hk. apply (exec_keeps (λ s, sysctl_value s k) _ _ _ _ (sat_routing ord rules routes)). intros. apply frame_sysctl; auto.
  - apply (exec_keeps ruleset_of _ _ _ _ (sat_routing ord rules routes)). intros. apply frame_tables; auto.
Qed.

(** The five stages of a successful apply, and what they leave. *)
Lemma apply_success ord table_ord p st (s s' : St) res cs :
  Compile p = Ok st → exec (Apply.Reconcile ord table_ord p) s = ((res, None), s', cs) →
  ∃ s1 s2 s3 s4 n1 n2 n5 cs1 cs2 cs5,
    exec (Sysctl.Reconcile (Sysctls st)) s = ((n1, None), s1, cs1) ∧
    exec (Nftables.Reconcile ord (Nft st)) s1 = ((n2, None), s2, cs2) ∧
    s3 = (exec (Wireguard.Reconcile (WireGuardOf st)) s2).1.2 ∧
    s4 = (exec (Wireguard.Reconcile (WireGuardClients st)) s3).1.2 ∧
    exec (Routing.Reconcile table_ord (IPRules st) (Routes st)) s4 = ((n5, None), s', cs5).
Proof.
  intros Hc. unfold Apply.Reconcile. rewrite Hc.
  rewrite exec_bind. destruct (exec (Sysctl.Reconcile _) s) as [[[n1 [e1|]] s1] cs1] eqn:E1; [by intros [=]|].
  rewrite exec_bind. destruct (exec (Nftables.Reconcile _ _) s1) as [[[n2 [e2|]] s2] cs2] eqn:E2; [by intros [=]|].
  rewrite exec_bind. destruct (exec (Wireguard.Reconcile (WireGuardOf st)) s2) as [[[n3 [e3|]] s3] cs3] eqn:E3; [by intros [=]|].
  rewrite exec_bind. destruct (exec (Wireguard.Reconcile (WireGuardClients st)) s3) as [[[n4 [e4|]] s4] cs4] eqn:E4; [by intros [=]|].
  rewrite exec_bind. destruct (exec (Routing.Reconcile _ _ _) s4) as [[[n5 [e5|]] s5] cs5] eqn:E5; [by intros [=]|].
  intros [= _ <- _]. exists s1, s2, s3, s4, n1, n2, n5, cs1, cs2, cs5. by rewrite E3, E4.
Qed.

(** No rule of the system has the priority of the program's. *)
Definition free_priority (rule : IPRuleSpec) (s : St) : Prop := ∀ r, r ∈ rules_of s → lr_prio r ≠ Priority rule.

(** The four stages before the routes leave the rules and bring no route. *)
Lemma apply_keeps ord p st (s s1 s2 : St) n1 n2 cs1 cs2 :
  Compile p = Ok st → exec (Sysctl.Reconcile (Sysctls st)) s = ((n1, None), s1, cs1) →
  exec (Nftables.Reconcile ord (Nft st)) s1 = ((n2, None), s2, cs2) →
  let s3 := (exec (Wireguard.Reconcile (WireGuardOf st)) s2).1.2 in
  let s4 := (exec (Wireguard.Reconcile (WireGuardClients st)) s3).1.2 in
  ruleset_of s1 = ruleset_of s ∧ ruleset_of s4 = ruleset_of s2 ∧ rules_of s4 = rules_of s ∧
  (∀ k, k ∈ gateway_keys → sysctl_value s4 k = sysctl_value s1 k) ∧
  ∀ t, t ∉ system_tables → ∀ r, r ∈ routes_of s4 t → r ∈ routes_of s t.
Proof.
  intros Hc E1 E2. cbv zeta. destruct (Compile_system p st Hc) as (Hplain & _).
  destruct (sysctl_keeps (Sysctls st) s Hplain) as (K1t & K1r & K1o). rewrite E1 in K1t, K1r, K1o.
  destruct (nft_keeps ord (Nft st) s1) as (K2k & K2r & K2o). rewrite E2 in K2k, K2r, K2o.
  destruct (wg_keeps (WireGuardOf st) s2) as (K3k & K3t & K3r & K3o).
  destruct (wg_keeps (WireGuardClients st) (exec (Wireguard.Reconcile (WireGuardOf st)) s2).1.2) as (K4k & K4t & K4r & K4o).
  cbn [fst snd] in *. split_and!; [done|congruence|congruence| |].
  - intros k Hk. by rewrite K4k, K3k, K2k.
  - intros t Ht r Hr%K4o%K3o; [|done..]. by rewrite <-K1o, <-K2o.
Qed.

(** All that a successful apply leaves behind. *)
Lemma apply_spec ord table_ord p st (s : St) :
  range_order ord → table_order table_ord → Compile p = Ok st → loadable p → routable p → prepared p s →
  let '((res, err), s', _) := exec (Apply.Reconcile ord table_ord p) s in
  err = None →
  Forall (λ sp, sysctl_value s' (sy_Key sp) = sy_Value sp) (Sysctls st) ∧
  (∃ t, ruleset_of s' !! owned = Some t ∧
    ∀ dev_up rs pkt, in_order (rules_of s') rs → addr_valid (dst pkt) = true →
      kernel_forward dev_up t rs (own_routes s') pkt = policy_forward dev_up p pkt) ∧
  (∀ dev_up rs, in_order (rules_of s') rs →
    kernel_route dev_up (own_routes s') rs 0 = MainTable ∧
    kernel_route dev_up (own_routes s') rs (policy_mark p) = egress_marked p dev_up) ∧
  only_own s' (ir_Table (compiled_rule p)) ∧
  (∀ k, k ≠ owned → ruleset_of s' !! k = ruleset_of s !! k) ∧
  (free_priority (compiled_rule p) s → rules_of s' ≡ₚ live_of (compiled_rule p) :: rules_of s).
Proof.
  intros Hnord Hord Hc Hload Hp (Hacc & Hma & Hothers & Hown & Hflush).
  destruct (exec (Apply.Reconcile ord table_ord p) s) as [[[res [e|]] s'] cs] eqn:E; [done|]. intros _.
  destruct (apply_success _ _ _ _ _ _ _ _ Hc E) as (s1 & s2 & s3 & s4 & n1 & n2 & n5 & cs1 & cs2 & cs5 & E1 & E2 & E3 & E4 & E5).
  destruct (Compile_system p st Hc) as (Hplain & Hkeys & Hi & Hrt). assert (0 <= Mark p < 2 ^ 32) as Hm by apply Hload.
  pose proof (apply_keeps ord p st s s1 s2 n1 n2 cs1 cs2 Hc E1 E2) as Hk. cbv zeta in Hk. rewrite <-E3, <-E4 in Hk.
  destruct Hk as (K1t & K4t & Hsame & K4k & K4o). clear E3 E4.
  pose proof (reconcile_all (Sysctls st) 0 s ltac:(rewrite Hkeys; apply gateway_keys_NoDup) Hplain
    ltac:(rewrite Hkeys; apply gateway_keys_sorted)) as Hset.
  fold (Sysctl.Reconcile (Sysctls st)) in Hset. rewrite E1 in Hset. specialize (Hset eq_refl).
  pose proof (nft_Reconcile_spec ord p st s1 Hnord Hc Hload (Hacc s1 K1t)) as H2. rewrite E2 in H2. destruct H2 as (H2 & _ & Hothert).
  destruct (H2 eq_refl) as (t & Ht & Hmeans).
  pose proof (Reconcile_spec table_ord (compiled_rule p) (Routes st) s4 Hord (compiled_rule_wf p Hp Hm)
    ltac:(rewrite Hrt; by apply tunnel_routes_wf) (marks_apart_same _ _ _ Hsame Hma)) as H5.
  rewrite <-Hi, E5 in H5. destruct H5 as (_ & Hsub & _ & H5 & _ & Hfresh). destruct (H5 eq_refl) as [Hin Hfill].
  destruct (routing_keeps table_ord (IPRules st) (Routes st) s4) as [K5k K5t]. rewrite E5 in K5k, K5t. cbn [fst snd] in *.
  destruct (Hfill (ir_Table (compiled_rule p))) as [_ [Hown' Hholds]%(λ f, f Hflush)].
  { rewrite Hrt. unfold routesForTunnel. destruct (TunnelUp p); cbn; left. }
  { apply (only_own_incl s); [|done]. by apply K4o, compiled_table_apart. }
  assert (∀ dev_up rs, in_order (rules_of s') rs →
    kernel_route dev_up (own_routes s') rs 0 = MainTable ∧
    kernel_route dev_up (own_routes s') rs (policy_mark p) = egress_marked p dev_up) as Hroute.
  { intros dev_up rs [Hperm Hsorted].
    assert (∀ r, r ∈ rs ↔ r ∈ rules_of s') as Hrs by (intros r; by rewrite Hperm).
    apply (kernel_route_policy dev_up p st); try done.
    - by apply Hrs.
    - intros r Hr0%Hrs. destruct (Hsub r Hr0) as [->|Hr1]; [by left|]. rewrite Hsame in Hr1. by apply Hothers. }
  split_and!; [|exists t; split|done|done| |].
  - apply list.Forall_forall. intros sp Hsp. rewrite list.Forall_forall in Hset. rewrite <-(Hset sp Hsp).
    assert (sy_Key sp ∈ gateway_keys) as Hk by (rewrite <-Hkeys; by apply list_elem_of_fmap_2). by rewrite K5k, K4k.
  - by rewrite K5t, K4t.
  - intros dev_up rs pkt Hrs Hv. destruct (Hroute dev_up rs Hrs). by apply (kernel_forward_policy dev_up p st).
  - intros k Hk. by rewrite K5t, K4t, Hothert, K1t.
  - intros Hfree. rewrite <-Hsame. apply Hfresh; [|done]. by rewrite Hsame.
Qed.

(** What [apply.Clear] leaves: it takes a rule at the default priority and the
    owned table away if the commands succeed, and empties the default routing
    table if a flush of it works. *)
Definition owned_deletion : call := delete_call OwnedNftFamily OwnedNftTable.
Definition rule_deletion : call := rule_del_call DefaultRulePriority.

Lemma sat_wg_Clear iface : sat iface_call (λ _, True) (Wireguard.Clear iface).
Proof.
  apply sat_run; [|intros [out [e|]]; [by destruct (contains e _)|done]]. split; [by apply ip_routing|]. by split; intros [=].
Qed.

Lemma exec_nft_Clear (s : St) :
  let '(_, s', _) := exec (Nftables.Clear OwnedNftFamily OwnedNftTable) s in s' = (run_call owned_deletion s).2.
Proof.
  unfold Nftables.Clear. change (Run "nft" _) with (run owned_deletion). rewrite exec_run.
  destruct (run_call owned_deletion s) as [[out [e|]] s']; [|done]. destruct (contains e _); [done|]. by destruct (contains e _).
Qed.

Lemma clear_spec (s : St) :
  let '(err, s', _) := exec Apply.Clear s in
  err = None ∧ (flushable (St := St) DefaultTableID → routes_of s' DefaultTableID = []) ∧
  (∃ s0, ruleset_of s0 = ruleset_of s ∧
     ruleset_of s' = match (run_call owned_deletion s0).1.2 with None => delete owned (ruleset_of s) | Some _ => ruleset_of s end) ∧
  (∃ s0, rules_of s0 = rules_of s ∧
     match (run_call rule_deletion s0).1.2 with
     | None => ∃ r, lr_prio r = DefaultRulePriority ∧ rules_of s ≡ₚ r :: rules_of s'
     | Some _ => rules_of s' = rules_of s
     end).
Proof.
  unfold Apply.Clear. rewrite exec_bind.
  assert (∀ iface (s : St), let '(_, s', _) := exec (Wireguard.Clear iface) s in ruleset_of s' = ruleset_of s ∧ rules_of s' = rules_of s) as Hwg.
  { intros iface s0. pose proof (exec_keeps ruleset_of _ _ (Wireguard.Clear iface) s0 (sat_wg_Clear iface)) as Ht.
    pose proof (exec_keeps rules_of _ _ (Wireguard.Clear iface) s0 (sat_wg_Clear iface)) as Hr.
    destruct (exec (Wireguard.Clear iface) s0) as [[? s1] ?]. split; [apply Ht|apply Hr]; intros c s2 Hc; [apply frame_tables; right; apply Hc|apply frame_rules; auto]. }
  specialize (Hwg DefaultTunnelIface s) as H1. destruct (exec (Wireguard.Clear DefaultTunnelIface) s) as [[e1 s1] cs1].
  rewrite exec_bind. specialize (Hwg DefaultClientsIface s1) as H2.
  destruct (exec (Wireguard.Clear DefaultClientsIface) s1) as [[e2 s2] cs2]. unfold Routing.Clear. rewrite exec_bind, exec_run.
  assert (ruleset_of s2 = ruleset_of s ∧ rules_of s2 = rules_of s) as [E2t E2r] by (split; destruct H1, H2; congruence).
  fold rule_deletion. pose proof (rule_del_law s2 DefaultRulePriority ltac:(by vm_compute)) as H3. fold rule_deletion in H3.
  pose proof (frame_tables rule_deletion s2 ltac:(right; by apply ip_routing)) as H3t.
  destruct (run_call rule_deletion s2) as [[o3 e3] s3] eqn:E3. cbn [snd] in H3t. rewrite exec_run.
  assert (wf_int DefaultTableID) as Hwf by (by vm_compute).
  pose proof (flush_law s3 DefaultTableID Hwf) as H4r. pose proof (flush_empties s3 DefaultTableID Hwf) as H4.
  pose proof (frame_tables (route_flush_call DefaultTableID) s3 ltac:(right; by apply ip_routing)) as H4t.
  destruct (run_call (route_flush_call DefaultTableID) s3) as [[o4 e4] s4]. destruct H4r as [H4r _]. cbn [mret prog_ret exec snd] in *. rewrite exec_bind.
  pose proof (exec_nft_Clear s4) as H5. destruct (exec (Nftables.Clear OwnedNftFamily OwnedNftTable) s4) as [[e5 s5] cs5]. subst s5.
  cbn [mret prog_ret exec]. assert (nft_call owned_deletion) as Hn by (right; right; by do 2 eexists).
  split; [done|]. split; [intros Hfl; rewrite frame_routes by auto; by apply H4|]. split.
  - exists s4. split; [congruence|]. pose proof (delete_law s4 OwnedNftFamily OwnedNftTable) as H5. fold owned_deletion in H5.
    destruct (run_call owned_deletion s4) as [[o5 [e|]] s5]; cbn [fst snd]; rewrite H5; [congruence|]. by rewrite H4t, H3t, E2t.
  - exists s2. split; [done|]. rewrite E3. cbn [fst snd]. destruct H3 as [H3 _]. rewrite E2r in H3.
    rewrite frame_rules by (right; by left). by rewrite H4r.
Qed.

(** The two deletions and the flush succeed when there is something to delete. *)
Definition deletions_work : Prop :=
  flushable (St := St) DefaultTableID ∧
  (∀ s : St, is_Some (ruleset_of s !! owned) → (run_call owned_deletion s).1.2 = None) ∧
  (∀ (s : St) r, r ∈ rules_of s → lr_prio r = DefaultRulePriority → (run_call rule_deletion s).1.2 = None).

(** A clear takes away what an apply added to a system without it. *)
Lemma clear_restores rule (s s1 : St) :
  deletions_work → Priority rule = DefaultRulePriority → ruleset_of s !! owned = None → free_priority rule s →
  is_Some (ruleset_of s1 !! owned) → (∀ k, k ≠ owned → ruleset_of s1 !! k = ruleset_of s !! k) →
  rules_of s1 ≡ₚ live_of rule :: rules_of s →
  let '(err, s2, _) := exec Apply.Clear s1 in
  err = None ∧ ruleset_of s2 = ruleset_of s ∧ rules_of s2 ≡ₚ rules_of s ∧ routes_of s2 DefaultTableID = [].
Proof.
  intros (Hflush & Htab & Hrule) Hprio Hnone Hfree Hown Hother Hrules. pose proof (clear_spec s1) as Hs.
  destruct (exec Apply.Clear s1) as [[err s2] cs]. destruct Hs as (-> & Hroutes & (sa & Ea & Ht) & (sb & Eb & Hr)).
  split; [done|]. split; [|split; [|by apply Hroutes]].
  - rewrite Htab in Ht by (by rewrite Ea). rewrite Ht. unfold ruleset in *. apply map_eq. intros k. destruct (decide (k = owned)) as [->|Hk].
    + by rewrite lookup_delete_eq.
    + rewrite lookup_delete_ne by done. by apply Hother.
  - assert (live_of rule ∈ rules_of sb) as Hin by (rewrite Eb, Hrules; left).
    rewrite (Hrule sb (live_of rule) Hin Hprio) in Hr. destruct Hr as (r & Hpr & Hr). rewrite Hrules in Hr.
    assert (r = live_of rule) as ->.
    { assert (r ∈ live_of rule :: rules_of s) as [->|Hr']%elem_of_cons by (rewrite Hr; left); [done|]. rewrite <-Hprio in Hpr. by destruct (Hfree r Hr'). }
    symmetry. by eapply Permutation_cons_inv.
Qed.

(** C2. The gateway does what the policy says: after a successful
    [apply.Reconcile] of a policy, the sysctls of the compiled state are set
    and, whichever devices are up, the system sends every IPv4 or IPv6 packet
    it forwards where the policy says, through the table, the rule and the
    routes it now has; the policy's routing table has only default routes of the
    program's form.  The prefixes are IPv4 and those of a set do not overlap
    ([loadable]), the routing table is not one of the system's ([routable]), and
    the system is [prepared]: an owned table is that of an earlier policy, whose
    clients and direct hosts the new one keeps; no other rule takes the packets,
    and their marks do not begin with the digits of the mark; the routing table
    has routes of the program's form, and can be flushed. *)
Theorem apply_forwards_as_policy ord table_ord p st (s : St) :
  range_order ord → table_order table_ord → Compile p = Ok st → loadable p → routable p → prepared p s →
  let '((res, err), s', _) := exec (Apply.Reconcile ord table_ord p) s in
  err = None →
  Forall (λ sp, sysctl_value s' (sy_Key sp) = sy_Value sp) (Sysctls st) ∧
  only_own s' (ir_Table (compiled_rule p)) ∧
  ∃ t, ruleset_of s' !! owned = Some t ∧
    ∀ dev_up rs pkt, in_order (rules_of s') rs → addr_valid (dst pkt) = true →
      kernel_forward dev_up t rs (own_routes s') pkt = policy_forward dev_up p pkt.
Proof.
  intros Hnord Hord Hc Hr Hp Hprep. pose proof (apply_spec ord table_ord p st s Hnord Hord Hc Hr Hp Hprep) as Hs.
  destruct (exec (Apply.Reconcile ord table_ord p) s) as [[[res err] s'] cs]. intros He. destruct (Hs He) as (? & ? & _ & ? & _). done.
Qed.

End main.

(** ** A gateway

    The systems of the components side by side; interfaces and the main table are
    not kept. *)
Module World.

Record state := State { sys : Sysctl.Sim.state; tables : ruleset; ip : Routing.Sim.state }.

Definition is_sysctl (c : call) : bool := String.eqb (c_name c) "bash" || String.eqb (c_name c) "sysctl".
Definition is_routing (c : call) : bool :=
  String.eqb (c_name c) "ip" &&
  match c_args c with
  | a :: _ => String.eqb a "rule" || String.eqb a "route" && negb (main_route (c_args c))
  | [] => false
  end.

Definition step (c : call) (w : state) : answer * state :=
  if is_sysctl c then let '(a, s) := Sysctl.Sim.step c (sys w) in (a, State s (tables w) (ip w))
  else if String.eqb (c_name c) "nft" then let '(a, s) := NftScript.Sim.step c (tables w) in (a, State (sys w) s (ip w))
  else if is_routing c then let '(a, s) := Routing.Sim.step c (ip w) in (a, State (sys w) (tables w) s)
  else (("", None), w).

End World.

#[global] Instance world_runner : Runner World.state := World.step.

Lemma world_sysctl c w : World.is_sysctl c = true →
  run_call c w = (let '(a, s) := run_call c (World.sys w) in (a, World.State s (World.tables w) (World.ip w))).
Proof. unfold run_call at 1, world_runner, World.step. by intros ->. Qed.
Lemma world_nft c w : c_name c = "nft" →
  run_call c w = (let '(a, s) := run_call c (World.tables w) in (a, World.State (World.sys w) s (World.ip w))).
Proof. unfold run_call at 1, world_runner, World.step, World.is_sysctl. by intros ->. Qed.
Lemma world_routing c w : World.is_routing c = true →
  run_call c w = (let '(a, s) := run_call c (World.ip w) in (a, World.State (World.sys w) (World.tables w) s)).
Proof.
  unfold run_call at 1, world_runner, World.step, World.is_sysctl. intros Hr. rewrite Hr.
  unfold World.is_routing in Hr. apply andb_true_iff in Hr as [->%String.eqb_eq _]. done.
Qed.

#[global] Program Instance world_proc : ProcKernel World.state := 
  {| sysctl_value := λ w, sysctl_value (World.sys w); affects := Sysctl.Sim.reaches |}.
Next Obligation.
  intros w k c Hk Hc. pose proof (read_law (World.sys w) k c Hk Hc) as Hl.
  rewrite world_sysctl by (by repeat (apply elem_of_cons in Hc as [->|Hc]; [done|]); apply elem_of_nil in Hc).
  by destruct (run_call c (World.sys w)).
Qed.
Next Obligation.
  intros w k v c Hk Hv Hc. pose proof (write_law (World.sys w) k v c Hk Hv Hc) as Hl.
  rewrite world_sysctl by (by repeat (apply elem_of_cons in Hc as [->|Hc]; [done|]); apply elem_of_nil in Hc).
  by destruct (run_call c (World.sys w)).
Qed.

#[global] Program Instance world_nft_kernel : NftKernel World.state := {| ruleset_of := World.tables |}.
Next Obligation.
  intros w spec. pose proof (list_law (World.tables w) spec) as Hl. rewrite world_nft by done.
  by destruct (run_call (list_call spec) (World.tables w)).
Qed.
Next Obligation.
  intros w script r' Hs. pose proof (load_law (World.tables w) script r' Hs) as Hl. rewrite world_nft by done.
  by destruct (run_call (load_call script) (World.tables w)).
Qed.
Next Obligation.
  intros w family tab. pose proof (delete_law (World.tables w) family tab) as Hl. rewrite world_nft by done.
  by destruct (run_call (delete_call family tab) (World.tables w)) as [[out err] s].
Qed.

Lemma routing_calls c :
  (c = rule_show_call ∨ (∃ n, c = rule_del_call n) ∨ (∃ r, c = rule_add_call r) ∨ (∃ t, c = route_show_call t) ∨
   (∃ t, c = route_flush_call t) ∨ (∃ rt, c = addRoute_call rt)) → World.is_routing c = true.
Proof.
  intros [->|[[n ->]|[[r ->]|[[t ->]|[[t ->]|[rt ->]]]]]]; [done..|]. unfold addRoute_call, addRoute_args, World.is_routing.
  by destruct (Blackhole rt), (0 <? Metric rt).
Qed.

#[global] Program Instance world_route : RouteKernel World.state :=
  {| rules_of := λ w, rules_of (World.ip w); routes_of := λ w, routes_of (World.ip w) |}.
Next Obligation.
  intros w. pose proof (rule_show_law (World.ip w)) as Hl. rewrite world_routing by (apply routing_calls; naive_solver).
  by destruct (run_call rule_show_call (World.ip w)) as [[out err] s].
Qed.
Next Obligation.
  intros w n Hn. pose proof (rule_del_law (World.ip w) n Hn) as Hl. rewrite world_routing by (apply routing_calls; naive_solver).
  by destruct (run_call (rule_del_call n) (World.ip w)) as [[out err] s].
Qed.
Next Obligation.
  intros w r Hr. pose proof (rule_add_law (World.ip w) r Hr) as Hl. rewrite world_routing by (apply routing_calls; naive_solver).
  by destruct (run_call (rule_add_call r) (World.ip w)) as [[out err] s].
Qed.
Next Obligation.
  intros w t Ht. pose proof (show_law (World.ip w) t Ht) as Hl. rewrite world_routing by (apply routing_calls; naive_solver).
  by destruct (run_call (route_show_call t) (World.ip w)) as [[out err] s].
Qed.
Next Obligation.
  intros w t Ht. pose proof (flush_law (World.ip w) t Ht) as Hl. rewrite world_routing by (apply routing_calls; naive_solver).
  by destruct (run_call (route_flush_call t) (World.ip w)) as [[out err] s].
Qed.
Next Obligation.
  intros w rt Hrt. pose proof (add_law (World.ip w) rt Hrt) as Hl. rewrite world_routing by (apply routing_calls; naive_solver).
  by destruct (run_call (addRoute_call rt) (World.ip w)) as [[out err] s].
Qed.

Lemma sysctl_call_is c : sysctl_call c → World.is_sysctl c = true.
Proof.
  intros (k & v & _ & _ & Hc). by repeat (apply elem_of_cons in Hc as [->|Hc]; [done|]); apply elem_of_nil in Hc.
Qed.
Lemma nft_call_is c : nft_call c → c_name c = "nft".
Proof. by intros [[? ->]|[[? ->]|(? & ? & ->)]]. Qed.
Lemma ip_call_is c : ip_call c → World.is_sysctl c = false ∧ String.eqb (c_name c) "nft" = false.
Proof. unfold ip_call, World.is_sysctl. intros [->|Hc%list_elem_of_singleton]%elem_of_cons; [done|]. by rewrite Hc. Qed.

Lemma world_ip_only c w : ip_call c →
  World.sys (run_call c w).2 = World.sys w ∧ World.tables (run_call c w).2 = World.tables w ∧
  (iface_call c → World.ip (run_call c w).2 = World.ip w).
Proof.
  intros [H1 H2]%ip_call_is. unfold run_call, world_runner, World.step. rewrite H1, H2.
  destruct (World.is_routing c) eqn:Hr; [|done]. destruct (Routing.Sim.step c (World.ip w)) as [a s].
  split; [done|]. split; [done|]. intros (_ & Hn1 & Hn2). exfalso.
  unfold World.is_routing in Hr. apply andb_true_iff in Hr as [_ Hr]. destruct (c_args c) as [|b args]; [done|].
  apply orb_true_iff in Hr as [->%String.eqb_eq|[->%String.eqb_eq Hm%negb_true_iff]%andb_true_iff]; [done|].
  by rewrite Hn2 in Hm.
Qed.

#[global] Program Instance world_gateway : Gateway World.state := {}.
Next Obligation. by repeat constructor. Qed.
Next Obligation.
  intros c w k _ [Hc%nft_call_is|Hc].
  - rewrite world_nft by done. by destruct (run_call c (World.tables w)).
  - destruct (world_ip_only c w Hc) as (Hs & _). cbn [sysctl_value world_proc]. by rewrite Hs.
Qed.
Next Obligation.
  intros c w [Hc%sysctl_call_is|Hc].
  - rewrite world_sysctl by done. by destruct (run_call c (World.sys w)).
  - by destruct (world_ip_only c w Hc) as (_ & Ht & _).
Qed.
Next Obligation.
  intros c w [Hc%sysctl_call_is|[Hc%nft_call_is|Hc]].
  - rewrite world_sysctl by done. by destruct (run_call c (World.sys w)).
  - rewrite world_nft by done. by destruct (run_call c (World.tables w)).
  - destruct (world_ip_only c w (proj1 Hc)) as (_ & _ & Hr). cbn [rules_of world_route]. by rewrite Hr.
Qed.
Next Obligation.
  intros c w t [Hc%sysctl_call_is|Hc%nft_call_is].
  - rewrite world_sysctl by done. by destruct (run_call c (World.sys w)).
  - rewrite world_nft by done. by destruct (run_call c (World.tables w)).
Qed.
Next Obligation.
  intros c w t Hc _ r. destruct (world_ip_only c w (proj1 Hc)) as (_ & _ & Hr). cbn [routes_of world_route]. by rewrite Hr.
Qed.

(** ** Witness *)

(** A machine where the policy without clients was applied before, with a
    foreign table and the rules the kernel starts with. *)
Definition ex_machine : World.state :=
  World.State (list_to_map [("net.ipv4.ip_forward", "0"); ("net.ipv6.conf.all.disable_ipv6", "0"); ("net.ipv6.conf.default.disable_ipv6", "1")])
    ex_before
    (Routing.Sim.State [LiveRuleMk 0 None "local"; LiveRuleMk 32766 None "main"; LiveRuleMk 32767 None "default"]
      {[100 := [OwnRoute (RouteSpecMk 100 default_dst true "" 5)]]}).

Definition ex_applied : World.state := (exec (Apply.Reconcile ex_ord ex_table_ord ex_policy) ex_machine).1.2.

Lemma ex_routable : routable ex_policy.
Proof.
  unfold routable, wf_int. split_and!; [done|done| |done|done|by right]. apply (bool_decide_unpack _). by vm_compute.
Qed.

Lemma world_list spec w : (run_call (list_call spec) w).1 = (run_call (list_call spec) (World.tables w)).1.
Proof. rewrite world_nft by done. by destruct (run_call (list_call spec) (World.tables w)). Qed.

Lemma world_flushable t : wf_int t → flushable (St := World.state) t.
Proof.
  intros Ht w Hne. rewrite world_routing by (apply routing_calls; naive_solver).
  pose proof (sim_flushable t Ht (World.ip w) Hne) as Hf. by destruct (run_call (route_flush_call t) (World.ip w)).
Qed.

Lemma ex_prepared : prepared ex_policy ex_machine.
Proof.
  split; [|split; [|split; [|split]]].
  - intros w Hw t Ht. change (World.tables w = ex_before) in Hw. change (World.tables w !! owned = Some t) in Ht. rewrite Hw in Ht.
    destruct (ex_own_table t Ht) as (q & stq & j & Hq). exists q, stq, j. by rewrite world_list, Hw.
  - intros r Hr. right. repeat (apply elem_of_cons in Hr as [->|Hr]; [split; [done|]; cbn; intros m [=]|]). by apply elem_of_nil in Hr.
  - intros r Hr. right. unfold other_rule.
    repeat (apply elem_of_cons in Hr as [->|Hr]; [cbn; first [by left|right; split; [by (left + right)|cbn; lia]]|]).
    by apply elem_of_nil in Hr.
  - intros r Hr. apply list_elem_of_singleton in Hr as ->. eexists. split; [done|]. by apply valid_wf.
  - apply world_flushable. by vm_compute.
Qed.

Example ex_apply_changes : (exec (Apply.Reconcile ex_ord ex_table_ord ex_policy) ex_machine).1.1 = (ResultMk 9 (Some ex_state), None).
Proof. by vm_compute. Qed.

Lemma apply_forwards_as_policy_witness :
  let '((res, err), s', _) := exec (Apply.Reconcile ex_ord ex_table_ord ex_policy) ex_machine in
  err = None →
  Forall (λ sp, sysctl_value s' (sy_Key sp) = sy_Value sp) (Sysctls ex_state) ∧
  only_own s' (ir_Table (compiled_rule ex_policy)) ∧
  ∃ t, ruleset_of s' !! owned = Some t ∧
    ∀ dev_up rs pkt, in_order (rules_of s') rs → addr_valid (dst pkt) = true →
      kernel_forward dev_up t rs (own_routes s') pkt = policy_forward dev_up ex_policy pkt.
Proof.
  exact (apply_forwards_as_policy ex_ord ex_table_ord ex_policy ex_state ex_machine ex_ord_range ex_table_order eq_refl
    ex_loadable ex_routable ex_prepared).
Defined.

(** What the machine then does: a client's packet to an address that is not
    direct leaves by the tunnel. *)
Example ex_machine_forwards :
  let rs := [LiveRuleMk 0 None "local"; LiveRuleMk 100 (Some 1) "100"; LiveRuleMk 32766 None "main"; LiveRuleMk 32767 None "default"] in
  (t ← ruleset_of ex_applied !! owned; kernel_forward (λ _, true) t rs (own_routes ex_applied) (Packet "eth0" (Addr4 134744072))) =
  Some (Via "wg-exit").
Proof. by vm_compute. Qed.
