(* ===== verification/Csv.v ===== *)
(** * [encoding/csv] as the program uses it

    A [csv.Reader] with its default settings: comma-separated fields, double
    quotes, blank lines skipped, and as many fields in each record as in the
    first.  [csv_read] is the sequence of results of [Read]; [csv_read_table]
    says that a table is read back, whichever of its cells are quoted. *)

From stdpp Require Import base list strings.
From Stdlib Require Import ZArith Lia Ascii.
From S2P Require Import Prelude GoStrings.

(** ** The reader *)

(** The line endings the reader sees: [\r\n] is [\n], a [\r] at the end of the
    text is dropped. *)
Fixpoint csv_text (s : string) : string :=
  match s with
  | EmptyString => ""
  | String c s' =>
      match s' with
      | String d _ => if (byte_of c =? 13) && (byte_of d =? 10) then csv_text s' else String c (csv_text s')
      | EmptyString => if byte_of c =? 13 then "" else String c ""
      end
  end.

(** Where the reader is: at the start of a line, at the start of a field, in an
    unquoted field, in a quoted one, or after a quote in one. *)
Inductive csv_state := LineStart | FieldStart | Unquoted | Quoted | QuoteEnd.

(** The records before the first error; [rec] and [field] are the fields of the
    current record and the current field. *)
Fixpoint csv_scan (st : csv_state) (rec : list string) (field : string) (s : string) : list (list string) * option error :=
  let err := λ e, ([], Some (ErrStd "csv.Reader" e)) in
  match s with
  | EmptyString =>
      match st with
      | LineStart => ([], None)
      | Quoted => err "extraneous or missing quote"
      | _ => ([rec ++ [field]], None)
      end
  | String c s =>
      let newline := byte_of c =? 10 in
      let comma := Ascii.eqb c "," in
      let quote := Ascii.eqb c dq in
      let end_record := λ _ : unit, let '(rs, e) := csv_scan LineStart [] "" s in ((rec ++ [field]) :: rs, e) in
      match st with
      | LineStart | FieldStart =>
          if newline then match st with LineStart => csv_scan LineStart [] "" s | _ => end_record () end
          else if comma then csv_scan FieldStart (rec ++ [""]) "" s
          else if quote then csv_scan Quoted rec "" s
          else csv_scan Unquoted rec (String c "") s
      | Unquoted =>
          if newline then end_record ()
          else if comma then csv_scan FieldStart (rec ++ [field]) "" s
          else if quote then err "bare quote in non-quoted field"
          else csv_scan Unquoted rec (field +:+ String c "") s
      | Quoted => if quote then csv_scan QuoteEnd rec field s else csv_scan Quoted rec (field +:+ String c "") s
      | QuoteEnd =>
          if quote then csv_scan Quoted rec (field +:+ String dq "") s
          else if comma then csv_scan FieldStart (rec ++ [field]) "" s
          else if newline then end_record ()
          else err "extraneous or missing quote"
      end
  end.

(** The first record fixes the number of fields. *)
Fixpoint check_counts (n : nat) (rs : list (list string)) (e : option error) : list (list string) * option error :=
  match rs with
  | [] => ([], e)
  | r :: rs =>
      if bool_decide (length r = n) then let '(rs, e) := check_counts n rs e in (r :: rs, e)
      else ([], Some (ErrStd "csv.Reader" "wrong number of fields"))
  end.

(** What [Read] yields: the header or an error, then the records up to the end
    of the file or an error. *)
Definition csv_read (text : string) : result (list string * list (list string) * option error) :=
  match csv_scan LineStart [] "" (csv_text text) with
  | ([], None) => Err (ErrStd "csv.Reader" "EOF")
  | ([], Some e) => Err e
  | (header :: rs, e) => let '(rs, e) := check_counts (length header) rs e in Ok (header, rs, e)
  end.

(** ** Tables *)

(** A cell that needs no quotes. *)
Definition is_cell_char (c : ascii) : bool :=
  negb (byte_of c =? 10) && negb (byte_of c =? 13) && negb (Ascii.eqb c ",") && negb (Ascii.eqb c dq).
Definition cell : string → bool := string_forall is_cell_char.

(** A cell and whether it is written in quotes, where it may have commas,
    newlines and quotes, which are doubled. *)
Definition written_cell : Type := bool * string.
Fixpoint double_quotes (s : string) : string :=
  match s with
  | EmptyString => ""
  | String c s => if Ascii.eqb c dq then String dq (String dq (double_quotes s)) else String c (double_quotes s)
  end.
Definition cell_text (c : written_cell) : string :=
  if c.1 then String dq (double_quotes c.2 +:+ String dq "") else c.2.
Definition cell_ok (c : written_cell) : bool := if c.1 then no_char (char_of 13) c.2 else cell c.2.

(** A record that is not a blank line, and a table of records. *)
Definition record_ok (r : list written_cell) : Prop := Forall (λ c, cell_ok c = true) r ∧ r ≠ [] ∧ r ≠ [(false, "")].
Definition table_text (rs : list (list written_cell)) : string := lines_text ((λ r, join (cell_text <$> r) ",") <$> rs).

(** A text of a table of values. *)
Definition values (r : list written_cell) : list string := snd <$> r.
Definition written (rows : list (list string)) (text : string) : Prop :=
  ∃ rs, rows = (values <$> rs) ∧ Forall record_ok rs ∧ text = table_text rs.

Lemma is_cell_char_inv c : is_cell_char c = true →
  (byte_of c =? 10) = false ∧ Ascii.eqb c "," = false ∧ Ascii.eqb c dq = false.
Proof. unfold is_cell_char. destruct (byte_of c =? 10), (Ascii.eqb c ","), (Ascii.eqb c dq), (byte_of c =? 13); done. Qed.

Lemma csv_scan_cell f : ∀ rec acc rest, cell f = true →
  csv_scan Unquoted rec acc (f +:+ rest) = csv_scan Unquoted rec (acc +:+ f) rest.
Proof.
  induction f as [|c f IH]; intros rec acc rest; [by rewrite app_nil_r_str|]. unfold cell. cbn [string_forall].
  intros [Hc Hf]%andb_true_iff. apply is_cell_char_inv in Hc as (Hn & Hcomma & Hq).
  change (String c f +:+ rest) with (String c (f +:+ rest)). cbn [csv_scan]. rewrite Hn, Hcomma, Hq.
  rewrite IH by done. by rewrite app_assoc_str.
Qed.

Definition end_of_record (rec : list string) (rest : string) : list (list string) * option error :=
  let '(rs, e) := csv_scan LineStart [] "" rest in (rec :: rs, e).

(** The end of a cell that was started. *)
Lemma csv_scan_comma rec f rest : csv_scan Unquoted rec f (String "," rest) = csv_scan FieldStart (rec ++ [f]) "" rest.
Proof. done. Qed.
Lemma csv_scan_newline rec f rest : csv_scan Unquoted rec f (nl +:+ rest) = end_of_record (rec ++ [f]) rest.
Proof. done. Qed.

(** The first character of a cell. *)
Lemma csv_scan_start st rec c f rest :
  st = LineStart ∨ st = FieldStart → cell (String c f) = true →
  csv_scan st rec "" (String c f +:+ rest) = csv_scan Unquoted rec (String c f) rest.
Proof.
  intros Hst. unfold cell. cbn [string_forall]. intros [Hc Hf]%andb_true_iff. apply is_cell_char_inv in Hc as (Hn & Hcomma & Hq).
  change (String c f +:+ rest) with (String c (f +:+ rest)).
  destruct Hst as [-> | ->]; cbn [csv_scan]; rewrite Hn, Hcomma, Hq, csv_scan_cell by done; done.
Qed.

(** A quoted cell. *)
Lemma csv_scan_quoted f : ∀ rec acc rest,
  csv_scan Quoted rec acc (double_quotes f +:+ String dq rest) = csv_scan QuoteEnd rec (acc +:+ f) rest.
Proof.
  induction f as [|c f IH]; intros rec acc rest; cbn [double_quotes].
  { cbn [String.append]. rewrite app_nil_r_str. done. }
  destruct (Ascii.eqb_spec c dq) as [->|Hne].
  - change (String dq (String dq (double_quotes f)) +:+ String dq rest) with (String dq (String dq (double_quotes f +:+ String dq rest))).
    transitivity (csv_scan Quoted rec (acc +:+ String dq "") (double_quotes f +:+ String dq rest)); [done|].
    rewrite IH. by rewrite app_assoc_str.
  - change (String c (double_quotes f) +:+ String dq rest) with (String c (double_quotes f +:+ String dq rest)).
    cbn [csv_scan]. rewrite (proj2 (Ascii.eqb_neq c dq) Hne). rewrite IH. by rewrite app_assoc_str.
Qed.

Lemma csv_scan_quoted_start st rec f rest :
  st = LineStart ∨ st = FieldStart →
  csv_scan st rec "" (cell_text (true, f) +:+ rest) = csv_scan QuoteEnd rec f rest.
Proof.
  intros Hst. unfold cell_text. cbn [fst snd].
  replace (String dq (double_quotes f +:+ String dq "") +:+ rest) with (String dq (double_quotes f +:+ String dq rest))
    by (cbn [String.append]; by rewrite app_assoc_str).
  transitivity (csv_scan Quoted rec "" (double_quotes f +:+ String dq rest)); [by destruct Hst as [-> | ->]|]. apply csv_scan_quoted.
Qed.

(** A cell and the comma or newline after it. *)
Lemma csv_scan_next st rec c rest :
  st = LineStart ∨ st = FieldStart → cell_ok c = true →
  csv_scan st rec "" (cell_text c +:+ String "," rest) = csv_scan FieldStart (rec ++ [c.2]) "" rest.
Proof.
  intros Hst Hc. destruct c as [[] f]; cbn [snd]; [by rewrite csv_scan_quoted_start|]. unfold cell_text. cbn [fst snd].
  destruct f as [|a f]; [by destruct Hst as [-> | ->]|]. by rewrite csv_scan_start, csv_scan_comma.
Qed.

Lemma csv_scan_last st rec c rest :
  st = FieldStart ∨ st = LineStart ∧ c ≠ (false, "") → cell_ok c = true →
  csv_scan st rec "" (cell_text c +:+ nl +:+ rest) = end_of_record (rec ++ [c.2]) rest.
Proof.
  intros Hst Hc. assert (st = LineStart ∨ st = FieldStart) as Hst' by naive_solver.
  destruct c as [[] f]; cbn [snd]; [by rewrite csv_scan_quoted_start|]. unfold cell_text. cbn [fst snd].
  destruct f as [|a f]; [by destruct Hst as [->|[-> ?]]|]. by rewrite csv_scan_start, csv_scan_newline.
Qed.

Lemma csv_scan_record fs : ∀ st rec rest,
  fs ≠ [] → Forall (λ c, cell_ok c = true) fs → st = FieldStart ∨ (st = LineStart ∧ fs ≠ [(false, "")]) →
  csv_scan st rec "" (join (cell_text <$> fs) "," +:+ nl +:+ rest) = end_of_record (rec ++ values fs) rest.
Proof.
  induction fs as [|f fs IH]; intros st rec rest Hne Hc Hst; [done|]. apply list.Forall_cons in Hc as [Hf Hc].
  assert (st = LineStart ∨ st = FieldStart) as Hst' by naive_solver. destruct fs as [|g fs].
  - cbn [fmap list_fmap join]. apply csv_scan_last; [|done]. naive_solver.
  - change (join (cell_text <$> f :: g :: fs) ",") with (cell_text f +:+ String "," (join (cell_text <$> g :: fs) ",")).
    rewrite app_assoc_str. change (String "," (join ?x ",") +:+ nl +:+ rest) with (String "," (join x "," +:+ nl +:+ rest)).
    rewrite csv_scan_next by done. rewrite IH; [|done|done|by left]. f_equal. by rewrite <-app_assoc.
Qed.

Lemma csv_scan_table rs : Forall record_ok rs → csv_scan LineStart [] "" (table_text rs) = (values <$> rs, None).
Proof.
  induction 1 as [|r rs (Hc & Hne & Hb) _ IH]; [done|]. unfold table_text. cbn [fmap list_fmap]. rewrite lines_text_cons.
  change (list_fmap written_cell string cell_text r) with (cell_text <$> r).
  rewrite csv_scan_record by auto. unfold end_of_record, table_text in *. by rewrite IH.
Qed.

Lemma csv_text_no_cr s : no_char (char_of 13) s = true → csv_text s = s.
Proof.
  induction s as [|c s IH]; [done|]. cbn [no_char string_forall]. intros [Hc Hs]%andb_true_iff. cbn [csv_text].
  assert ((byte_of c =? 13) = false) as Hcr.
  { destruct (Z.eqb_spec (byte_of c) 13) as [E|]; [|done]. apply negb_true_iff, Ascii.eqb_neq in Hc. exfalso. apply Hc, byte_of_inj.
    by rewrite E. }
  rewrite Hcr, IH by done. by destruct s.
Qed.

Lemma cell_no_cr c : cell_ok c = true → no_char (char_of 13) (cell_text c) = true.
Proof.
  destruct c as [[] f]; unfold cell_ok, cell_text; cbn [fst snd].
  - unfold no_char. cbn [string_forall]. intros Hf. apply andb_true_iff. split; [done|]. rewrite string_forall_app. apply andb_true_iff. split; [|done].
    revert Hf. induction f as [|c f IH]; [done|]. cbn [string_forall double_quotes]. intros [Hc Hf]%andb_true_iff.
    destruct (Ascii.eqb c dq); cbn [string_forall]; rewrite IH by done; [done|by rewrite Hc].
  - apply string_forall_impl. intros c. unfold is_cell_char. intros H. bool_to_prop. apply negb_true_iff, Ascii.eqb_neq.
    by intros ->.
Qed.

Lemma table_no_cr rs : Forall record_ok rs → no_char (char_of 13) (table_text rs) = true.
Proof.
  induction 1 as [|r rs (Hc & _) _ IH]; [done|]. unfold table_text in *. cbn [fmap list_fmap]. rewrite lines_text_cons.
  assert (no_char (char_of 13) (join (cell_text <$> r) ",") = true) as Hr.
  { apply no_char_join; [|done]. apply Forall_fmap. eapply list.Forall_impl; [exact Hc|]. intros f. apply cell_no_cr. }
  unfold no_char in *. rewrite !string_forall_app, IH. apply andb_true_iff. split; [exact Hr|done].
Qed.

Lemma check_counts_same n rs e : Forall (λ r : list string, length r = n) rs → check_counts n rs e = (rs, e).
Proof. induction 1 as [|r rs Hr _ IH]; [done|]. cbn [check_counts]. by rewrite bool_decide_eq_true_2, IH. Qed.

(** A table is read back. *)
Lemma csv_read_table header rows text :
  written (header :: rows) text → Forall (λ r, length r = length header) rows → csv_read text = Ok (header, rows, None).
Proof.
  intros (rs & E & Hr & ->) Hl. unfold csv_read. rewrite csv_text_no_cr by (by apply table_no_cr).
  by rewrite csv_scan_table, <-E, check_counts_same by done.
Qed.
