(* ===== verification/Files.v ===== *)
(** * The file system the program reads and writes

    [Files] is what the program uses of package os and of filepath.Walk, as an
    interface on a state: reading files, directories and trees, creating and
    appending, temporary directories and removal; [TempFiles] adds temporary
    files.  [FilesLaws] is what is known of it: a created file is empty, what is
    written or appended is read back.  [traced_files] records the operations of
    a run, [mem_files] is an implementation.

    [Clean], [Join] and [Dir] are those of path/filepath, on Unix. *)

From stdpp Require Import base list strings gmap.
From Stdlib Require Import ZArith Lia Ascii.
From S2P Require Import Prelude GoStrings.

Class Files (W : Type) := {
  (** [os.ReadFile], and [os.Open] with what is read from the file. *)
  fs_read : W → string → result string;
  (** The entries of a directory in order, with whether they are directories. *)
  fs_read_dir : W → string → option (list (string * bool));
  (** [os.Stat]: whether the path is a directory. *)
  fs_stat : W → string → result bool;
  (** [os.Create], and a write at the end of the created file. *)
  fs_create : string → W → option error * W;
  fs_append : string → string → W → option error * W;
  (** [os.WriteFile]. *)
  fs_write_file : string → string → W → option error * W;
  fs_mkdir_all : string → W → option error * W;
  (** [os.MkdirTemp] in the default directory, of a pattern: its path. *)
  fs_mkdir_temp : string → W → result string * W;
  fs_remove_all : string → W → W;
  (** What [filepath.Walk] visits under a root, in order: a path, its base name
      and whether it is a directory, or the error it visits the path with. *)
  fs_walk : W → string → list (string * result (string * bool))
}.

Class FilesLaws (W : Type) `{Files W} := {
  create_law path w : (fs_create path w).1 = None → fs_read (fs_create path w).2 path = Ok "";
  append_law path text w c :
    (fs_append path text w).1 = None → fs_read w path = Ok c → fs_read (fs_append path text w).2 path = Ok (c +:+ text);
  write_file_law path text w :
    (fs_write_file path text w).1 = None → fs_read (fs_write_file path text w).2 path = Ok text
}.

(** [os.CreateTemp] in the default directory, of a pattern: the path of the
    file, which is new; and [os.Remove]. *)
Class TempFiles (W : Type) `{Files W} := {
  fs_create_temp : string → W → result string * W;
  fs_remove : string → W → W
}.

(** [linux.WriteTempFile]: the path of a new file with that content. *)
Definition WriteTempFile `{TempFiles W} (pattern content : string) (w : W) : result string * W :=
  let '(f, w) := fs_create_temp pattern w in
  match f with
  | Err err => (Err err, w)
  | Ok name =>
      let '(err, w) := fs_append name content w in
      match err with
      | Some err => (Err err, fs_remove name w)
      | None => (Ok name, w)
      end
  end.

(** Its file has the content. *)
Lemma WriteTempFile_content `{FilesLaws W} `{!TempFiles W} pattern content (w w' : W) name :
  (∀ w w' name, fs_create_temp pattern w = (Ok name, w') → fs_read w' name = Ok "") →
  WriteTempFile pattern content w = (Ok name, w') → fs_read w' name = Ok content.
Proof.
  intros Hnew. unfold WriteTempFile. destruct (fs_create_temp pattern w) as [[f|e] w1] eqn:Ec; [|done].
  apply Hnew in Ec. pose proof (append_law f content w1 "") as Ha.
  destruct (fs_append f content w1) as [[e|] w2]; intros [= <- <-]. by apply Ha.
Qed.

(** ** Paths *)

(** The elements of a path, resolved from the left. *)
Definition clean_step (rooted : bool) (out : list string) (e : string) : list string :=
  if String.eqb e "" || String.eqb e "." then out
  else if String.eqb e ".." then
    match last out with
    | Some l => if String.eqb l ".." then out ++ [".."] else removelast out
    | None => if rooted then [] else [".."]
    end
  else out ++ [e].

Definition is_rooted (p : string) : bool := has_prefix p "/".
Definition elements (p : string) : list string := foldl (clean_step (is_rooted p)) [] (split p "/").

(** [filepath.Clean]. *)
Definition Clean (p : string) : string :=
  let s := (if is_rooted p then "/" else "") +:+ join (elements p) "/" in
  if String.eqb s "" then "." else s.

(** [filepath.Join] of two elements. *)
Definition Join (a b : string) : string :=
  if String.eqb a "" then if String.eqb b "" then "" else Clean b
  else if String.eqb b "" then Clean a else Clean (a +:+ "/" +:+ b).

(** [filepath.Dir]: the path up to its last separator, cleaned. *)
Definition Dir (p : string) : string :=
  match cut_last p "/" with
  | Some (d, _) => Clean (d +:+ "/")
  | None => "."
  end.

(** ** What is done to a file system *)

Inductive fs_op :=
| OpCreate (path : string)
| OpAppend (path : string)
| OpWriteFile (path : string)
| OpMkdirAll (path : string)
| OpMkdirTemp (pattern : string) (dir : result string)
| OpRemoveAll (path : string).

(** The same file system, with the operations that change it recorded. *)
#[global] Instance traced_files {W} `{Files W} : Files (W * list fs_op) := {
  fs_read w := fs_read w.1;
  fs_read_dir w := fs_read_dir w.1;
  fs_stat w := fs_stat w.1;
  fs_create p '(w, ops) := let '(e, w) := fs_create p w in (e, (w, ops ++ [OpCreate p]));
  fs_append p t '(w, ops) := let '(e, w) := fs_append p t w in (e, (w, ops ++ [OpAppend p]));
  fs_write_file p t '(w, ops) := let '(e, w) := fs_write_file p t w in (e, (w, ops ++ [OpWriteFile p]));
  fs_mkdir_all p '(w, ops) := let '(e, w) := fs_mkdir_all p w in (e, (w, ops ++ [OpMkdirAll p]));
  fs_mkdir_temp p '(w, ops) := let '(r, w) := fs_mkdir_temp p w in (r, (w, ops ++ [OpMkdirTemp p r]));
  fs_remove_all p '(w, ops) := (fs_remove_all p w, ops ++ [OpRemoveAll p]);
  fs_walk w := fs_walk w.1
}.

(** ** A file system in memory *)

Record mem := MemMk { m_files : gmap string string; m_dirs : gmap string (list (string * bool)) }.

#[global] Instance mem_files : Files mem := {
  fs_read w p := match m_files w !! p with Some c => Ok c | None => Err (ErrStd "open" p) end;
  fs_read_dir w p := m_dirs w !! p;
  fs_stat w p :=
    match m_dirs w !! p with
    | Some _ => Ok true
    | None => match m_files w !! p with Some _ => Ok false | None => Err (ErrStd "stat" p) end
    end;
  fs_create p w :=
    match m_dirs w !! p with
    | Some _ => (Some (ErrStd "open" p), w)
    | None => (None, MemMk (<[p := ""]> (m_files w)) (m_dirs w))
    end;
  fs_append p text w :=
    match m_files w !! p with
    | Some c => (None, MemMk (<[p := c +:+ text]> (m_files w)) (m_dirs w))
    | None => (Some (ErrStd "write" p), w)
    end;
  fs_write_file p text w :=
    match m_dirs w !! p with
    | Some _ => (Some (ErrStd "open" p), w)
    | None => (None, MemMk (<[p := text]> (m_files w)) (m_dirs w))
    end;
  fs_mkdir_all p w := (None, MemMk (m_files w) (<[p := default [] (m_dirs w !! p)]> (m_dirs w)));
  fs_mkdir_temp p w := (Ok "/tmp/gotun-maxmind-1", MemMk (m_files w) (<["/tmp/gotun-maxmind-1" := []]> (m_dirs w)));
  fs_remove_all p w := MemMk (filter (λ '(q, _), has_prefix q (p +:+ "/") = false) (m_files w)) (delete p (m_dirs w));
  fs_walk w root :=
    (λ '(q, _), (q, Ok (match cut_last q "/" with Some (_, b) => b | None => q end, false)))
      <$> List.filter (λ '(q, _), has_prefix q (root +:+ "/")) (map_to_list (m_files w))
}.

#[global] Instance mem_laws : FilesLaws mem.
Proof.
  split.
  - intros p w. simpl. destruct (m_dirs w !! p); simpl; [done|]. intros _. by rewrite lookup_insert_eq.
  - intros p text w c. simpl. destruct (m_files w !! p) as [c'|] eqn:E; simpl; [|done].
    intros _ [= ->]. by rewrite lookup_insert_eq.
  - intros p text w. simpl. destruct (m_dirs w !! p); simpl; [done|]. intros _. by rewrite lookup_insert_eq.
Qed.

(** ** Lemmas: paths *)

(** An element of a cleaned rooted path. *)
Definition normal (e : string) : Prop := e ≠ "" ∧ e ≠ "." ∧ e ≠ ".." ∧ no_char "/" e = true.

Lemma split_no_sep s sep : Forall (λ w, no_char sep w = true) (split s sep).
Proof.
  induction s as [|c s IH]; [by repeat constructor|]. cbn [split]. destruct (Ascii.eqb c sep) eqn:E; [by constructor|].
  destruct (split s sep) as [|w ws]; [by repeat constructor; unfold no_char; simpl; rewrite E|].
  apply list.Forall_cons in IH as [Hw Hws]. constructor; [|done]. unfold no_char in *. simpl. by rewrite E.
Qed.

Lemma clean_step_normal out e :
  Forall normal out → no_char "/" e = true → Forall normal (clean_step true out e).
Proof.
  intros Ho He. unfold clean_step. destruct (String.eqb_spec e ""); [done|]. destruct (String.eqb_spec e "."); [done|].
  destruct (String.eqb_spec e ".."); cbn [orb]; [|by apply Forall_snoc].
  destruct (last out) as [l|] eqn:El; [|constructor]. apply last_Some in El as [out' ->].
  apply Forall_snoc in Ho as [Ho (_ & _ & Hl & _)]. rewrite (proj2 (String.eqb_neq _ _)) by done. by rewrite removelast_last.
Qed.

Lemma elements_normal p : is_rooted p = true → Forall normal (elements p).
Proof.
  intros Hr. unfold elements. rewrite Hr. generalize (split_no_sep p "/"). generalize (split p "/"). intros es Hes.
  assert (Forall normal []) as H0 by constructor. revert H0. generalize (@nil string).
  induction Hes as [|e es He _ IH]; intros out Ho; [done|]. apply IH. by apply clean_step_normal.
Qed.

Lemma clean_steps_normal rooted out es : Forall normal es → foldl (clean_step rooted) out es = out ++ es.
Proof.
  intros Hes. revert out. induction Hes as [|e es (H1 & H2 & H3 & _) _ IH]; intros out; cbn [foldl]; [by rewrite app_nil_r|].
  unfold clean_step at 2. rewrite !(proj2 (String.eqb_neq _ _)) by done. cbn [orb]. by rewrite IH, <-app_assoc.
Qed.

(** A rooted path is "/" and its elements. *)
Definition path_of (es : list string) : string := "/" +:+ join es "/".

Lemma Clean_rooted p : is_rooted p = true → Clean p = path_of (elements p).
Proof. intros Hr. unfold Clean, path_of. by rewrite Hr. Qed.

Lemma normal_no_slash es : Forall normal es → Forall (λ e, no_char "/" e = true) es.
Proof. intros Hes. eapply list.Forall_impl; [exact Hes|]. by intros e (_ & _ & _ & He). Qed.

Lemma split_path_of es : Forall normal es → split (path_of es) "/" = "" :: (if decide (es = []) then [""] else es).
Proof.
  intros Hes. unfold path_of. change ("/" +:+ join es "/") with (String "/" (join es "/")). cbn [split].
  rewrite Ascii.eqb_refl. f_equal. destruct (decide (es = [])) as [->|Hne]; [done|].
  change "/" with (String "/" ""). by rewrite split_join by (done || by apply normal_no_slash).
Qed.

Lemma elements_path_of es : Forall normal es → elements (path_of es) = es.
Proof.
  intros Hes. unfold elements. rewrite split_path_of by done. cbn [foldl clean_step String.eqb orb].
  destruct (decide (es = [])) as [->|]; [done|]. by rewrite clean_steps_normal.
Qed.

Lemma Clean_path_of es : Forall normal es → Clean (path_of es) = path_of es.
Proof. intros Hes. by rewrite Clean_rooted, elements_path_of. Qed.

Lemma join_nonempty es sep : es ≠ [] → Forall normal es → join es sep ≠ "".
Proof.
  intros Hne Hes. destruct Hes as [|e es (He & _) _]; [done|]. destruct es; [done|]. rewrite join_cons.
  destruct e; [done|]. done.
Qed.

(** The textual test of the extractors is containment. *)
Lemma prefix_within d t :
  Forall normal d → Forall normal t → has_prefix (path_of t) (path_of d +:+ "/") = true →
  ∃ rest, t = d ++ rest ∧ Forall normal rest.
Proof.
  intros Hd Ht [u Hu]%has_prefix_spec. destruct (decide (d = [])) as [->|Hne]; [by exists t|].
  assert (join t "/" = join d "/" +:+ String "/" u) as Hj.
  { unfold path_of in Hu. rewrite !app_assoc_str in Hu. by injection Hu. }
  assert (t ≠ []) as Htne.
  { intros ->. change (join [] "/") with "" in Hj. by destruct (join d "/"). }
  apply (f_equal (λ s, split s "/")) in Hj. change "/" with (String "/" "") in Hj at 1 2.
  rewrite split_app_sep in Hj. rewrite !split_join in Hj by (done || by apply normal_no_slash).
  exists (split u "/"). split; [done|]. rewrite Hj in Ht. by apply Forall_app in Ht as [_ ?].
Qed.

Lemma Dir_path_of es : Forall normal es → Dir (path_of es) = path_of (removelast es).
Proof.
  intros Hes. destruct (decide (es = [])) as [->|Hne]; [done|].
  rewrite (app_removelast_last "" Hne) in *. set (d := removelast es) in *. set (b := List.last es "") in *.
  rewrite removelast_last. apply Forall_snoc in Hes as [Hd (_ & _ & _ & Hb)].
  destruct (decide (d = [])) as [E|Hdne].
  - rewrite E. unfold Dir. change (path_of ([] ++ [b])) with ("" +:+ String "/" b). by rewrite cut_last_app.
  - unfold Dir. assert (path_of (d ++ [b]) = path_of d +:+ String "/" b) as ->.
    { unfold path_of. rewrite join_app by done. by rewrite !app_assoc_str. }
    rewrite cut_last_app by done. rewrite Clean_rooted by done. f_equal.
    unfold elements. change (is_rooted (path_of d +:+ "/")) with true.
    assert (split (path_of d +:+ "/") "/" = "" :: d ++ [""]) as ->.
    { pose proof (split_app_sep "/" (path_of d) "") as Hs. rewrite split_path_of, decide_False in Hs by done. exact Hs. }
    cbn [foldl clean_step String.eqb orb]. rewrite foldl_app. by rewrite (clean_steps_normal true [] d).
Qed.
