(* ===== verification/Parse.v ===== *)
(** * [internal/prefixes/parse.go]: reading and writing prefix lists

    [ParseCIDRList] scans a text with [bufio.Scanner], whose lines are shorter
    than [MaxScanTokenSize] bytes; [ParseMaxMindCountryDir] reads the two CSV
    files of a GeoLite2 directory with [encoding/csv]; [WriteCIDRList] writes a
    prefix per line. *)

From stdpp Require Import base list strings gmap.
From Stdlib Require Import ZArith Lia Ascii.
From S2P Require Import Prelude GoStrings Netip Collapse Files Csv.

(** ** bufio.Scanner *)

Definition MaxScanTokenSize : Z := 65536.

Fixpoint drop_cr (s : string) : string :=
  match s with
  | EmptyString => ""
  | String c EmptyString => if byte_of c =? 13 then "" else s
  | String c s => String c (drop_cr s)
  end.

(** The lines a scanner yields, and the error it stops with: the text after the
    last newline is a line unless it is empty; a line that does not fit in the
    buffer stops the scan. *)
Fixpoint scan_from (lines : list string) : list string * option error :=
  match lines with
  | [] => ([], None)
  | [l] => if String.eqb l "" then ([], None)
           else if MaxScanTokenSize <=? Z.of_nat (String.length l) then ([], Some (ErrStd "bufio.Scanner" "token too long"))
           else ([drop_cr l], None)
  | l :: lines =>
      if MaxScanTokenSize <=? Z.of_nat (String.length l) then ([], Some (ErrStd "bufio.Scanner" "token too long"))
      else let '(ls, err) := scan_from lines in (drop_cr l :: ls, err)
  end.
Definition scan_lines (text : string) : list string * option error := scan_from (split text (char_of 10)).

(** ** CIDR lists *)

(** A line adds a prefix, or none, or is an error. *)
Definition parse_line (out : list Prefix) (line : string) : result (list Prefix) :=
  let line := trim_space line in
  if String.eqb line "" || has_prefix line "#" then Ok out
  else
    match ParsePrefix line with
    | Err err => Err (ErrFmt "parse cidr %q: %w" [line] [err])
    | Ok p => if Is6 (p_ip p) then Ok out else Ok (out ++ [p])
    end.

Definition ParseCIDRList (text : string) : list Prefix * option error :=
  let '(lines, serr) := scan_lines text in
  match fold_result parse_line [] lines with
  | Err e => ([], Some e)
  | Ok out => (out, serr)
  end.

Definition ParseCIDRFile `{Files W} (path : string) (w : W) : list Prefix * option error :=
  match fs_read w path with
  | Err e => ([], Some e)
  | Ok text => ParseCIDRList text
  end.

Fixpoint write_lines `{Files W} (path : string) (prefixes : list Prefix) (w : W) : option error * W :=
  match prefixes with
  | [] => (None, w)
  | p :: prefixes =>
      let '(err, w) := fs_append path (prefix_string p +:+ nl) w in
      match err with
      | Some e => (Some e, w)
      | None => write_lines path prefixes w
      end
  end.

Definition WriteCIDRList `{Files W} (path : string) (prefixes : list Prefix) (w : W) : option error * W :=
  let '(err, w) := fs_create path w in
  match err with
  | Some e => (Some e, w)
  | None => write_lines path prefixes w
  end.

(** ** GeoLite2 directories *)

Fixpoint indexOf_from (i : Z) (header : list string) (name : string) : Z :=
  match header with
  | [] => -1
  | h :: header => if String.eqb h name then i else indexOf_from (i + 1) header name
  end.
Definition indexOf (header : list string) (name : string) : Z := indexOf_from 0 header name.

(** [rec[i]] for an index found by [indexOf]. *)
Definition field_at (rec : list string) (i : Z) : string := default "" (rec !! Z.to_nat i).

Definition add_geoname (idxID idxISO : Z) (want : string) (out : gset string) (rec : list string) : gset string :=
  let n := Z.of_nat (length rec) in
  if (n <=? idxID) || (n <=? idxISO) then out
  else if String.eqb (ToUpper (field_at rec idxISO)) want then {[field_at rec idxID]} ∪ out else out.

Definition loadCountryGeonames (text iso : string) : result (gset string) :=
  match csv_read text with
  | Err e => Err e
  | Ok (header, rs, e) =>
      let idxID := indexOf header "geoname_id" in
      let idxISO := indexOf header "country_iso_code" in
      if (idxID <? 0) || (idxISO <? 0) then Err (ErrFmt "maxmind locations: missing geoname_id or country_iso_code columns" [] [])
      else
        let want := ToUpper iso in
        match e with
        | Some e => Err e
        | None => Ok (foldl (add_geoname idxID idxISO want) ∅ rs)
        end
  end.

(** The geoname of a block: its own, else that of the registered country. *)
Definition block_geoname (idxGeo idxReg : Z) (rec : list string) : string :=
  let n := Z.of_nat (length rec) in
  if (0 <=? idxGeo) && (idxGeo <? n) && negb (String.eqb (field_at rec idxGeo) "") then field_at rec idxGeo
  else if (0 <=? idxReg) && (idxReg <? n) then field_at rec idxReg
  else "".

Definition add_block (idxNet idxGeo idxReg : Z) (geonames : gset string) (out : list Prefix) (rec : list string) : result (list Prefix) :=
  if Z.of_nat (length rec) <=? idxNet then Ok out
  else if negb (bool_decide (block_geoname idxGeo idxReg rec ∈ geonames)) then Ok out
  else
    match ParsePrefix (field_at rec idxNet) with
    | Err err => Err (ErrFmt "maxmind network %q: %w" [field_at rec idxNet] [err])
    | Ok p => if Is4 (p_ip p) then Ok (out ++ [p]) else Ok out
    end.

Definition loadBlocksForGeonames (text : string) (geonames : gset string) : result (list Prefix) :=
  match csv_read text with
  | Err e => Err e
  | Ok (header, rs, e) =>
      let idxNet := indexOf header "network" in
      let idxGeo := indexOf header "geoname_id" in
      let idxReg := indexOf header "registered_country_geoname_id" in
      if idxNet <? 0 then Err (ErrFmt "maxmind blocks: missing network column" [] [])
      else
        match fold_result (add_block idxNet idxGeo idxReg geonames) [] rs with
        | Err err => Err err
        | Ok out => match e with Some e => Err e | None => Ok out end
        end
  end.

(** The first file of the directory with one of the names, or ending in it;
    else the first name that exists. *)
Definition findFile `{Files W} (dir : string) (names : list string) (w : W) : string :=
  match fs_read_dir w dir with
  | None => ""
  | Some entries =>
      match List.find (λ '(name, is_dir), negb is_dir && existsb (λ n, String.eqb name n || has_suffix name n) names) entries with
      | Some (name, _) => Join dir name
      | None =>
          match List.find (λ n, is_ok (fs_stat w (Join dir n))) names with
          | Some n => Join dir n
          | None => ""
          end
      end
  end.

Definition ParseMaxMindCountryDir `{Files W} (dir countryISO : string) (w : W) : result (list Prefix) :=
  let locPath := findFile dir ["Locations-en.csv"; "GeoLite2-Country-Locations-en.csv"] w in
  let blocksPath := findFile dir ["Blocks-IPv4.csv"; "GeoLite2-Country-Blocks-IPv4.csv"] w in
  if String.eqb locPath "" || String.eqb blocksPath "" then
    Err (ErrFmt "maxmind: missing Locations-en.csv or Blocks-IPv4.csv in %s" [dir] [])
  else
    locs ← fs_read w locPath;
    geonames ← loadCountryGeonames locs countryISO;
    blocks ← fs_read w blocksPath;
    loadBlocksForGeonames blocks geonames.

(** ** Lemmas: lines *)

Lemma drop_cr_no_char s : no_char (char_of 13) s = true → drop_cr s = s.
Proof.
  induction s as [|c s IH]; [done|]. cbn [no_char string_forall]. intros [Hc Hs]%andb_true_iff. cbn [drop_cr].
  rewrite IH by done. destruct s; [|done]. destruct (Z.eqb_spec (byte_of c) 13) as [E|]; [|done].
  apply negb_true_iff, Ascii.eqb_neq in Hc. exfalso. apply Hc, byte_of_inj. by rewrite E.
Qed.

Definition short (l : string) : Prop := Z.of_nat (String.length l) < MaxScanTokenSize.

Lemma scan_lines_text ls :
  Forall (λ l, no_char (char_of 10) l = true) ls → Forall short ls →
  scan_lines (lines_text ls) = (drop_cr <$> ls, None).
Proof.
  intros Hn Hs. unfold scan_lines. rewrite split_lines by done. clear Hn.
  induction Hs as [|l ls Hl _ IH]; [done|]. change ((l :: ls) ++ [""]) with (l :: (ls ++ [""])).
  assert (∀ lines, lines ≠ [] → scan_from (l :: lines) =
    (if MaxScanTokenSize <=? Z.of_nat (String.length l) then ([], Some (ErrStd "bufio.Scanner" "token too long"))
     else let '(ls, err) := scan_from lines in (drop_cr l :: ls, err))) as Hstep by (by intros []).
  rewrite Hstep by (by destruct ls). rewrite (proj2 (Z.leb_gt _ _)) by done. by rewrite IH.
Qed.

Lemma fmt_uint_length base n : (String.length (fmt_uint base n) ≤ S (Z.to_nat (Z.log2 n)))%nat.
Proof.
  unfold fmt_uint. generalize (S (Z.to_nat (Z.log2 n))) as fuel. intros fuel. revert n.
  induction fuel as [|fuel IH]; intros n; [done|]. cbn [fmt_digits]. destruct (n <? base); [simpl; lia|].
  rewrite length_app_str. specialize (IH (n / base)). simpl. lia.
Qed.

Lemma itoa_length n : 0 <= n < 256 → (String.length (itoa n) ≤ 8)%nat.
Proof.
  intros Hn. rewrite itoa_nonneg by lia. pose proof (fmt_uint_length 10 n) as Hl.
  assert (Z.log2 n <= Z.log2 255) as H by (apply Z.log2_le_mono; lia). change (Z.log2 255) with 7 in H. lia.
Qed.

Lemma prefix_string_short p : prefix4 p → short (prefix_string p).
Proof.
  intros (n & b & -> & Hn & Hb)%prefix4_inv. rewrite prefix_string4 by done. unfold short, MaxScanTokenSize, string4.
  rewrite !length_app_str. cbn [String.length].
  pose proof (itoa_length (octet n 0) (octet_range n 0)). pose proof (itoa_length (octet n 1) (octet_range n 1)).
  pose proof (itoa_length (octet n 2) (octet_range n 2)). pose proof (itoa_length (octet n 3) (octet_range n 3)).
  pose proof (itoa_length b ltac:(lia)). lia.
Qed.

(** What a line holds: nothing, a prefix, or a text that is not one. *)
Definition line_content (line : string) : option (result Prefix) :=
  let line := trim_space line in
  if String.eqb line "" || has_prefix line "#" then None else Some (ParsePrefix line).
Definition line_ipv4 (line : string) : option Prefix :=
  match line_content line with
  | Some (Ok p) => if Is6 (p_ip p) then None else Some p
  | _ => None
  end.
Definition bad_line (line : string) : bool :=
  match line_content line with Some (Err _) => true | _ => false end.

Lemma ParsePrefix_Err s e : ParsePrefix s = Err e → e = ErrStd "netip.ParsePrefix" s.
Proof. unfold ParsePrefix. destruct (ParsePrefix_opt s); [done|]. by intros [= <-]. Qed.

Lemma parse_line_content out l :
  parse_line out l =
  match line_content l with
  | None => Ok out
  | Some (Err e) => Err (ErrFmt "parse cidr %q: %w" [trim_space l] [e])
  | Some (Ok p) => if Is6 (p_ip p) then Ok out else Ok (out ++ [p])
  end.
Proof. unfold parse_line, line_content. destruct (_ || _); [done|]. by destruct (ParsePrefix (trim_space l)). Qed.

Lemma line_content_Err l e : line_content l = Some (Err e) → e = ErrStd "netip.ParsePrefix" (trim_space l).
Proof. unfold line_content. destruct (_ || _); [done|]. intros [= H]. by apply ParsePrefix_Err. Qed.

Lemma parse_lines_spec ls : ∀ out,
  fold_result parse_line out ls =
  match List.find bad_line ls with
  | Some l => Err (ErrFmt "parse cidr %q: %w" [trim_space l] [ErrStd "netip.ParsePrefix" (trim_space l)])
  | None => Ok (out ++ omap line_ipv4 ls)
  end.
Proof.
  induction ls as [|l ls IH]; intros out; [cbn; by rewrite app_nil_r|].
  cbn [fold_result List.find omap list_omap]. rewrite parse_line_content.
  assert (bad_line l = match line_content l with Some (Err _) => true | _ => false end) as -> by done.
  assert (line_ipv4 l = match line_content l with Some (Ok p) => if Is6 (p_ip p) then None else Some p | _ => None end) as -> by done.
  destruct (line_content l) as [[p|e]|] eqn:E; [| |apply IH].
  2:{ by rewrite (line_content_Err _ _ E). }
  destruct (Is6 (p_ip p)); cbn [mbind result_bind]; rewrite IH; [done|].
  destruct (List.find bad_line ls); [done|]. by rewrite <-app_assoc.
Qed.

Lemma line_ipv4_prefix4 l p : line_ipv4 l = Some p → prefix4 p.
Proof.
  unfold line_ipv4, line_content. destruct (_ || _); [done|]. destruct (ParsePrefix (trim_space l)) as [q|] eqn:E; [|done].
  destruct (Is6 (p_ip q)) eqn:H6; [done|]. intros [= <-]. by eapply ParsePrefix_ok.
Qed.

Lemma omap_prefix4 ls : Forall prefix4 (omap line_ipv4 ls).
Proof.
  apply list.Forall_forall. intros p (l & _ & Hl)%list_elem_of_omap. by eapply line_ipv4_prefix4.
Qed.

Lemma ParseCIDRList_prefix4 text out err : ParseCIDRList text = (out, err) → Forall prefix4 out.
Proof.
  unfold ParseCIDRList. destruct (scan_lines text) as [ls serr]. rewrite parse_lines_spec.
  destruct (List.find bad_line ls); intros [= <- <-]; [constructor|]. apply omap_prefix4.
Qed.

(** What a block contributes. *)
Definition block_prefix (idxNet idxGeo idxReg : Z) (geonames : gset string) (rec : list string) : result (option Prefix) :=
  if Z.of_nat (length rec) <=? idxNet then Ok None
  else if negb (bool_decide (block_geoname idxGeo idxReg rec ∈ geonames)) then Ok None
  else
    match ParsePrefix (field_at rec idxNet) with
    | Err err => Err (ErrFmt "maxmind network %q: %w" [field_at rec idxNet] [err])
    | Ok p => Ok (if Is4 (p_ip p) then Some p else None)
    end.

Lemma add_block_collect idxNet idxGeo idxReg geonames out rec :
  add_block idxNet idxGeo idxReg geonames out rec =
  o ← block_prefix idxNet idxGeo idxReg geonames rec; Ok (out ++ option_list o).
Proof.
  unfold add_block, block_prefix. destruct (_ <=? idxNet); [simpl; by rewrite app_nil_r|].
  destruct (negb _); [simpl; by rewrite app_nil_r|].
  destruct (ParsePrefix _) as [p|]; [|done]. destruct (Is4 (p_ip p)); simpl; [done|by rewrite app_nil_r].
Qed.

Lemma add_blocks_collect idxNet idxGeo idxReg geonames rs :
  fold_result (add_block idxNet idxGeo idxReg geonames) [] rs = collect (block_prefix idxNet idxGeo idxReg geonames) rs.
Proof.
  rewrite (fold_result_collect _ (block_prefix idxNet idxGeo idxReg geonames)) by apply add_block_collect.
  by destruct (collect _ rs).
Qed.

Lemma block_prefix4 idxNet idxGeo idxReg geonames rec p :
  block_prefix idxNet idxGeo idxReg geonames rec = Ok (Some p) → prefix4 p.
Proof.
  unfold block_prefix. destruct (_ <=? idxNet); [done|]. destruct (negb _); [done|].
  destruct (ParsePrefix _) as [q|] eqn:E; [|done]. destruct (Is4 (p_ip q)) eqn:H4; [|done]. intros [= <-].
  eapply ParsePrefix_ok; [done|]. by destruct (p_ip q).
Qed.

Lemma loadBlocks_prefix4 text geonames out : loadBlocksForGeonames text geonames = Ok out → Forall prefix4 out.
Proof.
  unfold loadBlocksForGeonames. destruct (csv_read text) as [[[header rs] e]|]; [|done].
  destruct (_ <? 0); [done|]. rewrite add_blocks_collect.
  destruct (collect _ rs) as [o|] eqn:E; [|done]. destruct e; [done|].
  intros [= <-]. eapply collect_Forall; [|exact E]. intros rec p. apply block_prefix4.
Qed.

Lemma ParseMaxMind_prefix4 `{Files W} dir iso w out : ParseMaxMindCountryDir dir iso w = Ok out → Forall prefix4 out.
Proof.
  unfold ParseMaxMindCountryDir. destruct (_ || _); [done|].
  intros (locs & _ & H1)%result_bind_Ok. apply result_bind_Ok in H1 as (geo & _ & H1).
  apply result_bind_Ok in H1 as (blocks & _ & H1). by eapply loadBlocks_prefix4.
Qed.

Section write.
Context `{FilesLaws W}.

Lemma write_lines_read path ps : ∀ (w w' : W) c,
  fs_read w path = Ok c → write_lines path ps w = (None, w') →
  fs_read w' path = Ok (c +:+ lines_text (prefix_string <$> ps)).
Proof.
  induction ps as [|p ps IH]; intros w w' c Hr; cbn [write_lines].
  - intros [= <-]. change (lines_text _) with "". by rewrite app_nil_r_str.
  - pose proof (append_law path (prefix_string p +:+ nl) w c) as Ha.
    destruct (fs_append path (prefix_string p +:+ nl) w) as [[e|] w1]; [done|]. cbn [fst snd] in Ha. intros Hw.
    rewrite (IH w1 w' _ (Ha eq_refl Hr) Hw). cbn [fmap list_fmap]. by rewrite lines_text_cons, !app_assoc_str.
Qed.

Lemma WriteCIDRList_read path ps (w w' : W) :
  WriteCIDRList path ps w = (None, w') → fs_read w' path = Ok (lines_text (prefix_string <$> ps)).
Proof.
  unfold WriteCIDRList. pose proof (create_law path w) as Hc. destruct (fs_create path w) as [[e|] w1]; [done|].
  cbn [fst snd] in Hc. intros Hw. by rewrite (write_lines_read path ps w1 w' "" (Hc eq_refl) Hw).
Qed.
End write.

Lemma ParseCIDRList_strings ps : Forall prefix4 ps → ParseCIDRList (lines_text (prefix_string <$> ps)) = (ps, None).
Proof.
  intros Hp. unfold ParseCIDRList.
  assert (∀ c, is_cidr_char c = false → Forall (λ l, no_char c l = true) (prefix_string <$> ps)) as Hnc.
  { intros c Hc. apply Forall_fmap. eapply list.Forall_impl; [done|]. intros p Hpp. simpl.
    apply cidr_chars_no_char; [done|]. by apply prefix_string_chars. }
  rewrite scan_lines_text; [|by apply Hnc|].
  2:{ apply Forall_fmap. eapply list.Forall_impl; [done|]. intros p Hpp. by apply prefix_string_short. }
  assert (drop_cr <$> (prefix_string <$> ps) = prefix_string <$> ps) as ->.
  { rewrite <-list_fmap_id. apply list_fmap_ext. intros i l Hl%list_elem_of_lookup_2.
    apply drop_cr_no_char. specialize (Hnc (char_of 13) eq_refl). rewrite list.Forall_forall in Hnc. by apply Hnc. }
  assert (∀ p, prefix4 p → line_content (prefix_string p) = Some (Ok p)) as Hlc.
  { intros p Hpp. unfold line_content. rewrite trim_space_visible by (by apply cidr_chars_visible, prefix_string_chars).
    rewrite (proj2 (String.eqb_neq _ _)) by (by apply prefix_string_nonempty). cbn [orb].
    assert (has_prefix (prefix_string p) "#" = false) as ->; [|by rewrite ParsePrefix_string].
    pose proof (prefix_string_chars p Hpp) as Hch. destruct (prefix_string p) as [|c s]; [done|].
    cbn [string_forall] in Hch. apply andb_true_iff in Hch as [Hch _]. cbn [has_prefix].
    destruct (Ascii.eqb_spec "#" c) as [<-|]; [by vm_compute in Hch|done]. }
  rewrite parse_lines_spec.
  assert (List.find bad_line (prefix_string <$> ps) = None) as ->.
  { induction Hp as [|p ps' Hpp _ IH]; [done|]. cbn [fmap list_fmap List.find]. unfold bad_line at 1. rewrite Hlc by done.
    apply IH. intros c Hc. specialize (Hnc c Hc). cbn in Hnc. by apply list.Forall_cons in Hnc as [_ ?]. }
  cbn [app]. f_equal. clear Hnc. induction Hp as [|p ps Hpp _ IH]; [done|]. cbn [fmap list_fmap omap list_omap].
  unfold line_ipv4 at 1. rewrite Hlc by done. destruct (prefix4_inv p Hpp) as (n & b & -> & _). cbn [p_ip Is6]. by rewrite IH.
Qed.

(** ** Lemmas: tables *)

(** The value of a record in the first column of a name, if there is one. *)
Definition value (header rec : list string) (name : string) : option string :=
  snd <$> List.find (λ '(column, _), String.eqb column name) (zip header rec).

Lemma indexOf_from_range i header name :
  indexOf_from i header name = -1 ∨ i <= indexOf_from i header name < i + Z.of_nat (length header).
Proof.
  revert i. induction header as [|h header IH]; intros i; cbn [indexOf_from]; [by left|].
  destruct (String.eqb h name); [right; simpl; lia|]. destruct (IH (i + 1)); [by left|right; simpl; lia].
Qed.

Lemma indexOf_range header name : indexOf header name = -1 ∨ 0 <= indexOf header name < Z.of_nat (length header).
Proof. apply indexOf_from_range. Qed.

Lemma value_indexOf_from header name : ∀ rec i,
  0 <= i → length rec = length header →
  value header rec name =
  if indexOf_from i header name <? 0 then None else rec !! Z.to_nat (indexOf_from i header name - i).
Proof.
  induction header as [|h header IH]; intros [|v rec] i Hi Hl; try done. injection Hl as Hl. cbn [indexOf_from].
  unfold value. cbn [zip zip_with List.find]. destruct (String.eqb h name).
  - rewrite (proj2 (Z.ltb_ge i 0)) by lia. by rewrite Z.sub_diag.
  - fold (zip header rec). change (snd <$> List.find _ (zip header rec)) with (value header rec name). rewrite (IH rec (i + 1)) by (done || lia).
    destruct (indexOf_from_range (i + 1) header name) as [->|Hr]; [done|]. rewrite (proj2 (Z.ltb_ge _ _)) by lia.
    replace (Z.to_nat (indexOf_from (i + 1) header name - i)) with (S (Z.to_nat (indexOf_from (i + 1) header name - (i + 1)))) by lia. done.
Qed.

Lemma value_field header rec name :
  length rec = length header → 0 <= indexOf header name →
  value header rec name = Some (field_at rec (indexOf header name)).
Proof.
  intros Hl Hi. rewrite (value_indexOf_from header name rec 0) by done. fold (indexOf header name). rewrite Z.sub_0_r.
  unfold field_at. rewrite (proj2 (Z.ltb_ge _ _)) by done. destruct (indexOf_range header name) as [?|Hr]; [lia|].
  destruct (rec !! Z.to_nat (indexOf header name)) eqn:E; [done|]. apply lookup_ge_None in E. lia.
Qed.

Lemma value_none header rec name : length rec = length header → indexOf header name = -1 → value header rec name = None.
Proof. intros Hl Hi. rewrite (value_indexOf_from header name rec 0) by done. fold (indexOf header name). by rewrite Hi. Qed.

Lemma indexOf_elem header name : name ∈ header → 0 <= indexOf header name.
Proof.
  unfold indexOf. assert (∀ i, 0 <= i → name ∈ header → 0 <= indexOf_from i header name) as H; [|apply H; lia].
  induction header as [|h header IH]; intros i Hi; [by intros ?%not_elem_of_nil|]. cbn [indexOf_from].
  destruct (String.eqb_spec h name) as [|Hne]; [done|]. intros [->|Hin]%elem_of_cons; [done|]. apply IH; [lia|done].
Qed.

(** The identifiers of a country in a table of locations. *)
Lemma add_geonames header iso rows : ∀ s id,
  Forall (λ r, length r = length header) rows →
  0 <= indexOf header "geoname_id" → 0 <= indexOf header "country_iso_code" →
  id ∈ foldl (add_geoname (indexOf header "geoname_id") (indexOf header "country_iso_code") (ToUpper iso)) s rows ↔
  id ∈ s ∨ ∃ r c, r ∈ rows ∧ value header r "geoname_id" = Some id ∧ value header r "country_iso_code" = Some c ∧ ToUpper c = ToUpper iso.
Proof.
  intros s id Hl Hid Hiso. revert s. induction Hl as [|r rows Hr _ IH]; intros s; cbn [foldl]; [set_solver|].
  rewrite IH. unfold add_geoname. pose proof (value_field header r _ Hr Hid) as Hv1. pose proof (value_field header r _ Hr Hiso) as Hv2.
  destruct (indexOf_range header "geoname_id") as [?|?], (indexOf_range header "country_iso_code") as [?|?]; [lia..|].
  rewrite !(proj2 (Z.leb_gt _ _)) by lia. cbn [orb].
  destruct (String.eqb_spec (ToUpper (field_at r (indexOf header "country_iso_code"))) (ToUpper iso)) as [E|E].
  - rewrite elem_of_union, elem_of_singleton. setoid_rewrite elem_of_cons. naive_solver.
  - setoid_rewrite elem_of_cons. naive_solver.
Qed.

(** The identifier a block is filed under. *)
Definition block_id (header rec : list string) : string :=
  match value header rec "geoname_id" with
  | Some id => if String.eqb id "" then default "" (value header rec "registered_country_geoname_id") else id
  | None => default "" (value header rec "registered_country_geoname_id")
  end.

Lemma block_geoname_id header rec :
  length rec = length header →
  block_geoname (indexOf header "geoname_id") (indexOf header "registered_country_geoname_id") rec = block_id header rec.
Proof.
  intros Hl. unfold block_geoname, block_id.
  assert (∀ name, match value header rec name with Some v => 0 <= indexOf header name < Z.of_nat (length rec) ∧ v = field_at rec (indexOf header name)
                  | None => indexOf header name < 0 end) as Hv.
  { intros name. destruct (indexOf_range header name) as [E|?].
    - rewrite value_none by done. lia.
    - rewrite value_field by lia. split; [lia|done]. }
  pose proof (Hv "geoname_id") as H1. pose proof (Hv "registered_country_geoname_id") as H2.
  destruct (value header rec "geoname_id") as [id|], (value header rec "registered_country_geoname_id") as [rid|];
    repeat match goal with H : _ ∧ _ |- _ => destruct H as [? ->] end;
    repeat first [rewrite (proj2 (Z.leb_le _ _)) by lia | rewrite (proj2 (Z.ltb_lt _ _)) by lia | rewrite (proj2 (Z.leb_gt 0 _)) by lia];
    cbn [andb default from_option negb]; try done.
  all: by destruct (String.eqb _ "").
Qed.

(** ** Properties *)

(** Round trip: a list of IPv4 prefixes written by [WriteCIDRList] is read
    back unchanged by [ParseCIDRFile]. *)
Theorem WriteCIDRList_ParseCIDRFile `{FilesLaws W} path ps (w w' : W) :
  Forall prefix4 ps → WriteCIDRList path ps w = (None, w') → ParseCIDRFile path w' = (ps, None).
Proof.
  intros Hp Hw. unfold ParseCIDRFile. rewrite (WriteCIDRList_read path ps w w' Hw). by apply ParseCIDRList_strings.
Qed.

(** C34. All or nothing: of lines that fit in the scanner's buffer, if one
    that is neither blank nor a comment is no prefix, the first such line is
    the error and no prefix is returned; else the result is the IPv4 prefixes
    of the lines, in order. *)
Theorem ParseCIDRList_lines ls :
  Forall (λ l, no_char (char_of 10) l = true) ls → Forall short ls →
  ParseCIDRList (lines_text ls) =
  match List.find bad_line (drop_cr <$> ls) with
  | Some l => ([], Some (ErrFmt "parse cidr %q: %w" [trim_space l] [ErrStd "netip.ParsePrefix" (trim_space l)]))
  | None => (omap line_ipv4 (drop_cr <$> ls), None)
  end.
Proof.
  intros Hn Hs. unfold ParseCIDRList. rewrite scan_lines_text, parse_lines_spec by done.
  by destruct (List.find bad_line (drop_cr <$> ls)).
Qed.

(** C32. The prefixes of a country in a GeoLite2 directory: from a table of
    locations and a table of blocks, [ParseMaxMindCountryDir] collects, in
    order, the IPv4 networks of the blocks whose identifier (that of the
    registered country when there is none of its own) is one of the country's,
    upper and lower case alike; a network of such a block that is no prefix is
    the error.  Any cells of the tables may be quoted ([written]); the columns are
    those of the exact names, and each record has a cell for each. *)
Theorem ParseMaxMindCountryDir_tables `{Files W} dir iso (w : W) locPath blocksPath lh lrows bh brows ltext btext :
  findFile dir ["Locations-en.csv"; "GeoLite2-Country-Locations-en.csv"] w = locPath → locPath ≠ "" →
  findFile dir ["Blocks-IPv4.csv"; "GeoLite2-Country-Blocks-IPv4.csv"] w = blocksPath → blocksPath ≠ "" →
  fs_read w locPath = Ok ltext → fs_read w blocksPath = Ok btext →
  written (lh :: lrows) ltext → written (bh :: brows) btext →
  Forall (λ r, length r = length lh) lrows → Forall (λ r, length r = length bh) brows →
  "geoname_id" ∈ lh → "country_iso_code" ∈ lh → "network" ∈ bh →
  ∃ ids : gset string,
    (∀ id, id ∈ ids ↔ ∃ r c, r ∈ lrows ∧ value lh r "geoname_id" = Some id ∧ value lh r "country_iso_code" = Some c ∧ ToUpper c = ToUpper iso) ∧
    ParseMaxMindCountryDir dir iso w =
    collect (λ r, if negb (bool_decide (block_id bh r ∈ ids)) then Ok None
                  else let net := default "" (value bh r "network") in
                       match ParsePrefix net with
                       | Err e => Err (ErrFmt "maxmind network %q: %w" [net] [e])
                       | Ok p => Ok (if Is4 (p_ip p) then Some p else None)
                       end) brows.
Proof.
  intros Hloc Hl0 Hblk Hb0 Hrl Hrb Hlok Hbok Hll Hbl Hid Hiso Hnet.
  apply indexOf_elem in Hid, Hiso, Hnet. unfold ParseMaxMindCountryDir. rewrite Hloc, Hblk.
  rewrite !(proj2 (String.eqb_neq _ _)) by done. cbn [orb]. rewrite Hrl, Hrb. cbn [mbind result_bind].
  unfold loadCountryGeonames. rewrite (csv_read_table _ _ _ Hlok Hll). cbv zeta.
  rewrite !(proj2 (Z.ltb_ge _ _)) by done. cbn [orb mbind result_bind].
  exists (foldl (add_geoname (indexOf lh "geoname_id") (indexOf lh "country_iso_code") (ToUpper iso)) ∅ lrows).
  split; [intros id; rewrite add_geonames by done; rewrite elem_of_empty; naive_solver|].
  unfold loadBlocksForGeonames. rewrite (csv_read_table _ _ _ Hbok Hbl). cbv zeta. rewrite (proj2 (Z.ltb_ge _ _)) by done.
  rewrite add_blocks_collect.
  match goal with |- match ?c with _ => _ end = _ => transitivity c; [by destruct c|] end. apply collect_ext.
  intros r Hr. rewrite list.Forall_forall in Hbl. specialize (Hbl r Hr). unfold block_prefix.
  rewrite block_geoname_id, value_field by done. destruct (indexOf_range bh "network") as [?|?]; [lia|].
  by rewrite (proj2 (Z.leb_gt _ _)) by lia.
Qed.

(** ** Witnesses *)

Definition ex_ps : list Prefix := [PrefixMk (Addr4 167772160) 8; PrefixMk (Addr4 3232235777) 32].
Definition ex_mem : mem := MemMk ∅ ∅.

Lemma WriteCIDRList_ParseCIDRFile_witness :
  ParseCIDRFile "prefixes.txt" (WriteCIDRList "prefixes.txt" ex_ps ex_mem).2 = (ex_ps, None).
Proof.
  apply (WriteCIDRList_ParseCIDRFile "prefixes.txt" ex_ps ex_mem); [|vm_compute; reflexivity].
  repeat constructor; by vm_compute.
Defined.

Lemma ParseCIDRList_lines_witness :
  ParseCIDRList (lines_text ["# RU"; "10.0.0.0/8"; "2001:db8::/32"; "10.0.0.0/33"]) =
  ([], Some (ErrFmt "parse cidr %q: %w" ["10.0.0.0/33"] [ErrStd "netip.ParsePrefix" "10.0.0.0/33"])).
Proof.
  rewrite (ParseCIDRList_lines ["# RU"; "10.0.0.0/8"; "2001:db8::/32"; "10.0.0.0/33"]).
  - vm_compute. reflexivity.
  - repeat constructor.
  - repeat constructor.
Defined.

(** A GeoLite2 directory, with a country's name in quotes. *)
Definition ex_locations : list (list written_cell) :=
  [[(false, "geoname_id"); (false, "country_iso_code"); (false, "country_name")];
   [(false, "2017370"); (false, "RU"); (false, "Russia")];
   [(false, "102358"); (false, "SA"); (true, "Saudi Arabia")];
   [(false, "2635167"); (false, "GB"); (true, "United Kingdom, the")]].
Definition ex_blocks : list (list written_cell) :=
  (λ l, pair false <$> split l ",") <$>
  ["network,registered_country_geoname_id,geoname_id"; "10.200.0.0/24,102358,102358"; "10.9.0.0/16,102358,2017370"; "10.201.0.0/24,102358,"].
Definition ex_geo : mem := MemMk (list_to_map [
    ("geo/GeoLite2-Country-Locations-en.csv", table_text ex_locations);
    ("geo/GeoLite2-Country-Blocks-IPv4.csv", table_text ex_blocks)])
  {["geo" := [("GeoLite2-Country-Blocks-IPv4.csv", false); ("GeoLite2-Country-Locations-en.csv", false)]]}.

Lemma ex_written rs : forallb (λ r, forallb cell_ok r && negb (bool_decide (r = [])) && negb (bool_decide (r = [(false, "")]))) rs = true →
  written (values <$> rs) (table_text rs).
Proof.
  intros Hr. exists rs. split; [done|]. split; [|done]. apply list.Forall_forall. intros r Hin.
  rewrite forallb_forall_elem in Hr. specialize (Hr r Hin). rewrite !andb_true_iff, !negb_true_iff, !bool_decide_eq_false in Hr.
  destruct Hr as [[Hc ?] ?]. split; [|done]. apply list.Forall_forall. by apply forallb_forall_elem.
Qed.

Lemma ParseMaxMindCountryDir_tables_witness :
  ∃ ids : gset string, "102358" ∈ ids ∧ "2017370" ∉ ids ∧
    ParseMaxMindCountryDir "geo" "sa" ex_geo = Ok [PrefixMk (Addr4 180879360) 24; PrefixMk (Addr4 180944896) 24].
Proof.
  destruct (ParseMaxMindCountryDir_tables "geo" "sa" ex_geo "geo/GeoLite2-Country-Locations-en.csv" "geo/GeoLite2-Country-Blocks-IPv4.csv"
    ["geoname_id"; "country_iso_code"; "country_name"]
    [["2017370"; "RU"; "Russia"]; ["102358"; "SA"; "Saudi Arabia"]; ["2635167"; "GB"; "United Kingdom, the"]]
    ["network"; "registered_country_geoname_id"; "geoname_id"]
    [["10.200.0.0/24"; "102358"; "102358"]; ["10.9.0.0/16"; "102358"; "2017370"]; ["10.201.0.0/24"; "102358"; ""]]
    (table_text ex_locations) (table_text ex_blocks))
    as (ids & Hids & _);
    [vm_compute; reflexivity|discriminate|vm_compute; reflexivity|discriminate|vm_compute; reflexivity|vm_compute; reflexivity|..].
  { apply (ex_written ex_locations). by vm_compute. }
  { apply (ex_written ex_blocks). by vm_compute. }
  1,2: repeat constructor.
  1-3: set_solver.
  exists ids. rewrite !Hids. split; [|split; [|vm_compute; reflexivity]].
  - exists ["102358"; "SA"; "Saudi Arabia"], "SA". split; [right; by left|]. by vm_compute.
  - intros (r & c & Hr & H1 & H2 & H3). repeat (apply elem_of_cons in Hr as [->|Hr]; [vm_compute in H1, H2; by injection H2 as <-|]).
    by apply elem_of_nil in Hr.
Defined.
