(* ===== verification/Maxmind.v ===== *)
(** * [internal/prefixes/{maxmind,zip,mmdb}.go]: country prefixes

    The GeoLite2 archive is downloaded into a temporary directory, extracted
    there and parsed; or the networks of a country are read from a MaxMind
    database.

    [Http] is [http.Get]; [Archives] is what archive/zip, compress/gzip and
    archive/tar read of a file; [Mmdb] is the database reader
    (github.com/oschwald/maxminddb-golang): the networks it iterates over. *)

From stdpp Require Import base list strings gmap.
From Stdlib Require Import ZArith Lia Ascii.
From S2P Require Import Prelude GoStrings Netip Collapse Files Parse.

(** ** The outside *)

(** What is read from a stream, and the error it ends with. *)
Definition body : Type := string * option error.

Record response := ResponseMk { StatusCode : Z; Status : string; Body : body }.

Class Http (W : Type) := http_get : string → W → result response * W.

Record zip_file := ZipFileMk { z_Name : string; z_IsDir : bool; z_Open : result body }.
Inductive tar_type := TypeDir | TypeReg | TypeOther.
Record tar_header := TarHeaderMk { t_Name : string; t_Typeflag : tar_type; t_body : body }.

Class Archives (W : Type) := {
  zip_OpenReader : W → string → result (list zip_file);
  (** [os.Open] and [gzip.NewReader]; then the headers, and the error other than
      the end of the archive that stops them. *)
  tar_read : W → string → result (list tar_header * option error)
}.

(** ** Errors that end a function *)

(** [if err != nil { return err }], then the rest. *)
Definition unless_err {W} (r : option error * W) (k : W → option error * W) : option error * W :=
  match r with
  | (Some e, w) => (Some e, w)
  | (None, w) => k w
  end.

Section files.
Context {W : Type} `{Files W}.

(** [io.Copy] to a file just created. *)
Definition io_Copy (path : string) (b : body) (w : W) : option error * W :=
  let '(e, w) := fs_append path b.1 w in
  (match e with Some e => Some e | None => b.2 end, w).

(** ** Archives *)

(** The test of both extractors. *)
Definition illegal (dest target : string) : bool :=
  negb (has_prefix (Clean target) (Clean dest +:+ "/")) && negb (String.eqb (Clean target) (Clean dest)).

Fixpoint extract_zip_files (dest : string) (files : list zip_file) (w : W) : option error * W :=
  match files with
  | [] => (None, w)
  | f :: files =>
      let target := Join dest (z_Name f) in
      if illegal dest target then (Some (ErrFmt "illegal path in zip: %s" [z_Name f] []), w)
      else if z_IsDir f then unless_err (fs_mkdir_all target w) (extract_zip_files dest files)
      else
        unless_err (fs_mkdir_all (Dir target) w) (λ w,
          match z_Open f with
          | Err e => (Some e, w)
          | Ok b =>
              unless_err (fs_create target w) (λ w,
                unless_err (io_Copy target b w) (extract_zip_files dest files))
          end)
  end.

Definition extractZip `{!Archives W} (path dest : string) (w : W) : option error * W :=
  match zip_OpenReader w path with
  | Err e => (Some e, w)
  | Ok files => extract_zip_files dest files w
  end.

Fixpoint extract_tar_headers (dest : string) (hdrs : list tar_header) (err : option error) (w : W) : option error * W :=
  match hdrs with
  | [] => (err, w)
  | hdr :: hdrs =>
      let target := Join dest (t_Name hdr) in
      if illegal dest target then (Some (ErrFmt "illegal path in archive: %s" [t_Name hdr] []), w)
      else
        match t_Typeflag hdr with
        | TypeDir => unless_err (fs_mkdir_all target w) (extract_tar_headers dest hdrs err)
        | TypeReg =>
            unless_err (fs_mkdir_all (Dir target) w) (λ w,
              unless_err (fs_create target w) (λ w,
                unless_err (io_Copy target (t_body hdr) w) (extract_tar_headers dest hdrs err)))
        | TypeOther => extract_tar_headers dest hdrs err w
        end
  end.

Definition extractTarGz `{!Archives W} (path dest : string) (w : W) : option error * W :=
  match tar_read w path with
  | Err e => (Some e, w)
  | Ok (hdrs, err) => extract_tar_headers dest hdrs err w
  end.

(** ** The CSV edition *)

Definition maxMindDownloadURL (licenseKey : string) : string :=
  "https://download.maxmind.com/app/geoip_download?edition_id=GeoLite2-Country-CSV&license_key=" +:+ licenseKey +:+ "&suffix=zip".
Definition fallbackURL (licenseKey : string) : string :=
  "https://download.maxmind.com/app/geoip_download?edition_id=GeoLite2-Country-CSV&license_key=" +:+ licenseKey +:+ "&suffix=tar.gz".

Definition download `{!Http W} (url dest : string) (w : W) : option error * W :=
  match http_get url w with
  | (Err e, w) => (Some e, w)
  | (Ok resp, w) =>
      if negb (StatusCode resp =? 200) then (Some (ErrFmt "HTTP %s" [Status resp] []), w)
      else unless_err (fs_create dest w) (io_Copy dest (Body resp))
  end.

(** The directory of the first file visited that has the name of the locations. *)
Fixpoint find_csv (visits : list (string * result (string * bool))) : result (option string) :=
  match visits with
  | [] => Ok None
  | (_, Err e) :: _ => Err e
  | (path, Ok (name, is_dir)) :: visits =>
      if is_dir then find_csv visits
      else if has_suffix name "Locations-en.csv" || String.eqb name "GeoLite2-Country-Locations-en.csv" then Ok (Some (Dir path))
      else find_csv visits
  end.

Definition findCSVDir (root : string) (w : W) : result string :=
  match find_csv (fs_walk w root) with
  | Err e => Err e
  | Ok None => Err (ErrFmt "no Locations-en.csv found under %s" [root] [])
  | Ok (Some dir) => Ok dir
  end.

(** The archive, downloaded and extracted in [tmp]. *)
Definition fetch_archive `{!Http W, !Archives W} (tmp licenseKey : string) (w : W) : option error * W :=
  let archivePath := Join tmp "geo.zip" in
  match download (maxMindDownloadURL licenseKey) archivePath w with
  | (Some err, w) =>
      let archivePath := Join tmp "geo.tar.gz" in
      match download (fallbackURL licenseKey) archivePath w with
      | (Some err2, w) => (Some (ErrFmt "download: %v (fallback: %w)" [] [err; err2]), w)
      | (None, w) => extractTarGz archivePath tmp w
      end
  | (None, w) => extractZip archivePath tmp w
  end.

(** The body between [MkdirTemp] and the deferred [RemoveAll]. *)
Definition download_in `{!Http W, !Archives W} (tmp licenseKey countryISO : string) (w : W) : result (list Prefix) * W :=
  match fetch_archive tmp licenseKey w with
  | (Some e, w) => (Err e, w)
  | (None, w) =>
      (csvDir ← findCSVDir tmp w;
       ParseMaxMindCountryDir csvDir countryISO w, w)
  end.

Definition DownloadGeoLite2CountryPrefixes `{!Http W, !Archives W} (licenseKey countryISO : string) (w : W) : result (list Prefix) * W :=
  if String.eqb licenseKey "" then (Err (ErrFmt "MAXMIND_LICENSE_KEY / -license is required" [] []), w)
  else
    match fs_mkdir_temp "gotun-maxmind-*" w with
    | (Err e, w) => (Err e, w)
    | (Ok tmp, w) =>
        let '(r, w) := download_in tmp licenseKey countryISO w in
        (r, fs_remove_all tmp w)
    end.
End files.

(** ** The MMDB edition *)

(** A [net.IPNet]: the bytes of the address and of the mask. *)
Record IPNet := IPNetMk { n_IP : string; n_Mask : string }.
Definition bytes (s : string) : list Z := byte_of <$> String.list_ascii_of_string s.

(** A network with the ISO codes of its country and of its registered country. *)
Definition network : Type := option IPNet * string * string.

Class Mmdb (W : Type) :=
  (** [maxminddb.Open]; then the networks, each decoded or not, and the error
      of the iteration. *)
  mmdb_networks : W → string → result (list (result network) * option error).

(** [net.IP.To4] and [net.IPMask.Size], of the standard library. *)
Definition To4 (ip : list Z) : option (list Z) :=
  if bool_decide (length ip = 4%nat) then Some ip
  else if bool_decide (length ip = 16%nat) && bool_decide (take 10 ip = replicate 10 0) && bool_decide (take 2 (drop 10 ip) = [255; 255])
  then Some (drop 12 ip)
  else None.

(** The leading ones of a byte, and what is left of it shifted out. *)
Fixpoint leading_ones (fuel : nat) (v : Z) : Z * Z :=
  match fuel with
  | O => (0, v)
  | S fuel => if Z.testbit v 7 then let '(n, v) := leading_ones fuel (Z.land (Z.shiftl v 1) 255) in (n + 1, v) else (0, v)
  end.
Fixpoint simpleMaskLength (mask : list Z) : option Z :=
  match mask with
  | [] => Some 0
  | v :: mask =>
      if v =? 255 then n ← simpleMaskLength mask; Some (n + 8)
      else
        let '(n, v) := leading_ones 8 v in
        if (v =? 0) && forallb (λ b, b =? 0) mask then Some n else None
  end.
Definition mask_Size (mask : list Z) : Z * Z :=
  match simpleMaskLength mask with
  | Some ones => (ones, 8 * Z.of_nat (length mask))
  | None => (0, 0)
  end.

(** [netip.AddrFromSlice] of four bytes. *)
Definition AddrFrom4 (bs : list Z) : Addr := Addr4 (foldl (λ n b, n * 256 + b) 0 bs).

Definition ipNetToPrefix (n : option IPNet) : option Prefix :=
  match n with
  | None => None
  | Some n =>
      match To4 (bytes (n_IP n)) with
      | None => None
      | Some ip4 =>
          let '(ones, bits) := mask_Size (bytes (n_Mask n)) in
          if negb (bits =? 32) then None else Some (PrefixFrom (AddrFrom4 ip4) ones)
      end
  end.

Definition network_iso (x : network) : string :=
  let '(_, iso, registered) := x in if String.eqb iso "" then registered else iso.

Definition add_network (want : string) (out : list Prefix) (x : result network) : result (list Prefix) :=
  match x with
  | Err err => Err (ErrFmt "mmdb network: %w" [] [err])
  | Ok x =>
      if negb (String.eqb (ToUpper (network_iso x)) want) then Ok out
      else match ipNetToPrefix x.1.1 with None => Ok out | Some p => Ok (out ++ [p]) end
  end.

Definition ExtractCountryFromMMDB `{Mmdb W} (mmdbPath countryISO : string) (w : W) : result (list Prefix) :=
  match mmdb_networks w mmdbPath with
  | Err err => Err (ErrFmt "open mmdb: %w" [] [err])
  | Ok (networks, err) =>
      let want := ToUpper countryISO in
      out ← fold_result (add_network want) [] networks;
      match err with Some e => Err e | None => Ok out end
  end.

(** ** Loading *)

Section load.
Context {W : Type} `{Files W, !Http W, !Archives W, !Mmdb W}.

Definition LoadCountryPrefixesRaw (licenseKey countryISO mmdbPath : string) (w : W) : result (list Prefix) * W :=
  if negb (String.eqb mmdbPath "") then (ExtractCountryFromMMDB mmdbPath countryISO w, w)
  else DownloadGeoLite2CountryPrefixes licenseKey countryISO w.

(** [CollapseIPv4], which may panic, after a load. *)
Definition LoadCountryPrefixes (licenseKey countryISO mmdbPath : string) (w : W) : outcome (result (list Prefix)) * W :=
  match LoadCountryPrefixesRaw licenseKey countryISO mmdbPath w with
  | (Err e, w) => (Ret (Err e), w)
  | (Ok prefs, w) => (c ← CollapseIPv4 prefs; Ret (Ok c), w)
  end.

(** The list is written unless [CollapseIPv4] panics. *)
Definition write_collapsed (outPath : string) (prefs : result (list Prefix)) (w : W) : outcome (option error) * W :=
  match prefs with
  | Err e => (Ret (Some e), w)
  | Ok prefs =>
      match CollapseIPv4 prefs with
      | Panic m => (Panic m, w)
      | Ret c => let '(e, w) := WriteCIDRList outPath c w in (Ret e, w)
      end
  end.

Definition FetchGeoLite2CountryCSV (licenseKey countryISO outPath : string) (w : W) : outcome (option error) * W :=
  let '(prefs, w) := DownloadGeoLite2CountryPrefixes licenseKey countryISO w in write_collapsed outPath prefs w.

Definition FetchFromMMDB (mmdbPath countryISO outPath : string) (w : W) : outcome (option error) * W :=
  write_collapsed outPath (ExtractCountryFromMMDB mmdbPath countryISO w) w.
End load.

(** ** Lemmas: networks *)

Lemma bytes_range s : Forall (λ b, 0 <= b < 256) (bytes s).
Proof. unfold bytes. apply Forall_fmap, list.Forall_forall. intros c _. apply byte_of_range. Qed.

Lemma To4_spec ip ip4 :
  Forall (λ b, 0 <= b < 256) ip → To4 ip = Some ip4 → length ip4 = 4%nat ∧ Forall (λ b, 0 <= b < 256) ip4.
Proof.
  intros Hip. unfold To4. case_bool_decide; [by intros [= <-]|].
  destruct (bool_decide (length ip = 16%nat)) eqn:H16; [|done]. apply bool_decide_eq_true in H16.
  destruct (_ && _); [|done]. intros [= <-]. split; [rewrite length_drop; lia|by apply Forall_drop].
Qed.

Lemma AddrFrom4_range ip4 :
  length ip4 = 4%nat → Forall (λ b, 0 <= b < 256) ip4 → ∃ n, AddrFrom4 ip4 = Addr4 n ∧ 0 <= n < 2 ^ 32.
Proof.
  destruct ip4 as [|a [|b [|c [|d [|]]]]]; try done. intros _ H. repeat apply list.Forall_cons in H as [? H].
  eexists. split; [done|]. cbn [foldl]. change (2 ^ 32) with 4294967296. lia.
Qed.

Lemma leading_ones_bound fuel v : 0 <= (leading_ones fuel v).1 <= Z.of_nat fuel.
Proof.
  revert v. induction fuel as [|fuel IH]; intros v; [done|]. cbn [leading_ones]. destruct (Z.testbit v 7); [|simpl; lia].
  specialize (IH (Z.land (Z.shiftl v 1) 255)). destruct (leading_ones fuel _) as [n v']. simpl in *. lia.
Qed.

Lemma simpleMaskLength_bound mask n : simpleMaskLength mask = Some n → 0 <= n <= 8 * Z.of_nat (length mask).
Proof.
  revert n. induction mask as [|v mask IH]; intros n; cbn [simpleMaskLength]; [intros [= <-]; simpl; lia|].
  destruct (v =? 255).
  - intros (m & Hm & [= <-])%bind_Some. specialize (IH m Hm). simpl. lia.
  - pose proof (leading_ones_bound 8 v). destruct (leading_ones 8 v) as [k v']. destruct (_ && _); [|done].
    intros [= <-]. simpl in *. lia.
Qed.

Lemma ipNetToPrefix_prefix4 n p : ipNetToPrefix n = Some p → prefix4 p.
Proof.
  unfold ipNetToPrefix. destruct n as [[ip mask]|]; [|done]. cbn [n_IP n_Mask].
  destruct (To4 (bytes ip)) as [ip4|] eqn:E; [|done]. apply To4_spec in E as [Hl Hb]; [|apply bytes_range].
  destruct (AddrFrom4_range ip4 Hl Hb) as (a & -> & Ha). unfold mask_Size.
  destruct (simpleMaskLength (bytes mask)) as [ones|] eqn:Em; [|done]. apply simpleMaskLength_bound in Em.
  destruct (Z.eqb_spec (8 * Z.of_nat (length (bytes mask))) 32); [|done]. cbn [negb]. intros [= <-].
  rewrite PrefixFrom4 by lia. unfold prefix4. simpl. lia.
Qed.

(** The prefix a decoded network contributes. *)
Definition network_prefix (want : string) (x : network) : option Prefix :=
  if String.eqb (ToUpper (network_iso x)) want then ipNetToPrefix x.1.1 else None.

Lemma add_networks want (xs : list network) : ∀ out,
  fold_result (add_network want) out (Ok <$> xs) = Ok (out ++ omap (network_prefix want) xs).
Proof.
  induction xs as [|x xs IH]; intros out; [cbn; by rewrite app_nil_r|]. cbn [fmap list_fmap fold_result omap list_omap].
  assert (add_network want out (Ok x) = Ok (out ++ match network_prefix want x with Some p => [p] | None => [] end)) as ->.
  { unfold add_network, network_prefix. destruct (String.eqb _ want); cbn [negb]; [|by rewrite app_nil_r].
    destruct (ipNetToPrefix x.1.1); [done|]. by rewrite app_nil_r. }
  cbn [mbind result_bind]. rewrite IH, <-app_assoc. by destruct (network_prefix want x).
Qed.

Lemma fold_networks want xs : ∀ out out',
  fold_result (add_network want) out xs = Ok out' → ∃ ns, xs = Ok <$> ns.
Proof.
  induction xs as [|[x|e] xs IH]; intros out out'; cbn [fold_result]; [by exists []| |done].
  intros (o & _ & Ho)%result_bind_Ok. destruct (IH _ _ Ho) as [ns ->]. by exists (x :: ns).
Qed.

(** What a database gives: the prefixes of the networks of the country. *)
Lemma ExtractCountry_Ok `{Mmdb W} path iso (w : W) out :
  ExtractCountryFromMMDB path iso w = Ok out ↔
  ∃ ns : list network, mmdb_networks w path = Ok (Ok <$> ns, None) ∧ out = omap (network_prefix (ToUpper iso)) ns.
Proof.
  unfold ExtractCountryFromMMDB. split.
  - destruct (mmdb_networks w path) as [[xs err]|]; [|done]. intros (o & Ho & He)%result_bind_Ok.
    destruct (fold_networks _ _ _ _ Ho) as [ns ->]. rewrite add_networks in Ho. injection Ho as <-.
    destruct err; [done|]. injection He as <-. by exists ns.
  - intros (ns & -> & ->). cbv zeta. by rewrite add_networks.
Qed.

Lemma ExtractCountry_prefix4 `{Mmdb W} path iso (w : W) out : ExtractCountryFromMMDB path iso w = Ok out → Forall prefix4 out.
Proof.
  intros (ns & _ & ->)%ExtractCountry_Ok. apply list.Forall_forall. intros p (x & _ & Hx)%list_elem_of_omap.
  unfold network_prefix in Hx. destruct (String.eqb _ _); [|done]. by eapply ipNetToPrefix_prefix4.
Qed.

Lemma Download_prefix4 `{Files W, !Http W, !Archives W} license iso (w w' : W) out :
  DownloadGeoLite2CountryPrefixes license iso w = (Ok out, w') → Forall prefix4 out.
Proof.
  unfold DownloadGeoLite2CountryPrefixes. destruct (String.eqb license ""); [done|].
  destruct (fs_mkdir_temp _ w) as [[tmp|e] w1]; [|done]. unfold download_in.
  destruct (fetch_archive tmp license w1) as [[e|] w2]; [done|]. intros [= Hout _].
  apply result_bind_Ok in Hout as (dir & _ & Hout). by eapply ParseMaxMind_prefix4.
Qed.

Lemma LoadRaw_prefix4 `{Files W, !Http W, !Archives W, !Mmdb W} license iso mmdb (w w' : W) out :
  LoadCountryPrefixesRaw license iso mmdb w = (Ok out, w') → Forall prefix4 out.
Proof.
  unfold LoadCountryPrefixesRaw. destruct (negb _); [|apply Download_prefix4].
  intros [= Hout _]. by eapply ExtractCountry_prefix4.
Qed.

(** ** Lemmas: what extraction touches *)

Section contained.
Context {W : Type} `{Files W}.
Notation T := (W * list fs_op)%type.

(** A function that only does operations satisfying [P], and whose result
    satisfies [Q] of them. *)
Definition only {A} (P : fs_op → Prop) (f : T → A * T) : Prop :=
  ∀ w ops, ∃ new, (f (w, ops)).2.2 = ops ++ new ∧ Forall P new.

Lemma only_ret {A} P (a : A) : only P (λ w : T, (a, w)).
Proof. intros w ops. exists []. by rewrite app_nil_r. Qed.

Lemma only_then {A B} P (f : T → A * T) (k : A → T → B * T) :
  only P f → (∀ a, only P (k a)) → only P (λ w, let '(a, w) := f w in k a w).
Proof.
  intros Hf Hk w ops. destruct (Hf w ops) as (n1 & E1 & H1). destruct (f (w, ops)) as [a [w1 ops1]]. cbn [snd] in E1. subst ops1.
  destruct (Hk a w1 (ops ++ n1)) as (n2 & E2 & H2). exists (n1 ++ n2). rewrite E2, app_assoc. split; [done|]. by apply Forall_app.
Qed.

Lemma only_unless P (f : T → option error * T) k : only P f → only P k → only P (λ w, unless_err (f w) k).
Proof.
  intros Hf Hk w ops. destruct (Hf w ops) as (n1 & E1 & H1). destruct (f (w, ops)) as [[e|] [w1 ops1]]; cbn [snd unless_err] in *; subst ops1.
  - by exists n1.
  - destruct (Hk w1 (ops ++ n1)) as (n2 & E2 & H2). exists (n1 ++ n2). rewrite E2, app_assoc. split; [done|]. by apply Forall_app.
Qed.

Lemma only_mkdir_all (P : fs_op → Prop) p : P (OpMkdirAll p) → only P (λ w : T, fs_mkdir_all p w).
Proof. intros HP w ops. exists [OpMkdirAll p]. simpl. destruct (fs_mkdir_all p w). split; [done|]. by constructor. Qed.
Lemma only_create (P : fs_op → Prop) p : P (OpCreate p) → only P (λ w : T, fs_create p w).
Proof. intros HP w ops. exists [OpCreate p]. simpl. destruct (fs_create p w). split; [done|]. by constructor. Qed.
Lemma only_copy (P : fs_op → Prop) p b : P (OpAppend p) → only P (λ w : T, io_Copy p b w).
Proof.
  intros HP w ops. exists [OpAppend p]. unfold io_Copy. simpl. destruct (fs_append p b.1 w). split; [done|]. by constructor.
Qed.

(** A path that is in a directory, or is it: clean, and nowhere else. *)
Definition within (dir p : string) : Prop := ∃ rest, Forall normal rest ∧ p = path_of (elements dir ++ rest).

Definition op_within (dir : string) (op : fs_op) : Prop :=
  match op with
  | OpCreate p | OpAppend p => within dir p
  | OpMkdirAll p => within dir p ∨ p = Dir (Clean dir)
  | _ => False
  end.

Lemma Join_rooted a b : is_rooted a = true → ∃ p, is_rooted p = true ∧ Join a b = Clean p.
Proof.
  intros Ha. unfold Join. destruct (String.eqb_spec a "") as [->|]; [done|]. destruct (String.eqb b ""); [by exists a|].
  exists (a +:+ "/" +:+ b). split; [|done]. apply has_prefix_spec in Ha as [t ->]. done.
Qed.

Lemma legal_within dest name :
  is_rooted dest = true → illegal dest (Join dest name) = false → within dest (Join dest name).
Proof.
  intros Hd. destruct (Join_rooted dest name Hd) as (p & Hp & ->). rewrite (Clean_rooted p) by done.
  pose proof (elements_normal p Hp) as Hnp. pose proof (elements_normal dest Hd) as Hnd.
  unfold illegal. rewrite Clean_path_of, (Clean_rooted dest) by done. intros Hi. apply andb_false_iff in Hi as [Hi|Hi].
  - apply negb_false_iff, prefix_within in Hi as (rest & Hr & Hn); [|done|done]. exists rest. by rewrite Hr.
  - apply negb_false_iff, String.eqb_eq in Hi. exists []. by rewrite app_nil_r.
Qed.

Lemma Dir_within dest p : is_rooted dest = true → within dest p → within dest (Dir p) ∨ Dir p = Dir (Clean dest).
Proof.
  intros Hd (rest & Hr & ->). pose proof (elements_normal dest Hd) as Hnd. destruct (decide (rest = [])) as [->|Hne].
  - right. by rewrite app_nil_r, <-Clean_rooted.
  - left. exists (removelast rest). rewrite (app_removelast_last "" Hne) in Hr. split; [by apply Forall_app in Hr as [? _]|].
    rewrite <-(app_removelast_last "" Hne) in Hr. rewrite Dir_path_of by (by apply Forall_app). by rewrite removelast_app.
Qed.

Lemma extract_zip_within dest files : is_rooted dest = true → only (op_within dest) (extract_zip_files dest files).
Proof.
  intros Hd. induction files as [|f files IH]; [apply only_ret|]. cbn [extract_zip_files].
  destruct (illegal dest (Join dest (z_Name f))) eqn:Hi; [apply only_ret|].
  pose proof (legal_within dest (z_Name f) Hd Hi) as Hw. destruct (z_IsDir f).
  - apply only_unless; [|done]. apply only_mkdir_all. by left.
  - apply only_unless; [apply only_mkdir_all; by apply Dir_within|].
    destruct (z_Open f) as [b|]; [|apply only_ret]. apply only_unless; [by apply only_create|].
    apply only_unless; [by apply only_copy|done].
Qed.

Lemma extract_tar_within dest hdrs err : is_rooted dest = true → only (op_within dest) (extract_tar_headers dest hdrs err).
Proof.
  intros Hd. induction hdrs as [|h hdrs IH]; [apply only_ret|]. cbn [extract_tar_headers].
  destruct (illegal dest (Join dest (t_Name h))) eqn:Hi; [apply only_ret|].
  pose proof (legal_within dest (t_Name h) Hd Hi) as Hw. destruct (t_Typeflag h); [| |done].
  - apply only_unless; [|done]. apply only_mkdir_all. by left.
  - apply only_unless; [apply only_mkdir_all; by apply Dir_within|].
    apply only_unless; [by apply only_create|]. apply only_unless; [by apply only_copy|done].
Qed.
End contained.

Section download.
Context {W : Type} `{Files W, !Http W, !Archives W}.

(** The outside of a recorded file system. *)
#[global] Instance traced_http : Http (W * list fs_op) := λ url '(w, ops),
  let '(r, w) := http_get url w in (r, (w, ops)).
#[global] Instance traced_archives : Archives (W * list fs_op) := {
  zip_OpenReader w := zip_OpenReader w.1;
  tar_read w := tar_read w.1
}.

Lemma Join_child d n : is_rooted d = true → normal n → within d (Join d n).
Proof.
  intros Hd Hn. exists [n]. split; [by constructor|]. destruct Hn as (H1 & H2 & H3 & H4).
  assert (is_rooted (d +:+ "/" +:+ n) = true) as Hr by (by apply has_prefix_spec in Hd as [t ->]).
  assert (Join d n = Clean (d +:+ "/" +:+ n)) as ->.
  { unfold Join. destruct (String.eqb_spec d "") as [->|]; [done|]. by rewrite (proj2 (String.eqb_neq _ _)). }
  rewrite Clean_rooted by done. f_equal. unfold elements. rewrite Hr, Hd.
  change (d +:+ "/" +:+ n) with (d +:+ String "/" n). rewrite split_app_sep, (split_no_char "/" n), foldl_app by done.
  cbn [foldl]. unfold clean_step at 1. by rewrite !(proj2 (String.eqb_neq _ _)) by done.
Qed.

Lemma only_download P url dest :
  P (OpCreate dest) → P (OpAppend dest) → only P (λ w : W * list fs_op, download url dest w).
Proof.
  intros H1 H2. unfold download. apply (only_then P (http_get url)).
  - intros w ops. exists []. unfold http_get, traced_http. destruct (http_get url w). by rewrite app_nil_r.
  - intros [resp|e]; [|apply only_ret]. destruct (negb _); [apply only_ret|].
    apply only_unless; [by apply only_create|by apply only_copy].
Qed.

Lemma only_extractZip dest path : is_rooted dest = true → only (op_within dest) (extractZip (W:=W * list fs_op) path dest).
Proof.
  intros Hd w ops. unfold extractZip. destruct (zip_OpenReader (w, ops) path) as [files|e]; [by apply extract_zip_within|].
  apply (only_ret _ (Some e)).
Qed.

Lemma only_extractTarGz dest path : is_rooted dest = true → only (op_within dest) (extractTarGz (W:=W * list fs_op) path dest).
Proof.
  intros Hd w ops. unfold extractTarGz. destruct (tar_read (w, ops) path) as [[hdrs err]|e]; [by apply extract_tar_within|].
  apply (only_ret _ (Some e)).
Qed.

Lemma only_fetch_archive tmp license : is_rooted tmp = true → only (op_within tmp) (fetch_archive (W:=W * list fs_op) tmp license).
Proof.
  intros Hd. assert (∀ n, normal n → op_within tmp (OpCreate (Join tmp n)) ∧ op_within tmp (OpAppend (Join tmp n))) as Hc.
  { intros n Hn. split; by apply Join_child. }
  assert (normal "geo.zip") as Hz by (unfold normal; by split_and!). assert (normal "geo.tar.gz") as Ht by (unfold normal; by split_and!). apply Hc in Hz as [??], Ht as [??].
  unfold fetch_archive. apply (only_then _ (download (maxMindDownloadURL license) (Join tmp "geo.zip"))); [by apply only_download|].
  intros [err|]; [|by apply only_extractZip].
  apply (only_then _ (download (fallbackURL license) (Join tmp "geo.tar.gz"))); [by apply only_download|].
  intros [err2|]; [apply only_ret|by apply only_extractTarGz].
Qed.

Lemma download_in_ops tmp license iso (w w' : W) ops ops' r :
  is_rooted tmp = true → download_in tmp license iso (w, ops) = (r, (w', ops')) →
  ∃ new, ops' = ops ++ new ∧ Forall (op_within tmp) new.
Proof.
  intros Hd. unfold download_in. destruct (only_fetch_archive tmp license Hd w ops) as (new & E & Hnew).
  destruct (fetch_archive tmp license (w, ops)) as [[e|] [w1 ops1]]; cbn [snd] in E; subst ops1; intros [= <- <- <-]; by exists new.
Qed.
End download.

(** ** Properties *)

(** C24. A downloaded archive is contained and cleaned up: of all the paths,
    [DownloadGeoLite2CountryPrefixes] only creates files and directories in the
    temporary directory it made (or asks for the parent of that directory,
    which exists), whatever the names in the archive, and it removes that
    directory last, on success and on every error. *)
Theorem Download_contained `{Files W, !Http W, !Archives W} license iso (w w' : W) r ops :
  (∀ pattern v tmp v', fs_mkdir_temp pattern v = (Ok tmp, v') → is_rooted tmp = true) →
  DownloadGeoLite2CountryPrefixes license iso (w, []) = (r, (w', ops)) →
  (license = "" ∧ ops = []) ∨
  (∃ e, ops = [OpMkdirTemp "gotun-maxmind-*" (Err e)] ∧ r = Err e) ∨
  (∃ tmp new, ops = OpMkdirTemp "gotun-maxmind-*" (Ok tmp) :: new ++ [OpRemoveAll tmp] ∧ Forall (op_within tmp) new).
Proof.
  intros Htmp. unfold DownloadGeoLite2CountryPrefixes.
  destruct (String.eqb_spec license "") as [->|]; [intros [= _ _ <-]; by left|]. intros Hrun. right. revert Hrun. cbn [fs_mkdir_temp traced_files].
  destruct (fs_mkdir_temp "gotun-maxmind-*" w) as [[tmp|e] w1] eqn:Et; [|intros [= <- _ <-]; left; by exists e]. cbn [app].
  pose proof (Htmp _ _ _ _ Et) as Hr.
  destruct (download_in tmp license iso (w1, [OpMkdirTemp "gotun-maxmind-*" (Ok tmp)])) as [res [w2 ops2]] eqn:Ed.
  destruct (download_in_ops tmp license iso w1 w2 _ _ _ Hr Ed) as (new & -> & Hnew).
  intros [= _ _ <-]. right. by exists tmp, new.
Qed.

(** ** Witnesses *)

(** A site that serves an archive with a file outside of its directory. *)
#[global] Instance ex_http : Http mem := λ url w, (Ok (ResponseMk 200 "200 OK" ("zip", None)), w).
#[global] Instance ex_archives : Archives mem := {
  zip_OpenReader w p := Ok [ZipFileMk "GeoLite2/Locations-en.csv" false (Ok ("geoname_id,country_iso_code", None));
                            ZipFileMk "../../etc/passwd" false (Ok ("root", None))];
  tar_read w p := Err (ErrStd "gzip" p)
}.

Lemma ex_mkdir_temp pattern (v : mem) tmp v' : fs_mkdir_temp pattern v = (Ok tmp, v') → is_rooted tmp = true.
Proof. by intros [= <- _]. Qed.

Definition ex_download : result (list Prefix) * (mem * list fs_op) :=
  DownloadGeoLite2CountryPrefixes (W:=mem * list fs_op) "key" "RU" (MemMk ∅ ∅, []).

Lemma Download_contained_witness :
  ex_download.1 = Err (ErrFmt "illegal path in zip: %s" ["../../etc/passwd"] []) ∧
  ∃ new, ex_download.2.2 = OpMkdirTemp "gotun-maxmind-*" (Ok "/tmp/gotun-maxmind-1") :: new ++ [OpRemoveAll "/tmp/gotun-maxmind-1"] ∧
         Forall (op_within "/tmp/gotun-maxmind-1") new.
Proof.
  split; [vm_compute; reflexivity|].
  destruct (Download_contained (W:=mem) "key" "RU" (MemMk ∅ ∅) ex_download.2.1 ex_download.1 ex_download.2.2 ex_mkdir_temp)
    as [[H _]|[(e & H & _)|(tmp & new & H & Hn)]].
  - vm_compute. reflexivity.
  - discriminate H.
  - vm_compute in H. discriminate H.
  - assert (tmp = "/tmp/gotun-maxmind-1") as -> by (vm_compute in H; congruence). exists new. split; [exact H|exact Hn].
Defined.
