(* ===== verification/Testutil.v ===== *)
(** * [internal/testutil/mmdb.go]: the database of the tests

    A helper of a test ends with a value, or by skipping or failing the test.
    The file of the caller ([runtime.Caller]) is a parameter. *)

From stdpp Require Import base list strings.
From Stdlib Require Import ZArith Lia Ascii.
From S2P Require Import Prelude GoStrings Netip Files Maxmind.

Inductive tested (A : Type) :=
| Done (a : A)
| Skip (reason : string)
| Fatal (e : error).
Arguments Done {_} _.
Arguments Skip {_} _.
Arguments Fatal {_} _.

#[global] Instance tested_ret : MRet tested := @Done.
#[global] Instance tested_bind : MBind tested := λ A B f m,
  match m with Done a => f a | Skip s => Skip s | Fatal e => Fatal e end.

(** [filepath.Join] of any number of elements. *)
Definition JoinAll (es : list string) : string :=
  match List.filter (λ e, negb (String.eqb e "")) es with
  | [] => ""
  | es => Clean (join es "/")
  end.

Section testutil.
Context {W : Type} `{Files W, !Mmdb W} (caller : option string).

(** internal/testutil -> repo root *)
Definition ModuleRoot : tested string :=
  match caller with
  | None => Fatal (ErrText "runtime.Caller failed")
  | Some file => Done (Clean (JoinAll [Dir file; ".."; ".."]))
  end.

Definition MMDBPath (w : W) : tested (option string) :=
  root ← ModuleRoot;
  let p := JoinAll [root; "data"; "geo"; "GeoIP2-City.mmdb"] in
  match fs_stat w p with
  | Err _ => Done None
  | Ok _ => Done (Some p)
  end.

Definition LoadAllRUfromMMDB (w : W) : tested (list Prefix) :=
  path ← MMDBPath w;
  match path with
  | None => Skip "local MMDB not available at data/geo/GeoIP2-City.mmdb"
  | Some path =>
      match ExtractCountryFromMMDB path "RU" w with
      | Err err => Fatal (ErrFmt "extract RU from MMDB: %v" [] [err])
      | Ok prefs =>
          if Z.of_nat (length prefs) <? 1000 then
            Fatal (ErrFmt "expected >= 1000 RU prefixes from City MMDB, got %d" [itoa (Z.of_nat (length prefs))] [])
          else
            match List.find (λ p, negb (prefix_valid p) || negb (Is4 (p_ip p))) prefs with
            | Some p => Fatal (ErrFmt "invalid or non-IPv4 prefix: %v" [prefix_string p] [])
            | None => Done prefs
            end
      end
  end.

(** The last test of the prefixes never fails: every prefix that is extracted
    is a valid IPv4 one, so a database that can be read and has enough networks
    of the country gives them all. *)
Theorem LoadAllRU_all (w : W) path prefs :
  MMDBPath w = Done (Some path) → ExtractCountryFromMMDB path "RU" w = Ok prefs → 1000 <= Z.of_nat (length prefs) →
  LoadAllRUfromMMDB w = Done prefs.
Proof.
  intros Hp He Hn. unfold LoadAllRUfromMMDB. rewrite Hp. cbn [mbind tested_bind]. rewrite He, (proj2 (Z.ltb_ge _ _)) by done.
  destruct (List.find _ prefs) as [p|] eqn:E; [|done]. apply find_some in E as [Hin%list_elem_of_In Hbad].
  apply ExtractCountry_prefix4 in He. rewrite list.Forall_forall in He. destruct (prefix4_inv _ (He p Hin)) as (n & b & -> & _ & Hb).
  unfold prefix_valid in Hbad. cbn in Hbad. lia.
Qed.
End testutil.

(** The root is two directories above that of the file. *)
Theorem ModuleRoot_parent es b :
  Forall normal (es ++ ["internal"; "testutil"; b]) → ModuleRoot (Some (path_of (es ++ ["internal"; "testutil"; b]))) = Done (path_of es).
Proof.
  intros Hes. unfold ModuleRoot. f_equal. assert (Forall normal es) as He by (by apply Forall_app in Hes as [? _]).
  rewrite Dir_path_of by done. change (es ++ ["internal"; "testutil"; b]) with (es ++ ["internal"; "testutil"] ++ [b]).
  rewrite app_assoc, removelast_last. apply Forall_app in Hes as [_ Hes]. set (d := es ++ ["internal"; "testutil"]).
  assert (Forall normal d) as Hd.
  { apply Forall_app. split; [done|]. apply list.Forall_cons in Hes as [H1 [H2 _]%list.Forall_cons]. by repeat constructor. }
  unfold JoinAll. cbn [List.filter]. assert (String.eqb (path_of d) "" = false) as -> by done. cbn [negb String.eqb].
  change (join [path_of d; ".."; ".."] "/") with (path_of d +:+ String "/" "../..").
  assert (elements (path_of d +:+ String "/" "../..") = es) as Hel.
  { unfold elements. change (is_rooted (path_of d +:+ _)) with true. rewrite split_app_sep, split_path_of by done.
    rewrite decide_False by (by intros [_ ?]%app_eq_nil). rewrite foldl_app. cbn [foldl clean_step String.eqb orb].
    rewrite (clean_steps_normal true [] d) by done. cbn [app]. change (split "../.." "/") with [".."; ".."].
    assert (d = (es ++ ["internal"]) ++ ["testutil"]) as -> by (unfold d; by rewrite <-app_assoc). cbn [foldl]. unfold clean_step at 2. cbn [String.eqb Ascii.eqb Bool.eqb orb].
    rewrite !last_snoc. cbn [String.eqb Ascii.eqb Bool.eqb]. rewrite removelast_last. unfold clean_step. cbn [String.eqb Ascii.eqb Bool.eqb orb].
    by rewrite last_snoc, removelast_last. }
  rewrite (Clean_rooted (path_of d +:+ _)) by done. by rewrite Hel, Clean_path_of.
Qed.

Example root_of_repo : ModuleRoot (Some "/src/go-run/internal/testutil/mmdb.go") = Done "/src/go-run".
Proof. by vm_compute. Qed.
