(* ===== verification/Amnezia.v ===== *)
(** * [internal/amnezia/sites.go]: Amnezia site lists

    [EncodeSites] writes a JSON array of objects with [json.MarshalIndent];
    Amnezia reads the CIDR in [hostname], or in [ip] on iOS. *)

From stdpp Require Import base list strings gmap.
From Stdlib Require Import ZArith Lia Ascii.
From S2P Require Import Prelude GoStrings Netip Files Json.

(** ** json.MarshalIndent *)

Definition hex_digit (n : Z) : ascii := digit_char n.

(** A byte in a string; those of the text outside of ASCII, which must be valid
    UTF-8, are copied (the two line separators that are escaped do not occur in
    what the program encodes). *)
Definition quote_char (c : ascii) : string :=
  let b := byte_of c in
  if Ascii.eqb c dq || Ascii.eqb c backslash then String backslash (String c "")
  else if b =? 8 then String backslash "b"
  else if b =? 12 then String backslash "f"
  else if b =? 10 then String backslash "n"
  else if b =? 13 then String backslash "r"
  else if b =? 9 then String backslash "t"
  else if (b <? 32) || Ascii.eqb c "<" || Ascii.eqb c ">" || Ascii.eqb c "&"
  then String backslash ("u00" +:+ String (hex_digit (b / 16)) (String (hex_digit (b mod 16)) ""))
  else String c "".
Fixpoint quote_text (s : string) : string :=
  match s with EmptyString => "" | String c s => quote_char c +:+ quote_text s end.
Definition json_string (s : string) : string := String dq (quote_text s +:+ String dq "").

(** ** Sites *)

Definition Format : Type := string.
Definition FormatOfficial : Format := "official".
Definition FormatIOS : Format := "ios".

Definition ParseFormat (s : string) : result Format :=
  let f := ToLower (trim_space s) in
  if String.eqb f FormatOfficial || String.eqb f "" then Ok FormatOfficial
  else if String.eqb f FormatIOS then Ok FormatIOS
  else Err (ErrFmt "unknown format %q (want official|ios)" [s] []).

Record site := SiteMk { Hostname : string; IP : string }.

(** [MarshalIndent(sites, "", "  ")] of a slice that is not nil. *)
Definition site_text (s : site) : string :=
  "  {" +:+ nl +:+
  "    " +:+ json_string "hostname" +:+ ": " +:+ json_string (Hostname s) +:+ "," +:+ nl +:+
  "    " +:+ json_string "ip" +:+ ": " +:+ json_string (IP s) +:+ nl +:+
  "  }".
Definition MarshalIndent (sites : list site) : string :=
  match sites with
  | [] => "[]"
  | _ => "[" +:+ nl +:+ join (site_text <$> sites) ("," +:+ nl) +:+ nl +:+ "]"
  end.

(** The site of the prefix number [i]. *)
Definition make_site (f : Format) (i : nat) (p : Prefix) : list site :=
  let cidr := prefix_string p in
  if String.eqb f FormatOfficial then [SiteMk cidr ""]
  else if String.eqb f FormatIOS then [SiteMk ("site-" +:+ itoa (Z.of_nat i + 1)) cidr]
  else [].

Definition EncodeSites (prefs : list Prefix) (format : Format) : result string :=
  f ← ParseFormat format;
  Ok (MarshalIndent (concat (imap (make_site f) prefs))).

Definition WriteSites `{Files W} (path : string) (prefs : list Prefix) (format : Format) (w : W) : option error * W :=
  match EncodeSites prefs format with
  | Err e => (Some e, w)
  | Ok data => fs_write_file path (data +:+ nl) w
  end.

(** ** The reader *)

(** The members of a site, and the prefix it stands for in a format. *)
Definition read_site (j : json) : option site :=
  into_struct ["hostname"; "ip"]
    (λ n v s, if String.eqb n "hostname" then h ← into_string v (Hostname s); Some (SiteMk h (IP s))
              else i ← into_string v (IP s); Some (SiteMk (Hostname s) i)) j (SiteMk "" "").
Definition site_prefix (f : Format) (s : site) : option Prefix :=
  ParsePrefix_opt (if String.eqb f FormatIOS then IP s else Hostname s).

(** What an import of the text gives. *)
Definition import (f : Format) (text : string) : option (list Prefix) :=
  j ← parse_json text; l ← into_raws j; sites ← mapM read_site l; mapM (site_prefix f) sites.

(** ** Lemmas: quoting *)

(** Characters that a JSON string holds as they are. *)
Definition is_plain (c : ascii) : bool :=
  (32 <=? byte_of c) && (byte_of c <? 128) && negb (Ascii.eqb c dq) && negb (Ascii.eqb c backslash) &&
  negb (Ascii.eqb c "<") && negb (Ascii.eqb c ">") && negb (Ascii.eqb c "&").
Definition plain : string → bool := string_forall is_plain.

Lemma is_plain_inv c : is_plain c = true →
  32 <= byte_of c < 128 ∧ Ascii.eqb c dq = false ∧ Ascii.eqb c backslash = false ∧ quote_char c = String c "".
Proof.
  unfold is_plain. intros H. bool_to_prop. apply Ascii.eqb_neq in H0, H1, H2, H3, H4.
  split; [lia|]. split; [done|]. split; [done|]. unfold quote_char. rewrite H0, H1, H2, H3, H4. cbn [orb].
  repeat (rewrite (proj2 (Z.eqb_neq _ _)) by lia). rewrite (proj2 (Z.ltb_ge _ _)) by lia. done.
Qed.

Lemma quote_plain s : plain s = true → quote_text s = s.
Proof.
  induction s as [|c s IH]; [done|]. unfold plain. cbn [string_forall]. intros [Hc Hs]%andb_true_iff.
  apply is_plain_inv in Hc as (_ & _ & _ & Hq). cbn [quote_text]. rewrite Hq, IH by done. done.
Qed.

Lemma unquote_plain s : plain s = true → unquote s = Some s.
Proof.
  induction s as [|c s IH]; [done|]. unfold plain. cbn [string_forall]. intros [Hc Hs]%andb_true_iff.
  apply is_plain_inv in Hc as (Hr & _ & Hb & _). cbn [unquote]. rewrite Hb, (proj2 (Z.ltb_lt _ _)) by lia. by rewrite IH.
Qed.

Lemma lex_plain s : ∀ raw rest, plain s = true →
  lex (InStr raw false) (s +:+ rest) = lex (InStr (raw +:+ s) false) rest.
Proof.
  induction s as [|c s IH]; intros raw rest; [by rewrite app_nil_r_str|]. unfold plain. cbn [string_forall].
  intros [Hc Hs]%andb_true_iff. apply is_plain_inv in Hc as (Hr & Hq & Hb & _).
  change (String c s +:+ rest) with (String c (s +:+ rest)). cbn [lex]. rewrite Hq, Hb, (proj2 (Z.ltb_ge _ _)) by lia.
  rewrite IH by done. by rewrite app_assoc_str.
Qed.

Lemma lex_json_string s rest : plain s = true →
  lex (Word "") (json_string s +:+ rest) = ts ← lex (Word "") rest; Some (TVal (JStr s) :: ts).
Proof.
  intros Hs. unfold json_string. rewrite quote_plain by done.
  change (String dq (s +:+ String dq "") +:+ rest) with (String dq ((s +:+ String dq "") +:+ rest)).
  rewrite app_assoc_str. cbn [lex]. change (is_json_space dq) with false. change (is_json_punct dq) with false.
  rewrite Ascii.eqb_refl. cbn [flush]. change (flush "" ?x) with x. rewrite lex_plain by done. cbn [String.append].
  cbn [lex]. rewrite Ascii.eqb_refl, unquote_plain by done. done.
Qed.

(** ** Lemmas: the text *)

Definition site_json (s : site) : json := JObj [("hostname", JStr (Hostname s)); ("ip", JStr (IP s))].
Definition site_tokens (s : site) : list token :=
  [TPunct "{"; TVal (JStr "hostname"); TPunct ":"; TVal (JStr (Hostname s)); TPunct ",";
   TVal (JStr "ip"); TPunct ":"; TVal (JStr (IP s)); TPunct "}"].
Definition plain_site (s : site) : Prop := plain (Hostname s) = true ∧ plain (IP s) = true.

(** The lexer skips blanks and reads a punctuation mark. *)
Lemma lex_blank c rest : is_json_space c = true → lex (Word "") (String c rest) = lex (Word "") rest.
Proof. intros Hc. cbn [lex]. by rewrite Hc. Qed.
Lemma lex_punct c rest : is_json_punct c = true →
  lex (Word "") (String c rest) = ts ← lex (Word "") rest; Some (TPunct c :: ts).
Proof.
  intros Hc. cbn [lex]. rewrite Hc. assert (is_json_space c = false) as ->; [|done].
  unfold is_json_punct in Hc. rewrite !orb_true_iff, !Ascii.eqb_eq in Hc. by destruct Hc as [[[[[-> | ->] | ->] | ->] | ->] | ->].
Qed.

Lemma bind_tokens (o : option (list token)) (ts1 ts2 : list token) :
  (ts ← (ts ← o; Some (ts2 ++ ts)); Some (ts1 ++ ts)) = (ts ← o; Some ((ts1 ++ ts2) ++ ts)).
Proof. destruct o; [|done]. cbn [mbind option_bind]. by rewrite app_assoc. Qed.

Lemma lex_site s rest : plain_site s →
  lex (Word "") (site_text s +:+ rest) = ts ← lex (Word "") rest; Some (site_tokens s ++ ts).
Proof.
  intros [Hh Hi]. unfold site_text, nl. rewrite !app_assoc_str. cbn [String.append].
  repeat (rewrite lex_blank by done || rewrite lex_punct by done). 
  repeat first [rewrite lex_blank by done | rewrite lex_punct by done | rewrite lex_json_string by done].
  destruct (lex (Word "") rest); done.
Qed.

Fixpoint sites_tokens (sites : list site) : list token :=
  match sites with
  | [] => []
  | [s] => site_tokens s
  | s :: sites => site_tokens s ++ TPunct "," :: sites_tokens sites
  end.

Lemma lex_sites sites rest : sites ≠ [] → Forall plain_site sites →
  lex (Word "") (join (site_text <$> sites) ("," +:+ nl) +:+ rest) = ts ← lex (Word "") rest; Some (sites_tokens sites ++ ts).
Proof.
  intros Hne Hs. induction Hs as [|s sites Hp Hs IH]; [done|]. destruct sites as [|s' sites]; [by apply lex_site|].
  change (join (site_text <$> s :: s' :: sites) ("," +:+ nl))
    with (site_text s +:+ ("," +:+ nl) +:+ join (site_text <$> s' :: sites) ("," +:+ nl)).
  assert (∀ x, ("," +:+ nl) +:+ x = String "," (String (char_of 10) x)) as Hsep by done.
  rewrite !(app_assoc_str (site_text s)), lex_site by done. rewrite app_assoc_str, Hsep, lex_punct, lex_blank by done. rewrite IH by done. destruct (lex (Word "") rest) as [ts|]; [|done].
  cbn [mbind option_bind]. change (sites_tokens (s :: s' :: sites)) with (site_tokens s ++ TPunct "," :: sites_tokens (s' :: sites)).
  by rewrite <-app_assoc.
Qed.

Lemma psteps_app p ts1 ts2 : psteps p (ts1 ++ ts2) = p ← psteps p ts1; psteps p ts2.
Proof. revert p. induction ts1 as [|t ts1 IH]; intros p; [done|]. cbn [app psteps]. destruct (pstep p t); [apply IH|done]. Qed.

Lemma psteps_site s elems b :
  psteps (PValue b [FArr elems]) (site_tokens s) = Some (PSep [FArr (elems ++ [site_json s])]).
Proof. reflexivity. Qed.

Lemma psteps_sites sites : sites ≠ [] → ∀ elems b,
  psteps (PValue b [FArr elems]) (sites_tokens sites) = Some (PSep [FArr (elems ++ (site_json <$> sites))]).
Proof.
  induction sites as [|s [|s' sites] IH]; intros Hne elems b; [done|apply psteps_site|].
  change (sites_tokens (s :: s' :: sites)) with (site_tokens s ++ TPunct "," :: sites_tokens (s' :: sites)).
  rewrite psteps_app, psteps_site. cbn [mbind option_bind psteps pstep Ascii.eqb Bool.eqb]. rewrite IH by done.
  by rewrite <-app_assoc.
Qed.

Lemma parse_MarshalIndent sites : Forall plain_site sites →
  parse_json (MarshalIndent sites) = Some (JArr (site_json <$> sites)).
Proof.
  intros Hs. destruct (decide (sites = [])) as [->|Hne]; [done|].
  assert (MarshalIndent sites = "[" +:+ nl +:+ join (site_text <$> sites) ("," +:+ nl) +:+ nl +:+ "]") as -> by (by destruct sites).
  unfold parse_json. assert (∀ x, "[" +:+ nl +:+ x = String "[" (String (char_of 10) x)) as -> by done.
  rewrite lex_punct, lex_blank by done. rewrite lex_sites by done.
  assert (lex (Word "") (nl +:+ "]") = Some [TPunct "]"]) as -> by done. cbn [mbind option_bind psteps].
  cbn [pstep Ascii.eqb Bool.eqb]. change (push [] (FArr []) (PValue true)) with (Some (PValue true [FArr []])).
  cbn [option_bind mbind]. rewrite psteps_app, psteps_sites by done. done.
Qed.

Lemma read_site_json s : read_site (site_json s) = Some s.
Proof. unfold read_site, site_json. decode_struct. by destruct s. Qed.

Lemma mapM_read_sites sites : mapM read_site (site_json <$> sites) = Some sites.
Proof.
  apply mapM_Some. induction sites as [|s sites IH]; [constructor|]. cbn [fmap list_fmap]. constructor; [apply read_site_json|done].
Qed.

(** ** Lemmas: sites of prefixes *)

Lemma cidr_char_plain c : is_cidr_char c = true → is_plain c = true.
Proof.
  intros H. assert (forallb (λ c, negb (is_cidr_char c) || is_plain c) ((λ n, ascii_of_nat n) <$> seq 0 256) = true) as Hall by (by vm_compute).
  rewrite forallb_forall_elem in Hall. specialize (Hall c). rewrite H in Hall. apply Hall.
  apply list_elem_of_fmap. exists (nat_of_ascii c). rewrite ascii_nat_embedding. split; [done|].
  apply elem_of_seq. pose proof (nat_ascii_bounded c). lia.
Qed.

Lemma prefix_string_plain p : prefix4 p → plain (prefix_string p) = true.
Proof. intros Hp%prefix_string_chars. revert Hp. apply string_forall_impl, cidr_char_plain. Qed.

Lemma itoa_plain n : 0 <= n → plain (itoa n) = true.
Proof.
  intros Hn%itoa_chars%num_chars_cidr. revert Hn. apply string_forall_impl, cidr_char_plain.
Qed.

Lemma make_site_one f i p : f = FormatOfficial ∨ f = FormatIOS → prefix4 p →
  ∃ s, make_site f i p = [s] ∧ plain_site s ∧ site_prefix f s = Some p.
Proof.
  intros Hf Hp. pose proof (prefix_string_plain p Hp) as Hpl.
  assert (ParsePrefix_opt (prefix_string p) = Some p) as Hparse.
  { pose proof (ParsePrefix_string p Hp) as H. unfold ParsePrefix in H. destruct (ParsePrefix_opt (prefix_string p)); [congruence|done]. }
  destruct Hf as [-> | ->]; eexists; (split; [reflexivity|]); (split; [|exact Hparse]).
  - by split.
  - split; [|done]. change (plain ("site-" +:+ itoa (Z.of_nat i + 1))) with (plain (itoa (Z.of_nat i + 1))). apply itoa_plain. lia.
Qed.

Lemma make_sites f prefs : f = FormatOfficial ∨ f = FormatIOS → Forall prefix4 prefs → ∀ g,
  let sites := concat (imap (λ i, make_site f (g + i)) prefs) in
  Forall plain_site sites ∧ mapM (site_prefix f) sites = Some prefs.
Proof.
  intros Hf Hp. induction Hp as [|p prefs Hpp _ IH]; intros g; [split; [constructor|done]|].
  cbn [imap concat]. destruct (make_site_one f (g + 0) p Hf Hpp) as (s & -> & Hs & Hsp).
  assert (imap ((λ i, make_site f (g + i)) ∘ S) prefs = imap (λ i, make_site f (S g + i)) prefs) as ->.
  { apply imap_ext. intros i x _. simpl. f_equal. lia. }
  destruct (IH (S g)) as [IH1 IH2]. cbn zeta in *. split; [by constructor|]. apply mapM_Some. apply mapM_Some in IH2. by constructor.
Qed.

Lemma ParseFormat_Ok s f : ParseFormat s = Ok f → f = FormatOfficial ∨ f = FormatIOS.
Proof. unfold ParseFormat. repeat bcase; intros [= <-]; auto. Qed.

(** ** Properties *)

(** C31. What Amnezia imports is what was exported: [EncodeSites] of IPv4
    prefixes is JSON, in either format, whose sites, read the way the format
    says, are the prefixes in order; on any other format name it is an error. *)
Theorem EncodeSites_import prefs format :
  Forall prefix4 prefs →
  match ParseFormat format with
  | Ok f => ∃ data, EncodeSites prefs format = Ok data ∧ import f data = Some prefs
  | Err e => EncodeSites prefs format = Err e
  end.
Proof.
  intros Hp. unfold EncodeSites. destruct (ParseFormat format) as [f|e] eqn:Ef; [|done].
  destruct (make_sites f prefs (ParseFormat_Ok _ _ Ef) Hp 0) as [Hs Hm]. eexists. split; [done|].
  unfold import. rewrite parse_MarshalIndent by done. cbn [mbind option_bind into_raws]. rewrite mapM_read_sites. exact Hm.
Qed.

(** ** Witnesses *)

Lemma EncodeSites_import_witness :
  ∃ data, EncodeSites [PrefixMk (Addr4 167772160) 8; PrefixMk (Addr4 3232235776) 16] " iOS" = Ok data ∧
          import FormatIOS data = Some [PrefixMk (Addr4 167772160) 8; PrefixMk (Addr4 3232235776) 16].
Proof.
  apply (EncodeSites_import [PrefixMk (Addr4 167772160) 8; PrefixMk (Addr4 3232235776) 16] " iOS").
  repeat constructor; by vm_compute.
Defined.
