(* ===== verification/Cli.v ===== *)
(** * [internal/cli]: the gotun command

    [Run] dispatches to [FetchPrefixes], [ExportAmnezia], [Apply] and [Clear].
    [Apply] builds a policy from its flags and the files they name
    ([build_policy]) and hands it to [apply.Reconcile]; [loadWGQuick] reads a
    wg-quick file.

    The state [W] is everything outside: files, network, database reader,
    commands ([Runner], for [linux.ExecRunner]) and standard output
    ([Console]). *)

From stdpp Require Import base list strings gmap.
From Stdlib Require Import ZArith Lia Ascii.
From S2P Require Import Prelude GoStrings Netip Collapse Runner Policy.
From S2P Require Apply.
From S2P Require Import Files Parse Maxmind Amnezia.

(** Standard output, a line at a time. *)
Class Console (W : Type) := Println : string → W → W.

(** ** wg-quick files *)

(** [fmt.Sscanf(v, "%d", &x)] with the value of [x] before: a sign, digits, and
    whatever follows; [x] is unchanged on an error. *)
Fixpoint take_digits (s : string) : string :=
  match s with
  | String c s => if is_digit c then String c (take_digits s) else ""
  | EmptyString => ""
  end.
Definition Sscanf_d (v : string) (x : Z) : Z :=
  let '(sign, s) :=
    match trim_left v with
    | String c s => if Ascii.eqb c "+" || Ascii.eqb c "-" then (String c "", s) else ("", String c s)
    | EmptyString => ("", "")
    end in
  let ds := take_digits s in
  if String.eqb ds "" then x
  else match Atoi (sign +:+ ds) with (n, true) => n | _ => x end.

Definition set_PrivateKey (v : string) (c : WireGuardConfig) : WireGuardConfig :=
  WireGuardConfigMk v (wc_ListenPort c) (wc_Address c) (wc_Peer c).
Definition set_ListenPort (v : string) (c : WireGuardConfig) : WireGuardConfig :=
  WireGuardConfigMk (wc_PrivateKey c) (Sscanf_d v (wc_ListenPort c)) (wc_Address c) (wc_Peer c).
Definition set_Address (v : string) (c : WireGuardConfig) : WireGuardConfig :=
  let addr := trim_space (default "" (head (split v ","))) in
  let a :=
    match ParsePrefix addr with
    | Ok p => p
    | Err _ => match ParseAddr addr with Ok a => PrefixFrom a 32 | Err _ => wc_Address c end
    end in
  WireGuardConfigMk (wc_PrivateKey c) (wc_ListenPort c) a (wc_Peer c).
Definition set_Peer (f : WireGuardPeer → WireGuardPeer) (c : WireGuardConfig) : WireGuardConfig :=
  WireGuardConfigMk (wc_PrivateKey c) (wc_ListenPort c) (wc_Address c) (f (wc_Peer c)).

Definition parse_allowed (v : string) : list Prefix :=
  omap (λ p, match ParsePrefix (trim_space p) with Ok p => Some p | Err _ => None end) (split v ",").

(** [k = v] in a section. *)
Definition load_kv (section k v : string) (c : WireGuardConfig) : WireGuardConfig :=
  let iface := String.eqb section "[interface]" in
  let peer := String.eqb section "[peer]" in
  if iface && String.eqb k "PrivateKey" then set_PrivateKey v c
  else if iface && String.eqb k "Address" then set_Address v c
  else if iface && String.eqb k "ListenPort" then set_ListenPort v c
  else if peer && String.eqb k "PublicKey" then set_Peer (λ p, WireGuardPeerMk v (Endpoint p) (AllowedIPs p) (PersistentKeepalive p)) c
  else if peer && String.eqb k "Endpoint" then set_Peer (λ p, WireGuardPeerMk (PublicKey p) v (AllowedIPs p) (PersistentKeepalive p)) c
  else if peer && String.eqb k "AllowedIPs" then
    set_Peer (λ p, WireGuardPeerMk (PublicKey p) (Endpoint p) (AllowedIPs p ++ parse_allowed v) (PersistentKeepalive p)) c
  else if peer && String.eqb k "PersistentKeepalive" then
    set_Peer (λ p, WireGuardPeerMk (PublicKey p) (Endpoint p) (AllowedIPs p) (Sscanf_d v (PersistentKeepalive p))) c
  else c.

Definition load_line (st : string * WireGuardConfig) (line : string) : string * WireGuardConfig :=
  let '(section, cfg) := st in
  let line := trim_space line in
  if String.eqb line "" || has_prefix line "#" then st
  else if has_prefix line "[" then (ToLower line, cfg)
  else
    match cut line "=" with
    | None => st
    | Some (k, v) => (section, load_kv section (trim_space k) (trim_space v) cfg)
    end.

Definition loadWGQuick `{Files W} (path : string) (w : W) : result WireGuardConfig :=
  data ← fs_read w path;
  Ok (foldl load_line ("", WireGuardConfigZero) (split data (char_of 10))).2.

(** ** commands.go *)

(** The arguments of [Apply]. *)
Record apply_args := ApplyArgsMk {
  prefixesPath : string;
  endpoint : string;
  wgConfig : string;
  wgClientsConfig : string;
  lanCSV : string;
  tunnelUp : bool
}.

(** The LANs of a comma-separated list. *)
Definition add_lan (lans : list Prefix) (p : string) : result (list Prefix) :=
  let p := trim_space p in
  if String.eqb p "" then Ok lans else pref ← ParsePrefix p; Ok (lans ++ [pref]).
Definition parse_lans (lanCSV : string) : result (list Prefix) :=
  if String.eqb lanCSV "" then Ok [] else fold_result add_lan [] (split lanCSV ",").

Section commands.
Context {W : Type} `{Files W, !Http W, !Archives W, !Mmdb W, !Runner W, !Console W}.
Context (ord : gmap string Json.json → list Json.json) (table_ord : gmap Z (list RouteSpec) → list (Z * list RouteSpec)).

(** The prefixes of the path, a directory or a list. *)
Definition load_prefixes (path : string) (w : W) : result (list Prefix) :=
  match fs_stat w path with
  | Err e => Err e
  | Ok true => ParseMaxMindCountryDir path "RU" w
  | Ok false =>
      match ParseCIDRFile path w with
      | (_, Some e) => Err e
      | (prefs, None) => Ok prefs
      end
  end.

Definition load_config (path : string) (w : W) : result WireGuardConfig :=
  if String.eqb path "" then Ok WireGuardConfigZero else loadWGQuick path w.

(** [Apply] up to the reconciliation; [CollapseIPv4] may panic. *)
Definition build_policy (a : apply_args) (w : W) : outcome (result Policy) :=
  if String.eqb (prefixesPath a) "" then Ret (Err (ErrFmt "-prefixes is required" [] []))
  else if String.eqb (endpoint a) "" then Ret (Err (ErrFmt "-endpoint is required" [] []))
  else
    match ParseAddr (endpoint a) with
    | Err err => Ret (Err (ErrFmt "endpoint: %w" [] [err]))
    | Ok ep =>
        match load_prefixes (prefixesPath a) w with
        | Err err => Ret (Err err)
        | Ok prefs =>
            prefs ← CollapseIPv4 prefs;
            Ret (
              lans ← parse_lans (lanCSV a);
              wg ← load_config (wgConfig a) w;
              inbound ← load_config (wgClientsConfig a) w;
              Ok (PolicyMk prefs DefaultTunnelIface ep lans DefaultMark DefaultTableID DefaultRulePriority FailClosed (tunnelUp a) wg inbound))
        end
    end.

Definition Apply (a : apply_args) (w : W) : outcome (option error) * W :=
  match build_policy a w with
  | Panic m => (Panic m, w)
  | Ret (Err err) => (Ret (Some err), w)
  | Ret (Ok p) =>
      let '(res, err, w, _) := exec (Apply.Reconcile ord table_ord p) w in
      match err with
      | Some err => (Ret (Some err), w)
      | None => (Ret None, Println ("gotun apply: " +:+ itoa (Apply.Changes res) +:+ " changes") w)
      end
  end.

Definition Clear (w : W) : option error * W :=
  let '(err, w, _) := exec Apply.Clear w in (err, w).

(** [%d → %d], of the two lengths. *)
Definition counts (raw collapsed : list Prefix) : string :=
  itoa (Z.of_nat (length raw)) +:+ " → " +:+ itoa (Z.of_nat (length collapsed)).

Definition FetchPrefixes (license country out mmdbPath : string) (w : W) : outcome (option error) * W :=
  match LoadCountryPrefixesRaw license country mmdbPath w with
  | (Err err, w) => (Ret (Some err), w)
  | (Ok raw, w) =>
      match CollapseIPv4 raw with
      | Panic m => (Panic m, w)
      | Ret collapsed =>
          match WriteCIDRList out collapsed w with
          | (Some err, w) => (Ret (Some err), w)
          | (None, w) => (Ret None, Println ("gotun fetch: collapsed " +:+ counts raw collapsed +:+ " prefixes → " +:+ out) w)
          end
      end
  end.

Definition FetchMaxMind (license country out : string) : W → outcome (option error) * W := FetchPrefixes license country out "".

Definition ExportAmnezia (license country out mmdbPath format : string) (w : W) : outcome (option error) * W :=
  match ParseFormat format with
  | Err err => (Ret (Some err), w)
  | Ok siteFormat =>
      match LoadCountryPrefixesRaw license country mmdbPath w with
      | (Err err, w) => (Ret (Some err), w)
      | (Ok raw, w) =>
          match CollapseIPv4 raw with
          | Panic m => (Panic m, w)
          | Ret collapsed =>
              match WriteSites out collapsed siteFormat w with
              | (Some err, w) => (Ret (Some err), w)
              | (None, w) =>
                  let w := Println ("gotun amnezia: collapsed " +:+ counts raw collapsed +:+ " sites → " +:+ out +:+
                                    " (format=" +:+ siteFormat +:+ ")") w in
                  (Ret None, Println "gotun amnezia: in Amnezia, enable site-based split tunneling with listed sites bypassing the VPN" w)
              end
          end
      end
  end.

(** ** Flags

    [flag.FlagSet.Parse] of string flags: the values, from the defaults. *)
Fixpoint parse_flags (args : list string) (vals : gmap string string) : result (gmap string string) :=
  match args with
  | [] => Ok vals
  | s :: args =>
      if (String.length s <? 2)%nat || negb (has_prefix s "-") then Ok vals
      else if String.eqb s "--" then Ok vals
      else
        let name := if has_prefix s "--" then String.substring 2 (String.length s - 2) s else String.substring 1 (String.length s - 1) s in
        if has_prefix name "-" || has_prefix name "=" then Err (ErrFmt "bad flag syntax: %s" [s] [])
        else
          let '(key, value) := match cut name "=" with Some (k, v) => (k, Some v) | None => (name, None) end in
          match vals !! key with
          | None =>
              if String.eqb key "help" || String.eqb key "h" then Err (ErrStd "flag" "help requested")
              else Err (ErrFmt "flag provided but not defined: -%s" [key] [])
          | Some _ =>
              match value, args with
              | Some v, _ => parse_flags args (<[key := v]> vals)
              | None, v :: args => parse_flags args (<[key := v]> vals)
              | None, [] => Err (ErrFmt "flag needs an argument: -%s" [key] [])
              end
          end
  end.

Definition flag_value (vals : gmap string string) (name : string) : string := default "" (vals !! name).

(** ** cli.go

    [license_env] is [MAXMIND_LICENSE_KEY] in the environment. *)
Context (license_env : string).

Definition fetch_flags : gmap string string :=
  list_to_map [("out", "prefixes.txt"); ("country", "RU"); ("license", license_env); ("mmdb", "")].
Definition runFetch (args : list string) (w : W) : outcome (option error) * W :=
  match parse_flags args fetch_flags with
  | Err e => (Ret (Some e), w)
  | Ok fs => FetchPrefixes (flag_value fs "license") (flag_value fs "country") (flag_value fs "out") (flag_value fs "mmdb") w
  end.

Definition amnezia_flags : gmap string string :=
  list_to_map [("out", "amnezia-sites.json"); ("country", "RU"); ("license", license_env); ("mmdb", ""); ("format", "official")].
Definition runAmnezia (args : list string) (w : W) : outcome (option error) * W :=
  match parse_flags args amnezia_flags with
  | Err e => (Ret (Some e), w)
  | Ok fs =>
      ExportAmnezia (flag_value fs "license") (flag_value fs "country") (flag_value fs "out") (flag_value fs "mmdb") (flag_value fs "format") w
  end.

Definition apply_flags : gmap string string :=
  list_to_map [("prefixes", ""); ("endpoint", ""); ("wg-config", ""); ("wg-clients-config", ""); ("tunnel-up", "true"); ("lan", "")].
Definition apply_args_of (fs : gmap string string) : apply_args :=
  let up := equal_fold (flag_value fs "tunnel-up") "true" || String.eqb (flag_value fs "tunnel-up") "1" in
  ApplyArgsMk (flag_value fs "prefixes") (flag_value fs "endpoint") (flag_value fs "wg-config") (flag_value fs "wg-clients-config")
    (flag_value fs "lan") up.
Definition runApply (args : list string) (w : W) : outcome (option error) * W :=
  match parse_flags args apply_flags with
  | Err e => (Ret (Some e), w)
  | Ok fs => Apply (apply_args_of fs) w
  end.

Definition runClear (args : list string) (w : W) : outcome (option error) * W :=
  match parse_flags args ∅ with
  | Err e => (Ret (Some e), w)
  | Ok _ => let '(e, w) := Clear w in (Ret e, w)
  end.

Definition Run (args : list string) (w : W) : outcome (option error) * W :=
  match args with
  | [] => (Ret (Some (ErrFmt "usage: gotun <fetch|amnezia|apply|clear>" [] [])), w)
  | cmd :: args =>
      if String.eqb cmd "fetch" then runFetch args w
      else if String.eqb cmd "amnezia" then runAmnezia args w
      else if String.eqb cmd "apply" then runApply args w
      else if String.eqb cmd "clear" then runClear args w
      else (Ret (Some (ErrFmt "unknown command %q" [cmd] [])), w)
  end.
End commands.

(** [cmd/gotun]: the exit code. *)
Definition main_exit (r : outcome (option error)) : Z :=
  match r with Ret None => 0 | Ret (Some _) => 1 | Panic _ => 2 end.

(** ** Lemmas: prefixes *)

Definition with_direct (raw : list Prefix) (p : Policy) : Policy :=
  PolicyMk raw (TunnelInterface p) (TunnelEndpoint p) (LANs p) (Mark p) (Table p) (RulePriority p) (FailModeOf p) (TunnelUp p)
    (WireGuard p) (InboundWireGuard p).

(** A destination as a packet has it: 32 bits, or IPv6. *)
Definition packet_dst (a : Addr) : Prop := match a with Addr4 n => 0 <= n < 2 ^ 32 | Addr6 _ _ => True | AddrZero => False end.

Lemma same_coverage_forward raw p dev_up pkt :
  packet_dst (Spec.dst pkt) → same_coverage (DirectPrefixes p) raw →
  Spec.policy_forward dev_up p pkt = Spec.policy_forward dev_up (with_direct raw p) pkt.
Proof.
  intros Hd Hs. unfold Spec.policy_forward. destruct (Is6 (Spec.dst pkt)) eqn:H6; [done|].
  assert (Spec.direct p (Spec.dst pkt) = Spec.direct (with_direct raw p) (Spec.dst pkt)) as ->; [|done].
  unfold Spec.direct. f_equal. destruct (Spec.dst pkt) as [|n|]; [done| |done]. by apply Hs.
Qed.

Section policy.
Context {W : Type} `{Files W}.

Lemma load_prefixes_prefix4 path (w : W) raw : load_prefixes path w = Ok raw → Forall prefix4 raw.
Proof.
  unfold load_prefixes. destruct (fs_stat w path) as [[|]|]; [apply ParseMaxMind_prefix4| |done].
  unfold ParseCIDRFile. destruct (fs_read w path) as [text|]; [|done].
  destruct (ParseCIDRList text) as [ps [e|]] eqn:E; [done|]. intros [= <-]. by eapply ParseCIDRList_prefix4.
Qed.

(** What a policy built by [Apply] is made of. *)
Lemma build_policy_inv a (w : W) :
  match build_policy a w with
  | Panic _ => False
  | Ret (Err _) => True
  | Ret (Ok p) =>
      ∃ raw ep, load_prefixes (prefixesPath a) w = Ok raw ∧ CollapseIPv4 raw = Ret (DirectPrefixes p) ∧
        ParseAddr (endpoint a) = Ok ep ∧ TunnelEndpoint p = ep ∧ parse_lans (lanCSV a) = Ok (LANs p) ∧
        load_config (wgConfig a) w = Ok (WireGuard p) ∧ load_config (wgClientsConfig a) w = Ok (InboundWireGuard p) ∧
        TunnelUp p = tunnelUp a ∧
        p = PolicyMk (DirectPrefixes p) DefaultTunnelIface ep (LANs p) DefaultMark DefaultTableID DefaultRulePriority FailClosed
              (TunnelUp p) (WireGuard p) (InboundWireGuard p)
  end.
Proof.
  unfold build_policy. destruct (String.eqb (prefixesPath a) ""); [done|]. destruct (String.eqb (endpoint a) ""); [done|].
  destruct (ParseAddr (endpoint a)) as [ep|] eqn:Ee; [|done].
  destruct (load_prefixes (prefixesPath a) w) as [raw|] eqn:El; [|done].
  destruct (CollapseIPv4_total raw (load_prefixes_prefix4 _ _ _ El)) as (c & Hc & _). rewrite Hc. cbn [mbind outcome_bind].
  destruct (parse_lans (lanCSV a)) as [lans|] eqn:E1; [|done]. cbn [mbind result_bind].
  destruct (load_config (wgConfig a) w) as [wg|] eqn:E2; [|done]. cbn [result_bind].
  destruct (load_config (wgClientsConfig a) w) as [inb|] eqn:E3; [|done]. cbn [result_bind].
  by exists raw, ep.
Qed.
End policy.

Lemma ParseAddr_valid s a : ParseAddr s = Ok a → addr_valid a = true.
Proof. intros Ha. destruct (Is6 a) eqn:E; [by destruct a|]. by destruct (ParseAddr_ok s a Ha E) as (n & -> & _). Qed.

Lemma prefix4_valid p : prefix4 p → prefix_valid p = true ∧ Is6 (p_ip p) = false.
Proof. intros (n & b & -> & _ & Hb)%prefix4_inv. split; [|done]. apply Z.leb_le. simpl. lia. Qed.

(** ** Lemmas: wg-quick files *)

(** What [loadWGQuick] looks for, as a text. *)
Definition kv (k v : string) : string := k +:+ " = " +:+ v.
Definition wg_lines (c : WireGuardConfig) : list string :=
  [ "[Interface]"; kv "PrivateKey" (wc_PrivateKey c); kv "Address" (prefix_string (wc_Address c));
    kv "ListenPort" (itoa (wc_ListenPort c)); "";
    "[Peer]"; kv "PublicKey" (PublicKey (wc_Peer c)); kv "Endpoint" (Endpoint (wc_Peer c));
    kv "AllowedIPs" (join (prefix_string <$> AllowedIPs (wc_Peer c)) ", ");
    kv "PersistentKeepalive" (itoa (PersistentKeepalive (wc_Peer c))) ].

(** Keys are words; the address and the allowed networks are IPv4; the
    numbers fit in an [int]. *)
Definition wg_ok (c : WireGuardConfig) : Prop :=
  word (wc_PrivateKey c) ∧ word (PublicKey (wc_Peer c)) ∧ word (Endpoint (wc_Peer c)) ∧
  prefix4 (wc_Address c) ∧ Forall prefix4 (AllowedIPs (wc_Peer c)) ∧ AllowedIPs (wc_Peer c) ≠ [] ∧
  0 <= wc_ListenPort c < 2 ^ 63 ∧ 0 <= PersistentKeepalive (wc_Peer c) < 2 ^ 63.

Lemma take_digits_all s : string_forall is_digit s = true → take_digits s = s.
Proof. induction s as [|c s IH]; [done|]. cbn [string_forall take_digits]. intros [-> Hs]%andb_true_iff. by rewrite IH. Qed.

Lemma Sscanf_itoa n x : 0 <= n < 2 ^ 63 → Sscanf_d (itoa n) x = n.
Proof.
  intros Hn. pose proof (fmt_uint_decimal n ltac:(lia)) as Hd. pose proof (Atoi_itoa n Hn) as Ha.
  rewrite itoa_nonneg in * by lia. pose proof (fmt_uint_nonempty 10 n) as Hne. revert Hd Ha Hne. generalize (fmt_uint 10 n).
  intros s Hd Ha Hne. unfold Sscanf_d.
  destruct s as [|c s]; [done|]. pose proof Hd as Hd'. cbn [string_forall] in Hd'. apply andb_true_iff in Hd' as [Hc _].
  assert (is_visible c = true) as Hv by (unfold is_visible, is_digit in *; lia).
  unfold trim_left. rewrite trim_left_with_head by auto with go_strings.
  assert (Ascii.eqb c "+" = false) as -> by (apply Ascii.eqb_neq; by intros ->).
  assert (Ascii.eqb c "-" = false) as -> by (apply Ascii.eqb_neq; by intros ->). cbn [orb].
  rewrite take_digits_all by done. rewrite (proj2 (String.eqb_neq _ _)) by done. cbn [String.append]. by rewrite Ha.
Qed.

Lemma trim_space_cons c s : is_ascii_space c = true → trim_space (String c s) = trim_space s.
Proof. intros Hc. unfold trim_space, trim_left. cbn [trim_left_with]. by rewrite Hc. Qed.

(** A line [k = v] sets [k]. *)
Lemma load_line_kv section c k v :
  word k → no_char "=" k = true → has_prefix k "#" = false → has_prefix k "[" = false → visible_ends v = true →
  load_line (section, c) (kv k v) = (section, load_kv section k v c).
Proof.
  intros Hk Heq Hh Hb Hv. assert (visible_ends k = true) as Hke by (apply visible_visible_ends; apply Hk).
  unfold load_line, kv. rewrite trim_space_visible_ends by (by apply visible_ends_app).
  assert (∃ a k', k = String a k') as (a & k' & E) by (destruct Hk as [Hk _]; destruct k; [done|by do 2 eexists]).
  assert (has_prefix (k +:+ " = " +:+ v) "#" = false) as -> by (subst k; exact Hh).
  assert (has_prefix (k +:+ " = " +:+ v) "[" = false) as -> by (subst k; exact Hb).
  assert (String.eqb (k +:+ " = " +:+ v) "" = false) as -> by (by subst k). cbn [orb].
  assert (k +:+ " = " +:+ v = (k +:+ " ") +:+ String "=" (String " " v)) as -> by (by rewrite app_assoc_str).
  rewrite cut_app.
  - rewrite trim_space_snoc, trim_space_cons, trim_space_visible_ends by done. done.
  - unfold no_char in *. by rewrite string_forall_app, Heq.
Qed.

Lemma prefix_string_word p : prefix4 p → word (prefix_string p).
Proof.
  intros Hp. split; [by apply prefix_string_nonempty|]. by apply cidr_chars_visible, prefix_string_chars.
Qed.

Lemma parse_allowed_join ps : ps ≠ [] → Forall prefix4 ps → parse_allowed (join (prefix_string <$> ps) ", ") = ps.
Proof.
  assert (∀ p, prefix4 p → trim_space (prefix_string p) = prefix_string p ∧ no_char "," (prefix_string p) = true) as Hps.
  { intros p Hp. split; [by apply trim_space_visible, prefix_string_word|].
    apply cidr_chars_no_char; [done|]. by apply prefix_string_chars. }
  intros Hne Hp. induction Hp as [|p ps Hpp Hp IH]; [done|]. destruct (Hps p Hpp) as [Ht Hn]. destruct ps as [|q ps].
  - unfold parse_allowed. cbn [fmap list_fmap join]. rewrite split_no_char by done. cbn [omap list_omap].
    by rewrite Ht, ParsePrefix_string.
  - change (join (prefix_string <$> p :: q :: ps) ", ")
      with (prefix_string p +:+ String "," (String " " (join (prefix_string <$> q :: ps) ", "))).
    unfold parse_allowed. rewrite split_app by done. cbn [omap list_omap]. rewrite Ht, ParsePrefix_string by done.
    f_equal. transitivity (parse_allowed (join (prefix_string <$> q :: ps) ", ")); [|by apply IH]. unfold parse_allowed. cbn [split].
    change (Ascii.eqb " " ",") with false. cbn match.
    pose proof (split_nonempty (join (prefix_string <$> q :: ps) ", ") ",") as Hs.
    destruct (split _ ",") as [|x xs]; [done|]. cbn [omap list_omap]. by rewrite trim_space_cons.
Qed.

Lemma allowed_visible_ends ps : ps ≠ [] → Forall prefix4 ps → visible_ends (join (prefix_string <$> ps) ", ") = true.
Proof.
  intros Hne Hp. apply visible_ends_join; [by destruct ps|]. apply Forall_fmap. eapply list.Forall_impl; [exact Hp|].
  intros p. apply prefix_string_word.
Qed.

Lemma word_visible_ends s : word s → visible_ends s = true.
Proof. intros [H1 H2]. by apply visible_visible_ends. Qed.

(** The entries of the two sections, on a configuration. *)
Section entries.
Context (key : string) (port : Z) (addr : Prefix) (pub ep : string) (allowed : list Prefix) (ka : Z).
Notation cfg := (WireGuardConfigMk key port addr (WireGuardPeerMk pub ep allowed ka)).

Lemma load_PrivateKey v :
  load_kv "[interface]" "PrivateKey" v cfg = WireGuardConfigMk v port addr (WireGuardPeerMk pub ep allowed ka).
Proof. reflexivity. Qed.
Lemma load_Address p : prefix4 p →
  load_kv "[interface]" "Address" (prefix_string p) cfg = WireGuardConfigMk key port p (WireGuardPeerMk pub ep allowed ka).
Proof.
  intros Hp. change (load_kv "[interface]" "Address" (prefix_string p) cfg) with (set_Address (prefix_string p) cfg).
  unfold set_Address. rewrite split_no_char by (apply cidr_chars_no_char; [done|]; by apply prefix_string_chars).
  change (default "" (head [prefix_string p])) with (prefix_string p). by rewrite trim_space_visible, ParsePrefix_string by (done || by apply prefix_string_word).
Qed.
Lemma load_ListenPort n : 0 <= n < 2 ^ 63 →
  load_kv "[interface]" "ListenPort" (itoa n) cfg = WireGuardConfigMk key n addr (WireGuardPeerMk pub ep allowed ka).
Proof.
  intros Hn. change (load_kv "[interface]" "ListenPort" (itoa n) cfg) with (set_ListenPort (itoa n) cfg).
  unfold set_ListenPort. by rewrite Sscanf_itoa.
Qed.
Lemma load_PublicKey v :
  load_kv "[peer]" "PublicKey" v cfg = WireGuardConfigMk key port addr (WireGuardPeerMk v ep allowed ka).
Proof. reflexivity. Qed.
Lemma load_Endpoint v :
  load_kv "[peer]" "Endpoint" v cfg = WireGuardConfigMk key port addr (WireGuardPeerMk pub v allowed ka).
Proof. reflexivity. Qed.
Lemma load_AllowedIPs v :
  load_kv "[peer]" "AllowedIPs" v cfg = WireGuardConfigMk key port addr (WireGuardPeerMk pub ep (allowed ++ parse_allowed v) ka).
Proof. reflexivity. Qed.
Lemma load_PersistentKeepalive n : 0 <= n < 2 ^ 63 →
  load_kv "[peer]" "PersistentKeepalive" (itoa n) cfg = WireGuardConfigMk key port addr (WireGuardPeerMk pub ep allowed n).
Proof.
  intros Hn. change (load_kv "[peer]" "PersistentKeepalive" (itoa n) cfg)
    with (set_Peer (λ p, WireGuardPeerMk (PublicKey p) (Endpoint p) (AllowedIPs p) (Sscanf_d (itoa n) (PersistentKeepalive p))) cfg).
  unfold set_Peer. by rewrite Sscanf_itoa.
Qed.
End entries.

Lemma load_wg_lines c : wg_ok c → (foldl load_line ("", WireGuardConfigZero) (wg_lines c)).2 = c.
Proof.
  intros (Hk & Hpub & Hep & Ha & Hal & Hne & Hport & Hka). destruct c as [key port addr [pub ep allowed ka]].
  cbn [wc_PrivateKey wc_Address wc_ListenPort wc_Peer PublicKey Endpoint AllowedIPs PersistentKeepalive] in *.
  pose proof (prefix_string_word addr Ha) as Haw. pose proof (allowed_visible_ends allowed Hne Hal) as Hav.
  assert (∀ n, 0 <= n < 2 ^ 63 → visible_ends (itoa n) = true) as Hn by (intros n ?; apply word_visible_ends, itoa_word; lia).
  unfold wg_lines. cbn [foldl wc_PrivateKey wc_Address wc_ListenPort wc_Peer PublicKey Endpoint AllowedIPs PersistentKeepalive].
  change (load_line ("", WireGuardConfigZero) "[Interface]") with ("[interface]", WireGuardConfigZero).
  assert (∀ st, load_line st "" = st) as Hblank by (by intros []).
  assert (∀ s c, load_line (s, c) "[Peer]" = ("[peer]", c)) as Hpeer by done.
  pose proof (Hn port Hport) as Hvp. pose proof (Hn ka Hka) as Hvk. apply word_visible_ends in Hk, Hpub, Hep.
  pose proof (word_visible_ends _ Haw) as Hva.
  rewrite (load_line_kv _ _ "PrivateKey"), (load_line_kv _ _ "Address"), (load_line_kv _ _ "ListenPort") by done.
  rewrite Hblank, Hpeer.
  rewrite (load_line_kv _ _ "PublicKey"), (load_line_kv _ _ "Endpoint"), (load_line_kv _ _ "AllowedIPs"),
    (load_line_kv _ _ "PersistentKeepalive") by done.
  unfold WireGuardConfigZero, WireGuardPeerZero.
  rewrite load_PrivateKey, load_Address, load_ListenPort, load_PublicKey, load_Endpoint, load_AllowedIPs, load_PersistentKeepalive by done.
  by rewrite parse_allowed_join.
Qed.

Lemma kv_no_newline k v : no_char (char_of 10) k = true → no_char (char_of 10) v = true → no_char (char_of 10) (kv k v) = true.
Proof. intros Hk Hv. unfold kv, no_char in *. by rewrite !string_forall_app, Hk, Hv. Qed.

Lemma wg_lines_no_newline c : wg_ok c → Forall (λ l, no_char (char_of 10) l = true) (wg_lines c).
Proof.
  intros ((_ & Hk) & (_ & Hpub) & (_ & Hep) & Ha & Hal & _ & Hport & Hka).
  assert (∀ s, visible s = true → no_char (char_of 10) s = true) as Hv by (intros s Hs; by apply visible_no_char).
  assert (∀ n, 0 <= n → no_char (char_of 10) (itoa n) = true) as Hn by (intros n ?; by apply Hv, itoa_word).
  assert (∀ p, prefix4 p → no_char (char_of 10) (prefix_string p) = true) as Hp by (intros p ?; by apply Hv, prefix_string_word).
  repeat constructor; apply kv_no_newline; auto; [apply Hn; lia| |apply Hn; lia].
  apply no_char_join; [|done]. apply Forall_fmap. eapply list.Forall_impl; [exact Hal|]. intros p. apply Hp.
Qed.

(** ** Lemmas: fetching, then applying *)

Class ConsoleLaws (W : Type) `{Files W, !Console W} := {
  Println_read text (w : W) path : fs_read (Println text w) path = fs_read w path
}.

Lemma collapse_again raw c : Forall prefix4 raw → CollapseIPv4 raw = Ret c → CollapseIPv4 c = Ret c ∧ Forall prefix4 c.
Proof.
  intros Hr Hc. destruct (CollapseIPv4_total raw Hr) as (c' & E & Hcol & Hc4 & Hs). rewrite Hc in E. injection E as <-.
  split; [|done]. destruct (CollapseIPv4_total c Hc4) as (c2 & -> & Hcol2 & _ & Hs2). f_equal.
  apply collapsed_unique; [done..|]. by apply same_coverage_cov; [apply Hcol2|apply Hcol|].
Qed.

(** What a successful fetch leaves at its path. *)
Lemma FetchPrefixes_load {W} `{Files W, !FilesLaws W, !Http W, !Archives W, !Mmdb W, !Console W, !ConsoleLaws W}
    license country out mmdbPath (w w' : W) :
  FetchPrefixes license country out mmdbPath w = (Ret None, w') → fs_stat w' out = Ok false →
  ∃ raw w1 c, LoadCountryPrefixesRaw license country mmdbPath w = (Ok raw, w1) ∧ Forall prefix4 raw ∧
    CollapseIPv4 raw = Ret c ∧ CollapseIPv4 c = Ret c ∧ load_prefixes out w' = Ok c.
Proof.
  unfold FetchPrefixes. destruct (LoadCountryPrefixesRaw license country mmdbPath w) as [[raw|] w1] eqn:El; [|done].
  pose proof (LoadRaw_prefix4 _ _ _ _ _ _ El) as Hr. destruct (CollapseIPv4 raw) as [c|] eqn:Ec; [|done].
  destruct (WriteCIDRList out c w1) as [[e|] w2] eqn:Ew; [done|]. intros Hret Hstat.
  assert (∃ text, w' = Println text w2) as [text ->] by (injection Hret as <-; by eexists). clear Hret.
  destruct (collapse_again raw c Hr Ec) as [Hc Hc4]. exists raw, w1, c. split_and!; try done.
  unfold load_prefixes. rewrite Hstat. unfold ParseCIDRFile.
  by rewrite Println_read, (WriteCIDRList_read _ _ _ _ Ew), ParseCIDRList_strings by done.
Qed.

(** ** Properties *)

(** C5. The policy of a command line: building it never panics, and when it
    succeeds the policy treats every packet as if all the loaded prefixes had
    been given one by one (collapsing them changes no packet's path), and is
    accepted by [Compile] exactly when the inbound interface, if there is one,
    comes with LANs. *)
Theorem build_policy_faithful {W} `{Files W} a (w : W) :
  (∃ e, build_policy a w = Ret (Err e)) ∨
  (∃ raw p, build_policy a w = Ret (Ok p) ∧ load_prefixes (prefixesPath a) w = Ok raw ∧
    (∀ dev_up pkt, packet_dst (Spec.dst pkt) →
       Spec.policy_forward dev_up p pkt = Spec.policy_forward dev_up (with_direct raw p) pkt) ∧
    (is_ok (Compile p) = true ↔ (wc_PrivateKey (InboundWireGuard p) = "" ∨ LANs p ≠ []))).
Proof.
  pose proof (build_policy_inv a w) as Hi. destruct (build_policy a w) as [[p|e]|m]; [|left; by exists e|done].
  right. destruct Hi as (raw & ep & Hl & Hc & He & Hep & _). exists raw, p. split; [done|]. split; [done|].
  destruct (CollapseIPv4_total raw (load_prefixes_prefix4 _ _ _ Hl)) as (c & Hc' & _ & Hc4 & Hs).
  rewrite Hc in Hc'. injection Hc' as <-. split; [intros dev_up pkt Hd; by apply same_coverage_forward|].
  assert (policy_valid p ↔ (wc_PrivateKey (InboundWireGuard p) = "" ∨ LANs p ≠ [])) as <-.
  { unfold policy_valid. rewrite Hep. split.
    - intros (_ & _ & Hi). destruct (decide (wc_PrivateKey (InboundWireGuard p) = "")); auto.
    - intros Hi. split; [by eapply ParseAddr_valid|]. split; [|naive_solver].
      eapply list.Forall_impl; [exact Hc4|apply prefix4_valid]. }
  split; [|apply Compile_ok]. destruct (Compile p) as [st|] eqn:E; [|done]. intros _. by apply Compile_inv in E as [? _].
Qed.

(** Fetching, then applying: the file that a successful [FetchPrefixes]
    writes gives [Apply] the collapsed prefixes that were loaded, unchanged by
    the round through the file and by the second collapse. *)
Theorem fetch_then_apply {W} `{Files W, !FilesLaws W, !Http W, !Archives W, !Mmdb W, !Console W, !ConsoleLaws W}
    license country out mmdbPath a (w w' : W) p :
  FetchPrefixes license country out mmdbPath w = (Ret None, w') →
  prefixesPath a = out → fs_stat w' out = Ok false → build_policy a w' = Ret (Ok p) →
  ∃ raw w1, LoadCountryPrefixesRaw license country mmdbPath w = (Ok raw, w1) ∧ CollapseIPv4 raw = Ret (DirectPrefixes p).
Proof.
  intros Hf Hpath Hstat Hp. destruct (FetchPrefixes_load _ _ _ _ _ _ Hf Hstat) as (raw & w1 & c & El & _ & Ec & Hc & Hl).
  exists raw, w1. split; [done|]. rewrite Ec. f_equal. pose proof (build_policy_inv a w') as Hi. rewrite Hp in Hi.
  destruct Hi as (raw' & ep & Hl' & Hc' & _). rewrite Hpath, Hl in Hl'. injection Hl' as <-. rewrite Hc in Hc'. congruence.
Qed.

(** C19. Round trip of wg-quick files: a configuration whose keys are words and
    whose networks are IPv4, written as a wg-quick file, is what [loadWGQuick]
    reads. *)
Theorem loadWGQuick_roundtrip {W} `{Files W} path (w : W) c :
  wg_ok c → fs_read w path = Ok (join (wg_lines c) nl) → loadWGQuick path w = Ok c.
Proof.
  intros Hc Hr. unfold loadWGQuick. rewrite Hr. cbn [mbind result_bind].
  change nl with (String (char_of 10) ""). rewrite split_join; [by rewrite load_wg_lines|done|by apply wg_lines_no_newline].
Qed.

(** ** Witnesses *)

#[global] Instance ex_console : Console mem := λ text w, w.
#[global] Instance ex_console_laws : ConsoleLaws mem.
Proof. by split. Qed.

(** A database with two networks of the country, one of another and an IPv6 one. *)
Definition ex_bytes (l : list Z) : string := String.string_of_list_ascii (char_of <$> l).
Definition ex_net (ip mask : list Z) : option IPNet := Some (IPNetMk (ex_bytes ip) (ex_bytes mask)).
#[global] Instance ex_mmdb : Mmdb mem := λ w path, Ok ([
  Ok (ex_net [10; 200; 0; 0] [255; 255; 255; 0], "RU", "");
  Ok (ex_net [10; 200; 1; 0] [255; 255; 255; 0], "", "RU");
  Ok (ex_net [10; 9; 0; 0] [255; 255; 0; 0], "FR", "RU");
  Ok (ex_net (32 :: replicate 15 1) (replicate 4 255 ++ replicate 12 0), "RU", "")], None).

Definition ex_fetched : mem := (FetchPrefixes "" "ru" "prefixes.txt" "geo.mmdb" (MemMk ∅ ∅)).2.
Definition ex_apply : apply_args := ApplyArgsMk "prefixes.txt" "10.10.0.2" "" "" "10.10.0.0/24, ,192.168.0.0/16" true.
Definition ex_built : Policy :=
  PolicyMk [PrefixMk (Addr4 180879360) 23] DefaultTunnelIface (Addr4 168427522) [PrefixMk (Addr4 168427520) 24; PrefixMk (Addr4 3232235520) 16]
    DefaultMark DefaultTableID DefaultRulePriority FailClosed true WireGuardConfigZero WireGuardConfigZero.

Lemma ex_fetched_ok : FetchPrefixes "" "ru" "prefixes.txt" "geo.mmdb" (MemMk ∅ ∅) = (Ret None, ex_fetched).
Proof. vm_compute. reflexivity. Qed.
Lemma ex_stat_ok : fs_stat ex_fetched "prefixes.txt" = Ok false.
Proof. vm_compute. reflexivity. Qed.
Lemma ex_built_ok : build_policy ex_apply ex_fetched = Ret (Ok ex_built).
Proof. vm_compute. reflexivity. Qed.

Lemma fetch_then_apply_witness :
  ∃ raw w1, LoadCountryPrefixesRaw "" "ru" "geo.mmdb" (MemMk ∅ ∅) = (Ok raw, w1) ∧
            CollapseIPv4 raw = Ret [PrefixMk (Addr4 180879360) 23].
Proof.
  exact (fetch_then_apply "" "ru" "prefixes.txt" "geo.mmdb" ex_apply (MemMk ∅ ∅) ex_fetched ex_built
    ex_fetched_ok eq_refl ex_stat_ok ex_built_ok).
Defined.

Definition ex_config : WireGuardConfig :=
  WireGuardConfigMk "aGVsbG8=" 51820 (PrefixMk (Addr4 168427777) 24)
    (WireGuardPeerMk "d29ybGQ=" "198.51.100.7:51820" [default_dst; PrefixMk (Addr4 168427776) 24] 25).

Lemma loadWGQuick_roundtrip_witness :
  loadWGQuick "wg.conf" (MemMk {["wg.conf" := join (wg_lines ex_config) nl]} ∅) = Ok ex_config.
Proof.
  apply (loadWGQuick_roundtrip "wg.conf" (MemMk {["wg.conf" := join (wg_lines ex_config) nl]} ∅) ex_config).
  - unfold wg_ok. cbn [ex_config wc_PrivateKey wc_Address wc_ListenPort wc_Peer PublicKey Endpoint AllowedIPs PersistentKeepalive].
    do 3 (split; [split; [discriminate|reflexivity]|]). split; [apply (bool_decide_unpack _); reflexivity|].
    split; [repeat constructor; apply (bool_decide_unpack _); reflexivity|]. split; [discriminate|]. lia.
  - vm_compute. reflexivity.
Defined.
