(* ===== verification/Gotun.v ===== *)
(** * The gotun command on a machine

    [gotun fetch], [gotun apply] and [gotun clear] as a user runs them: each is
    a run of [Cli.Run] on one state, which has the files, the network and the
    kernel of [Gateway].  After a fetch and an apply that both exit with success,
    the machine forwards packets as the arguments and the country's prefixes
    say ([asked]); a clear takes away what an apply added. *)

From stdpp Require Import base list strings gmap.
From Stdlib Require Import ZArith Lia Ascii.
From S2P Require Import Prelude GoStrings Netip Collapse Runner Policy Json Nftables NftScript Sysctl Routing Gateway.
From S2P Require Apply.
From S2P Require Import Files Parse Maxmind Cli.

Import Policy.Spec.

(** ** What is asked of the machine *)

(** IPv6 is dropped, and what inbound clients send to the LANs; the country's
    networks, the LANs and the tunnel endpoint are reached directly, all else by
    the tunnel, when it is up and its device is there, or not at all. *)
Definition asked (country lans : list Prefix) (ep : Addr) (clients up : bool) (dev_up : string → bool) (pkt : packet) : option egress :=
  if Is6 (dst pkt) then None
  else if clients && String.eqb (iif pkt) "wg-clients" && in_prefixes lans (dst pkt) then None
  else if in_prefixes country (dst pkt) || in_prefixes lans (dst pkt) || bool_decide (dst pkt = ep) then Some MainTable
  else if up && dev_up "wg-exit" then Some (Via "wg-exit")
  else Some Blackholed.

(** An endpoint and LANs of IPv4, if they are addresses at all, and LANs that do
    not overlap. *)
Definition ip4_args (a : apply_args) : Prop :=
  (∀ ep, ParseAddr (endpoint a) = Ok ep → Is6 ep = false) ∧
  (∀ lans, parse_lans (lanCSV a) = Ok lans → Forall (λ l, Is6 (p_ip l) = false) lans ∧ conflict_free lans = true).

(** Printing changes nothing else. *)
Class Machine (W : Type) `{Files W, !Console W, !Runner W} := {
  #[global] mc_gateway :: Gateway W;
  #[global] mc_console :: ConsoleLaws W;
  Println_kernel text (w : W) :
    (∀ k, sysctl_value (Println text w) k = sysctl_value w k) ∧ ruleset_of (Println text w) = ruleset_of w ∧
    rules_of (Println text w) = rules_of w ∧ ∀ t, routes_of (Println text w) t = routes_of w t
}.

(** ** Lemmas: the policy of the arguments *)

Lemma add_lan_inv acc s acc' :
  add_lan acc s = Ok acc' → ∃ new, acc' = acc ++ new ∧ Forall (λ p, Is6 (p_ip p) = false → prefix4 p) new.
Proof.
  unfold add_lan. cbv zeta. destruct (String.eqb (trim_space s) ""); [intros [= <-]; exists []; by rewrite app_nil_r|].
  destruct (ParsePrefix (trim_space s)) as [p|] eqn:E; [|done]. cbn [mbind result_bind]. intros [= <-]. exists [p].
  split; [done|]. constructor; [|done]. by apply (ParsePrefix_ok _ _ E).
Qed.

Lemma fold_add_lan l : ∀ acc lans,
  fold_result add_lan acc l = Ok lans → ∃ new, lans = acc ++ new ∧ Forall (λ p, Is6 (p_ip p) = false → prefix4 p) new.
Proof.
  induction l as [|s l IH]; intros acc lans; cbn [fold_result]; [intros [= <-]; exists []; by rewrite app_nil_r|].
  destruct (add_lan acc s) as [acc'|] eqn:E; [|done]. destruct (add_lan_inv _ _ _ E) as (n1 & -> & H1).
  intros (n2 & -> & H2)%IH. exists (n1 ++ n2). rewrite app_assoc. split; [done|]. by apply Forall_app.
Qed.

Lemma parse_lans_prefix4 s lans :
  parse_lans s = Ok lans → Forall (λ l, Is6 (p_ip l) = false) lans → Forall prefix4 lans.
Proof.
  unfold parse_lans. destruct (String.eqb s ""); [by intros [= <-]|]. intros (new & -> & Hnew)%fold_add_lan H6.
  rewrite list.Forall_forall in Hnew, H6 |- *. auto.
Qed.

(** The members of a collapsed list do not overlap. *)
Lemma collapsed_conflict_free l : collapsed l → conflict_free l = true.
Proof.
  intros Hl. apply forallb_forall_elem. intros p Hp. apply forallb_forall_elem. intros q Hq. apply negb_true_iff.
  assert (∀ p q, p ∈ l → q ∈ l → Contains p (p_ip q) = true → p = q) as Hin.
  { clear p q Hp Hq. intros p q Hp Hq Hc. pose proof (collapsed_canon l p Hl Hp) as Hcp. pose proof (collapsed_canon l q Hl Hq) as Hcq.
    pose proof (canon_lt q Hcq). pose proof (canon_range q Hcq). apply (collapsed_disjoint l p q (lo q)); [done..| |lia].
    apply canon_covers; [done|lia|].
    destruct Hcq as (b & i & -> & _). done. }
  unfold clash. destruct (Contains p (p_ip q)) eqn:E1.
  - rewrite (Hin p q Hp Hq E1). cbn [orb andb]. by rewrite bool_decide_true.
  - destruct (Contains q (p_ip p)) eqn:E2; [|done]. rewrite (Hin q p Hq Hp E2). cbn [orb andb]. by rewrite bool_decide_true.
Qed.

(** The policy that [Apply] builds meets what the kernel needs. *)
Lemma built_loadable `{Files W} a (w : W) p :
  build_policy a w = Ret (Ok p) → ip4_args a → loadable p ∧ routable p ∧ compiled_rule p = IPRuleSpecMk 100 1 100.
Proof.
  intros Hb [Hep Hlan]. pose proof (build_policy_inv a w) as Hi. rewrite Hb in Hi.
  destruct Hi as (raw & ep & Hl & Hc & He & <- & Hlans & _ & _ & _ & Hp).
  destruct (CollapseIPv4_total raw (load_prefixes_prefix4 _ _ _ Hl)) as (c & Hc' & Hcol & Hc4 & _). rewrite Hc in Hc'. injection Hc' as <-.
  destruct (ParseAddr_ok _ _ He (Hep _ He)) as (n & En & Hn).
  destruct (Hlan _ Hlans) as [Hl6 Hlc]. split; [|split].
  - split.
    + split; [done|]. split; [by apply (parse_lans_prefix4 _ _ Hlans)|]. split; [by exists n|]. rewrite Hp. by vm_compute.
    + unfold set_conflict_free. by rewrite collapsed_conflict_free, Hlc, orb_true_r.
  - unfold routable. rewrite Hp. cbn. unfold wf_int. split_and!; [done|done| |done|done|right; by split].
    apply (bool_decide_unpack _). by vm_compute.
  - rewrite Hp. done.
Qed.

Lemma built_asked `{Files W} a (w : W) p :
  build_policy a w = Ret (Ok p) →
  ∃ raw, load_prefixes (prefixesPath a) w = Ok raw ∧ CollapseIPv4 raw = Ret (DirectPrefixes p) ∧
    ParseAddr (endpoint a) = Ok (TunnelEndpoint p) ∧ parse_lans (lanCSV a) = Ok (LANs p) ∧
    load_config (wgClientsConfig a) w = Ok (InboundWireGuard p) ∧
    ∀ country dev_up pkt, packet_dst (dst pkt) → same_coverage (DirectPrefixes p) country →
      policy_forward dev_up p pkt = asked country (LANs p) (TunnelEndpoint p) (Spec.inbound p) (tunnelUp a) dev_up pkt.
Proof.
  intros Hb. pose proof (build_policy_inv a w) as Hi. rewrite Hb in Hi.
  destruct Hi as (raw & ep & Hl & Hc & He & <- & Hlans & _ & Hin & Hup & Hp).
  exists raw. do 5 (split; [done|]). intros country dev_up pkt Hd Hs. rewrite (same_coverage_forward country) by done.
  clear Hs Hin He Hc Hlans Hb. destruct p as [dp ti te ln mk tb rp fm tu wg inb]. cbn in Hp, Hup. injection Hp as; subst.
  unfold policy_forward, asked, direct. cbn [with_direct TunnelUp LANs DirectPrefixes TunnelEndpoint].
  change (policy_iface _) with "wg-exit". rewrite (bool_decide_ext (te = dst pkt) (dst pkt = te)) by done.
  rewrite (orb_comm (in_prefixes ln _ || _)), orb_assoc. done.
Qed.

(** ** Lemmas: successful runs *)

Section machine.
Context `{Machine W, !FilesLaws W, !Http W, !Archives W, !Mmdb W}.
Context (ord : gmap string json → list json) (table_ord : gmap Z (list RouteSpec) → list (Z * list RouteSpec)) (env : string).

#[local] Notation gotun := (Run ord table_ord env).

(** The machine before the apply of these arguments ([prepared]); and without
    anything that looks like the program's. *)
Definition ready (a : apply_args) (w : W) : Prop :=
  ∀ p, build_policy a w = Ret (Ok p) → prepared p w.
Definition untouched (w : W) : Prop :=
  ruleset_of w !! owned = None ∧ ∀ r, r ∈ rules_of w → lr_prio r ≠ 100.

Lemma gotun_fetch args fs (w w' : W) :
  parse_flags args (fetch_flags env) = Ok fs → gotun ("fetch" :: args) w = (Ret None, w') →
  FetchPrefixes (flag_value fs "license") (flag_value fs "country") (flag_value fs "out") (flag_value fs "mmdb") w = (Ret None, w').
Proof. intros Hf. unfold Run. cbn [String.eqb Ascii.eqb Bool.eqb]. unfold runFetch. by rewrite Hf. Qed.

Lemma gotun_apply args fs (w w' : W) :
  parse_flags args apply_flags = Ok fs → gotun ("apply" :: args) w = (Ret None, w') →
  ∃ p res w1 cs text, build_policy (apply_args_of fs) w = Ret (Ok p) ∧
    exec (Apply.Reconcile ord table_ord p) w = ((res, None), w1, cs) ∧ w' = Println text w1.
Proof.
  intros Hf. unfold Run. cbn [String.eqb Ascii.eqb Bool.eqb]. unfold runApply. rewrite Hf. unfold Apply.
  destruct (build_policy (apply_args_of fs) w) as [[p|e]|m]; [|done|done].
  destruct (exec (Apply.Reconcile ord table_ord p) w) as [[[res [e|]] w1] cs] eqn:E; [done|]. intros [= <-]. by do 5 eexists.
Qed.

(** Everything a successful [gotun apply] leaves. *)
Lemma gotun_apply_spec args fs (w w' : W) :
  range_order ord → table_order table_ord → parse_flags args apply_flags = Ok fs → gotun ("apply" :: args) w = (Ret None, w') →
  ip4_args (apply_args_of fs) → ready (apply_args_of fs) w →
  ∃ p, build_policy (apply_args_of fs) w = Ret (Ok p) ∧
    (∀ k, k ∈ gateway_keys → sysctl_value w' k = "1") ∧
    (∃ t, ruleset_of w' !! owned = Some t ∧ ∀ dev_up rs pkt, in_order (rules_of w') rs → addr_valid (dst pkt) = true →
       kernel_forward dev_up t rs (own_routes w') pkt = policy_forward dev_up p pkt) ∧
    (∀ dev_up rs, in_order (rules_of w') rs →
       kernel_route dev_up (own_routes w') rs 0 = MainTable ∧
       kernel_route dev_up (own_routes w') rs (policy_mark p) = egress_marked p dev_up) ∧
    only_own w' DefaultTableID ∧
    (∀ k, k ≠ owned → ruleset_of w' !! k = ruleset_of w !! k) ∧
    ((∀ r, r ∈ rules_of w → lr_prio r ≠ 100) → rules_of w' ≡ₚ LiveRuleMk 100 (Some 1) "100" :: rules_of w).
Proof.
  intros Hnord Hord Hf Hrun H4 Hready. destruct (gotun_apply _ _ _ _ Hf Hrun) as (p & res & w1 & cs & text & Hb & He & ->).
  destruct (built_loadable _ _ _ Hb H4) as (Hr & Hrt & Hrule). exists p. split; [done|].
  destruct (Compile p) as [st|e] eqn:Ec; [|unfold Apply.Reconcile in He; by rewrite Ec in He].
  pose proof (apply_spec ord table_ord p st w Hnord Hord Ec Hr Hrt (Hready p Hb)) as Hs. rewrite He in Hs.
  destruct (Hs eq_refl) as (Hsys & (t & Ht & Hfw) & Hroute & Hown & Hother & Hfresh).
  destruct (Println_kernel text w1) as (Ek & Et & Er & Ero). rewrite Et, Er.
  assert (∀ dev_up rs m, kernel_route dev_up (own_routes (Println text w1)) rs m = kernel_route dev_up (own_routes w1) rs m) as Hk.
  { intros dev_up rs m. assert (∀ t, own_routes (Println text w1) t = own_routes w1 t) as Eo by (intros; unfold own_routes; by rewrite Ero).
    clear -Eo. induction rs as [|r rs IH]; [done|]. cbn [kernel_route]. by rewrite Eo, IH. }
  split_and!.
  - intros k Hkey. rewrite Ek. destruct (Compile_system p st Ec) as (_ & Hkeys & _). rewrite <-Hkeys in Hkey.
    apply list_elem_of_fmap in Hkey as (sp & -> & Hsp). rewrite list.Forall_forall in Hsys. rewrite (Hsys _ Hsp).
    unfold Compile in Ec. destruct (validate p); [done|]. injection Ec as <-. cbn in Hsp. set_solver.
  - exists t. split; [done|]. intros dev_up rs pkt Hrs Hv. rewrite <-(Hfw dev_up rs pkt Hrs Hv). unfold kernel_forward.
    destruct (table_verdict t "prerouting" pkt 0); [done|]. destruct (table_verdict t "forward" pkt _); [done|]. by rewrite Hk.
  - intros dev_up rs Hrs. rewrite !Hk. by apply Hroute.
  - rewrite Hrule in Hown. unfold only_own. by rewrite Ero.
  - done.
  - intros Hfree. rewrite Hfresh; [by rewrite Hrule|]. unfold free_priority. by rewrite Hrule.
Qed.

(** ** Properties *)

(** C1. The command does what it is asked: after a [gotun fetch] and a [gotun
    apply] of the fetched file that both succeed, forwarding is on and IPv6 is
    off, and whichever devices are up the machine sends every packet it
    forwards where the arguments say: the country's networks as they were
    loaded, the LANs and the endpoint directly, the rest by the tunnel or
    nowhere.  The LANs are IPv4 and do not overlap ([ip4_args]), and the machine
    is [prepared] before the apply: an owned table is that of an earlier policy,
    whose clients and direct hosts are kept; no other rule takes the packets and
    the marks of the others do not begin with the digit 1; table 100 has routes of
    the program's form and can be flushed. *)
Theorem gotun_fetch_apply_forwards fargs aargs ffs afs (w w1 w2 : W) :
  range_order ord → table_order table_ord → parse_flags fargs (fetch_flags env) = Ok ffs → parse_flags aargs apply_flags = Ok afs →
  flag_value afs "prefixes" = flag_value ffs "out" → fs_stat w1 (flag_value ffs "out") = Ok false →
  ip4_args (apply_args_of afs) → ready (apply_args_of afs) w1 →
  gotun ("fetch" :: fargs) w = (Ret None, w1) → gotun ("apply" :: aargs) w1 = (Ret None, w2) →
  ∃ country ep lans clients t,
    (LoadCountryPrefixesRaw (flag_value ffs "license") (flag_value ffs "country") (flag_value ffs "mmdb") w).1 = Ok country ∧
    ParseAddr (flag_value afs "endpoint") = Ok ep ∧ parse_lans (flag_value afs "lan") = Ok lans ∧
    load_config (flag_value afs "wg-clients-config") w1 = Ok clients ∧
    (∀ k, k ∈ gateway_keys → sysctl_value w2 k = "1") ∧ only_own w2 DefaultTableID ∧ ruleset_of w2 !! owned = Some t ∧
    ∀ dev_up rs pkt, in_order (rules_of w2) rs → packet_dst (dst pkt) →
      kernel_forward dev_up t rs (own_routes w2) pkt =
      asked country lans ep (negb (String.eqb (wc_PrivateKey clients) "")) (tunnelUp (apply_args_of afs)) dev_up pkt.
Proof.
  intros Hnord Hord Hff Hfa Hout Hstat H4 Hready Hfetch Happly.
  destruct (FetchPrefixes_load _ _ _ _ _ _ (gotun_fetch _ _ _ _ Hff Hfetch) Hstat) as (raw & wl & c & El & Hr4 & Ec & Hcc & Hload).
  destruct (gotun_apply_spec _ _ _ _ Hnord Hord Hfa Happly H4 Hready) as (p & Hb & Hsys & (t & Ht & Hfw) & _ & Hown & _).
  destruct (built_asked _ _ _ Hb) as (raw' & Hl & Hc' & He & Hlans & Hclients & Hasked).
  change (prefixesPath (apply_args_of afs)) with (flag_value afs "prefixes") in Hl. rewrite Hout, Hload in Hl. injection Hl as <-.
  rewrite Hcc in Hc'. injection Hc' as ->.
  exists raw, (TunnelEndpoint p), (LANs p), (InboundWireGuard p), t. rewrite El. do 7 (split; [done|]).
  intros dev_up rs pkt Hrs Hd. rewrite Hfw by (done || by destruct (dst pkt)). apply Hasked; [done|].
  destruct (CollapseIPv4_total raw Hr4) as (c' & Ec' & _ & _ & Hs). rewrite Ec in Ec'. by injection Ec' as <-.
Qed.

(** C16. A clear undoes an apply: on a machine without an owned table and rules
    at the program's priority, [gotun apply] and then [gotun clear] leave the
    tables and rules the machine had, and an empty routing table.  It relies on
    the machine being [prepared] for the apply, and on the three commands the
    clear ignores the failures of ([deletions_work]): the deletions of the table
    and of the rule, and the flush of the routing table, succeed when there is
    something to delete. *)
Theorem gotun_apply_clear args fs (w w1 w2 : W) err :
  range_order ord → table_order table_ord → parse_flags args apply_flags = Ok fs → ip4_args (apply_args_of fs) → ready (apply_args_of fs) w →
  untouched w → deletions_work (St := W) →
  gotun ("apply" :: args) w = (Ret None, w1) → gotun ["clear"] w1 = (err, w2) →
  err = Ret None ∧ ruleset_of w2 = ruleset_of w ∧ rules_of w2 ≡ₚ rules_of w ∧ routes_of w2 DefaultTableID = [].
Proof.
  intros Hnord Hord Hf H4 Hready [Hnone Hfree] Hdel Happly. destruct (gotun_apply_spec _ _ _ _ Hnord Hord Hf Happly H4 Hready) as
    (p & Hb & _ & (t & Ht & _) & _ & _ & Hother & Hrules).
  pose proof (clear_restores (IPRuleSpecMk 100 1 100) w w1 Hdel eq_refl Hnone Hfree (mk_is_Some _ _ Ht) Hother (Hrules Hfree)) as Hs.
  unfold Run. cbn. unfold Clear. destruct (exec Apply.Clear w1) as [[e s2] cs]. destruct Hs as (-> & ? & ? & ?). by intros [= <- <-].
Qed.

End machine.

(** ** A machine

    A disk, the kernel of [Gateway.World], and what was printed. *)
Record host := HostMk { disk : mem; kernel : World.state; printed : list string }.

Definition on_disk {A} (r : A * mem) (h : host) : A * host := (r.1, HostMk r.2 (kernel h) (printed h)).
Definition on_kernel {A} (r : A * World.state) (h : host) : A * host := (r.1, HostMk (disk h) r.2 (printed h)).

#[global] Instance host_files : Files host := {
  fs_read h := fs_read (disk h);
  fs_read_dir h := fs_read_dir (disk h);
  fs_stat h := fs_stat (disk h);
  fs_create p h := on_disk (fs_create p (disk h)) h;
  fs_append p t h := on_disk (fs_append p t (disk h)) h;
  fs_write_file p t h := on_disk (fs_write_file p t (disk h)) h;
  fs_mkdir_all p h := on_disk (fs_mkdir_all p (disk h)) h;
  fs_mkdir_temp p h := on_disk (fs_mkdir_temp p (disk h)) h;
  fs_remove_all p h := HostMk (fs_remove_all p (disk h)) (kernel h) (printed h);
  fs_walk h := fs_walk (disk h)
}.
#[global] Instance host_files_laws : FilesLaws host.
Proof.
  split; intros *; [exact (create_law path (disk w))|exact (append_law path text (disk w) c)|exact (write_file_law path text (disk w))].
Qed.
#[global] Instance host_http : Http host := λ url h, on_disk (http_get url (disk h)) h.
#[global] Instance host_archives : Archives host := {
  zip_OpenReader h := zip_OpenReader (disk h);
  tar_read h := tar_read (disk h)
}.
#[global] Instance host_mmdb : Mmdb host := λ h, mmdb_networks (disk h).
#[global] Instance host_console : Console host := λ text h, HostMk (disk h) (kernel h) (printed h ++ [text]).
#[global] Instance host_console_laws : ConsoleLaws host.
Proof. by split. Qed.
#[global] Instance host_runner : Runner host := λ c h, on_kernel (run_call c (kernel h)) h.

Lemma host_run c h : run_call c h = on_kernel (run_call c (kernel h)) h.
Proof. done. Qed.

(** Each law of the kernel is one of the machine. *)
Ltac on_host law := rewrite host_run; pose proof law as Hlaw; unfold on_kernel; cbn [fst snd kernel];
  match type of Hlaw with context [run_call ?c ?k] => by destruct (run_call c k) as [[? ?] ?] end.

#[global] Program Instance host_proc : ProcKernel host := 
  {| sysctl_value := λ h, sysctl_value (kernel h); affects := Sysctl.Sim.reaches |}.
Next Obligation. intros h k c Hk Hc. on_host (read_law (kernel h) k c Hk Hc). Qed.
Next Obligation. intros h k v c Hk Hv Hc. on_host (write_law (kernel h) k v c Hk Hv Hc). Qed.

#[global] Program Instance host_nft : NftKernel host := {| ruleset_of := λ h, ruleset_of (kernel h) |}.
Next Obligation. intros h spec. on_host (list_law (kernel h) spec). Qed.
Next Obligation. intros h script r' Hs. on_host (load_law (kernel h) script r' Hs). Qed.
Next Obligation. intros h family tab. on_host (delete_law (kernel h) family tab). Qed.

#[global] Program Instance host_route : RouteKernel host :=
  {| rules_of := λ h, rules_of (kernel h); routes_of := λ h, routes_of (kernel h) |}.
Next Obligation. intros h. on_host (rule_show_law (kernel h)). Qed.
Next Obligation. intros h n Hn. on_host (rule_del_law (kernel h) n Hn). Qed.
Next Obligation. intros h r Hr. on_host (rule_add_law (kernel h) r Hr). Qed.
Next Obligation. intros h t Ht. on_host (show_law (kernel h) t Ht). Qed.
Next Obligation. intros h t Ht. on_host (flush_law (kernel h) t Ht). Qed.
Next Obligation. intros h rt Hrt. on_host (add_law (kernel h) rt Hrt). Qed.

#[global] Program Instance host_gateway : Gateway host := {}.
Next Obligation. by repeat constructor. Qed.
Next Obligation. intros c h k Hk Hc. on_host (frame_sysctl c (kernel h) k Hk Hc). Qed.
Next Obligation. intros c h Hc. on_host (frame_tables c (kernel h) Hc). Qed.
Next Obligation. intros c h Hc. on_host (frame_rules c (kernel h) Hc). Qed.
Next Obligation. intros c h t Hc. on_host (frame_routes c (kernel h) t Hc). Qed.
Next Obligation. intros c h t Hc Ht. on_host (frame_links c (kernel h) t Hc Ht). Qed.

#[global] Instance host_machine : Machine host.
Proof. by refine (Build_Machine _ _ _ _ _ _ _). Defined.

(** ** Witnesses *)

Definition ex_host : host := HostMk (MemMk ∅ ∅) ex_machine [].
Definition ex_fetch_args : list string := ["-mmdb"; "geo.mmdb"; "-out=ru.txt"].
Definition ex_apply_args : list string := ["-prefixes"; "ru.txt"; "-endpoint"; "10.10.0.2"; "-lan"; "10.10.0.0/24, ,192.168.0.0/16"].
Definition flags_of (r : result (gmap string string)) : gmap string string := match r with Ok m => m | Err _ => ∅ end.
Definition ex_ffs : gmap string string := flags_of (parse_flags ex_fetch_args (fetch_flags "")).
Definition ex_afs : gmap string string := flags_of (parse_flags ex_apply_args apply_flags).
Definition ex_host1 : host := (Run ex_ord ex_table_ord "" ("fetch" :: ex_fetch_args) ex_host).2.
Definition ex_host2 : host := (Run ex_ord ex_table_ord "" ("apply" :: ex_apply_args) ex_host1).2.

Lemma ex_ffs_ok : parse_flags ex_fetch_args (fetch_flags "") = Ok ex_ffs.
Proof. vm_compute. reflexivity. Qed.
Lemma ex_afs_ok : parse_flags ex_apply_args apply_flags = Ok ex_afs.
Proof. vm_compute. reflexivity. Qed.
Lemma ex_fetch_ok : Run ex_ord ex_table_ord "" ("fetch" :: ex_fetch_args) ex_host = (Ret None, ex_host1).
Proof.
  assert ((Run ex_ord ex_table_ord "" ("fetch" :: ex_fetch_args) ex_host).1 = Ret None) as <- by (by vm_compute). apply surjective_pairing.
Qed.
Lemma ex_apply_ok : Run ex_ord ex_table_ord "" ("apply" :: ex_apply_args) ex_host1 = (Ret None, ex_host2).
Proof.
  assert ((Run ex_ord ex_table_ord "" ("apply" :: ex_apply_args) ex_host1).1 = Ret None) as <- by (by vm_compute). apply surjective_pairing.
Qed.
Example ex_printed : printed ex_host2 = ["gotun fetch: collapsed 2 → 1 prefixes → ru.txt"; "gotun apply: 5 changes"].
Proof. by vm_compute. Qed.

Lemma ex_ip4 : ip4_args (apply_args_of ex_afs).
Proof.
  split.
  - intros ep Hep. assert (ParseAddr (endpoint (apply_args_of ex_afs)) = Ok (Addr4 168427522)) as E by (by vm_compute).
    rewrite E in Hep. by injection Hep as <-.
  - intros lans Hl. assert (parse_lans (lanCSV (apply_args_of ex_afs)) = Ok (LANs ex_built)) as E by (by vm_compute).
    rewrite E in Hl. injection Hl as <-. split; [by repeat constructor|by vm_compute].
Qed.

Lemma ex_build h : disk h = disk ex_host1 → build_policy (apply_args_of ex_afs) h = Ret (Ok ex_built).
Proof.
  intros Hd. transitivity (build_policy (apply_args_of ex_afs) ex_host1); [|vm_cast_no_check (eq_refl (Ret (A := result Policy) (Ok ex_built)))].
  destruct h as [d k l]. cbn in Hd. by subst d.
Qed.

Lemma host_list spec h : (run_call (list_call spec) h).1 = (run_call (list_call spec) (World.tables (kernel h))).1.
Proof. rewrite <-world_list. done. Qed.

Lemma host_flushable t : wf_int t → flushable (St := host) t.
Proof. intros Ht h Hne. rewrite host_run. by apply (world_flushable t Ht (kernel h)). Qed.

(** A machine with the rules the kernel starts with, and a table of routes of an
    earlier run, is ready if its owned table is. *)
Lemma ex_ready_for h :
  disk h = disk ex_host1 → World.ip (kernel h) = World.ip ex_machine →
  (∀ h', ruleset_of h' = ruleset_of h → own_table ex_built h') → ready (apply_args_of ex_afs) h.
Proof.
  intros Hd Hip Ht p Hb. rewrite (ex_build h Hd) in Hb. injection Hb as <-.
  assert (@rules_of host _ (gw_route (Gateway := mc_gateway)) h =
    [LiveRuleMk 0 None "local"; LiveRuleMk 32766 None "main"; LiveRuleMk 32767 None "default"]) as Hr0.
  { change (Routing.Sim.rules (World.ip (kernel h)) = Routing.Sim.rules (World.ip ex_machine)). by rewrite Hip. }
  split; [done|]. change (compiled_rule ex_built) with ex_rule. split; [|split; [|split]].
  - intros r Hr. rewrite Hr0 in Hr. right.
    repeat (apply elem_of_cons in Hr as [->|Hr]; [split; [done|]; cbn; intros m [=]|]). by apply elem_of_nil in Hr.
  - intros r Hr. rewrite Hr0 in Hr. right. unfold other_rule.
    repeat (apply elem_of_cons in Hr as [->|Hr]; [cbn; first [by left|right; split; [by (left + right)|cbn; lia]]|]).
    by apply elem_of_nil in Hr.
  - intros r Hr. change (r ∈ Routing.Sim.routes (World.ip (kernel h)) 100) in Hr. rewrite Hip in Hr.
    apply list_elem_of_singleton in Hr as ->. eexists. split; [done|]. by apply valid_wf.
  - apply host_flushable. by vm_compute.
Qed.

Lemma ex_ready : ready (apply_args_of ex_afs) ex_host1.
Proof.
  apply ex_ready_for; [done|by vm_compute|]. intros h Hh t Ht.
  assert (World.tables (kernel h) = ex_before) as Hb.
  { change (World.tables (kernel h) = World.tables (kernel ex_host1)) in Hh. rewrite Hh. by vm_compute. }
  change (World.tables (kernel h) !! owned = Some t) in Ht. rewrite Hb in Ht.
  change (Some (compiled_table ex_outbound 168427522) = Some t) in Ht. injection Ht as <-.
  exists ex_outbound, ex_outbound_state, (ex_json ex_outbound_listing). rewrite host_list, Hb.
  split; [done|]. split; [apply ex_outbound_renderable|]. split; [by apply compiled_means; first [done|apply ex_outbound_renderable]|].
  split; [by vm_compute|]. split; [apply ex_outbound_shown|]. split; [done|].
  intros p Hp E. apply list_elem_of_singleton in Hp as ->. discriminate E.
Qed.

Lemma ex_deletions : deletions_work (St := host).
Proof.
  split; [apply host_flushable; by vm_compute|]. split.
  - intros h Ht. change (is_Some (World.tables (kernel h) !! owned)) in Ht. rewrite host_run, world_nft by done.
    change (run_call owned_deletion (World.tables (kernel h))) with (NftScript.Sim.step owned_deletion (World.tables (kernel h))).
    unfold NftScript.Sim.step, owned_deletion, delete_call. cbn [c_args].
    change (OwnedNftFamily, OwnedNftTable) with owned. by rewrite (bool_decide_true _ Ht).
  - intros h r Hr Hp. change (r ∈ Routing.Sim.rules (World.ip (kernel h))) in Hr.
    rewrite host_run, world_routing by (apply routing_calls; naive_solver).
    change (run_call rule_deletion (World.ip (kernel h))) with (Routing.Sim.step rule_deletion (World.ip (kernel h))).
    unfold Routing.Sim.step, rule_deletion. cbn [c_args rule_del_call]. rewrite num_itoa by (by vm_compute).
    assert (existsb (λ r, lr_prio r =? DefaultRulePriority) (Routing.Sim.rules (World.ip (kernel h))) = true) as ->; [|done].
    apply existsb_exists. exists r. split; [by apply list_elem_of_In|]. by apply Z.eqb_eq.
Qed.

Lemma gotun_fetch_apply_forwards_witness :
  ∃ country ep lans clients t,
    (LoadCountryPrefixesRaw "" "RU" "geo.mmdb" ex_host).1 = Ok country ∧
    ParseAddr "10.10.0.2" = Ok ep ∧ parse_lans "10.10.0.0/24, ,192.168.0.0/16" = Ok lans ∧ load_config "" ex_host1 = Ok clients ∧
    (∀ k, k ∈ gateway_keys → sysctl_value ex_host2 k = "1") ∧ only_own ex_host2 DefaultTableID ∧ ruleset_of ex_host2 !! owned = Some t ∧
    ∀ dev_up rs pkt, in_order (rules_of ex_host2) rs → packet_dst (dst pkt) →
      kernel_forward dev_up t rs (own_routes ex_host2) pkt =
      asked country lans ep (negb (String.eqb (wc_PrivateKey clients) "")) true dev_up pkt.
Proof.
  exact (gotun_fetch_apply_forwards ex_ord ex_table_ord "" ex_fetch_args ex_apply_args ex_ffs ex_afs ex_host ex_host1 ex_host2
    ex_ord_range ex_table_order ex_ffs_ok ex_afs_ok eq_refl eq_refl ex_ip4 ex_ready ex_fetch_ok ex_apply_ok).
Defined.

(** The machine without a table of its own, before and after an apply and after
    the clear. *)
Definition ex_bare : host :=
  HostMk (disk ex_host1) (World.State (World.sys ex_machine) {[("ip", "nat") := TableMk ∅ []]} (World.ip ex_machine)) [].
Definition ex_bare1 : host := (Run ex_ord ex_table_ord "" ("apply" :: ex_apply_args) ex_bare).2.
Definition ex_bare2 : host := (Run ex_ord ex_table_ord "" ["clear"] ex_bare1).2.

Lemma ex_bare_apply : Run ex_ord ex_table_ord "" ("apply" :: ex_apply_args) ex_bare = (Ret None, ex_bare1).
Proof.
  assert ((Run ex_ord ex_table_ord "" ("apply" :: ex_apply_args) ex_bare).1 = Ret None) as <- by (by vm_compute). apply surjective_pairing.
Qed.

Lemma ex_bare_none h : ruleset_of h = ruleset_of ex_bare → ruleset_of h !! owned = None.
Proof. intros ->. by vm_compute. Qed.

Lemma ex_untouched : untouched ex_bare.
Proof.
  split; [by apply ex_bare_none|]. intros r Hr.
  repeat (apply elem_of_cons in Hr as [->|Hr]; [done|]). by apply elem_of_nil in Hr.
Qed.

Lemma ex_bare_ready : ready (apply_args_of ex_afs) ex_bare.
Proof. apply ex_ready_for; [done|done|]. intros h Hh t Ht. by rewrite (ex_bare_none h Hh) in Ht. Qed.

Lemma gotun_apply_clear_witness :
  (Run ex_ord ex_table_ord "" ["clear"] ex_bare1).1 = Ret None ∧ ruleset_of ex_bare2 = ruleset_of ex_bare ∧
  rules_of ex_bare2 ≡ₚ rules_of ex_bare ∧ routes_of ex_bare2 DefaultTableID = [].
Proof.
  exact (gotun_apply_clear ex_ord ex_table_ord "" ex_apply_args ex_afs ex_bare ex_bare1 ex_bare2 _
    ex_ord_range ex_table_order ex_afs_ok ex_ip4 ex_bare_ready ex_untouched ex_deletions ex_bare_apply (surjective_pairing _)).
Defined.
