(* ===== verification/Semantic.v ===== *)
(** * [internal/policy/compile.go]: semantic equality of kernel states

    [SemanticEqual] compares two desired states after [normalize] sorted their
    lists.  It is [reflect.DeepEqual], which tells a nil slice from an empty
    one, so the records of this file have Go slices ([slice]) where those of
    [Policy] have lists.  [sort.Slice] is a parameter ([SortSlice]): a
    permutation that is sorted; it is not stable, and with equal keys the result
    is its own affair.

    [SemanticEqual] is equality up to the order of the lists, wherever the sort
    keys tell the elements of a list apart; the states [Compile] makes of a
    policy and of another order of its prefixes are equal in this sense. *)

From stdpp Require Import base list strings sorting.
From Stdlib Require Import ZArith Lia Ascii.
From S2P Require Import Prelude GoStrings Netip Policy.

(** ** Orders *)

(** A strict total order, as a boolean test. *)
Class TotalLt {K : Type} (lt : K → K → bool) : Prop := {
  lt_irrefl a : lt a a = false;
  lt_trans a b c : lt a b = true → lt b c = true → lt a c = true;
  lt_total a b : lt a b = false → lt b a = false → a = b
}.

#[global] Instance Z_lt_total : TotalLt Z.ltb.
Proof. split; intros; lia. Qed.

(** [true] first. *)
Definition bool_lt (a b : bool) : bool := a && negb b.
#[global] Instance bool_lt_total : TotalLt bool_lt.
Proof. split; [by intros []|by intros [] [] []|by intros [] []]. Qed.

(** Go compares strings by bytes. *)
Definition string_lt (a b : string) : bool := String.ltb a b.
#[global] Instance string_lt_total : TotalLt string_lt.
Proof.
  assert (∀ a b, String.compare a b = Eq ↔ a = b) as Heq.
  { intros a b. split; [apply String.compare_eq_iff|]. intros ->. induction b as [|c b IH]; [done|]. simpl.
    unfold Ascii.compare. by rewrite N.compare_refl. }
  unfold string_lt, String.ltb. split.
  - intros a. by rewrite (proj2 (Heq a a)).
  - intros a. induction a as [|x a IH]; intros [|y b] [|z c]; simpl; try done.
    unfold Ascii.compare. destruct (N.compare_spec (N_of_ascii x) (N_of_ascii y)), (N.compare_spec (N_of_ascii y) (N_of_ascii z)); try done;
      destruct (N.compare_spec (N_of_ascii x) (N_of_ascii z)); try done; try lia; apply IH.
  - intros a b. rewrite (String.compare_antisym b a). rewrite <-Heq. by destruct (String.compare a b).
Qed.

(** By the first components, then by the second. *)
Definition lex {K L : Type} (lt1 : K → K → bool) (lt2 : L → L → bool) (a b : K * L) : bool :=
  lt1 a.1 b.1 || (negb (lt1 b.1 a.1) && lt2 a.2 b.2).
#[global] Instance lex_total {K L : Type} (lt1 : K → K → bool) (lt2 : L → L → bool) `{!TotalLt lt1, !TotalLt lt2} : TotalLt (lex lt1 lt2).
Proof.
  unfold lex. split.
  - intros [a a']. cbn. by rewrite !lt_irrefl.
  - intros [a a'] [b b'] [c c']. cbn. rewrite !orb_true_iff, !andb_true_iff, !negb_true_iff.
    intros [H1|[H1 H1']] [H2|[H2 H2']].
    + left. by apply (lt_trans a b c).
    + destruct (lt1 b c) eqn:E; [left; by apply (lt_trans a b c)|]. left. by rewrite <-(lt_total b c E H2).
    + destruct (lt1 a b) eqn:E; [left; by apply (lt_trans a b c)|]. left. by rewrite (lt_total a b E H1).
    + destruct (lt1 a b) eqn:E1, (lt1 b c) eqn:E2; [left; by apply (lt_trans a b c)|..].
      * left. by rewrite <-(lt_total b c E2 H2).
      * left. by rewrite (lt_total a b E1 H1).
      * rewrite (lt_total a b E1 H1) in *. right. split; [done|]. by apply (lt_trans a' b' c').
  - intros [a a'] [b b']. cbn. rewrite !orb_false_iff, !andb_false_iff, !negb_false_iff.
    intros [H1 [H2|H2]] [H3 [H4|H4]]; try congruence. f_equal; by apply lt_total.
Qed.

(** ** sort.Slice *)

Class SortSlice := srt : ∀ {A : Type}, (A → A → bool) → list A → list A.

(** A comparison by a key. *)
Definition by_key {A K : Type} (lt : K → K → bool) (key : A → K) (a b : A) : bool := lt (key a) (key b).

Class SortLaws `{SortSlice} : Prop := {
  srt_perm {A : Type} less (l : list A) : srt less l ≡ₚ l;
  srt_sorted {A K : Type} (lt : K → K → bool) `{!TotalLt lt} (key : A → K) l : Sorted (not_less (by_key lt key)) (srt (by_key lt key) l);
  srt_ext {A : Type} (less less' : A → A → bool) l : (∀ a b, less a b = less' a b) → srt less l = srt less' l
}.

(** A key that tells the elements of a list apart. *)
Definition told_apart {A K : Type} (key : A → K) (l : list A) : Prop := ∀ a b, a ∈ l → b ∈ l → key a = key b → a = b.

Lemma srt_unique `{SortLaws} {A K : Type} (lt : K → K → bool) `{!TotalLt lt} (key : A → K) l l' :
  told_apart key l → l ≡ₚ l' → srt (by_key lt key) l = srt (by_key lt key) l'.
Proof.
  intros Hkey Hp.
  assert (Transitive (not_less (by_key lt key))) as Htr.
  { intros a b c. unfold not_less, by_key. intros H1 H2. destruct (lt (key c) (key a)) eqn:E; [|done].
    destruct (lt (key a) (key b)) eqn:E1.
    - by rewrite (lt_trans _ _ _ E E1) in H2.
    - rewrite (lt_total _ _ E1 H1) in E. congruence. }
  assert (∀ a b, a ∈ l → b ∈ l → not_less (by_key lt key) a b → not_less (by_key lt key) b a → a = b) as Hanti.
  { intros a b Ha Hb H1 H2. apply Hkey; [done..|]. by apply (lt_total (lt:=lt)). }
  apply (StronglySorted_unique_strong (not_less (by_key lt key))).
  - intros a b Ha Hb. rewrite srt_perm in Ha, Hb. rewrite <-Hp in Hb. by apply Hanti.
  - apply Sorted_StronglySorted; [done|]. by apply srt_sorted.
  - apply Sorted_StronglySorted; [done|]. by apply srt_sorted.
  - by rewrite !srt_perm.
Qed.

(** ** The data, with slices *)

(** [None] is nil. *)
Definition slice (A : Type) : Type := option (list A).
Definition elems {A} (s : slice A) : list A := default [] s.

Record gSet := GSetMk { gs_Name : string; gs_Type : string; gs_Flags : slice string; gs_Elements : slice Prefix }.
Record gRule := GRuleMk {
  gr_Description : string; gr_ExcludePrefixes : slice Prefix; gr_ExcludeAddrs : slice Addr; gr_DirectSet : string;
  gr_Mark : Z; gr_DropIPv6 : bool; gr_IIfName : string; gr_DropDstSet : string
}.
Record gChain := GChainMk {
  gc_Name : string; gc_Type : string; gc_Hook : string; gc_Priority : Z; gc_Policy : string; gc_Rules : slice gRule
}.
Record gNft := GNftMk { gn_Family : string; gn_Table : string; gn_Sets : slice gSet; gn_Chains : slice gChain }.
Record gWG := GWGMk {
  gw_Interface : string; gw_PrivateKey : string; gw_ListenPort : Z; gw_Address : Prefix;
  gw_PublicKey : string; gw_Endpoint : string; gw_AllowedIPs : slice Prefix; gw_Keepalive : Z; gw_Managed : bool; gw_Up : bool
}.
Record gState := GStateMk {
  g_Sysctls : slice SysctlSpec; g_Nft : gNft; g_IPRules : slice IPRuleSpec; g_Routes : slice RouteSpec; g_WG : gWG; g_Clients : gWG
}.

#[global] Instance SysctlSpec_eq_dec : EqDecision SysctlSpec. Proof. solve_decision. Defined.
#[global] Instance IPRuleSpec_eq_dec : EqDecision IPRuleSpec. Proof. solve_decision. Defined.
#[global] Instance RouteSpec_eq_dec : EqDecision RouteSpec. Proof. solve_decision. Defined.
#[global] Instance gSet_eq_dec : EqDecision gSet. Proof. solve_decision. Defined.
#[global] Instance gRule_eq_dec : EqDecision gRule. Proof. solve_decision. Defined.
#[global] Instance gChain_eq_dec : EqDecision gChain. Proof. solve_decision. Defined.
#[global] Instance gNft_eq_dec : EqDecision gNft. Proof. solve_decision. Defined.
#[global] Instance gWG_eq_dec : EqDecision gWG. Proof. solve_decision. Defined.
#[global] Instance gState_eq_dec : EqDecision gState. Proof. solve_decision. Defined.

(** ** compile.go *)

Section normalize.
Context `{SortSlice}.

(** [slices.Clone], then [sort.Slice]: nil stays nil. *)
Definition sorted_clone {A} (less : A → A → bool) (s : slice A) : slice A := srt less <$> s.

Definition sysctl_less (a b : SysctlSpec) : bool := string_lt (sy_Key a) (sy_Key b).
Definition iprule_less (a b : IPRuleSpec) : bool :=
  if negb (Priority a =? Priority b) then Priority a <? Priority b else ir_Mark a <? ir_Mark b.
Definition route_less (a b : RouteSpec) : bool :=
  if negb (rt_Table a =? rt_Table b) then rt_Table a <? rt_Table b
  else if negb (Metric a =? Metric b) then Metric a <? Metric b
  else if negb (Bool.eqb (Blackhole a) (Blackhole b)) then Blackhole a
  else string_lt (Device a) (Device b).
Definition prefix_text_less (a b : Prefix) : bool := string_lt (prefix_string a) (prefix_string b).
Definition addr_text_less (a b : Addr) : bool := string_lt (addr_string a) (addr_string b).

Definition normalize_set (s : gSet) : gSet :=
  GSetMk (gs_Name s) (gs_Type s) (sorted_clone string_lt (gs_Flags s)) (sorted_clone prefix_text_less (gs_Elements s)).

Definition normalize_rule (r : gRule) : gRule :=
  GRuleMk (gr_Description r) (sorted_clone prefix_text_less (gr_ExcludePrefixes r)) (sorted_clone addr_text_less (gr_ExcludeAddrs r))
    (gr_DirectSet r) (gr_Mark r) (gr_DropIPv6 r) (gr_IIfName r) (gr_DropDstSet r).

(** The rules are copied to a new slice, which is not nil. *)
Definition normalize_chain (c : gChain) : gChain :=
  GChainMk (gc_Name c) (gc_Type c) (gc_Hook c) (gc_Priority c) (gc_Policy c)
    (Some (srt (λ a b, string_lt (gr_Description a) (gr_Description b)) (normalize_rule <$> elems (gc_Rules c)))).

Definition normalizeWGPeer (w : gWG) : gWG :=
  match gw_AllowedIPs w with
  | None => w
  | Some ips =>
      GWGMk (gw_Interface w) (gw_PrivateKey w) (gw_ListenPort w) (gw_Address w) (gw_PublicKey w) (gw_Endpoint w)
        (Some (srt prefix_text_less ips)) (gw_Keepalive w) (gw_Managed w) (gw_Up w)
  end.

Definition normalize_nft (n : gNft) : gNft :=
  GNftMk (gn_Family n) (gn_Table n)
    (Some (srt (λ a b, string_lt (gs_Name a) (gs_Name b)) (normalize_set <$> elems (gn_Sets n))))
    (Some (srt (λ a b, string_lt (gc_Name a) (gc_Name b)) (normalize_chain <$> elems (gn_Chains n)))).

Definition normalize (s : gState) : gState :=
  GStateMk (sorted_clone sysctl_less (g_Sysctls s)) (normalize_nft (g_Nft s)) (sorted_clone iprule_less (g_IPRules s))
    (sorted_clone route_less (g_Routes s)) (normalizeWGPeer (g_WG s)) (normalizeWGPeer (g_Clients s)).

Definition SemanticEqual (a b : gState) : bool := bool_decide (normalize a = normalize b).

End normalize.

(** ** Equality up to order *)

Definition same_slice {A} (s t : slice A) : Prop :=
  match s, t with
  | None, None => True
  | Some l, Some l' => l ≡ₚ l'
  | _, _ => False
  end.

(** Lists with the same elements up to [R], in any order. *)
Definition perm_up {A} (R : relation A) (l l' : list A) : Prop := ∃ m, l ≡ₚ m ∧ Forall2 R m l'.

Definition same_set (a b : gSet) : Prop :=
  gs_Name a = gs_Name b ∧ gs_Type a = gs_Type b ∧ same_slice (gs_Flags a) (gs_Flags b) ∧ same_slice (gs_Elements a) (gs_Elements b).
Definition same_rule (a b : gRule) : Prop :=
  gr_Description a = gr_Description b ∧ gr_DirectSet a = gr_DirectSet b ∧ gr_Mark a = gr_Mark b ∧ gr_DropIPv6 a = gr_DropIPv6 b ∧
  gr_IIfName a = gr_IIfName b ∧ gr_DropDstSet a = gr_DropDstSet b ∧
  same_slice (gr_ExcludePrefixes a) (gr_ExcludePrefixes b) ∧ same_slice (gr_ExcludeAddrs a) (gr_ExcludeAddrs b).
Definition same_chain (a b : gChain) : Prop :=
  gc_Name a = gc_Name b ∧ gc_Type a = gc_Type b ∧ gc_Hook a = gc_Hook b ∧ gc_Priority a = gc_Priority b ∧ gc_Policy a = gc_Policy b ∧
  perm_up same_rule (elems (gc_Rules a)) (elems (gc_Rules b)).
Definition same_nft (a b : gNft) : Prop :=
  gn_Family a = gn_Family b ∧ gn_Table a = gn_Table b ∧
  perm_up same_set (elems (gn_Sets a)) (elems (gn_Sets b)) ∧ perm_up same_chain (elems (gn_Chains a)) (elems (gn_Chains b)).
Definition same_wg (a b : gWG) : Prop :=
  gw_Interface a = gw_Interface b ∧ gw_PrivateKey a = gw_PrivateKey b ∧ gw_ListenPort a = gw_ListenPort b ∧ gw_Address a = gw_Address b ∧
  gw_PublicKey a = gw_PublicKey b ∧ gw_Endpoint a = gw_Endpoint b ∧ gw_Keepalive a = gw_Keepalive b ∧ gw_Managed a = gw_Managed b ∧
  gw_Up a = gw_Up b ∧ same_slice (gw_AllowedIPs a) (gw_AllowedIPs b).
Definition same_state (a b : gState) : Prop :=
  same_slice (g_Sysctls a) (g_Sysctls b) ∧ same_nft (g_Nft a) (g_Nft b) ∧ same_slice (g_IPRules a) (g_IPRules b) ∧
  same_slice (g_Routes a) (g_Routes b) ∧ same_wg (g_WG a) (g_WG b) ∧ same_wg (g_Clients a) (g_Clients b).

(** The sort keys tell the elements of every list apart: names of sets and
    chains, descriptions of rules, texts of prefixes and addresses. *)
Definition route_key (r : RouteSpec) : Z * (Z * (bool * string)) := (rt_Table r, (Metric r, (Blackhole r, Device r))).
Definition iprule_key (r : IPRuleSpec) : Z * Z := (Priority r, ir_Mark r).

Definition clear_set (s : gSet) : Prop := told_apart prefix_string (elems (gs_Elements s)).
Definition clear_rule (r : gRule) : Prop :=
  told_apart prefix_string (elems (gr_ExcludePrefixes r)) ∧ told_apart addr_string (elems (gr_ExcludeAddrs r)).
Definition clear_chain (c : gChain) : Prop :=
  Forall clear_rule (elems (gc_Rules c)) ∧ NoDup (gr_Description <$> elems (gc_Rules c)).
Definition clear_nft (n : gNft) : Prop :=
  Forall clear_set (elems (gn_Sets n)) ∧ NoDup (gs_Name <$> elems (gn_Sets n)) ∧
  Forall clear_chain (elems (gn_Chains n)) ∧ NoDup (gc_Name <$> elems (gn_Chains n)).
Definition clear_state (s : gState) : Prop :=
  told_apart sy_Key (elems (g_Sysctls s)) ∧ clear_nft (g_Nft s) ∧ told_apart iprule_key (elems (g_IPRules s)) ∧
  told_apart route_key (elems (g_Routes s)) ∧
  told_apart prefix_string (elems (gw_AllowedIPs (g_WG s))) ∧ told_apart prefix_string (elems (gw_AllowedIPs (g_Clients s))).

(** ** Lemmas *)

Section lemmas.
Context `{SortLaws}.

Lemma iprule_less_key a b : iprule_less a b = by_key (lex Z.ltb Z.ltb) iprule_key a b.
Proof. unfold iprule_less, by_key, lex, iprule_key. cbn. bcase; lia. Qed.

Lemma route_less_key a b : route_less a b = by_key (lex Z.ltb (lex Z.ltb (lex bool_lt string_lt))) route_key a b.
Proof.
  unfold route_less, by_key, lex, route_key, bool_lt. cbn [fst snd].
  destruct (Z.eqb_spec (rt_Table a) (rt_Table b)) as [->|]; cbn [negb].
  2:{ destruct (Z.ltb_spec (rt_Table a) (rt_Table b)), (Z.ltb_spec (rt_Table b) (rt_Table a)); done || lia. }
  rewrite Z.ltb_irrefl. destruct (Z.eqb_spec (Metric a) (Metric b)) as [->|]; cbn [negb].
  2:{ destruct (Z.ltb_spec (Metric a) (Metric b)), (Z.ltb_spec (Metric b) (Metric a)); done || lia. }
  rewrite Z.ltb_irrefl. by destruct (Blackhole a), (Blackhole b).
Qed.

(** Sorting does not lose, and forgets only the order. *)
Lemma sorted_clone_same {A} (less : A → A → bool) s t : sorted_clone less s = sorted_clone less t → same_slice s t.
Proof.
  destruct s as [l|], t as [l'|]; cbn; try done. intros [= E]. by rewrite <-(srt_perm less l), <-(srt_perm less l'), E.
Qed.

Lemma sorted_clone_key {A K} (lt : K → K → bool) `{!TotalLt lt} (key : A → K) less s t :
  (∀ a b, less a b = by_key lt key a b) → told_apart key (elems s) → same_slice s t → sorted_clone less s = sorted_clone less t.
Proof.
  intros Hless Hk. destruct s as [l|], t as [l'|]; cbn; try done. intros Hp. f_equal.
  rewrite !(srt_ext less _ _ Hless). by apply srt_unique.
Qed.

Lemma perm_up_norm {A} (norm : A → A) (R : relation A) less l l' :
  (∀ x y, norm x = norm y → R x y) → srt less (norm <$> l) = srt less (norm <$> l') → perm_up R l l'.
Proof.
  intros HR E. assert (norm <$> l' ≡ₚ norm <$> l) as Hp by (by rewrite <-(srt_perm less (norm <$> l)), E, srt_perm).
  apply Permutation_map_inv in Hp as (m & Hm & Hp). exists m. split; [by symmetry|].
  clear Hp E. revert l' Hm. induction m as [|x m IH]; intros [|y l'] Hm; try done.
  injection Hm as Hxy Hm. constructor; [by apply HR|by apply IH].
Qed.

Lemma norm_perm_up {A K} (norm : A → A) (R : relation A) (good : A → Prop) (lt : K → K → bool) `{!TotalLt lt} (key : A → K) l l' :
  (∀ x y, good x → R x y → norm x = norm y) → (∀ x, key (norm x) = key x) → NoDup (key <$> l) → Forall good l →
  perm_up R l l' → srt (by_key lt key) (norm <$> l) = srt (by_key lt key) (norm <$> l').
Proof.
  intros HR Hkey Hnd Hgood (m & Hp & H2). apply srt_unique; [done| |].
  - intros a b (x & -> & Hx)%list_elem_of_fmap (y & -> & Hy)%list_elem_of_fmap. rewrite !Hkey. intros E. f_equal.
    apply list_elem_of_lookup in Hx as [i Hi]. apply list_elem_of_lookup in Hy as [j Hj].
    assert (i = j) as <-; [|congruence]. apply (NoDup_lookup _ i j (key x) Hnd); rewrite list_lookup_fmap; [by rewrite Hi|by rewrite Hj, E].
  - rewrite Hp. rewrite Hp in Hgood. clear Hp Hnd. assert (norm <$> m = norm <$> l') as ->; [|done].
    induction H2 as [|x y m l' Hxy _ IH]; [done|]. apply list.Forall_cons in Hgood as [Hx Hgood].
    cbn [fmap list_fmap]. f_equal; auto.
Qed.

(** Each record. *)
Lemma normalize_set_same a b : normalize_set a = normalize_set b → same_set a b.
Proof. intros [= ? ? ?%sorted_clone_same ?%sorted_clone_same]. done. Qed.
Lemma same_set_normalize a b : clear_set a → same_set a b → normalize_set a = normalize_set b.
Proof.
  intros Hc (Hn & Ht & Hf & He). unfold normalize_set. rewrite Hn, Ht.
  rewrite (sorted_clone_key string_lt (λ s, s) _ (gs_Flags a) (gs_Flags b)) by (done || by intros ? ?).
  by rewrite (sorted_clone_key string_lt prefix_string _ (gs_Elements a) (gs_Elements b)).
Qed.

Lemma normalize_rule_same a b : normalize_rule a = normalize_rule b → same_rule a b.
Proof. intros [= ? ?%sorted_clone_same ?%sorted_clone_same]. done. Qed.
Lemma same_rule_normalize a b : clear_rule a → same_rule a b → normalize_rule a = normalize_rule b.
Proof.
  intros [Hp Ha] (Hd & Hs & Hm & H6 & Hi & Hn & Hep & Hea). unfold normalize_rule. rewrite Hd, Hs, Hm, H6, Hi, Hn.
  rewrite (sorted_clone_key string_lt prefix_string _ (gr_ExcludePrefixes a) (gr_ExcludePrefixes b)) by done.
  by rewrite (sorted_clone_key string_lt addr_string _ (gr_ExcludeAddrs a) (gr_ExcludeAddrs b)).
Qed.

Lemma normalize_chain_same a b : normalize_chain a = normalize_chain b → same_chain a b.
Proof. intros [= ? ? ? ? ? Hr]. do 5 (split; [done|]). eapply perm_up_norm; [apply normalize_rule_same|exact Hr]. Qed.
Lemma same_chain_normalize a b : clear_chain a → same_chain a b → normalize_chain a = normalize_chain b.
Proof.
  intros [Hc Hn] (H1 & H2 & H3 & H4 & H5 & Hr). unfold normalize_chain. rewrite H1, H2, H3, H4, H5. do 2 f_equal.
  by apply (norm_perm_up normalize_rule same_rule clear_rule string_lt gr_Description); [apply same_rule_normalize|..].
Qed.

Lemma normalize_nft_same a b : normalize_nft a = normalize_nft b → same_nft a b.
Proof.
  intros [= ? ? Hs Hc]. do 2 (split; [done|]). split; eapply perm_up_norm;
    [apply normalize_set_same|exact Hs|apply normalize_chain_same|exact Hc].
Qed.
Lemma same_nft_normalize a b : clear_nft a → same_nft a b → normalize_nft a = normalize_nft b.
Proof.
  intros (Hs & Hsn & Hc & Hcn) (H1 & H2 & H3 & H4). unfold normalize_nft. rewrite H1, H2. f_equal; f_equal.
  - by apply (norm_perm_up normalize_set same_set clear_set string_lt gs_Name); [apply same_set_normalize|..].
  - by apply (norm_perm_up normalize_chain same_chain clear_chain string_lt gc_Name); [apply same_chain_normalize|..].
Qed.

Lemma normalizeWGPeer_fields w :
  normalizeWGPeer w = GWGMk (gw_Interface w) (gw_PrivateKey w) (gw_ListenPort w) (gw_Address w) (gw_PublicKey w) (gw_Endpoint w)
    (sorted_clone prefix_text_less (gw_AllowedIPs w)) (gw_Keepalive w) (gw_Managed w) (gw_Up w).
Proof. unfold normalizeWGPeer. destruct w as [? ? ? ? ? ? [l|] ? ? ?]; done. Qed.
Lemma normalize_wg_same a b : normalizeWGPeer a = normalizeWGPeer b → same_wg a b.
Proof. rewrite !normalizeWGPeer_fields. intros [=]. unfold same_wg. split_and!; try done. by eapply sorted_clone_same. Qed.
Lemma same_wg_normalize a b : told_apart prefix_string (elems (gw_AllowedIPs a)) → same_wg a b → normalizeWGPeer a = normalizeWGPeer b.
Proof.
  intros Hk (H1 & H2 & H3 & H4 & H5 & H6 & H7 & H8 & H9 & Hs). rewrite !normalizeWGPeer_fields. rewrite H1, H2, H3, H4, H5, H6, H7, H8, H9.
  by rewrite (sorted_clone_key string_lt prefix_string _ (gw_AllowedIPs a) (gw_AllowedIPs b)).
Qed.

Lemma SemanticEqual_same a b : SemanticEqual a b = true → same_state a b.
Proof.
  unfold SemanticEqual. rewrite bool_decide_eq_true. intros E. split_and!.
  - by apply (sorted_clone_same sysctl_less), (f_equal g_Sysctls E).
  - by apply normalize_nft_same, (f_equal g_Nft E).
  - by apply (sorted_clone_same iprule_less), (f_equal g_IPRules E).
  - by apply (sorted_clone_same route_less), (f_equal g_Routes E).
  - by apply normalize_wg_same, (f_equal g_WG E).
  - by apply normalize_wg_same, (f_equal g_Clients E).
Qed.

Lemma same_SemanticEqual a b : clear_state a → same_state a b → SemanticEqual a b = true.
Proof.
  intros (C1 & C2 & C3 & C4 & C5 & C6) (H1 & H2 & H3 & H4 & H5 & H6). unfold SemanticEqual. rewrite bool_decide_eq_true. unfold normalize.
  f_equal.
  - by apply (sorted_clone_key string_lt sy_Key).
  - by apply same_nft_normalize.
  - by apply (sorted_clone_key (lex Z.ltb Z.ltb) iprule_key); [apply iprule_less_key|..].
  - by apply (sorted_clone_key (lex Z.ltb (lex Z.ltb (lex bool_lt string_lt))) route_key); [apply route_less_key|..].
  - by apply same_wg_normalize.
  - by apply same_wg_normalize.
Qed.

End lemmas.

(** The view of a state of [Policy]: what [Compile] builds with [append] or a
    literal is nil exactly when it is empty; the allowed addresses of a peer
    are the caller's slices. *)
Definition go_slice {A} (l : list A) : slice A := match l with [] => None | _ => Some l end.
Definition go_set (s : NftSetSpec) : gSet := GSetMk (set_Name s) (set_Type s) (go_slice (set_Flags s)) (go_slice (set_Elements s)).
Definition go_rule (r : NftRuleSpec) : gRule :=
  GRuleMk (Description r) (go_slice (ExcludePrefixes r)) (go_slice (ExcludeAddrs r)) (DirectSet r) (rule_Mark r) (DropIPv6 r) (IIfName r) (DropDstSet r).
Definition go_chain (c : NftChainSpec) : gChain :=
  GChainMk (ch_Name c) (ch_Type c) (ch_Hook c) (ch_Priority c) (ch_Policy c) (go_slice (go_rule <$> ch_Rules c)).
Definition go_nft (n : NftSpec) : gNft :=
  GNftMk (Family n) (nft_Table n) (go_slice (go_set <$> Sets n)) (go_slice (go_chain <$> Chains n)).
Definition go_wg (ips : slice Prefix) (w : WireGuardSpec) : gWG :=
  GWGMk (Interface w) (PrivateKey w) (ListenPort w) (Address w) (PublicKey (Peer w)) (Endpoint (Peer w)) ips
    (PersistentKeepalive (Peer w)) (Managed w) (Up w).
Definition go_state (ips ips' : slice Prefix) (s : DesiredKernelState) : gState :=
  GStateMk (go_slice (Sysctls s)) (go_nft (Nft s)) (go_slice (IPRules s)) (go_slice (Routes s))
    (go_wg ips (WireGuardOf s)) (go_wg ips' (WireGuardClients s)).

(** Policies that differ in the order of their prefixes at most. *)
Definition same_policy (p q : Policy) : Prop :=
  DirectPrefixes p ≡ₚ DirectPrefixes q ∧ LANs p ≡ₚ LANs q ∧
  q = PolicyMk (DirectPrefixes q) (TunnelInterface p) (TunnelEndpoint p) (LANs q) (Mark p) (Table p) (RulePriority p) (FailModeOf p)
        (TunnelUp p) (WireGuard p) (InboundWireGuard p).

Import Policy.Spec.

Section compile.
Context `{SortLaws}.

Lemma go_slice_perm {A} (l l' : list A) : l ≡ₚ l' → same_slice (go_slice l) (go_slice l').
Proof.
  intros Hp. destruct l as [|x l]; [by apply Permutation_nil_l in Hp as <-|].
  destruct l' as [|y l']; [by apply Permutation_nil_r in Hp|done].
Qed.
Lemma same_slice_refl {A} (s : slice A) : same_slice s s.
Proof. by destruct s; cbn. Qed.
Lemma perm_up_pointwise {A} (R : relation A) l l' : Forall2 R l l' → perm_up R l l'.
Proof. by exists l. Qed.
Lemma elems_go_slice {A} (l : list A) : elems (go_slice l) = l.
Proof. by destruct l. Qed.
Lemma same_wg_refl w : same_wg w w.
Proof. unfold same_wg. split_and!; try done. apply same_slice_refl. Qed.
Lemma told_apart_one {A K} (key : A → K) x : told_apart key [x].
Proof. by intros a b ->%list_elem_of_singleton ->%list_elem_of_singleton. Qed.

Lemma told_apart_prefix l : Forall prefix4 l → told_apart prefix_string (elems (go_slice l)).
Proof.
  rewrite elems_go_slice, list.Forall_forall. intros Hl a b Ha Hb. by apply prefix_string_inj; apply Hl.
Qed.

Lemma same_set_perm name ty flags l l' :
  l ≡ₚ l' → same_set (go_set (NftSetSpecMk name ty flags l)) (go_set (NftSetSpecMk name ty flags l')).
Proof. intros Hp. unfold same_set. split_and!; [done|done|apply same_slice_refl|by apply go_slice_perm]. Qed.
Lemma same_rule_perm d l l' addrs set m six iif drop :
  l ≡ₚ l' → same_rule (go_rule (NftRuleSpecMk d l addrs set m six iif drop)) (go_rule (NftRuleSpecMk d l' addrs set m six iif drop)).
Proof. intros Hp. unfold same_rule. split_and!; try done; [by apply go_slice_perm|apply same_slice_refl]. Qed.

(** The table of a policy is clear, and the one of another order the same. *)
Lemma clear_compiled p :
  Forall prefix4 (DirectPrefixes p) → Forall prefix4 (LANs p) →
  clear_nft (go_nft (NftSpecMk OwnedNftFamily OwnedNftTable (compiled_sets p) (compiled_chains p))).
Proof.
  intros Hd%told_apart_prefix Hl%told_apart_prefix.
  assert (clear_rule (go_rule drop_ipv6_rule) ∧ clear_rule (go_rule isolate_rule)) as [H6 Hi].
  { split; (split; intros a b []%not_elem_of_nil). }
  assert (clear_rule (go_rule (mark_rule p))) as Hr by (split; [done|apply told_apart_one]).
  assert (∀ n ty h pr po, clear_chain (go_chain (NftChainSpecMk n ty h pr po [drop_ipv6_rule; mark_rule p]))) as Hpre.
  { intros. split; [cbn; by auto|]. by apply (bool_decide_unpack _). }
  assert (∀ n ty h pr po, clear_chain (go_chain (NftChainSpecMk n ty h pr po [isolate_rule]))) as Hfwd.
  { intros. split; [cbn; by auto|]. by apply (bool_decide_unpack _). }
  unfold clear_nft, go_nft, compiled_sets, compiled_chains. cbn [gn_Sets gn_Chains Sets Chains]. rewrite !elems_go_slice.
  destruct (inbound p); cbn [fmap list_fmap]; (split_and!; [by auto|by apply (bool_decide_unpack _)|by auto|by apply (bool_decide_unpack _)]).
Qed.

Lemma same_compiled p q :
  same_policy p q →
  same_nft (go_nft (NftSpecMk OwnedNftFamily OwnedNftTable (compiled_sets p) (compiled_chains p)))
           (go_nft (NftSpecMk OwnedNftFamily OwnedNftTable (compiled_sets q) (compiled_chains q))).
Proof.
  intros (Hd & Hl & ->). unfold same_nft, compiled_sets, compiled_chains.
  change (inbound (PolicyMk _ _ _ _ _ _ _ _ _ _ _)) with (inbound p).
  split_and!; [done..| |]; apply perm_up_pointwise; destruct (inbound p); cbn;
    repeat first [apply same_set_perm; done | constructor].
  all: try done.
  all: apply perm_up_pointwise.
  all: repeat first [apply same_rule_perm; done | constructor].
Qed.

Lemma Compile_order p q s :
  same_policy p q → Compile p = Ok s →
  ∃ t, Compile q = Ok t ∧ Sysctls s = Sysctls t ∧ IPRules s = IPRules t ∧ Routes s = Routes t ∧
    WireGuardOf s = WireGuardOf t ∧ WireGuardClients s = WireGuardClients t.
Proof.
  intros (Hd & Hl & Hq) Hs. destruct (Compile_inv _ _ Hs) as ((He & Hf & Hlan) & _).
  assert (policy_valid q) as Hvq.
  { rewrite Hq. split_and!; cbn; [done|by rewrite <-Hd|]. intros Hp El. apply (Hlan Hp). by apply Permutation_nil_r; rewrite <-El. }
  pose proof (proj2 (validate_None q) Hvq) as Hvq'. unfold Compile in Hs |- *. rewrite Hvq'. eexists. split; [done|].
  destruct (validate p); [done|]. injection Hs as <-. rewrite Hq. cbn. by split_and!.
Qed.

End compile.

(** ** Merge sort is such a sort *)

Lemma list_merge_ext {A} (R R' : relation A) `{!RelDecision R, !RelDecision R'} l1 l2 :
  (∀ a b, R a b ↔ R' a b) → list_merge R l1 l2 = list_merge R' l1 l2.
Proof.
  intros HR. revert l2. induction l1 as [|x l1 IH]; intros l2; [by destruct l2|].
  induction l2 as [|y l2 IH2]; [done|]. rewrite !list_merge_cons, (decide_ext _ _ _ _ (HR x y)), IH. by rewrite IH2.
Qed.

Lemma merge_sort_ext {A} (R R' : relation A) `{!RelDecision R, !RelDecision R'} l :
  (∀ a b, R a b ↔ R' a b) → merge_sort R l = merge_sort R' l.
Proof.
  intros HR. unfold merge_sort. generalize (@nil (option (list A))) as st. induction l as [|x l IH]; intros st; cbn.
  - induction st as [|[l|] st IHst]; cbn; [done| |done]. rewrite IHst. by apply list_merge_ext.
  - rewrite IH. f_equal. generalize [x] as m. induction st as [|[l'|] st IHst]; intros m; cbn; [done| |done].
    rewrite IHst. by rewrite (list_merge_ext R R').
Qed.

#[global] Instance merge_SortSlice : SortSlice := @sort_slice.
#[global] Instance merge_SortLaws : SortLaws.
Proof.
  split; unfold srt, merge_SortSlice.
  - intros A less l. apply sort_slice_perm.
  - intros A K lt ? key l. apply sort_slice_Sorted. unfold by_key. intros a b E.
    destruct (lt (key b) (key a)) eqn:E'; [|done]. by rewrite <-(lt_irrefl (lt:=lt) (key a)), (lt_trans (lt:=lt) _ _ _ E E').
  - intros A less less' l E. unfold sort_slice. apply merge_sort_ext. intros a b. unfold not_less. by rewrite E.
Qed.

(** ** Properties *)

(** C33. Two states that [SemanticEqual] accepts are the same up to the order
    of their lists, whatever [sort.Slice] does with equal keys; conversely it
    accepts two such states when the sort keys tell the elements of each list
    of the first one apart (a key that occurs twice may leave two orders of
    the same elements, which [reflect.DeepEqual] tells apart). *)
Theorem SemanticEqual_order `{SortLaws} a b :
  (SemanticEqual a b = true → same_state a b) ∧ (clear_state a → same_state a b → SemanticEqual a b = true).
Proof. split; [apply SemanticEqual_same|apply same_SemanticEqual]. Qed.

(** The order in which a policy lists its direct prefixes and LANs makes
    no difference to the compiled state, as [SemanticEqual] compares it. *)
Theorem Compile_ignores_prefix_order `{SortLaws} p q s ips ips' :
  Forall prefix4 (DirectPrefixes p) → Forall prefix4 (LANs p) → same_policy p q → Compile p = Ok s →
  ∃ t, Compile q = Ok t ∧ SemanticEqual (go_state ips ips' s) (go_state ips ips' t) = true.
Proof.
  intros Hd Hl Hpq Hs. destruct (Compile_inv _ _ Hs) as (Hv & Hsn & _).
  destruct (Compile_order p q s Hpq Hs) as (t & Ht & Hrest). exists t. split; [done|].
  destruct (Compile_inv _ _ Ht) as (_ & Htn & _). unfold SemanticEqual, go_state, normalize. rewrite bool_decide_eq_true. cbn.
  destruct Hrest as (-> & -> & -> & -> & ->). f_equal. rewrite Hsn, Htn.
  apply same_nft_normalize; [by apply clear_compiled|by apply same_compiled].
Qed.

(** The rules of a chain are compared up to order too, and their order matters
    to packets: the later mark is the one that stays. *)
Definition marks_table (rules : list NftRuleSpec) : NftSpec :=
  NftSpecMk OwnedNftFamily OwnedNftTable [NftSetSpecMk RuNetsSetName "ipv4_addr" ["interval"] []]
    [NftChainSpecMk "prerouting" "filter" "prerouting" (-150) "accept" rules].
Definition with_nft (s : DesiredKernelState) (n : NftSpec) : DesiredKernelState :=
  DesiredKernelStateMk (Sysctls s) n (IPRules s) (Routes s) (WireGuardOf s) (WireGuardClients s).
Definition mark_as (d : string) (m : Z) : NftRuleSpec := NftRuleSpecMk d [] [] RuNetsSetName m false "" "".

Theorem SemanticEqual_ignores_rule_order s ips ips' :
  let t1 := with_nft s (marks_table [mark_as "a" 1; mark_as "b" 2]) in
  let t2 := with_nft s (marks_table [mark_as "b" 2; mark_as "a" 1]) in
  SemanticEqual (go_state ips ips' t1) (go_state ips ips' t2) = true ∧
  ∃ pkt, eval_hook (Nft t1) "prerouting" pkt 0 ≠ eval_hook (Nft t2) "prerouting" pkt 0.
Proof.
  cbn zeta. split.
  - unfold SemanticEqual, go_state, normalize. rewrite bool_decide_eq_true. cbn [g_Nft Nft with_nft]. by f_equal.
  - exists (Packet "eth0" (Addr4 1)). vm_compute. congruence.
Qed.

(** ** Witnesses *)

Definition two_nets (ps : list Prefix) : Policy :=
  PolicyMk ps "" (Addr4 168427522) [PrefixMk (Addr4 168427520) 24] 0 0 0 FailClosed true WireGuardConfigZero WireGuardConfigZero.
Definition ex_net1 : Prefix := PrefixMk (Addr4 180879360) 24.
Definition ex_net2 : Prefix := PrefixMk (Addr4 180879616) 24.
Definition compiled (p : Policy) : DesiredKernelState := match Compile p with Ok s => s | Err _ => ex_state end.
Definition ex_view (ps : list Prefix) : gState := go_state None None (compiled (two_nets ps)).

Lemma SemanticEqual_order_witness : same_state (ex_view [ex_net1; ex_net2]) (ex_view [ex_net2; ex_net1]).
Proof. apply (proj1 (SemanticEqual_order _ _)). vm_compute. reflexivity. Defined.

Lemma Compile_ignores_prefix_order_witness :
  ∃ t, Compile (two_nets [ex_net2; ex_net1]) = Ok t ∧
    SemanticEqual (ex_view [ex_net1; ex_net2]) (go_state None None t) = true.
Proof.
  assert (∀ n, n = 180879360 ∨ n = 180879616 ∨ n = 168427520 → prefix4 (PrefixMk (Addr4 n) 24)) as H4
    by (unfold prefix4; cbn; lia).
  apply (Compile_ignores_prefix_order (two_nets [ex_net1; ex_net2])).
  - repeat constructor; apply H4; lia.
  - repeat constructor; apply H4; lia.
  - split; [apply Permutation_swap|]. split; reflexivity.
  - vm_compute. reflexivity.
Defined.
