(* ===== verification/Dns.v ===== *)
(** * [internal/dnsproxy]: split DNS

    [SuffixClassifier] chooses the path of a name, [Forwarder.Forward] sends
    the query by it, [processQuery] answers one packet, [handleTCP] frames it.

    The DNS library (codeberg.org/miekg/dns) is the class [DnsLib]: a message
    type with the fields and operations the program uses; [DnsLaws] is what is
    known of them.  A byte slice is a byte string, or [None] when it is nil.
    [Exchanger] is the program's interface to [dns.Client], on a state. *)

From stdpp Require Import base list strings gmap.
From Stdlib Require Import ZArith Lia Ascii.
From S2P Require Import Prelude GoStrings Netip Policy.

(** ** The DNS library *)

Class DnsLib := {
  Msg : Type;
  new_msg : Msg;
  (** The names of the questions, and the fields read and assigned. *)
  question_names : Msg → list string;
  Truncated : Msg → bool;
  ID : Msg → Z;
  set_ID : Msg → Z → Msg;
  Rcode : Msg → Z;
  set_Rcode : Msg → Z → Msg;
  Data : Msg → option string;
  set_Data : Msg → option string → Msg;
  (** The receiver after the call, and the error. *)
  Unpack : Msg → option error * Msg;
  Pack : Msg → option error * Msg;
  Copy : Msg → Msg;
  SetReply : Msg → Msg → Msg;
  Canonical : string → string
}.

(** What a packed message unpacks to keeps the header; [SetReply m req] makes
    [m] a reply to [req]; the fields are fields. *)
Class DnsLaws `{DnsLib} := {
  Pack_Unpack m m' d :
    Pack m = (None, m') → Data m' = Some d →
    ∃ u, Unpack (set_Data new_msg (Some d)) = (None, u) ∧ ID u = ID m ∧ Rcode u = Rcode m;
  SetReply_ID m req : ID (SetReply m req) = ID req;
  ID_set_ID m i : ID (set_ID m i) = i;
  ID_set_Data m d : ID (set_Data m d) = ID m;
  ID_set_Rcode m r : ID (set_Rcode m r) = ID m;
  Rcode_set_ID m i : Rcode (set_ID m i) = Rcode m;
  Rcode_set_Data m d : Rcode (set_Data m d) = Rcode m;
  Rcode_set_Rcode m r : Rcode (set_Rcode m r) = r;
  Data_set_Data m d : Data (set_Data m d) = d;
  names_set_Data m d : question_names (set_Data m d) = question_names m;
  names_Copy m : question_names (Copy m) = question_names m
}.

Definition RcodeFormatError : Z := 1.
Definition RcodeServerFailure : Z := 2.

(** ** path.go *)

Inductive Path := PathDirect | PathExit.

#[global] Instance Path_eq_dec : EqDecision Path.
Proof. solve_decision. Defined.

(** The integers of the constants, and [String] of any integer of the type. *)
Definition Path_int (p : Path) : Z := match p with PathDirect => 0 | PathExit => 1 end.
Definition Path_name (n : Z) : string :=
  if n =? Path_int PathDirect then "direct" else if n =? Path_int PathExit then "exit" else "unknown".
Definition Path_String (p : Path) : string := Path_name (Path_int p).

(** ** suffix.go *)

Section classifier.
Context `{DnsLib}.

(** One iteration of the loop. *)
Definition matches_suffix (n suf : string) : bool :=
  let s := Canonical (trim_space suf) in
  let s := if has_prefix s "." then s else "." +:+ s in
  String.eqb n (trim_prefix s ".") || has_suffix n s.

Definition Classify (DirectSuffixes : list string) (name : string) : Path :=
  let n := Canonical (trim_space name) in
  if existsb (matches_suffix n) DirectSuffixes then PathDirect else PathExit.

Definition DefaultRUClassifier : string → Path := Classify [".ru"].
End classifier.

(** ** dial.go *)

(** Durations are in nanoseconds. *)
Definition Second : Z := 1000000000.

Record DialConfig := DialConfigMk { dc_Timeout : Z; dc_Mark : Z }.

(** A [net.Dialer]: [d_Control] is the mark of the [Control] function that
    [applySOMark] installs. *)
Record Dialer := DialerMk { d_Timeout : Z; d_Control : option Z }.

Definition dial_timeout (cfg : DialConfig) : Z := if dc_Timeout cfg <=? 0 then 3 * Second else dc_Timeout cfg.

Definition applySOMark_linux (d : Dialer) (mark : Z) : option error * Dialer := (None, DialerMk (d_Timeout d) (Some mark)).
Definition applySOMark_other (d : Dialer) (mark : Z) : option error * Dialer :=
  (Some (ErrFmt "SO_MARK 0x%x is only supported on Linux" [fmt_x mark] []), d).
(** [linux] says which of dial_linux.go and dial_other.go is built. *)
Definition applySOMark (linux : bool) : Dialer → Z → option error * Dialer :=
  if linux then applySOMark_linux else applySOMark_other.

Definition markEPERMHint (mark : Z) (err : error) : error :=
  ErrFmt "SO_MARK 0x%x: %w (need CAP_NET_ADMIN or CAP_NET_RAW; Direct path may still work)" [fmt_x mark] [err].

(** The [Control] function: [control] runs a function on the socket, unless it
    fails; [setsockopt] sets the mark. *)
Definition Control {W} (control : W → option error) (setsockopt : Z → W → option error * W) (mark : Z) (w : W) : option error * W :=
  match control w with
  | Some err => (Some err, w)
  | None =>
      let '(sockErr, w) := setsockopt mark w in
      match sockErr with
      | Some err => (Some (markEPERMHint mark err), w)
      | None => (None, w)
      end
  end.

Definition NewDirectDialer (cfg : DialConfig) : Dialer := DialerMk (dial_timeout cfg) None.

Definition NewExitDialer (linux : bool) (cfg : DialConfig) : result Dialer :=
  let d := DialerMk (dial_timeout cfg) None in
  if dc_Mark cfg =? 0 then Ok d
  else
    match applySOMark linux d (dc_Mark cfg) with
    | (Some err, _) => Err err
    | (None, d) => Ok d
    end.

(** ** forward.go *)

Record Upstream := UpstreamMk { up_Direct : string; up_Exit : string }.

(** A [context.Context], as it was derived. *)
Inductive ctx :=
| Background
| WithCancel (parent : ctx)
| WithTimeout (parent : ctx) (d : Z)
| WithoutCancel (parent : ctx).

(** The timeouts that bound what runs under a context. *)
Fixpoint deadlines (c : ctx) : list Z :=
  match c with
  | Background => []
  | WithCancel c => deadlines c
  | WithTimeout c d => d :: deadlines c
  | WithoutCancel _ => []
  end.

(** What [Exchange] returns, with the message as it leaves it. *)
Definition exchanged `{DnsLib} : Type := option Msg * option error * Msg.

(** [Ex] is the type of exchangers, [W] the state of the network. *)
Class Exchanger `{DnsLib} (Ex W : Type) :=
  Exchange : Ex → ctx → Msg → string → string → W → exchanged * W.

(** [ClientExchanger] with its [dns.Client]. *)
Record Client := ClientMk { cl_Dialer : Dialer; cl_ReadTimeout : Z; cl_WriteTimeout : Z }.

Record Forwarder (Ex : Type) := ForwarderMk {
  f_Classifier : string → Path;
  f_Upstream : Upstream;
  f_Timeout : Z;
  f_DirectEx : Ex;
  f_ExitEx : Ex
}.
Arguments ForwarderMk {_} _ _ _ _ _.
Arguments f_Classifier {_} _ _.
Arguments f_Upstream {_} _.
Arguments f_Timeout {_} _.
Arguments f_DirectEx {_} _.
Arguments f_ExitEx {_} _.

Definition newClient (d : Dialer) (timeout : Z) : Client := ClientMk d timeout timeout.

Definition NewForwarder (linux : bool) (c : string → Path) (up : Upstream) (dial : DialConfig) : result (Forwarder Client) :=
  let directDial := NewDirectDialer dial in
  exitDial ← NewExitDialer linux dial;
  let timeout := dial_timeout dial in
  Ok (ForwarderMk c up timeout (newClient directDial timeout) (newClient exitDial timeout)).

Section forward.
Context `{DnsLib} {Ex W : Type} `{!Exchanger Ex W}.

(** The reply, the path and the error. *)
Definition Forward (f : Forwarder Ex) (c : ctx) (m : Msg) (w : W) : option Msg * Path * option error * W :=
  match question_names m with
  | [name] =>
      let path := f_Classifier f name in
      let '(addr, ex) :=
        match path with
        | PathExit => (up_Exit (f_Upstream f), f_ExitEx f)
        | PathDirect => (up_Direct (f_Upstream f), f_DirectEx f)
        end in
      if String.eqb addr "" then (None, path, Some (ErrFmt "empty upstream for path %s" [Path_String path] []), w)
      else
        let c := WithTimeout c (f_Timeout f) in
        let m := set_Data m None in
        let '(r, err, m, w) := Exchange ex c m "udp" addr w in
        match r with
        | Some reply =>
            if Truncated reply then
              let m := set_Data m None in
              let tcpCtx := WithTimeout (WithoutCancel c) (f_Timeout f) in
              let '(tr, terr, _, w) := Exchange ex tcpCtx m "tcp" addr w in
              (tr, path, terr, w)
            else (r, path, err, w)
        | None => (r, path, err, w)
        end
  | qs => (None, PathExit, Some (ErrFmt "expected exactly one question, got %d" [itoa (Z.of_nat (length qs))] []), w)
  end.

(** ** server.go: one query *)

(** Log lines: a failed forward with whether the permission hint follows it,
    and a reply that does not pack. *)
Inductive log_line :=
| LogForward (path : Path) (query : string) (err : error)
| LogPermHint
| LogPack (err : error).

(** [errors.As] finds [EPERM], or [errors.Is] finds [os.ErrPermission], which
    [EPERM] and [EACCES] are. *)
Fixpoint isPerm (e : error) : bool :=
  match e with
  | ErrText _ => false
  | ErrStd c x => String.eqb c "errno" && (String.eqb x "EPERM" || String.eqb x "EACCES")
  | ErrFmt _ _ causes => existsb isPerm causes
  end.

Definition packRcode (req : Msg) (rcode : Z) : option string :=
  let m := SetReply new_msg req in
  let m := set_Rcode m rcode in
  let m := set_Data m None in
  match Pack m with
  | (Some _, _) => None
  | (None, m) => Data m
  end.

Definition processQuery (f : Forwarder Ex) (c : ctx) (raw : string) (w : W) : option string * list log_line * W :=
  let req := set_Data new_msg (Some raw) in
  match Unpack req with
  | (Some _, _) => (None, [], w)
  | (None, req) =>
      match question_names req with
      | [name] =>
          let q := set_Data (Copy req) None in
          let '(resp, path, err, w) := Forward f c q w in
          match err with
          | Some e => (packRcode req RcodeServerFailure, LogForward path name e :: (if isPerm e then [LogPermHint] else []), w)
          | None =>
              match resp with
              | None => (packRcode req RcodeServerFailure, [], w)
              | Some resp =>
                  let resp := set_ID resp (ID req) in
                  let resp := set_Data resp None in
                  match Pack resp with
                  | (Some e, _) => (packRcode req RcodeServerFailure, [LogPack e], w)
                  | (None, resp) => (Data resp, [], w)
                  end
              end
          end
      | _ => (packRcode req RcodeFormatError, [], w)
      end
  end.

(** What a datagram is answered with, if anything. *)
Definition handlePacket (f : Forwarder Ex) (c : ctx) (raw : string) (w : W) : option string * W :=
  let '(out, _, w) := processQuery f c raw w in (out, w).

(** *** Framing over TCP *)

Definition maxDNSPacket : Z := 65535.

(** [io.ReadFull] of [n] bytes of what the peer sends before the end. *)
Definition ReadFull (n : nat) (s : string) : option (string * string) :=
  if (String.length s <? n)%nat then None else Some (String.substring 0 n s, String.substring n (String.length s - n) s).

Definition byte_at (s : string) (i : nat) : Z := match String.get i s with Some c => byte_of c | None => 0 end.

(** The two bytes written before [out]. *)
Definition len_bytes (out : string) : string :=
  let n := Z.of_nat (String.length out) in
  String (char_of (Z.land (Z.shiftr n 8) 255)) (String (char_of (Z.land n 255)) "").

(** What the connection sends, and what the server writes: one query is
    answered. *)
Definition read_frame (input : string) : option string :=
  match ReadFull 2 input with
  | None => None
  | Some (lenBuf, input) =>
      let l := Z.lor (Z.shiftl (byte_at lenBuf 0) 8) (byte_at lenBuf 1) in
      if (l <=? 0) || (maxDNSPacket <? l) then None
      else match ReadFull (Z.to_nat l) input with None => None | Some (raw, _) => Some raw end
  end.

Definition handleTCP (f : Forwarder Ex) (c : ctx) (input : string) (w : W) : list string * W :=
  match read_frame input with
  | None => ([], w)
  | Some raw =>
      let '(out, _, w) := processQuery f c raw w in
      match out with
      | None => ([], w)
      | Some out => ([len_bytes out; out], w)
      end
  end.
End forward.

(** ** cmd/gotun-dns *)

Definition parseMark (s : string) : result Z :=
  let s := trim_space s in
  let '(base, s) :=
    if has_prefix s "0x" || has_prefix s "0X" then (16, String.substring 2 (String.length s - 2) s) else (10, s) in
  match ParseUint s base 32 with
  | NumOk v => Ok v
  | NumSyntax | NumRange => Err (ErrStd "strconv.ParseUint" s)
  end.

(** The flags, and the forwarder that [main] serves with. *)
Record flags := FlagsMk { fl_direct : string; fl_exit : string; fl_mark : string; fl_timeout : Z }.
Definition default_flags : flags := FlagsMk "77.88.8.8:53" "1.1.1.1:53" ("0x" +:+ fmt_x DefaultMark) (3 * Second).

(** The error is with its exit code. *)
Definition main_forwarder `{DnsLib} (linux : bool) (fl : flags) : sum (Z * error) (Forwarder Client) :=
  match parseMark (fl_mark fl) with
  | Err e => inl (2, e)
  | Ok mark =>
      match NewForwarder linux DefaultRUClassifier (UpstreamMk (fl_direct fl) (fl_exit fl)) (DialConfigMk (fl_timeout fl) mark) with
      | Err e => inl (1, e)
      | Ok f => inr f
      end
  end.

(** ** Lemmas: names *)

Definition labels (n : string) : list string := split n ".".
(** The domain of a configured suffix. *)
Definition suffix_domain `{DnsLib} (suf : string) : string := trim_prefix (Canonical (trim_space suf)) ".".

Lemma matches_suffix_labels `{DnsLib} n suf :
  matches_suffix n suf = true ↔ ∃ pre, labels n = pre ++ labels (suffix_domain suf).
Proof.
  unfold matches_suffix, suffix_domain. set (s := Canonical (trim_space suf)).
  set (s' := if has_prefix s "." then s else "." +:+ s).
  assert (∃ d, s' = String "." d ∧ trim_prefix s' "." = d ∧ trim_prefix s "." = d) as (d & -> & -> & ->).
  { unfold s'. destruct (has_prefix s ".") eqn:E.
    - apply has_prefix_spec in E as [d ->]. exists d. split; [done|]. rewrite trim_prefix_app. done.
    - exists s. split; [done|]. split; [exact (trim_prefix_app "." s)|].
      destruct s as [|c s0]; [done|]. cbn [has_prefix] in E. cbn [trim_prefix has_prefix]. by rewrite E. }
  rewrite orb_true_iff, String.eqb_eq, has_suffix_spec. unfold labels. split.
  - intros [->|[x ->]]; [by exists []|]. exists (split x "."). by rewrite split_app_sep.
  - intros [pre Hp]. apply (f_equal (λ l, join l ".")) in Hp. change "." with (String "." "") in Hp.
    rewrite join_split in Hp. destruct (decide (pre = [])) as [->|Hne].
    + left. by rewrite app_nil_l, join_split in Hp.
    + right. rewrite join_app, join_split in Hp; [by exists (join pre (String "." ""))|done|apply split_nonempty].
Qed.

(** ** Lemmas: one query *)

Section queries.
Context `{DnsLib} {Ex W : Type} `{!Exchanger Ex W}.

Definition path_ex (f : Forwarder Ex) (p : Path) : Ex := match p with PathDirect => f_DirectEx f | PathExit => f_ExitEx f end.
Definition path_addr (f : Forwarder Ex) (p : Path) : string :=
  match p with PathDirect => up_Direct (f_Upstream f) | PathExit => up_Exit (f_Upstream f) end.
Definition is_truncated (r : option Msg) : bool := match r with Some m => Truncated m | None => false end.

Lemma Forward_one f c m name (w : W) :
  question_names m = [name] →
  Forward f c m w =
  let path := f_Classifier f name in
  if String.eqb (path_addr f path) "" then (None, path, Some (ErrFmt "empty upstream for path %s" [Path_String path] []), w)
  else
    let c := WithTimeout c (f_Timeout f) in
    let '(r, err, m, w) := Exchange (path_ex f path) c (set_Data m None) "udp" (path_addr f path) w in
    if is_truncated r then
      let '(tr, terr, _, w) :=
        Exchange (path_ex f path) (WithTimeout (WithoutCancel c) (f_Timeout f)) (set_Data m None) "tcp" (path_addr f path) w in
      (tr, path, terr, w)
    else (r, path, err, w).
Proof.
  intros Hn. unfold Forward. rewrite Hn. cbv zeta. unfold path_ex, path_addr, is_truncated.
  destruct (f_Classifier f name); destruct (String.eqb _ ""); [done| |done|];
    by destruct (Exchange _ _ _ "udp" _ w) as [[[[?|] ?] ?] ?].
Qed.

Lemma Forward_many f c m (w : W) :
  length (question_names m) ≠ 1%nat →
  Forward f c m w =
  (None, PathExit, Some (ErrFmt "expected exactly one question, got %d" [itoa (Z.of_nat (length (question_names m)))] []), w).
Proof. intros Hn. unfold Forward. by destruct (question_names m) as [|? [|? ?]]. Qed.

End queries.

Section trace.
Context `{DnsLib} {Ex W : Type} `{!Exchanger Ex W}.

(** An exchange as it happened: by whom, under which context, what was sent
    where, and what came back. *)
Record attempt := Attempt {
  at_ex : Ex; at_ctx : ctx; at_msg : Msg; at_net : string; at_addr : string;
  at_reply : option Msg; at_err : option error
}.

(** The same exchanges, recorded. *)
#[global] Instance traced : Exchanger Ex (W * list attempt) := λ ex c m net addr '(w, tr),
  let '(r, err, m', w) := Exchange ex c m net addr w in
  (r, err, m', (w, tr ++ [Attempt ex c m net addr r err])).

(** An exchange of a query on its path. *)
Definition on_path (f : Forwarder Ex) (p : Path) (a : attempt) : Prop :=
  at_ex a = path_ex f p ∧ at_addr a = path_addr f p.

Lemma Forward_trace f c m name (w : W) r path err w' tr :
  question_names m = [name] → Forward f c m (w, []) = (r, path, err, (w', tr)) → path = f_Classifier f name ∧ Forall (on_path f path) tr.
Proof.
  intros Hn. rewrite (Forward_one (Ex:=Ex) (W:=W * list attempt) f c m name (w, []) Hn). cbv zeta.
  destruct (String.eqb _ ""); [by intros [= <- <- <- <- <-]|]. unfold Exchange, traced.
  destruct (Exchange _ _ _ "udp" _ w) as [[[r1 err1] m1] w1]. cbn [app]. destruct (is_truncated r1).
  - destruct (Exchange _ _ _ "tcp" _ w1) as [[[r2 err2] m2] w2]. intros [= <- <- <- <- <-]. repeat constructor.
  - intros [= <- <- <- <- <-]. repeat constructor.
Qed.
End trace.
Arguments attempt {_} _.

Section reply.
Context `{DnsLaws} {Ex W : Type} `{!Exchanger Ex W}.

(** Something that packs to [out]. *)
Definition packs (m : Msg) (out : string) : Prop := ∃ m', Pack m = (None, m') ∧ Data m' = Some out.

Lemma packs_header m out :
  packs m out → ∃ u, Unpack (set_Data new_msg (Some out)) = (None, u) ∧ ID u = ID m ∧ Rcode u = Rcode m.
Proof. intros (m' & Hp & Hd). by eapply Pack_Unpack. Qed.

Lemma packRcode_header req rcode out :
  packRcode req rcode = Some out →
  ∃ u, Unpack (set_Data new_msg (Some out)) = (None, u) ∧ ID u = ID req ∧ Rcode u = rcode.
Proof.
  unfold packRcode. destruct (Pack _) as [[e|] m'] eqn:Hp; [done|]. intros Hd.
  destruct (packs_header (set_Data (set_Rcode (SetReply new_msg req) rcode) None) out) as (u & Hu & Hid & Hr); [by exists m'|].
  exists u. split; [done|]. by rewrite Hid, Hr, ID_set_Data, ID_set_Rcode, SetReply_ID, Rcode_set_Data, Rcode_set_Rcode.
Qed.

Lemma reply_header (req resp m' : Msg) out :
  Pack (set_Data (set_ID resp (ID req)) None) = (None, m') → Data m' = Some out →
  ∃ u, Unpack (set_Data new_msg (Some out)) = (None, u) ∧ ID u = ID req ∧ Rcode u = Rcode resp.
Proof.
  intros Hp Hd. destruct (packs_header (set_Data (set_ID resp (ID req)) None) out) as (u & Hu & Hid & Hr); [by exists m'|].
  exists u. split; [done|]. by rewrite Hid, Hr, ID_set_Data, ID_set_ID, Rcode_set_Data, Rcode_set_ID.
Qed.
End reply.

(** ** Lemmas: framing *)

Lemma substring_app s t : String.substring 0 (String.length s) (s +:+ t) = s.
Proof.
  induction s as [|c s IH]; [by destruct t|]. cbn [String.length]. change (String c s +:+ t) with (String c (s +:+ t)).
  cbn [String.substring]. by rewrite IH.
Qed.

Lemma ReadFull_app s t : ReadFull (String.length s) (s +:+ t) = Some (s, t).
Proof.
  unfold ReadFull. rewrite (proj2 (Nat.ltb_ge _ _)) by (rewrite length_app_str; lia). rewrite substring_app. do 2 f_equal.
  induction s as [|c s IH]; [|exact IH]. cbn [String.length]. rewrite Nat.sub_0_r. change ("" +:+ t) with t.
  rewrite <-(app_nil_r_str t) at 2. apply substring_app.
Qed.

Lemma read_frame_out out rest :
  (0 < String.length out)%nat → Z.of_nat (String.length out) <= maxDNSPacket →
  read_frame (len_bytes out +:+ out +:+ rest) = Some out.
Proof.
  intros H0 Hmax. unfold read_frame, maxDNSPacket in *. set (n := Z.of_nat (String.length out)).
  pose proof (ReadFull_app (len_bytes out) (out +:+ rest)) as Hr. change (String.length (len_bytes out)) with 2%nat in Hr.
  rewrite Hr. unfold len_bytes. fold n.
  assert (Z.land (Z.shiftr n 8) 255 = n / 256) as Hhi.
  { change 255 with (Z.ones 8). rewrite Z.land_ones, Z.shiftr_div_pow2 by lia. apply Z.mod_small.
    change (2 ^ 8) with 256. split; [apply Z.div_pos; lia|]. apply Z.div_lt_upper_bound; lia. }
  assert (Z.land n 255 = n mod 256) as Hlo by (change 255 with (Z.ones 8); by rewrite Z.land_ones by lia).
  assert (byte_at (String (char_of (Z.land (Z.shiftr n 8) 255)) (String (char_of (Z.land n 255)) "")) 0 = n / 256) as ->.
  { unfold byte_at. cbn [String.get]. rewrite Hhi, byte_of_char_of; [done|]. split; [apply Z.div_pos; lia|]. apply Z.div_lt_upper_bound; lia. }
  assert (byte_at (String (char_of (Z.land (Z.shiftr n 8) 255)) (String (char_of (Z.land n 255)) "")) 1 = n mod 256) as ->.
  { unfold byte_at. cbn [String.get]. rewrite Hlo, byte_of_char_of; [done|]. apply Z.mod_pos_bound. lia. }
  assert (Z.lor (Z.shiftl (n / 256) 8) (n mod 256) = n) as ->.
  { pose proof (Z.add_lor_land (Z.shiftl (n / 256) 8) (n mod 256)) as Hsum.
    assert (Z.land (Z.shiftl (n / 256) 8) (n mod 256) = 0) as Hz.
    - apply Z.bits_inj'. intros i Hi. rewrite Z.land_spec, Z.bits_0, Z.shiftl_spec by lia.
      destruct (Z.ltb_spec i 8); [by rewrite Z.testbit_neg_r by lia|]. rewrite andb_comm.
      change 256 with (2 ^ 8). by rewrite Z.mod_pow2_bits_high by lia.
    - rewrite Hz, Z.shiftl_mul_pow2 in Hsum by lia. rewrite Z.shiftl_mul_pow2 by lia. pose proof (Z.div_mod n 256). lia. }
  rewrite (proj2 (Z.leb_gt _ _)), (proj2 (Z.ltb_ge _ _)) by lia. cbn [orb].
  assert (Z.to_nat n = String.length out) as -> by (unfold n; lia). by rewrite ReadFull_app.
Qed.

(** ** Lemmas: marks *)

Lemma parseMark_hex_digits m : 0 <= m → 
  parseMark ("0x" +:+ fmt_x m) =
  match ParseUint (fmt_x m) 16 32 with NumOk v => Ok v | _ => Err (ErrStd "strconv.ParseUint" (fmt_x m)) end.
Proof.
  intros Hm. unfold parseMark. assert (visible ("0x" +:+ fmt_x m) = true) as Hv.
  { change (visible ("0x" +:+ fmt_x m)) with (visible (fmt_x m)). apply num_chars_visible, fmt_uint_chars; lia. }
  rewrite (trim_space_visible _ Hv). change (has_prefix ("0x" +:+ fmt_x m) "0x") with true. cbn [orb].
  change ("0x" +:+ fmt_x m) with (String "0" (String "x" (fmt_x m))). cbn [String.length].
  replace (S (S (String.length (fmt_x m))) - 2)%nat with (String.length (fmt_x m)) by lia. cbn [String.substring].
  pose proof (substring_app (fmt_x m) "") as Hs. rewrite app_nil_r_str in Hs. rewrite Hs.
  by destruct (ParseUint (fmt_x m) 16 32).
Qed.

Lemma parseMark_decimal_digits m : 0 <= m → 
  parseMark (itoa m) =
  match ParseUint (fmt_uint 10 m) 10 32 with NumOk v => Ok v | _ => Err (ErrStd "strconv.ParseUint" (itoa m)) end.
Proof.
  intros Hm. unfold parseMark. rewrite trim_space_visible by (by apply itoa_word). rewrite itoa_nonneg by done.
  assert (∀ x t, is_digit x = false → has_prefix (fmt_uint 10 m) (String "0" (String x t)) = false) as Hx.
  { intros x t Hx. apply not_true_iff_false. intros [u Hu]%has_prefix_spec. pose proof (fmt_uint_decimal m Hm) as Hd.
    rewrite Hu in Hd. cbn [String.append string_forall] in Hd. rewrite Hx in Hd. by rewrite andb_false_r in Hd. }
  rewrite !Hx by done. cbn [orb]. by destruct (ParseUint (fmt_uint 10 m) 10 32).
Qed.

(** A mark written in hexadecimal, as [gotun] and the
    default of the flag do, or in decimal, is read back when it has 32 bits, and
    is an error, never a truncated mark, when it has more. *)
Lemma parseMark_fmt m :
  0 <= m →
  if m <? 2 ^ 32 then parseMark ("0x" +:+ fmt_x m) = Ok m ∧ parseMark (itoa m) = Ok m
  else is_ok (parseMark ("0x" +:+ fmt_x m)) = false ∧ is_ok (parseMark (itoa m)) = false.
Proof.
  intros Hm. rewrite parseMark_hex_digits, parseMark_decimal_digits by done. unfold fmt_x. destruct (Z.ltb_spec m (2 ^ 32)).
  - by rewrite !ParseUint_fmt by lia.
  - by rewrite !ParseUint_range by lia.
Qed.

Lemma main_forwarder_marks `{DnsLib} fl f mark :
  parseMark (fl_mark fl) = Ok mark → mark ≠ 0 → main_forwarder true fl = inr f →
  d_Control (cl_Dialer (f_DirectEx f)) = None ∧ d_Control (cl_Dialer (f_ExitEx f)) = Some mark ∧ f_Classifier f = DefaultRUClassifier.
Proof.
  intros Hp Hm. unfold main_forwarder. rewrite Hp. unfold NewForwarder, NewExitDialer. cbn [dc_Mark].
  rewrite (proj2 (Z.eqb_neq _ _)) by done. by intros [= <-].
Qed.

(** The sockets of a query have the mark of its path. *)
Lemma forward_marks `{DnsLib} {W} `{!Exchanger Client W} fl f mark c m (w w' : W) r path err tr :
  parseMark (fl_mark fl) = Ok mark → mark ≠ 0 → main_forwarder true fl = inr f →
  Forward f c m (w, []) = (r, path, err, (w', tr)) →
  Forall (λ a, default 0 (d_Control (cl_Dialer (at_ex a))) = match path with PathDirect => 0 | PathExit => mark end) tr.
Proof.
  intros Hp Hne Hm Hf. destruct (main_forwarder_marks fl f _ Hp Hne Hm) as (Hd & He & _).
  destruct (decide (length (question_names m) = 1%nat)) as [Hn|Hn].
  - destruct (question_names m) as [|name [|]] eqn:Hq; try done.
    destruct (Forward_trace f c m name w r path err w' tr Hq Hf) as [_ Hon].
    eapply list.Forall_impl; [exact Hon|]. intros a [-> _]. destruct path; cbn [path_ex]; [by rewrite Hd|by rewrite He].
  - rewrite (Forward_many (Ex:=Client) (W:=W * list (attempt Client))) in Hf by done. by injection Hf as <- <- <- <- <-.
Qed.

Lemma marked_egress p st dev_up :
  Compile p = Ok st →
  Spec.route_packet dev_up (IPRules st) (Routes st) (Spec.policy_mark p) =
    (if TunnelUp p && dev_up (Spec.policy_iface p) then Spec.Via (Spec.policy_iface p) else Spec.Blackholed) ∧
  Spec.route_packet dev_up (IPRules st) (Routes st) 0 = Spec.MainTable.
Proof.
  intros (_ & _ & prio & table & -> & ->)%Compile_inv. cbn [Spec.route_packet ir_Mark ir_Table].
  rewrite Z.eqb_refl, best_route_routesForTunnel, (proj2 (Z.eqb_neq _ _)) by apply policy_mark_nonzero.
  by destruct (TunnelUp p && _).
Qed.

(** ** Properties *)

(** C30. Names are classified by whole labels: a name is resolved directly
    exactly when the labels of its canonical form end with those of the
    canonical domain of a configured suffix, written with or without a dot. *)
Theorem Classify_labels `{DnsLib} sufs name :
  Classify sufs name = PathDirect ↔
  ∃ suf pre, suf ∈ sufs ∧ labels (Canonical (trim_space name)) = pre ++ labels (suffix_domain suf).
Proof.
  unfold Classify. destruct (existsb _ sufs) eqn:E.
  - apply existsb_exists_elem in E as (suf & Hs & [pre Hp]%matches_suffix_labels). naive_solver.
  - split; [done|]. intros (suf & pre & Hs & Hp). exfalso. apply not_true_iff_false in E. apply E.
    apply existsb_exists_elem. exists suf. split; [done|]. apply matches_suffix_labels. by exists pre.
Qed.

(** C13. One query, one path: every exchange of a query is made by the client
    of its path with the upstream of its path, on a message without stale
    data: none if there is no upstream, one over UDP, and one over TCP after a
    truncated reply, which then is what is returned, with the whole timeout to
    itself; a message without exactly one question is not sent. *)
Theorem Forward_attempts `{DnsLaws} {Ex W} `{!Exchanger Ex W} (f : Forwarder Ex) c m (w w' : W) r path err tr :
  Forward f c m (w, []) = (r, path, err, (w', tr)) →
  match question_names m with
  | [name] =>
      path = f_Classifier f name ∧ Forall (on_path f path) tr ∧ Forall (λ a, Data (at_msg a) = None) tr ∧
      match tr with
      | [] => path_addr f path = "" ∧ r = None ∧ err ≠ None
      | [u] => at_net u = "udp" ∧ is_truncated (at_reply u) = false ∧ (r, err) = (at_reply u, at_err u)
      | [u; t] => at_net u = "udp" ∧ is_truncated (at_reply u) = true ∧
                  at_net t = "tcp" ∧ deadlines (at_ctx t) = [f_Timeout f] ∧ (r, err) = (at_reply t, at_err t)
      | _ => False
      end
  | _ => path = PathExit ∧ tr = [] ∧ r = None ∧ err ≠ None
  end.
Proof.
  intros Hf. destruct (question_names m) as [|name [|q qs]] eqn:Hn.
  1, 3: rewrite (Forward_many (Ex:=Ex) (W:=W * list (attempt Ex))) in Hf by (rewrite Hn; simpl; lia); by injection Hf as <- <- <- <- <-.
  destruct (Forward_trace f c m name w r path err w' tr Hn Hf) as [Hpath Hon]. split; [done|]. split; [done|]. clear Hon.
  rewrite (Forward_one (Ex:=Ex) (W:=W * list (attempt Ex)) _ _ _ _ _ Hn) in Hf. cbv zeta in Hf. rewrite <-Hpath in Hf.
  destruct (String.eqb_spec (path_addr f path) ""); [by injection Hf as <- <- <- <-|].
  unfold Exchange, traced in Hf.
  destruct (Exchange _ _ _ "udp" _ w) as [[[r1 err1] m1] w1]. cbn [app] in Hf. destruct (is_truncated r1) eqn:Et.
  - destruct (Exchange _ _ _ "tcp" _ w1) as [[[r2 err2] m2] w2]. injection Hf as <- <- <- <-.
    split; [repeat constructor; apply Data_set_Data|done].
  - injection Hf as <- <- <- <-. split; [repeat constructor; apply Data_set_Data|done].
Qed.

(** C20. Every answer belongs to its query: what is answered to a query that
    unpacks, unpacks to a message with the query's ID; its code is a format
    error when there is not exactly one question (and nothing was forwarded),
    a server failure when forwarding or packing fails or there is no reply,
    and that of the forwarded reply otherwise. *)
Theorem processQuery_reply `{DnsLaws} {Ex W} `{!Exchanger Ex W} (f : Forwarder Ex) c raw (w w' : W) out logs req :
  Unpack (set_Data new_msg (Some raw)) = (None, req) →
  processQuery f c raw w = (Some out, logs, w') →
  ∃ u, Unpack (set_Data new_msg (Some out)) = (None, u) ∧ ID u = ID req ∧
    if bool_decide (length (question_names req) = 1%nat) then
      let '(resp, _, err, w1) := Forward f c (set_Data (Copy req) None) w in
      w' = w1 ∧
      match err, resp with
      | None, Some resp => Rcode u = Rcode resp ∨ (Rcode u = RcodeServerFailure ∧ (Pack (set_Data (set_ID resp (ID req)) None)).1 ≠ None)
      | _, _ => Rcode u = RcodeServerFailure
      end
    else Rcode u = RcodeFormatError ∧ w' = w.
Proof.
  intros Hu. unfold processQuery. rewrite Hu. destruct (question_names req) as [|name [|q qs]] eqn:Hn.
  1, 3: intros [= Ho <- <-]; destruct (packRcode_header _ _ _ Ho) as (u & ? & ? & ?); by exists u.
  rewrite (bool_decide_eq_true_2 (length [name] = 1%nat)) by done. destruct (Forward f c _ w) as [[[resp path] err] w1].
  destruct err as [e|].
  { intros [= Ho <- <-]. destruct (packRcode_header _ _ _ Ho) as (u & ? & ? & ?). by exists u. }
  destruct resp as [resp|].
  2:{ intros [= Ho <- <-]. destruct (packRcode_header _ _ _ Ho) as (u & ? & ? & ?). by exists u. }
  destruct (Pack _) as [[e|] m'] eqn:Hp; intros [= Ho <- <-].
  - destruct (packRcode_header _ _ _ Ho) as (u & ? & ? & ?). exists u. do 3 (split; [done|]). by right.
  - destruct (reply_header _ _ _ _ Hp Ho) as (u & ? & ? & ?). exists u. do 3 (split; [done|]). by left.
Qed.

(** C35. TCP framing: what the server writes on a connection is nothing, or a
    length and the answer to the frame it read, and a client that reads frames
    the way the server does gets that answer, if it is not empty and at most
    65535 bytes. *)
Theorem handleTCP_frame `{DnsLib} {Ex W} `{!Exchanger Ex W} (f : Forwarder Ex) c input (w w' : W) writes rest :
  handleTCP f c input w = (writes, w') →
  match writes with
  | [] => True
  | [lenBuf; out] =>
      (∃ raw, read_frame input = Some raw ∧ ∃ logs, processQuery f c raw w = (Some out, logs, w')) ∧
      ((0 < String.length out)%nat → Z.of_nat (String.length out) <= maxDNSPacket →
       read_frame (lenBuf +:+ out +:+ rest) = Some out)
  | _ => False
  end.
Proof.
  unfold handleTCP. destruct (read_frame input) as [raw|]; [|by intros [= <- <-]].
  destruct (processQuery f c raw w) as [[[out|] logs] w1] eqn:E; intros [= <- <-]; [|done].
  split; [by exists raw; split; [|exists logs]|]. apply read_frame_out.
Qed.

(** Split egress, end to end: when the mark given to [gotun-dns] is the
    mark of the policy that [gotun] compiled, the sockets of direct queries are
    routed by the main table, and those of the others through the tunnel when
    it is up, else to the blackhole: never out of the main table. *)
Theorem gotun_dns_egress `{DnsLib} {W} `{!Exchanger Client W} p st dev_up fl f c m (w w' : W) r path err tr :
  Compile p = Ok st → parseMark (fl_mark fl) = Ok (Spec.policy_mark p) → main_forwarder true fl = inr f →
  Forward f c m (w, []) = (r, path, err, (w', tr)) →
  Forall (λ a, Spec.route_packet dev_up (IPRules st) (Routes st) (default 0 (d_Control (cl_Dialer (at_ex a)))) =
    match path with
    | PathDirect => Spec.MainTable
    | PathExit => if TunnelUp p && dev_up (Spec.policy_iface p) then Spec.Via (Spec.policy_iface p) else Spec.Blackholed
    end) tr.
Proof.
  intros Hc Hp Hm Hf. destruct (marked_egress p st dev_up Hc) as [Hmark Hmain].
  eapply list.Forall_impl; [exact (forward_marks fl f _ c m w w' r path err tr Hp (policy_mark_nonzero p) Hm Hf)|].
  intros a ->. by destruct path.
Qed.

(** ** Witnesses *)

(** A small DNS library: a message packs to two bytes of ID, one of code and
    the names. *)
Module Toy.
Record msg := MsgMk { names : list string; tc : bool; id : Z; rcode : Z; data : option string }.

Definition pack (m : msg) : option error * msg :=
  if (0 <=? id m) && (id m <? 65536) && (0 <=? rcode m) && (rcode m <? 256) then
    (None, MsgMk (names m) (tc m) (id m) (rcode m)
      (Some (String (char_of (id m / 256)) (String (char_of (id m mod 256)) (String (char_of (rcode m)) (join (names m) " "))))))
  else (Some (ErrStd "dns.Pack" "range"), m).

Definition unpack (m : msg) : option error * msg :=
  match data m with
  | Some (String a (String b (String c names))) =>
      (None, MsgMk (if String.eqb names "" then [] else split names " ") (tc m) (byte_of a * 256 + byte_of b) (byte_of c) (data m))
  | _ => (Some (ErrStd "dns.Unpack" "short"), m)
  end.

Definition fqdn (s : string) : string := if has_suffix s "." then s else s +:+ ".".
End Toy.

#[global] Instance toy_lib : DnsLib := {
  Msg := Toy.msg;
  new_msg := Toy.MsgMk [] false 0 0 None;
  question_names := Toy.names;
  Truncated := Toy.tc;
  ID := Toy.id;
  set_ID m i := Toy.MsgMk (Toy.names m) (Toy.tc m) i (Toy.rcode m) (Toy.data m);
  Rcode := Toy.rcode;
  set_Rcode m r := Toy.MsgMk (Toy.names m) (Toy.tc m) (Toy.id m) r (Toy.data m);
  Data := Toy.data;
  set_Data m d := Toy.MsgMk (Toy.names m) (Toy.tc m) (Toy.id m) (Toy.rcode m) d;
  Unpack := Toy.unpack;
  Pack := Toy.pack;
  Copy m := m;
  SetReply m req := Toy.MsgMk (Toy.names req) false (Toy.id req) (Toy.rcode m) None;
  Canonical s := Toy.fqdn (to_lower s)
}.

#[global] Instance toy_laws : DnsLaws.
Proof.
  split; try done. intros m m' d. simpl. unfold Toy.pack. bcase; [|done]. bool_to_prop. intros [= <-] [= <-].
  eexists. split; [reflexivity|]. cbn [ID Rcode toy_lib Toy.id Toy.rcode].
  pose proof (Z.mod_pos_bound (Toy.id m) 256). pose proof (Z.div_mod (Toy.id m) 256).
  assert (0 <= Toy.id m / 256 < 256) by (split; [apply Z.div_pos; lia|apply Z.div_lt_upper_bound; lia]).
  rewrite !byte_of_char_of by lia. split; lia.
Qed.

(** A network that truncates over UDP and answers over TCP. *)
#[global] Instance toy_net {Ex} : Exchanger Ex nat := λ ex c m net addr n,
  (Some (Toy.MsgMk (Toy.names m) (String.eqb net "udp") 7 0 None), None, m, S n).

Definition ex_forwarder : Forwarder Client :=
  let direct := newClient (NewDirectDialer (DialConfigMk (3 * Second) 1)) (3 * Second) in
  let exit := newClient (DialerMk (3 * Second) (Some 1)) (3 * Second) in
  ForwarderMk DefaultRUClassifier (UpstreamMk "77.88.8.8:53" "1.1.1.1:53") (3 * Second) direct exit.

Lemma ex_default_mark : parseMark (fl_mark default_flags) = Ok 1.
Proof. vm_compute. reflexivity. Qed.
Lemma ex_forwarder_ok : main_forwarder true default_flags = inr ex_forwarder.
Proof. unfold main_forwarder. by rewrite ex_default_mark. Qed.

Definition ex_msg (name : string) (d : option string) : @Msg toy_lib := Toy.MsgMk [name] false 258 0 d.
Definition ex_query : @Msg toy_lib := ex_msg "shop.example.ru" (Some "stale").
Definition ex_raw : string := default "" (Toy.data (Toy.pack ex_query).2).
(** The whole exchange, as it is recorded. *)
Definition ex_trace (name : string) : option Msg * Path * option error * (nat * list (attempt Client)) :=
  Forward (W:=nat * list (attempt Client)) ex_forwarder Background (ex_msg name (Some "stale")) (O, []).
Definition ex_attempts (name : string) : list (attempt Client) := (ex_trace name).2.2.
Definition ex_reply (name : string) : option (@Msg toy_lib) := Some (Toy.MsgMk [name] false 7 0 None).

Lemma ex_trace_direct : ex_trace "shop.example.ru" =
  (ex_reply "shop.example.ru", PathDirect, None, (2%nat, ex_attempts "shop.example.ru")).
Proof. vm_cast_no_check (eq_refl (ex_trace "shop.example.ru")). Qed.
Lemma ex_trace_exit : ex_trace "example.com" = (ex_reply "example.com", PathExit, None, (2%nat, ex_attempts "example.com")).
Proof. vm_cast_no_check (eq_refl (ex_trace "example.com")). Qed.
Lemma ex_attempts_length : length (ex_attempts "shop.example.ru") = 2%nat ∧ length (ex_attempts "example.com") = 2%nat.
Proof. split; vm_compute; reflexivity. Qed.

Lemma Forward_attempts_witness :
  PathDirect = f_Classifier ex_forwarder "shop.example.ru" ∧ length (ex_attempts "shop.example.ru") = 2%nat ∧
  Forall (on_path ex_forwarder PathDirect) (ex_attempts "shop.example.ru").
Proof.
  destruct (Forward_attempts ex_forwarder Background ex_query O 2%nat (ex_reply "shop.example.ru") PathDirect None
    (ex_attempts "shop.example.ru") ex_trace_direct) as (Hp & Hon & _).
  split; [exact Hp|]. split; [exact (proj1 ex_attempts_length)|exact Hon].
Defined.

Definition ex_out : string := default "" (processQuery (W:=nat) ex_forwarder Background ex_raw O).1.1.

Lemma processQuery_reply_witness : ∃ u, Unpack (set_Data new_msg (Some ex_out)) = (None, u) ∧ ID u = 258.
Proof.
  destruct (processQuery_reply ex_forwarder Background ex_raw O 2%nat ex_out [] (Unpack (set_Data new_msg (Some ex_raw))).2)
    as (u & Hu & Hid & _); [vm_compute; reflexivity..|].
  exists u. split; [exact Hu|]. rewrite Hid. vm_compute. reflexivity.
Defined.

Definition ex_input : string := len_bytes ex_raw +:+ ex_raw.

Lemma handleTCP_frame_witness : read_frame (len_bytes ex_out +:+ ex_out +:+ "more") = Some ex_out.
Proof.
  destruct (handleTCP_frame ex_forwarder Background ex_input O 2%nat [len_bytes ex_out; ex_out] "more") as [_ H].
  { vm_compute. reflexivity. }
  apply H; vm_compute; [|discriminate]. lia.
Defined.

Lemma ex_state_ok : Compile ex_policy = Ok ex_state.
Proof. vm_compute. reflexivity. Qed.

Lemma gotun_dns_egress_witness :
  length (ex_attempts "example.com") = 2%nat ∧
  Forall (λ a, Spec.route_packet (λ _, true) (IPRules ex_state) (Routes ex_state) (default 0 (d_Control (cl_Dialer (at_ex a)))) =
               Spec.Via "wg-exit") (ex_attempts "example.com").
Proof.
  split; [exact (proj2 ex_attempts_length)|].
  exact (gotun_dns_egress ex_policy ex_state (λ _, true) default_flags ex_forwarder Background (ex_msg "example.com" (Some "stale"))
    O 2%nat (ex_reply "example.com") PathExit None (ex_attempts "example.com") ex_state_ok ex_default_mark ex_forwarder_ok ex_trace_exit).
Defined.
