(* ===== verification/DnsServer.v ===== *)
(** * [internal/dnsproxy/server.go]: the server's goroutines

    [ListenAndServe] runs [serveUDP] and [serveTCP] in two goroutines that send
    the error they end with on a channel, waits for the first error, cancels
    the context, closes both sockets and waits for both goroutines.  Each
    packet and each connection is handled in a goroutine of its own.

    The state is that of all the goroutines; [step] is one step of one of them,
    or of the network.  [Internal] steps need nothing from outside but that a
    read ends at its deadline, which is one second; an [Idle] step is a read that
    ends so while the context is not cancelled, after which the loop goes on. *)

From stdpp Require Import base list strings gmap relations.
From Stdlib Require Import ZArith Lia Ascii.
From S2P Require Import Prelude GoStrings Netip Policy Dns.

(** ** Errors *)

Definition ErrClosed : error := ErrStd "net" "use of closed network connection".
Definition Canceled : error := ErrStd "context" "canceled".

(** [errors.Is(err, target)], of an error that is not a [fmt.Errorf]. *)
Fixpoint errors_Is (c x : string) (e : error) : bool :=
  match e with
  | ErrText _ => false
  | ErrStd c' x' => String.eqb c' c && String.eqb x' x
  | ErrFmt _ _ causes => existsb (errors_Is c x) causes
  end.
Definition is_closed (e : error) : bool := errors_Is "net" "use of closed network connection" e.
Definition is_canceled (e : error) : bool := errors_Is "context" "canceled" e.

(** ** States *)

(** A serve loop: about to read; with [n] bytes in its buffer from an address;
    with an error to send; with the error sent; done ([wg.Done]). *)
Inductive loop :=
| Reading
| Got (n : nat) (addr : string)
| Sending (e : error)
| Sent
| Done.

(** [ListenAndServe]: receiving from the channel, then each statement that
    follows, then returned. *)
Inductive main_pc :=
| Receive
| Cancel (e : error)
| CloseUDP (e : error)
| CloseTCP (e : error)
| Wait (e : error)
| Returned (r : option error).

Record server := ServerMk {
  cancelled : bool;
  udp_open : bool;
  tcp_open : bool;
  buf : string;
  udp_loop : loop;
  tcp_loop : loop;
  errCh : list error;
  main : main_pc;
  (** The packets and the connections in the hands of a goroutine. *)
  packets : list (string * string);
  conns : list string;
  (** The history: what was received, what was answered to it, what was written
      on connections, and the errors that were neither a timeout nor after the
      cancellation. *)
  received : list (string * string);
  answered : list (string * string * option string);
  written : list (string * list string);
  failures : list error
}.

Definition errCh_cap : nat := 2.

(** [ListenAndServe] up to the two goroutines, with what the two calls to the
    network return: what it returns if one fails, and what it did with the
    sockets. *)
Definition started : server :=
  ServerMk false true true (String.concat "" (replicate (Z.to_nat maxDNSPacket) (String (char_of 0) ""))) Reading Reading [] Receive [] [] [] [] [] [].
Inductive socket_call := OpenUDP | OpenTCP | DropUDP.
Definition Start (udp tcp : option error) : sum error server * list socket_call :=
  match udp with
  | Some e => (inl e, [OpenUDP])
  | None =>
      match tcp with
      | Some e => (inl e, [OpenUDP; OpenTCP; DropUDP])
      | None => (inr started, [OpenUDP; OpenTCP])
      end
  end.

Definition set_udp_loop (l : loop) (s : server) : server :=
  ServerMk (cancelled s) (udp_open s) (tcp_open s) (buf s) l (tcp_loop s) (errCh s) (main s) (packets s) (conns s)
    (received s) (answered s) (written s) (failures s).
Definition set_tcp_loop (l : loop) (s : server) : server :=
  ServerMk (cancelled s) (udp_open s) (tcp_open s) (buf s) (udp_loop s) l (errCh s) (main s) (packets s) (conns s)
    (received s) (answered s) (written s) (failures s).
Definition set_main (m : main_pc) (s : server) : server :=
  ServerMk (cancelled s) (udp_open s) (tcp_open s) (buf s) (udp_loop s) (tcp_loop s) (errCh s) m (packets s) (conns s)
    (received s) (answered s) (written s) (failures s).
Definition set_errCh (ch : list error) (s : server) : server :=
  ServerMk (cancelled s) (udp_open s) (tcp_open s) (buf s) (udp_loop s) (tcp_loop s) ch (main s) (packets s) (conns s)
    (received s) (answered s) (written s) (failures s).
Definition set_cancelled (s : server) : server :=
  ServerMk true (udp_open s) (tcp_open s) (buf s) (udp_loop s) (tcp_loop s) (errCh s) (main s) (packets s) (conns s)
    (received s) (answered s) (written s) (failures s).
Definition set_open (udp tcp : bool) (s : server) : server :=
  ServerMk (cancelled s) udp tcp (buf s) (udp_loop s) (tcp_loop s) (errCh s) (main s) (packets s) (conns s)
    (received s) (answered s) (written s) (failures s).
Definition add_failure (e : error) (s : server) : server :=
  ServerMk (cancelled s) (udp_open s) (tcp_open s) (buf s) (udp_loop s) (tcp_loop s) (errCh s) (main s) (packets s) (conns s)
    (received s) (answered s) (written s) (failures s ++ [e]).

(** [ReadFrom(buf)]: the datagram is at the start of the buffer. *)
Definition receive (addr d : string) (s : server) : server :=
  let n := String.length d in
  ServerMk (cancelled s) (udp_open s) (tcp_open s) (d +:+ String.substring n (String.length (buf s) - n) (buf s))
    (Got n addr) (tcp_loop s) (errCh s) (main s) (packets s) (conns s)
    (received s ++ [(addr, d)]) (answered s) (written s) (failures s).

(** [raw := make([]byte, n); copy(raw, buf[:n]); go s.handlePacket(...)]. *)
Definition spawn (n : nat) (addr : string) (s : server) : server :=
  ServerMk (cancelled s) (udp_open s) (tcp_open s) (buf s) Reading (tcp_loop s) (errCh s) (main s)
    (packets s ++ [(addr, String.substring 0 n (buf s))]) (conns s) (received s) (answered s) (written s) (failures s).

Definition accept (input : string) (s : server) : server :=
  ServerMk (cancelled s) (udp_open s) (tcp_open s) (buf s) (udp_loop s) (tcp_loop s) (errCh s) (main s) (packets s)
    (conns s ++ [input]) (received s) (answered s) (written s) (failures s).

(** A goroutine ends: its packet, or connection, is between [l1] and [l2]. *)
Definition packet_done (l1 l2 : list (string * string)) (addr raw : string) (out : option string) (s : server) : server :=
  ServerMk (cancelled s) (udp_open s) (tcp_open s) (buf s) (udp_loop s) (tcp_loop s) (errCh s) (main s) (l1 ++ l2) (conns s)
    (received s) (answered s ++ [(addr, raw, out)]) (written s) (failures s).
Definition conn_done (l1 l2 : list string) (input : string) (ws : list string) (s : server) : server :=
  ServerMk (cancelled s) (udp_open s) (tcp_open s) (buf s) (udp_loop s) (tcp_loop s) (errCh s) (main s) (packets s) (l1 ++ l2)
    (received s) (answered s) (written s ++ [(input, ws)]) (failures s).

(** What a loop does with a failed read: [None] is [continue]. *)
Definition read_error (s : server) (e : error) (timeout : bool) : option error :=
  if cancelled s then Some Canceled else if timeout then None else Some e.

(** ** Steps *)

Inductive event := Traffic | Idle | Answer | Stop | Failure | Internal.

Section steps.
Context `{DnsLib} {Ex W : Type} `{!Exchanger Ex W} (f : Forwarder Ex).

Inductive step : event → server → server → Prop :=
(* serveUDP *)
| step_receive s addr d :
    udp_loop s = Reading → udp_open s = true → Z.of_nat (String.length d) <= maxDNSPacket →
    step Traffic s (receive addr d s)
| step_spawn s n addr :
    udp_loop s = Got n addr → step Internal s (spawn n addr s)
| step_udp_idle s e : (* the deadline, and the loop goes on *)
    udp_loop s = Reading → read_error s e true = None → step Idle s s
| step_udp_stop s e e' timeout : (* the deadline, or a closed socket, after the cancellation *)
    udp_loop s = Reading → cancelled s = true → read_error s e timeout = Some e' → step Internal s (set_udp_loop (Sending e') s)
| step_udp_fail s e e' :
    udp_loop s = Reading → cancelled s = false → read_error s e false = Some e' →
    step Failure s (add_failure e (set_udp_loop (Sending e') s))
| step_udp_send s e :
    udp_loop s = Sending e → (length (errCh s) < errCh_cap)%nat →
    step Internal s (set_udp_loop Sent (set_errCh (errCh s ++ [e]) s))
| step_udp_done s : udp_loop s = Sent → step Internal s (set_udp_loop Done s)
(* serveTCP *)
| step_accept s input :
    tcp_loop s = Reading → tcp_open s = true → step Traffic s (accept input s)
| step_tcp_idle s e :
    tcp_loop s = Reading → read_error s e true = None → step Idle s s
| step_tcp_stop s e e' timeout :
    tcp_loop s = Reading → cancelled s = true → read_error s e timeout = Some e' → step Internal s (set_tcp_loop (Sending e') s)
| step_tcp_fail s e e' :
    tcp_loop s = Reading → cancelled s = false → read_error s e false = Some e' →
    step Failure s (add_failure e (set_tcp_loop (Sending e') s))
| step_tcp_send s e :
    tcp_loop s = Sending e → (length (errCh s) < errCh_cap)%nat →
    step Internal s (set_tcp_loop Sent (set_errCh (errCh s ++ [e]) s))
| step_tcp_done s : tcp_loop s = Sent → step Internal s (set_tcp_loop Done s)
(* ListenAndServe *)
| step_main_receive s e ch :
    main s = Receive → errCh s = e :: ch → step Internal s (set_main (Cancel e) (set_errCh ch s))
| step_main_cancel s e : main s = Cancel e → step Internal s (set_main (CloseUDP e) (set_cancelled s))
| step_main_close_udp s e : main s = CloseUDP e → step Internal s (set_main (CloseTCP e) (set_open false (tcp_open s) s))
| step_main_close_tcp s e : main s = CloseTCP e → step Internal s (set_main (Wait e) (set_open (udp_open s) false s))
| step_main_return s e :
    main s = Wait e → udp_loop s = Done → tcp_loop s = Done →
    step Internal s (set_main (Returned (if is_closed e || is_canceled e then None else Some e)) s)
(* Shutdown *)
| step_shutdown s : step Stop s (set_cancelled s)
(* handlePacket and handleTCP, under the server's context *)
| step_packet s l1 l2 addr raw (w : W) :
    packets s = l1 ++ (addr, raw) :: l2 →
    step Answer s (packet_done l1 l2 addr raw (handlePacket f (WithCancel Background) raw w).1 s)
| step_conn s l1 l2 input (w : W) :
    conns s = l1 ++ input :: l2 →
    step Answer s (conn_done l1 l2 input (handleTCP f (WithCancel Background) input w).1 s).

Definition any_step (s s' : server) : Prop := ∃ ev, step ev s s'.
Definition reachable : server → Prop := rtc any_step started.
Definition internal : relation server := step Internal.
End steps.

(** ** The invariant *)

Section invariant.
Context `{DnsLib} {Ex W : Type} `{!Exchanger Ex W} (f : Forwarder Ex).

(** The errors on their way to the result, and the sends made or to come. *)
Definition loop_errors (l : loop) : list error := match l with Sending e => [e] | _ => [] end.
Definition main_errors (m : main_pc) : list error :=
  match m with Cancel e | CloseUDP e | CloseTCP e | Wait e | Returned (Some e) => [e] | _ => [] end.
Definition to_send (l : loop) : nat := match l with Sent | Done => 0 | _ => 1 end.
Definition taken (m : main_pc) : nat := match m with Receive => 0 | _ => 1 end.

Definition pending (s : server) : list (string * string) :=
  match udp_loop s with Got n addr => [(addr, String.substring 0 n (buf s))] | _ => [] end.

(** An answer is what [processQuery] makes of the packet. *)
Definition is_answer (x : string * string * option string) : Prop :=
  let '(_, raw, out) := x in ∃ w : W, out = (processQuery f (WithCancel Background) raw w).1.1.

Record inv (s : server) : Prop := InvMk {
  inv_packets : received s ≡ₚ pending s ++ packets s ++ ((λ x, x.1) <$> answered s);
  inv_answers : Forall is_answer (answered s);
  inv_errors : Forall (λ e, e = Canceled ∨ e ∈ failures s)
    (loop_errors (udp_loop s) ++ loop_errors (tcp_loop s) ++ errCh s ++ main_errors (main s));
  inv_channel : (length (errCh s) + to_send (udp_loop s) + to_send (tcp_loop s) + taken (main s) = 2)%nat;
  inv_cancel : match main s with Receive | Cancel _ => True | _ => cancelled s = true end;
  inv_open : match main s with
             | Receive | Cancel _ | CloseUDP _ => udp_open s = true ∧ tcp_open s = true
             | CloseTCP _ => udp_open s = false ∧ tcp_open s = true
             | Wait _ | Returned _ => udp_open s = false ∧ tcp_open s = false
             end;
  inv_returned : match main s with
                 | Returned r => udp_loop s = Done ∧ tcp_loop s = Done ∧
                     match r with Some e => is_closed e = false ∧ is_canceled e = false | None => True end
                 | _ => True
                 end;
  inv_tcp : match tcp_loop s with Got _ _ => False | _ => True end
}.

Lemma inv_started : inv started.
Proof. split; try done; try constructor. Qed.

(** Errors that move on, or are dropped, stay known. *)
Lemma errors_mono (P : error → Prop) l l' : (∀ e, e ∈ l' → e ∈ l) → Forall P l → Forall P l'.
Proof. rewrite !list.Forall_forall. auto. Qed.

Ltac proj :=
  cbn [cancelled udp_open tcp_open buf udp_loop tcp_loop errCh main packets conns received answered written failures
       set_udp_loop set_tcp_loop set_main set_errCh set_cancelled set_open add_failure receive spawn accept packet_done conn_done
       loop_errors main_errors to_send taken] in *.

Lemma read_error_canceled s e timeout e' : cancelled s = true → read_error s e timeout = Some e' → e' = Canceled.
Proof. unfold read_error. intros ->. by intros [= <-]. Qed.

Lemma read_error_fail s e e' : cancelled s = false → read_error s e false = Some e' → e' = e.
Proof. unfold read_error. intros ->. by intros [= <-]. Qed.

(** What [inv] says of the errors of a state. *)
Definition errors_known (fs : list error) (es : list error) : Prop := Forall (λ e, e = Canceled ∨ e ∈ fs) es.

Lemma errors_known_fail fs es e : errors_known fs es → errors_known (fs ++ [e]) es.
Proof. intros He. eapply list.Forall_impl; [exact He|]. intros x [->|Hx]; [by left|right; set_solver]. Qed.
Lemma inv_receive s addr d : udp_loop s = Reading → inv s → inv (receive addr d s).
Proof.
  intros Hl [Hp Ha He Hc Hcan Ho Hr Ht]. unfold pending in Hp. rewrite Hl in *. split; proj; try done.
  - unfold pending. proj. rewrite substring_app, Hp. cbn [app]. by rewrite Permutation_app_comm.
  - destruct (main s); naive_solver.
Qed.

Lemma inv_spawn s n addr : udp_loop s = Got n addr → inv s → inv (spawn n addr s).
Proof.
  intros Hl [Hp Ha He Hc Hcan Ho Hr Ht]. unfold pending in Hp. rewrite Hl in *. split; proj; try done.
  - unfold pending. proj. rewrite Hp. cbn [app]. rewrite <-app_assoc. apply Permutation_middle.
  - destruct (main s); naive_solver.
Qed.

Lemma inv_udp_sending s e :
  udp_loop s = Reading → e = Canceled ∨ e ∈ failures s → inv s → inv (set_udp_loop (Sending e) s).
Proof.
  intros Hl Hk [Hp Ha He Hc Hcan Ho Hr Ht]. unfold pending in Hp. rewrite Hl in *. split; proj; try done.
  - by constructor.
  - destruct (main s); naive_solver.
Qed.

Lemma inv_tcp_sending s e :
  tcp_loop s = Reading → e = Canceled ∨ e ∈ failures s → inv s → inv (set_tcp_loop (Sending e) s).
Proof.
  intros Hl Hk [Hp Ha He Hc Hcan Ho Hr Ht]. rewrite Hl in *. split; proj; try done.
  - apply Forall_app in He as [He1 He2]. apply Forall_app. split; [done|]. by constructor.
  - destruct (main s); naive_solver.
Qed.

Lemma inv_add_failure s e : inv s → inv (add_failure e s).
Proof. intros [Hp Ha He Hc Hcan Ho Hr Ht]. split; proj; try done. by apply errors_known_fail. Qed.

Lemma inv_udp_send s e : udp_loop s = Sending e → inv s → inv (set_udp_loop Sent (set_errCh (errCh s ++ [e]) s)).
Proof.
  intros Hl [Hp Ha He Hc Hcan Ho Hr Ht]. unfold pending in Hp. rewrite Hl in *. split; proj; try done.
  - eapply errors_mono; [|exact He]. set_solver.
  - rewrite length_app. simpl. lia.
  - destruct (main s); naive_solver.
Qed.

Lemma inv_tcp_send s e : tcp_loop s = Sending e → inv s → inv (set_tcp_loop Sent (set_errCh (errCh s ++ [e]) s)).
Proof.
  intros Hl [Hp Ha He Hc Hcan Ho Hr Ht]. rewrite Hl in *. split; proj; try done.
  - eapply errors_mono; [|exact He]. set_solver.
  - rewrite length_app. simpl. lia.
  - destruct (main s); naive_solver.
Qed.

Lemma inv_udp_done s : udp_loop s = Sent → inv s → inv (set_udp_loop Done s).
Proof.
  intros Hl [Hp Ha He Hc Hcan Ho Hr Ht]. unfold pending in Hp. rewrite Hl in *. split; proj; try done.
  destruct (main s); naive_solver.
Qed.

Lemma inv_tcp_done s : tcp_loop s = Sent → inv s → inv (set_tcp_loop Done s).
Proof.
  intros Hl [Hp Ha He Hc Hcan Ho Hr Ht]. rewrite Hl in *. split; proj; try done.
  destruct (main s); naive_solver.
Qed.

Lemma inv_main_receive s e ch : main s = Receive → errCh s = e :: ch → inv s → inv (set_main (Cancel e) (set_errCh ch s)).
Proof.
  intros Hm Hch [Hp Ha He Hc Hcan Ho Hr Ht]. rewrite Hm, Hch in *. split; proj; try done.
  - eapply errors_mono; [|exact He]. set_solver.
  - simpl in Hc. lia.
Qed.

Lemma inv_packet_done s l1 l2 addr raw (w : W) :
  packets s = l1 ++ (addr, raw) :: l2 → inv s →
  inv (packet_done l1 l2 addr raw (handlePacket f (WithCancel Background) raw w).1 s).
Proof.
  intros Hpk [Hp Ha He Hc Hcan Ho Hr Ht]. rewrite Hpk in *. split; proj; try done.
  - change (pending (packet_done l1 l2 addr raw (handlePacket f (WithCancel Background) raw w).1 s)) with (pending s).
    rewrite Hp, fmap_app. f_equiv. cbn [fmap list_fmap fst]. rewrite <-Permutation_middle, app_assoc.
    by rewrite (Permutation_app_comm (_ ++ _) [_]).
  - apply Forall_snoc. split; [done|]. exists w. unfold handlePacket. by destruct (processQuery _ _ _ _) as [[? ?] ?].
Qed.

Lemma inv_step ev s s' : inv s → step f ev s s' → inv s'.
Proof.
  intros Hinv Hstep.
  destruct Hstep as [s addr d Hl Hop Hd|s n addr Hl|s e Hl He'|s e e' tmo Hl Hcn He'|s e e' Hl Hcn He'|s e Hl Hch|s Hl
    |s input Hl Hop|s e Hl He'|s e e' tmo Hl Hcn He'|s e e' Hl Hcn He'|s e Hl Hch|s Hl
    |s e ch Hm Hch|s e Hm|s e Hm|s e Hm|s e Hm Hu Htl|s|s l1 l2 addr raw w Hpk|s l1 l2 input w Hcs].
  - by apply inv_receive.
  - by apply inv_spawn.
  - done.
  - apply inv_udp_sending; [done| |done]. left. by eapply read_error_canceled.
  - apply (inv_udp_sending (add_failure e s)); [done| |by apply inv_add_failure].
    right. rewrite (read_error_fail _ _ _ Hcn He'). proj. set_solver.
  - by apply inv_udp_send.
  - by apply inv_udp_done.
  - destruct Hinv. by split.
  - done.
  - apply inv_tcp_sending; [done| |done]. left. by eapply read_error_canceled.
  - apply (inv_tcp_sending (add_failure e s)); [done| |by apply inv_add_failure].
    right. rewrite (read_error_fail _ _ _ Hcn He'). proj. set_solver.
  - by apply inv_tcp_send.
  - by apply inv_tcp_done.
  - by apply inv_main_receive.
  - destruct Hinv. rewrite Hm in *. by split.
  - destruct Hinv. rewrite Hm in *. split; proj; naive_solver.
  - destruct Hinv. rewrite Hm in *. split; proj; naive_solver.
  - destruct Hinv as [?? He ?????]. rewrite Hm in *. destruct (is_closed e) eqn:H1, (is_canceled e) eqn:H2; split; proj; try done;
      (eapply errors_mono; [|exact He]; set_solver).
  - destruct Hinv. split; proj; try done. by destruct (main s).
  - by apply inv_packet_done.
  - destruct Hinv. by split.
Qed.

Lemma inv_reachable s : reachable f s → inv s.
Proof.
  unfold reachable. generalize inv_started. generalize started. intros s0 H0 Hr.
  induction Hr as [|s1 s2 s3 [ev Hs] _ IH]; [done|]. apply IH. by eapply inv_step.
Qed.

(** ** Lemmas: stopping *)

(** How far the goroutines are from the end. *)
Definition loop_left (l : loop) : nat := match l with Got _ _ => 4 | Reading => 3 | Sending _ => 2 | Sent => 1 | Done => 0 end.
Definition main_left (m : main_pc) : nat :=
  match m with Receive => 5 | Cancel _ => 4 | CloseUDP _ => 3 | CloseTCP _ => 2 | Wait _ => 1 | Returned _ => 0 end.
Definition left (s : server) : nat := loop_left (udp_loop s) + loop_left (tcp_loop s) + main_left (main s).

(** [Shutdown] was called, or a loop has ended. *)
Definition stopping (s : server) : bool :=
  cancelled s ||
  match udp_loop s with Reading | Got _ _ => false | _ => true end ||
  match tcp_loop s with Reading | Got _ _ => false | _ => true end.
Definition returned (s : server) : bool := match main s with Returned _ => true | _ => false end.

Lemma internal_left s s' : internal f s s' → (left s' < left s)%nat.
Proof.
  unfold internal. intros Hs. inversion Hs; subst; unfold left; proj;
    repeat match goal with H : udp_loop s = _ |- _ => rewrite H; clear H | H : tcp_loop s = _ |- _ => rewrite H; clear H
                     | H : main s = _ |- _ => rewrite H; clear H end; simpl; lia.
Qed.

Lemma internal_stopping s s' : internal f s s' → stopping s = true → stopping s' = true.
Proof.
  unfold internal. intros Hs. inversion Hs; subst; unfold stopping; proj;
    repeat match goal with H : udp_loop s = _ |- _ => rewrite H; clear H | H : tcp_loop s = _ |- _ => rewrite H; clear H end;
    rewrite ?orb_true_r; done.
Qed.

(** A stopping server that has not returned can go on by itself. *)
Lemma stopping_progress s : inv s → stopping s = true → returned s = false → ∃ s', internal f s s'.
Proof.
  intros [_ _ _ Hc Hcan _ _ Ht] Hst Hret.
  destruct (udp_loop s) as [|n addr|e| |] eqn:Hu.
  2: { eexists. by eapply step_spawn. }
  2: { destruct (tcp_loop s) eqn:Htl; simpl in Hc; eexists; (eapply step_udp_send; [done|unfold errCh_cap; lia]). }
  2: { eexists. by eapply step_udp_done. }
  - destruct (cancelled s) eqn:Hcn.
    { eexists. eapply (step_udp_stop _ s ErrClosed Canceled true); [done..|]. unfold read_error. by rewrite Hcn. }
    destruct (tcp_loop s) as [|n addr|e| |] eqn:Htl; try done.
    + unfold stopping in Hst. by rewrite Hcn, Hu, Htl in Hst.
    + eexists. eapply step_tcp_send; [done|]. simpl in Hc. unfold errCh_cap. lia.
    + eexists. by eapply step_tcp_done.
    + destruct (main s) as [|e|e|e|e|r] eqn:Hm; try done; [|eexists; by eapply step_main_cancel].
      destruct (errCh s) as [|e ch] eqn:Hch; [simpl in Hc; lia|]. eexists. by eapply step_main_receive.
  - destruct (tcp_loop s) as [|n addr|e| |] eqn:Htl; try done.
    + destruct (cancelled s) eqn:Hcn.
      { eexists. eapply (step_tcp_stop _ s ErrClosed Canceled true); [done..|]. unfold read_error. by rewrite Hcn. }
      destruct (main s) as [|e|e|e|e|r] eqn:Hm; try done; [|eexists; by eapply step_main_cancel].
      destruct (errCh s) as [|e ch] eqn:Hch; [simpl in Hc; lia|]. eexists. by eapply step_main_receive.
    + eexists. eapply step_tcp_send; [done|]. simpl in Hc. unfold errCh_cap. lia.
    + eexists. by eapply step_tcp_done.
    + destruct (main s) as [|e|e|e|e|r] eqn:Hm; [|eexists|eexists|eexists|eexists|].
      * destruct (errCh s) as [|e ch] eqn:Hch; [simpl in Hc; lia|]. eexists. by eapply step_main_receive.
      * by eapply step_main_cancel.
      * by eapply step_main_close_udp.
      * by eapply step_main_close_tcp.
      * by eapply step_main_return.
      * unfold returned in Hret. by rewrite Hm in Hret.
Qed.

Lemma internal_inv s s' : internal f s s' → inv s → inv s'.
Proof. intros Hs Hi. by eapply inv_step. Qed.

(** The states of a server that stops. *)
Definition stops (s : server) : Prop := inv s ∧ stopping s = true.

Lemma internal_stops s s' : internal f s s' → stops s → stops s'.
Proof. intros Hs [Hi Hst]. split; [by eapply internal_inv|by eapply internal_stopping]. Qed.

Lemma stops_return s : stops s → ∃ s', rtc (internal f) s s' ∧ returned s' = true.
Proof.
  apply (measure_reaches _ left internal_left stops); [apply internal_stops|]. intros x [Hi Hst]. by apply stopping_progress.
Qed.

Lemma left_bound s : (left s ≤ 13)%nat.
Proof. unfold left. destruct (udp_loop s), (tcp_loop s), (main s); simpl; lia. Qed.

(** A wait that is over changes nothing, and there is none after the
    cancellation. *)
Lemma idle_step s s' : step f Idle s s' → s' = s ∧ cancelled s = false.
Proof.
  intros Hs. inversion Hs as [| |s0 e _ He| | | | | |s0 e _ He| | | | | | | | | | | |]; subst;
    (split; [done|]); unfold read_error in He; by destruct (cancelled s').
Qed.

(** ** Lemmas: without a call of [Shutdown] *)

Definition unstopped (s s' : server) : Prop := ∃ ev, ev ≠ Stop ∧ step f ev s s'.

(** The result for the error that was received. *)
Definition result_of (e : error) : option error := if is_closed e || is_canceled e then None else Some e.

(** Until an error is received nothing is cancelled, and every error is that of
    a read that failed; then it is that error which becomes the result. *)
Definition from_failure (s : server) : Prop :=
  match main s with
  | Receive => cancelled s = false ∧ Forall (λ e, e ∈ failures s) (loop_errors (udp_loop s) ++ loop_errors (tcp_loop s) ++ errCh s)
  | Cancel e | CloseUDP e | CloseTCP e | Wait e => e ∈ failures s
  | Returned r => ∃ e, e ∈ failures s ∧ r = result_of e
  end.

Lemma from_failure_same s s' :
  main s' = main s → cancelled s' = cancelled s → failures s' = failures s →
  (∀ e, e ∈ loop_errors (udp_loop s') ++ loop_errors (tcp_loop s') ++ errCh s' → e ∈ loop_errors (udp_loop s) ++ loop_errors (tcp_loop s) ++ errCh s) →
  from_failure s → from_failure s'.
Proof.
  unfold from_failure. intros -> -> -> He. destruct (main s); try done. intros [Hc Hf]. split; [done|]. by eapply errors_mono.
Qed.

(** A loop that failed has one more error to send. *)
Lemma from_failure_fail s s' e :
  main s' = main s → cancelled s' = cancelled s → failures s' = failures s ++ [e] →
  (∀ e', e' ∈ loop_errors (udp_loop s') ++ loop_errors (tcp_loop s') ++ errCh s' →
     e' = e ∨ e' ∈ loop_errors (udp_loop s) ++ loop_errors (tcp_loop s) ++ errCh s) →
  from_failure s → from_failure s'.
Proof.
  unfold from_failure. intros -> -> -> He. destruct (main s); try set_solver.
  intros [Hc Hf]. split; [done|]. rewrite list.Forall_forall in Hf |- *. intros e' [->|Hin]%He; set_solver.
Qed.

Lemma from_failure_step s s' : unstopped s s' → from_failure s → from_failure s'.
Proof.
  intros (ev & Hev & Hstep).
  destruct Hstep as [s addr d Hl Hop Hd|s n addr Hl|s e Hl He'|s e e' tmo Hl Hcn He'|s e e' Hl Hcn He'|s e Hl Hch|s Hl
    |s input Hl Hop|s e Hl He'|s e e' tmo Hl Hcn He'|s e e' Hl Hcn He'|s e Hl Hch|s Hl
    |s e ch Hm Hch|s e Hm|s e Hm|s e Hm|s e Hm Hu Htl|s|s l1 l2 addr raw w Hpk|s l1 l2 input w Hcs]; try done.
  all: try (apply from_failure_same; [done..|]; proj; rewrite ?Hl; set_solver).
  - unfold from_failure. proj. destruct (main s); try done. intros [Hc _]. congruence.
  - rewrite (read_error_fail _ _ _ Hcn He'). apply (from_failure_fail s _ e); [done..|]. proj. set_solver.
  - unfold from_failure. proj. destruct (main s); try done. intros [Hc _]. congruence.
  - rewrite (read_error_fail _ _ _ Hcn He'). apply (from_failure_fail s _ e); [done..|]. proj. set_solver.
  - unfold from_failure. proj. rewrite Hm, Hch. intros [_ Hf]. rewrite list.Forall_forall in Hf. apply Hf. set_solver.
  - unfold from_failure. proj. by rewrite Hm.
  - unfold from_failure. proj. by rewrite Hm.
  - unfold from_failure. proj. by rewrite Hm.
  - unfold from_failure. proj. rewrite Hm. intros He. by exists e.
Qed.

Lemma unstopped_from_failure s : rtc unstopped started s → from_failure s.
Proof.
  assert (from_failure started) as H0 by (split; [done|by constructor]). revert H0. generalize started. intros s0 H0 Hr.
  induction Hr as [|s1 s2 s3 Hs _ IH]; [done|]. apply IH. by eapply from_failure_step.
Qed.

End invariant.


(** ** Properties *)

(** C22. Shutdown ends: once [Shutdown] was called or a loop has failed, in
    every reachable state and whatever the goroutines are at, [ListenAndServe]
    needs at most 13 more steps of the goroutines, none of which can block (the
    loops never block on the error channel), if the sockets receive no more:
    no run of them is longer, and each can be continued until it returns.  Waits
    of a loop that end at their deadline are not counted: they change nothing,
    and there are none once the context is cancelled. *)
Theorem ListenAndServe_stops `{DnsLib} {Ex W} `{!Exchanger Ex W} (f : Forwarder Ex) s :
  reachable f s → stopping s = true →
  (∀ n s', nsteps (internal f) n s s' → (n ≤ 13)%nat) ∧
  (∀ s', rtc (internal f) s s' → ∃ s'', rtc (internal f) s' s'' ∧ returned s'' = true) ∧
  (∀ s', step f Idle s s' → s' = s ∧ cancelled s = false).
Proof.
  intros Hi%inv_reachable Hst. split; [|split; [|apply idle_step]].
  - intros n s' Hn%(nsteps_measure _ left (internal_left f)). pose proof (left_bound s). lia.
  - intros s' Hs'. apply stops_return. exact (rtc_keeps _ (stops f) s s' (internal_stops f) Hs' (conj Hi Hst)).
Qed.

(** C23. When [ListenAndServe] returns, both loops are done, both sockets are
    closed and the context is cancelled; an error it returns is that of a read
    that failed before the cancellation for a reason other than its deadline.
    Unless [Shutdown] was called, such a read is why it returns, and its result
    is that error, or nil for a closed socket or a cancelled context. *)
Theorem ListenAndServe_returns `{DnsLib} {Ex W} `{!Exchanger Ex W} (f : Forwarder Ex) s r :
  reachable f s → main s = Returned r →
  udp_loop s = Done ∧ tcp_loop s = Done ∧ udp_open s = false ∧ tcp_open s = false ∧ cancelled s = true ∧
  match r with None => True | Some e => e ∈ failures s ∧ is_closed e = false end ∧
  (rtc (unstopped f) started s → ∃ e, e ∈ failures s ∧ r = if is_closed e || is_canceled e then None else Some e).
Proof.
  intros [_ _ He _ Hcan Ho Hr _]%inv_reachable Hm. rewrite Hm in *. destruct Hr as (Hu & Ht & Hr), Ho as [??].
  do 5 (split; [done|]). split.
  - destruct r as [e|]; [|done]. destruct Hr as [Hc Hk]. split; [|done].
    rewrite list.Forall_forall in He. destruct (He e) as [->|]; [set_solver| |done]. by vm_compute in Hk.
  - intros Hf%unstopped_from_failure. unfold from_failure in Hf. by rewrite Hm in Hf.
Qed.

(** C21. Every datagram is answered on its own: at any time, what was received
    is what is still in the buffer of [serveUDP] or in the hands of a goroutine,
    and what was answered, each once; an answer is the one [processQuery] makes
    of the very bytes that came from that address, although the buffer is
    reused for every datagram. *)
Theorem serveUDP_answers `{DnsLib} {Ex W} `{!Exchanger Ex W} (f : Forwarder Ex) s :
  reachable f s →
  received s ≡ₚ pending s ++ packets s ++ ((λ x, x.1) <$> answered s) ∧
  ∀ addr raw out, (addr, raw, out) ∈ answered s →
    (addr, raw) ∈ received s ∧ ∃ w : W, out = (processQuery f (WithCancel Background) raw w).1.1.
Proof.
  intros [Hp Ha _ _ _ _ _ _]%inv_reachable. split; [done|]. intros addr raw out Hin.
  rewrite list.Forall_forall in Ha. split; [|exact (Ha _ Hin)]. rewrite Hp, !elem_of_app. right. right.
  apply list_elem_of_fmap. by exists (addr, raw, out).
Qed.

(** ** Witnesses *)

(** A datagram is received and answered, then the server is shut down. *)
Definition ex_spawned : server := spawn (String.length ex_raw) "10.0.0.2:4242" (receive "10.0.0.2:4242" ex_raw started).
Definition ex_answered : server :=
  packet_done [] [] "10.0.0.2:4242" ex_raw (handlePacket ex_forwarder (WithCancel Background) ex_raw O).1 ex_spawned.
Definition ex_stopping : server := set_cancelled ex_answered.
Definition ex_udp_sent : server := set_udp_loop Sent (set_errCh [Canceled] (set_udp_loop (Sending Canceled) ex_stopping)).
Definition ex_taken : server := set_main (Cancel Canceled) (set_errCh [] ex_udp_sent).
Definition ex_cancelled : server := set_main (CloseUDP Canceled) (set_cancelled ex_taken).
Definition ex_udp_closed : server := set_main (CloseTCP Canceled) (set_open false true ex_cancelled).
Definition ex_closed : server := set_main (Wait Canceled) (set_open false false ex_udp_closed).
Definition ex_done : server :=
  set_tcp_loop Done (set_tcp_loop Sent (set_errCh [Canceled] (set_tcp_loop (Sending Canceled) (set_udp_loop Done ex_closed)))).
Definition ex_returned : server := set_main (Returned None) ex_done.

Notation ex_reachable := (reachable (W:=nat) ex_forwarder).

Lemma then_step s s' ev : step (W:=nat) ex_forwarder ev s s' → ex_reachable s → ex_reachable s'.
Proof. intros Hs Hr. eapply rtc_r; [exact Hr|]. by exists ev. Qed.

Lemma ex_reachable_answered : ex_reachable ex_answered.
Proof.
  eapply then_step; [exact (step_packet ex_forwarder ex_spawned [] [] "10.0.0.2:4242" ex_raw O eq_refl)|].
  eapply then_step; [exact (step_spawn ex_forwarder (receive "10.0.0.2:4242" ex_raw started) (String.length ex_raw) "10.0.0.2:4242" eq_refl)|].
  eapply then_step; [|apply rtc_refl]. apply step_receive; [done|done|]. by vm_compute.
Qed.

Lemma ex_reachable_stopping : ex_reachable ex_stopping.
Proof. eapply then_step; [apply step_shutdown|apply ex_reachable_answered]. Qed.

Lemma ex_reachable_returned : ex_reachable ex_returned.
Proof.
  eapply then_step; [exact (step_main_return _ ex_done Canceled eq_refl eq_refl eq_refl)|].
  eapply then_step; [apply (step_tcp_done _ (set_tcp_loop Sent (set_errCh [Canceled] (set_tcp_loop (Sending Canceled) (set_udp_loop Done ex_closed))))); done|].
  eapply then_step; [apply (step_tcp_send _ (set_tcp_loop (Sending Canceled) (set_udp_loop Done ex_closed)) Canceled); [done|by vm_compute; lia]|].
  eapply then_step; [by apply (step_tcp_stop _ (set_udp_loop Done ex_closed) ErrClosed Canceled false)|].
  eapply then_step; [by apply (step_udp_done _ ex_closed)|].
  eapply then_step; [exact (step_main_close_tcp _ ex_udp_closed Canceled eq_refl)|].
  eapply then_step; [exact (step_main_close_udp _ ex_cancelled Canceled eq_refl)|].
  eapply then_step; [exact (step_main_cancel _ ex_taken Canceled eq_refl)|].
  eapply then_step; [exact (step_main_receive _ ex_udp_sent Canceled [] eq_refl eq_refl)|].
  eapply then_step; [apply (step_udp_send _ (set_udp_loop (Sending Canceled) ex_stopping) Canceled); [done|by vm_compute; lia]|].
  eapply then_step; [by apply (step_udp_stop _ ex_stopping ErrClosed Canceled true)|].
  apply ex_reachable_stopping.
Qed.

Lemma ListenAndServe_stops_witness :
  stopping ex_stopping = true ∧ ∃ s, rtc (internal (W:=nat) ex_forwarder) ex_stopping s ∧ returned s = true.
Proof.
  split; [reflexivity|].
  exact (proj1 (proj2 (ListenAndServe_stops ex_forwarder ex_stopping ex_reachable_stopping eq_refl)) ex_stopping (rtc_refl _ _)).
Defined.

Lemma ListenAndServe_returns_witness : main ex_returned = Returned None ∧ udp_open ex_returned = false.
Proof.
  split; [reflexivity|].
  exact (proj1 (proj2 (proj2 (ListenAndServe_returns ex_forwarder ex_returned None ex_reachable_returned eq_refl)))).
Defined.

Lemma serveUDP_answers_witness : received ex_answered = [("10.0.0.2:4242", ex_raw)] ∧ ("10.0.0.2:4242", ex_raw) ∈ received ex_answered.
Proof.
  split; [reflexivity|].
  refine (proj1 (proj2 (serveUDP_answers ex_forwarder ex_answered ex_reachable_answered) "10.0.0.2:4242" ex_raw
    (handlePacket ex_forwarder (WithCancel Background) ex_raw O).1 _)).
  by constructor.
Defined.
