(* ===== verification/Labdns.v ===== *)
(** * [cmd/labdns]: the DNS server of the test lab

    A server whose answers depend on the address a query comes from: the
    answer of the first rule whose network contains it.  [handle] answers one
    query, [parseMaps] reads the rules from the command line, [addrIP] the
    address of a peer, [serve_conn] is one TCP connection; the goroutines of
    [listenAndServe] are a step relation.

    [LabLib] is what this server uses of the DNS library beyond [DnsLib]. *)

From stdpp Require Import base list strings gmap relations.
From Stdlib Require Import ZArith Lia Ascii.
From S2P Require Import Prelude GoStrings Netip Dns.

(** ** The DNS library *)

(** An A record: its header and its address. *)
Record ARecord := ARecordMk { a_Name : string; a_Class : Z; a_TTL : Z; a_Addr : Addr }.

Class LabLib `{DnsLib} := {
  Answer : Msg → list ARecord;
  set_Answer : Msg → list ARecord → Msg;
  set_Truncated : Msg → bool → Msg
}.

Definition ClassINET : Z := 1.
Definition RcodeNameError : Z := 3.

(** The fields are fields, and come back when a packed message is unpacked. *)
Class LabLaws `{DnsLaws} `{!LabLib} := {
  Answer_Unpack m m' d u :
    Pack m = (None, m') → Data m' = Some d → Unpack (set_Data new_msg (Some d)) = (None, u) →
    Answer u = Answer m ∧ Truncated u = Truncated m;
  Answer_set_Answer m l : Answer (set_Answer m l) = l;
  Answer_set_Truncated m b : Answer (set_Truncated m b) = Answer m;
  Answer_set_Data m d : Answer (set_Data m d) = Answer m;
  Truncated_set_Truncated m b : Truncated (set_Truncated m b) = b;
  Truncated_set_Answer m l : Truncated (set_Answer m l) = Truncated m;
  Truncated_set_Data m d : Truncated (set_Data m d) = Truncated m;
  ID_set_Answer m l : ID (set_Answer m l) = ID m;
  ID_set_Truncated m b : ID (set_Truncated m b) = ID m
}.

(** ** Addresses *)

(** [netip.Addr.Unmap]. *)
Definition Unmap (a : Addr) : Addr :=
  match a with
  | Addr6 n _ => if Is4In6 a then Addr4 (n mod 2 ^ 32) else a
  | _ => a
  end.

(** [net.SplitHostPort]: the host; [None] is any of its errors. *)
Definition SplitHost (hostport : string) : option string :=
  match cut_last hostport ":" with
  | None => None
  | Some (before, after) =>
      match hostport with
      | String "[" rest =>
          match cut rest "]" with
          | None => None
          | Some (host, tail) =>
              (* the last colon comes right after the bracket *)
              if bool_decide (tail = String ":" after) && no_char "[" rest && no_char "]" tail then Some host else None
          end
      | _ => if no_char ":" before && no_char "[" hostport && no_char "]" hostport then Some before else None
      end
  end.

(** The argument is the text of the [net.Addr]. *)
Definition addrIP (addr : string) : Addr :=
  let host := default addr (SplitHost addr) in
  match ParseAddr host with
  | Err _ => AddrZero
  | Ok ip => Unmap ip
  end.

(** ** Rules *)

Record geoRule := GeoRuleMk { net : Prefix; addr : Addr }.

Record geoHandler := GeoHandlerMk { rules : list geoRule; truncateUDP : bool }.

(** One iteration of the loop. *)
Definition parse_map (v : string) : result geoRule :=
  match cut v "=" with
  | None => Err (ErrFmt "bad -map %q (want CIDR=IP)" [v] [])
  | Some (cidr, ip) =>
      p ← ParsePrefix (trim_space cidr);
      a ← ParseAddr (trim_space ip);
      if negb (Is4 a) then Err (ErrFmt "answer must be IPv4: %s" [addr_string a] [])
      else Ok (GeoRuleMk p a)
  end.

Definition parseMaps (vals : list string) : result (list geoRule) :=
  fold_result (λ out v, r ← parse_map v; Ok (out ++ [r])) [] vals.

Definition flagStrings_String (f : list string) : string := join f ",".
Definition flagStrings_Set (f : list string) (v : string) : list string * option error := (f ++ [v], None).

(** The handler that [main] serves with, or the error and the exit code. *)
Definition main_handler (truncate : bool) (maps : list string) : sum (Z * error) geoHandler :=
  match maps with
  | [] => inl (2, ErrFmt "labdns: at least one -map CIDR=IP is required" [] [])
  | _ =>
      match parseMaps maps with
      | Err e => inl (2, e)
      | Ok rules => inr (GeoHandlerMk rules truncate)
      end
  end.

Definition lookup (h : geoHandler) (src : Addr) : option Addr :=
  if negb (addr_valid src) then None
  else addr <$> List.find (λ rule, Contains (net rule) src) (rules h).

(** ** Queries *)

Section handle.
Context `{LabLib}.

Definition pack (m : Msg) : option string :=
  let m := set_Data m None in
  match Pack m with
  | (Some _, _) => None
  | (None, m) => Data m
  end.

Definition handle (h : geoHandler) (raw : string) (src : Addr) (udp : bool) : option string :=
  let req := set_Data new_msg (Some raw) in
  match Unpack req with
  | (Some _, _) => None
  | (None, req) =>
      let m := Copy req in
      let m := SetReply m req in
      match question_names req with
      | [name] =>
          match lookup h src with
          | None => pack (set_Rcode m RcodeNameError)
          | Some ans =>
              let m := set_Answer m [ARecordMk name ClassINET 60 ans] in
              let m := if truncateUDP h && udp then set_Answer (set_Truncated m true) [] else m in
              pack m
          end
      | _ => pack (set_Rcode m RcodeFormatError)
      end
  end.

(** What is written on a connection on which [input] is sent. *)
Definition serve_conn (h : geoHandler) (peer input : string) : list string :=
  match read_frame input with
  | None => []
  | Some raw =>
      match handle h raw (addrIP peer) false with
      | None => []
      | Some out => [len_bytes out; out]
      end
  end.

(** What a datagram is answered with. *)
Definition serve_packet (h : geoHandler) (peer raw : string) : option string := handle h raw (addrIP peer) true.

End handle.

(** ** The goroutines *)

(** A serve loop: in its loop, with an error to send, with the error sent, done
    ([wg.Done]). *)
Inductive loop := Serving | Sending (e : error) | Sent | Done.

(** [listenAndServe]: receiving from the channel, then each statement that
    follows, then returned. *)
Inductive main_pc := Receive | CloseUDP (e : error) | CloseTCP (e : error) | Wait (e : error) | Returned (e : error).

Record server := ServerMk {
  udp_open : bool;
  tcp_open : bool;
  udp_loop : loop;
  tcp_loop : loop;
  errCh : list error;
  main : main_pc;
  (** The datagrams and connections in the hands of a goroutine, with their
      peers, and those that were answered. *)
  packets : list (string * string);
  conns : list (string * string);
  answered : list (string * string * option string);
  written : list (string * string * list string);
  (** The errors of the sockets while they were open. *)
  failures : list error
}.

(** What the two calls to the network return. *)
Definition listen (udp tcp : option error) : sum error server :=
  match udp, tcp with
  | Some e, _ => inl e
  | None, Some e => inl e
  | None, None => inr (ServerMk true true Serving Serving [] Receive [] [] [] [] [])
  end.

Definition with_udp (l : loop) (ch fs : list error) (s : server) : server :=
  ServerMk (udp_open s) (tcp_open s) l (tcp_loop s) ch (main s) (packets s) (conns s) (answered s) (written s) fs.
Definition with_tcp (l : loop) (ch fs : list error) (s : server) : server :=
  ServerMk (udp_open s) (tcp_open s) (udp_loop s) l ch (main s) (packets s) (conns s) (answered s) (written s) fs.
Definition with_main (m : main_pc) (udp tcp : bool) (ch : list error) (s : server) : server :=
  ServerMk udp tcp (udp_loop s) (tcp_loop s) ch m (packets s) (conns s) (answered s) (written s) (failures s).
Definition with_packets (ps : list (string * string)) (done : list (string * string * option string)) (s : server) : server :=
  ServerMk (udp_open s) (tcp_open s) (udp_loop s) (tcp_loop s) (errCh s) (main s) ps (conns s) done (written s) (failures s).
Definition with_conns (cs : list (string * string)) (done : list (string * string * list string)) (s : server) : server :=
  ServerMk (udp_open s) (tcp_open s) (udp_loop s) (tcp_loop s) (errCh s) (main s) (packets s) cs (answered s) done (failures s).

(** [errCh] holds two errors, so a send never blocks. A closed socket fails. *)
Definition ErrClosed : error := ErrStd "net" "use of closed network connection".

Inductive event := Traffic | Failure | Internal.

Section steps.
Context `{LabLib} (h : geoHandler).

Inductive step : event → server → server → Prop :=
| step_udp_read s peer raw :
    udp_loop s = Serving → udp_open s = true →
    step Traffic s (with_packets (packets s ++ [(peer, raw)]) (answered s) s)
| step_udp_fail s e :
    udp_loop s = Serving → udp_open s = true → step Failure s (with_udp (Sending e) (errCh s) (failures s ++ [e]) s)
| step_udp_closed s :
    udp_loop s = Serving → udp_open s = false → step Internal s (with_udp (Sending ErrClosed) (errCh s) (failures s) s)
| step_udp_send s e :
    udp_loop s = Sending e → (length (errCh s) < 2)%nat → step Internal s (with_udp Sent (errCh s ++ [e]) (failures s) s)
| step_udp_done s : udp_loop s = Sent → step Internal s (with_udp Done (errCh s) (failures s) s)
| step_tcp_accept s peer input :
    tcp_loop s = Serving → tcp_open s = true →
    step Traffic s (with_conns (conns s ++ [(peer, input)]) (written s) s)
| step_tcp_fail s e :
    tcp_loop s = Serving → tcp_open s = true → step Failure s (with_tcp (Sending e) (errCh s) (failures s ++ [e]) s)
| step_tcp_closed s :
    tcp_loop s = Serving → tcp_open s = false → step Internal s (with_tcp (Sending ErrClosed) (errCh s) (failures s) s)
| step_tcp_send s e :
    tcp_loop s = Sending e → (length (errCh s) < 2)%nat → step Internal s (with_tcp Sent (errCh s ++ [e]) (failures s) s)
| step_tcp_done s : tcp_loop s = Sent → step Internal s (with_tcp Done (errCh s) (failures s) s)
| step_receive s e ch :
    main s = Receive → errCh s = e :: ch → step Internal s (with_main (CloseUDP e) (udp_open s) (tcp_open s) ch s)
| step_close_udp s e : main s = CloseUDP e → step Internal s (with_main (CloseTCP e) false (tcp_open s) (errCh s) s)
| step_close_tcp s e : main s = CloseTCP e → step Internal s (with_main (Wait e) (udp_open s) false (errCh s) s)
| step_return s e :
    main s = Wait e → udp_loop s = Done → tcp_loop s = Done →
    step Internal s (with_main (Returned e) (udp_open s) (tcp_open s) (errCh s) s)
| step_packet s l1 l2 peer raw :
    packets s = l1 ++ (peer, raw) :: l2 →
    step Traffic s (with_packets (l1 ++ l2) (answered s ++ [(peer, raw, serve_packet h peer raw)]) s)
| step_conn s l1 l2 peer input :
    conns s = l1 ++ (peer, input) :: l2 →
    step Traffic s (with_conns (l1 ++ l2) (written s ++ [(peer, input, serve_conn h peer input)]) s).

Definition any_step (s s' : server) : Prop := ∃ ev, step ev s s'.
Definition reachable (s : server) : Prop := ∃ s0, listen None None = inr s0 ∧ rtc any_step s0 s.
Definition internal : relation server := step Internal.
End steps.

(** ** Lemmas: addresses and rules *)

(** The text of an IPv4 peer, as [net.UDPAddr] and [net.TCPAddr] print it. *)
Definition peer4 (n : Z) (port : string) : string := string4 n +:+ ":" +:+ port.

Lemma SplitHost_peer4 n port : no_char ":" port = true → no_char "[" port = true → no_char "]" port = true →
  SplitHost (peer4 n port) = Some (string4 n).
Proof.
  intros Hc Ho Hb. unfold SplitHost, peer4. change (string4 n +:+ ":" +:+ port) with (string4 n +:+ String ":" port).
  rewrite cut_last_app by done. pose proof (string4_chars n) as Hs.
  assert (∀ c, is_cidr_char c = false → no_char c port = true → Ascii.eqb ":" c = false → no_char c (string4 n +:+ String ":" port) = true) as Hno.
  { intros c H1 H2 H3. unfold no_char in *. rewrite string_forall_app. cbn [string_forall]. rewrite H3, H2.
    by rewrite (cidr_chars_no_char c (string4 n) H1 Hs : string_forall _ (string4 n) = true). }
  assert (no_char ":" (string4 n) = true) as Hc4 by (by apply cidr_chars_no_char).
  rewrite Hc4, !Hno by done. cbn [andb].
  pose proof (Hno "["%char eq_refl Ho eq_refl) as Hx.
  destruct (string4 n +:+ String ":" port) as [|c rest]; [done|]. destruct (Ascii.eqb_spec c "[") as [->|Hne].
  - discriminate Hx.
  - repeat match goal with |- context [match ?x with _ => _ end] => is_var x; destruct x; try done end.
Qed.

Lemma addrIP_peer4 n port : 0 <= n < 2 ^ 32 → no_char ":" port = true → no_char "[" port = true → no_char "]" port = true →
  addrIP (peer4 n port) = Addr4 n.
Proof.
  intros Hn Hc Ho Hb. unfold addrIP. rewrite SplitHost_peer4 by done. change (default (peer4 n port) (Some (string4 n))) with (string4 n). unfold ParseAddr.
  by rewrite ParseAddr_string4.
Qed.

(** A rule as it is given on the command line. *)
Definition rule_ok (r : geoRule) : Prop := prefix4 (net r) ∧ ∃ n, addr r = Addr4 n ∧ 0 <= n < 2 ^ 32.
Definition rule_arg (r : geoRule) : string := prefix_string (net r) +:+ "=" +:+ addr_string (addr r).

Lemma parse_rule_arg r : rule_ok r → parse_map (rule_arg r) = Ok r.
Proof.
  destruct r as [p a]. intros [Hp (n & Ha & Hn)]. cbn [net addr] in *. subst a. unfold parse_map, rule_arg. cbn [net addr addr_string].
  pose proof (prefix_string_chars p Hp) as Hc. pose proof (string4_chars n) as Hs.
  change (prefix_string p +:+ "=" +:+ string4 n) with (prefix_string p +:+ String "=" (string4 n)).
  rewrite cut_app by (by apply cidr_chars_no_char).
  rewrite (trim_space_visible (prefix_string p)), (trim_space_visible (string4 n)) by (by apply cidr_chars_visible).
  rewrite ParsePrefix_string by done. cbn [mbind result_bind].
  unfold ParseAddr. by rewrite ParseAddr_string4.
Qed.

Lemma parseMaps_args rs : Forall rule_ok rs → parseMaps (rule_arg <$> rs) = Ok rs.
Proof.
  intros Hrs. unfold parseMaps.
  assert (∀ out, fold_result (λ out v, r ← parse_map v; Ok (out ++ [r])) out (rule_arg <$> rs) = Ok (out ++ rs)) as H; [|apply H].
  induction Hrs as [|r rs Hr _ IH]; intros out; cbn [fmap list_fmap fold_result]; [by rewrite app_nil_r|].
  rewrite parse_rule_arg by done. cbn [mbind result_bind]. by rewrite IH, <-app_assoc.
Qed.

(** The rule that decides for a source. *)
Definition decides (rs : list geoRule) (src : Addr) (r : geoRule) : Prop :=
  ∃ l1 l2, rs = l1 ++ r :: l2 ∧ Contains (net r) src = true ∧ Forall (λ r, Contains (net r) src = false) l1.

Lemma find_first rs src :
  match List.find (λ r, Contains (net r) src) rs with
  | Some r => decides rs src r
  | None => Forall (λ r, Contains (net r) src = false) rs
  end.
Proof.
  induction rs as [|r rs IH]; [constructor|]. cbn [List.find]. destruct (Contains (net r) src) eqn:E.
  - by exists [], rs.
  - destruct (List.find _ rs) as [r'|].
    + destruct IH as (l1 & l2 & -> & Hc & Hl). exists (r :: l1), l2. split; [done|]. split; [done|]. by constructor.
    + by constructor.
Qed.

(** What is packed is what is unpacked. *)
Lemma pack_out `{LabLaws} m out : pack m = Some out →
  ∃ u, Unpack (set_Data new_msg (Some out)) = (None, u) ∧ ID u = ID m ∧ Rcode u = Rcode m ∧ Answer u = Answer m ∧ Truncated u = Truncated m.
Proof.
  unfold pack. destruct (Pack (set_Data m None)) as [[e|] m'] eqn:Ep; [done|]. intros Hd.
  destruct (Pack_Unpack _ _ _ Ep Hd) as (u & Hu & Hid & Hrc). exists u.
  destruct (Answer_Unpack _ _ _ _ Ep Hd Hu) as [Ha Ht].
  by rewrite Hid, Hrc, Ha, Ht, ID_set_Data, Rcode_set_Data, Answer_set_Data, Truncated_set_Data.
Qed.

(** ** Lemmas: the goroutines *)

Section loops.
Context `{LabLib} (h : geoHandler).

Definition loop_errors (l : loop) : list error := match l with Sending e => [e] | _ => [] end.
Definition to_send (l : loop) : nat := match l with Serving | Sending _ => 1 | _ => 0 end.
Definition main_error (m : main_pc) : option error :=
  match m with Receive => None | CloseUDP e | CloseTCP e | Wait e | Returned e => Some e end.

Record inv (s : server) : Prop := InvMk {
  inv_channel : (length (errCh s) + to_send (udp_loop s) + to_send (tcp_loop s) + (if main_error (main s) then 1 else 0) = 2)%nat;
  inv_errors : match main_error (main s) with
               | None => Forall (λ e, e ∈ failures s) (loop_errors (udp_loop s) ++ loop_errors (tcp_loop s) ++ errCh s)
               | Some e => e ∈ failures s
               end;
  inv_open : match main s with
             | Receive | CloseUDP _ => udp_open s = true ∧ tcp_open s = true
             | CloseTCP _ => udp_open s = false ∧ tcp_open s = true
             | Wait _ | Returned _ => udp_open s = false ∧ tcp_open s = false
             end;
  inv_returned : match main s with Returned _ => udp_loop s = Done ∧ tcp_loop s = Done | _ => True end;
  inv_answers : Forall (λ '(peer, raw, out), out = handle h raw (addrIP peer) true) (answered s) ∧
                Forall (λ '(peer, input, ws), ws = serve_conn h peer input) (written s)
}.

Ltac proj :=
  cbn [udp_open tcp_open udp_loop tcp_loop errCh main packets conns answered written failures
       with_udp with_tcp with_main with_packets with_conns loop_errors to_send main_error] in *.

Lemma failures_mono (fs es : list error) (e : error) : Forall (λ x, x ∈ fs) es → Forall (λ x, x ∈ fs ++ [e]) es.
Proof. intros Hf. eapply list.Forall_impl; [exact Hf|]. intros x Hx. set_solver. Qed.

Lemma lab_inv_step ev s s' : step h ev s s' → inv s → inv s'.
Proof.
  intros Hs [Hc He Ho Hr [Ha Hw]]. destruct Hs; split; proj;
    repeat match goal with
    | H : udp_loop s = _ |- _ => rewrite H in *; clear H
    | H : tcp_loop s = _ |- _ => rewrite H in *; clear H
    | H : main s = _ |- _ => rewrite H in *; clear H
    | H : errCh s = _ |- _ => rewrite H in *; clear H
    end; proj; rewrite ?length_app; cbn [length] in *; try done; try lia;
    try (destruct (main s); proj; try done; try (by naive_solver); try set_solver; fail);
    try (split; [|done]; apply Forall_app; split; [done|by constructor]);
    try (split; [done|]; apply Forall_app; split; [done|by constructor]).
  all: destruct (main s); proj; try done; try naive_solver; try set_solver.
  all: first [by destruct Ho; congruence | by rewrite list.Forall_forall in *; set_solver | rewrite list.Forall_forall in He; apply He; set_solver].
Qed.

Lemma lab_inv_reachable s : reachable h s → inv s.
Proof.
  intros (s0 & Hs0 & Hr). assert (inv s0) as Hi by (injection Hs0 as <-; by repeat constructor).
  clear Hs0. induction Hr as [|s s1 s2 [ev Hs] _ IH]; [done|]. by eapply IH, lab_inv_step.
Qed.

(** The steps left to a server one of whose loops has ended. *)
Definition steps_left (l : loop) : nat := match l with Serving => 3 | Sending _ => 2 | Sent => 1 | Done => 0 end.
Definition main_left (m : main_pc) : nat :=
  match m with Receive => 4 | CloseUDP _ => 3 | CloseTCP _ => 2 | Wait _ => 1 | Returned _ => 0 end.
Definition left (s : server) : nat := (steps_left (udp_loop s) + steps_left (tcp_loop s) + main_left (main s))%nat.

Definition is_serving (l : loop) : bool := match l with Serving => true | _ => false end.
Definition failing (s : server) : bool := negb (is_serving (udp_loop s) && is_serving (tcp_loop s)).
Definition returned (s : server) : bool := match main s with Returned _ => true | _ => false end.

Lemma lab_internal_left s s' : internal h s s' → (left s' < left s)%nat.
Proof.
  unfold internal. intros Hs. inversion Hs; subst; unfold left; proj;
    repeat match goal with H : udp_loop s = _ |- _ => rewrite H; clear H | H : tcp_loop s = _ |- _ => rewrite H; clear H
                     | H : main s = _ |- _ => rewrite H; clear H end; simpl; lia.
Qed.

Lemma internal_failing s s' : internal h s s' → failing s = true → failing s' = true.
Proof.
  unfold internal. intros Hs. inversion Hs; subst; unfold failing; proj;
    repeat match goal with H : udp_loop s = _ |- _ => rewrite H; clear H | H : tcp_loop s = _ |- _ => rewrite H; clear H end;
    cbn [is_serving]; rewrite ?andb_false_r; done.
Qed.

Lemma failing_progress s : inv s → failing s = true → returned s = false → ∃ s', internal h s s'.
Proof.
  intros [Hc _ Ho _ _] Hf Hr. unfold failing, returned in *.
  destruct (udp_loop s) as [|e| |] eqn:Hu; proj; try (eexists; by eapply step_udp_done);
    try (eexists; eapply step_udp_send; [exact Hu|destruct (tcp_loop s); proj; lia]);
    destruct (tcp_loop s) as [|e'| |] eqn:Ht; proj; try done; try (eexists; by eapply step_tcp_done);
    try (eexists; eapply step_tcp_send; [exact Ht|lia]);
    destruct (main s) as [|e0|e0|e0|e0] eqn:Hm; proj; try done;
    try (eexists; by eapply step_close_udp); try (eexists; by eapply step_close_tcp); try (eexists; by eapply step_return);
    try (eexists; eapply step_udp_closed; [exact Hu|apply Ho]); try (eexists; eapply step_tcp_closed; [exact Ht|apply Ho]);
    destruct (errCh s) as [|e1 ch] eqn:Hch; try (simpl in Hc; lia); eexists; by eapply step_receive.
Qed.

Definition stops (s : server) : Prop := inv s ∧ failing s = true.

Lemma lab_internal_stops s s' : internal h s s' → stops s → stops s'.
Proof. intros Hs [Hi Hf]. split; [by eapply lab_inv_step|by eapply internal_failing]. Qed.

Lemma failing_returns s : stops s → ∃ s', rtc (internal h) s s' ∧ returned s' = true.
Proof.
  apply (measure_reaches _ left lab_internal_left stops); [apply lab_internal_stops|]. intros x [Hi Hf]. by apply failing_progress.
Qed.

End loops.

(** ** Properties *)

(** C40. The lab server is a geo-based DNS: started with rules of IPv4 networks
    on its command line, what it answers to a query of an IPv4 peer has the
    query's ID and is, with one question, the address of the first rule whose
    network contains the peer, or a name error when there is none; on UDP with
    truncation asked for, the truncated flag stands for the answer, and on TCP
    the answer is always there, under the flag that [SetReply] leaves in the copy
    of the query.  Without exactly one question it is a format error. *)
Theorem labdns_answers `{LabLaws} rs truncate n port raw udp out req h :
  Forall rule_ok rs → main_handler truncate (rule_arg <$> rs) = inr h →
  0 <= n < 2 ^ 32 → no_char ":" port = true → no_char "[" port = true → no_char "]" port = true →
  Unpack (set_Data new_msg (Some raw)) = (None, req) →
  handle h raw (addrIP (peer4 n port)) udp = Some out →
  ∃ u, Unpack (set_Data new_msg (Some out)) = (None, u) ∧ ID u = ID req ∧
    match question_names req with
    | [name] =>
        (∃ r, decides rs (Addr4 n) r ∧
           if truncate && udp then Answer u = [] ∧ Truncated u = true
           else Answer u = [ARecordMk name ClassINET 60 (addr r)] ∧ Truncated u = Truncated (SetReply (Copy req) req)) ∨
        (Forall (λ r, Contains (net r) (Addr4 n) = false) rs ∧ Rcode u = RcodeNameError)
    | _ => Rcode u = RcodeFormatError
    end.
Proof.
  intros Hrs Hmain Hn Hc Ho Hb Hu. rewrite addrIP_peer4 by done. unfold handle. rewrite Hu.
  assert (h = GeoHandlerMk rs truncate) as ->.
  { unfold main_handler in Hmain. destruct rs as [|r rs]; [done|]. change (rule_arg <$> r :: rs) with (rule_arg r :: (rule_arg <$> rs)) in Hmain.
    change (rule_arg r :: (rule_arg <$> rs)) with (rule_arg <$> r :: rs) in Hmain at 2.
    rewrite parseMaps_args in Hmain by done. by injection Hmain as <-. }
  assert (∀ rc, pack (set_Rcode (SetReply (Copy req) req) rc) = Some out →
    ∃ u, Unpack (set_Data new_msg (Some out)) = (None, u) ∧ ID u = ID req ∧ Rcode u = rc) as Hrcode.
  { intros rc (u & ? & Hid & Hrc & _)%pack_out. exists u. by rewrite Hid, Hrc, ID_set_Rcode, SetReply_ID, Rcode_set_Rcode. }
  destruct (question_names req) as [|name [|q qs]]; [by apply Hrcode| |by apply Hrcode].
  unfold lookup. cbn [addr_valid negb rules truncateUDP]. pose proof (find_first rs (Addr4 n)) as Hf.
  destruct (List.find _ rs) as [r|]; cbn [fmap option_fmap option_map].
  - destruct (truncate && udp); intros (u & ? & Hid & _ & Ha & Ht)%pack_out; exists u; (split; [done|]).
    + rewrite Hid, ID_set_Answer, ID_set_Truncated, ID_set_Answer, SetReply_ID. split; [done|]. left. exists r. split; [done|].
      by rewrite Ha, Ht, Answer_set_Answer, Truncated_set_Answer, Truncated_set_Truncated.
    + rewrite Hid, ID_set_Answer, SetReply_ID. split; [done|]. left. exists r. split; [done|].
      by rewrite Ha, Ht, Answer_set_Answer, Truncated_set_Answer.
  - intros (u & ? & ? & ?)%Hrcode. exists u. split; [done|]. split; [done|]. by right.
Qed.

(** [listenAndServe] returns once a loop has failed: its goroutines then
    have at most 9 steps left without new traffic, none of which blocks, and
    every run of them can be continued until it returns; when it returns, both
    loops are done and both sockets closed, and the error is one a socket had
    while it was open. At any time, what was answered to a peer is what [handle]
    makes of its query. *)
Theorem labdns_serves `{LabLib} h s :
  reachable h s →
  (failing s = true → (∀ n s', nsteps (internal h) n s s' → (n ≤ 9)%nat) ∧
     ∀ s', rtc (internal h) s s' → ∃ s'', rtc (internal h) s' s'' ∧ returned s'' = true) ∧
  (∀ e, main s = Returned e → e ∈ failures s ∧ udp_loop s = Done ∧ tcp_loop s = Done ∧ udp_open s = false ∧ tcp_open s = false) ∧
  (∀ peer raw out, (peer, raw, out) ∈ answered s → out = handle h raw (addrIP peer) true) ∧
  (∀ peer input ws, (peer, input, ws) ∈ written s → ws = serve_conn h peer input).
Proof.
  intros Hi%lab_inv_reachable. split; [|split; [|split]].
  - intros Hf. split.
    + intros n s' Hn%(nsteps_measure _ left (lab_internal_left h)). unfold failing in Hf. unfold left in Hn at 2.
      destruct (udp_loop s), (tcp_loop s), (main s); simpl in *; try done; lia.
    + intros s' Hs'. apply failing_returns. exact (rtc_keeps _ (stops h) s s' (lab_internal_stops h) Hs' (conj Hi Hf)).
  - intros e Hm. destruct Hi as [_ He Ho Hr _]. rewrite Hm in *. cbn [main_error] in He. naive_solver.
  - intros peer raw out Hin. destruct Hi as [_ _ _ _ [Ha _]]. rewrite list.Forall_forall in Ha. exact (Ha _ Hin).
  - intros peer input ws Hin. destruct Hi as [_ _ _ _ [_ Hw]]. rewrite list.Forall_forall in Hw. exact (Hw _ Hin).
Qed.

(** ** Witnesses *)

(** A small DNS library, with messages of at most one answer: the address is
    packed as text before the names. *)
Module Toy.
Record msg := MsgMk { names : list string; tc : bool; id : Z; rcode : Z; data : option string; ans : list ARecord }.

Definition answer_text (m : msg) : option string :=
  match ans m with
  | [] => Some ""
  | [ARecordMk n c t (Addr4 a)] =>
      if bool_decide (names m = [n]) && negb (String.eqb n "") && no_char " " n && (c =? 1) && (t =? 60) && (0 <=? a) && (a <? 2 ^ 32)
      then Some (string4 a) else None
  | _ => None
  end.

Definition pack (m : msg) : option error * msg :=
  match answer_text m with
  | Some t =>
      if (0 <=? id m) && (id m <? 65536) && (0 <=? rcode m) && (rcode m <? 256) then
        (None, MsgMk (names m) (tc m) (id m) (rcode m)
          (Some (String (char_of (id m / 256)) (String (char_of (id m mod 256)) (String (char_of (rcode m))
             (String (if tc m then "T" else "F") (t +:+ String "|" (join (names m) " "))))))) (ans m))
      else (Some (ErrStd "dns.Pack" "range"), m)
  | None => (Some (ErrStd "dns.Pack" "answer"), m)
  end.

Definition unpack (m : msg) : option error * msg :=
  match data m with
  | Some (String a (String b (String c (String t rest)))) =>
      match cut rest "|" with
      | Some (addr, ns) =>
          let ns := if String.eqb ns "" then [] else split ns " " in
          (None, MsgMk ns (Ascii.eqb t "T") (byte_of a * 256 + byte_of b) (byte_of c) (data m)
             (match ParseAddr_opt addr with Some a => [ARecordMk (hd "" ns) 1 60 a] | None => [] end))
      | None => (Some (ErrStd "dns.Unpack" "short"), m)
      end
  | _ => (Some (ErrStd "dns.Unpack" "short"), m)
  end.
End Toy.

#[local] Instance lab_dns : DnsLib := {
  Msg := Toy.msg;
  new_msg := Toy.MsgMk [] false 0 0 None [];
  question_names := Toy.names;
  Truncated := Toy.tc;
  ID := Toy.id;
  set_ID m i := Toy.MsgMk (Toy.names m) (Toy.tc m) i (Toy.rcode m) (Toy.data m) (Toy.ans m);
  Rcode := Toy.rcode;
  set_Rcode m r := Toy.MsgMk (Toy.names m) (Toy.tc m) (Toy.id m) r (Toy.data m) (Toy.ans m);
  Data := Toy.data;
  set_Data m d := Toy.MsgMk (Toy.names m) (Toy.tc m) (Toy.id m) (Toy.rcode m) d (Toy.ans m);
  Unpack := Toy.unpack;
  Pack := Toy.pack;
  Copy m := m;
  SetReply m req := Toy.MsgMk (Toy.names req) (Toy.tc m) (Toy.id req) (Toy.rcode m) None (Toy.ans m);
  Canonical s := s
}.
#[local] Instance lab_lib : LabLib := {
  Answer := Toy.ans;
  set_Answer m l := Toy.MsgMk (Toy.names m) (Toy.tc m) (Toy.id m) (Toy.rcode m) (Toy.data m) l;
  set_Truncated m b := Toy.MsgMk (Toy.names m) b (Toy.id m) (Toy.rcode m) (Toy.data m) (Toy.ans m)
}.

(** What a packed message unpacks to. *)
Lemma toy_unpack m m' d : Toy.pack m = (None, m') → Toy.data m' = Some d →
  ∃ u, Toy.unpack (Toy.MsgMk [] false 0 0 (Some d) []) = (None, u) ∧ Toy.id u = Toy.id m ∧ Toy.rcode u = Toy.rcode m ∧
    Toy.ans u = Toy.ans m ∧ Toy.tc u = Toy.tc m.
Proof.
  unfold Toy.pack. destruct (Toy.answer_text m) as [t|] eqn:Et; [|done]. bcase; [|done]. bool_to_prop. intros [= <-] [= <-].
  unfold Toy.unpack. cbn [Toy.data].
  assert (no_char "|" t = true ∧ ParseAddr_opt t = match Toy.ans m with [r] => Some (a_Addr r) | _ => None end ∧
    (Toy.ans m = [] ∨ ∃ n a, Toy.ans m = [ARecordMk n 1 60 a] ∧ Toy.names m = [n] ∧ n ≠ "" ∧ no_char " " n = true)) as (Ht & Ha & Hans).
  { unfold Toy.answer_text in Et. destruct (Toy.ans m) as [|[n c tt [|a|]] [|]]; try done.
    - injection Et as <-. split; [done|]. split; [by vm_compute|]. by left.
    - destruct (bool_decide _) eqn:En; [|done]. apply bool_decide_eq_true in En. cbn [andb] in Et.
      destruct (_ && _) eqn:E in Et; [|done]. bool_to_prop. injection Et as <-.
      split; [apply cidr_chars_no_char; [done|apply string4_chars]|]. split; [apply ParseAddr_string4; lia|].
      right. exists n, (Addr4 a). split_and!; [by f_equal; f_equal; lia|done..]. }
  rewrite cut_app by done. eexists. split; [reflexivity|]. cbn [Toy.id Toy.rcode Toy.ans Toy.tc].
  pose proof (Z.mod_pos_bound (Toy.id m) 256). pose proof (Z.div_mod (Toy.id m) 256).
  assert (0 <= Toy.id m / 256 < 256) by (split; [apply Z.div_pos; lia|apply Z.div_lt_upper_bound; lia]).
  rewrite !byte_of_char_of by lia. split; [lia|]. split; [lia|]. rewrite Ha. split; [|by destruct (Toy.tc m)].
  destruct Hans as [->|(n & a & -> & -> & Hn & Hs)]; [done|]. cbn [a_Addr join].
  rewrite (proj2 (String.eqb_neq _ _)) by done. by rewrite split_no_char.
Qed.

#[local] Instance lab_dns_laws : DnsLaws.
Proof. split; try done. intros m m' d Hp Hd. destruct (toy_unpack m m' d Hp Hd) as (u & ? & ? & ? & _). by exists u. Qed.
#[local] Instance lab_laws : LabLaws.
Proof.
  split; try done. intros m m' d u Hp Hd Hu. destruct (toy_unpack m m' d Hp Hd) as (u' & Hu' & _ & _ & ? & ?).
  change (Toy.unpack (Toy.MsgMk [] false 0 0 (Some d) []) = (None, u)) in Hu. rewrite Hu' in Hu. by injection Hu as <-.
Qed.

Definition ex_rules : list geoRule :=
  [GeoRuleMk (PrefixMk (Addr4 180879360) 24) (Addr4 180879410); GeoRuleMk (PrefixMk (Addr4 0) 0) (Addr4 180944946)].
Definition ex_handler : geoHandler := GeoHandlerMk ex_rules true.
Definition ex_req : @Msg lab_dns := Toy.MsgMk ["www.example."] false 258 0 None [].
Definition ex_raw : string := default "" (Toy.data (Toy.pack ex_req).2).
Definition ex_unpacked : @Msg lab_dns := (Unpack (set_Data new_msg (Some ex_raw))).2.
Definition ex_out (udp : bool) : string := default "" (handle ex_handler ex_raw (addrIP (peer4 180879365 "4242")) udp).

Lemma ex_rules_ok : Forall rule_ok ex_rules.
Proof. repeat constructor; cbn; try lia; by eexists. Qed.
Lemma ex_main : main_handler true (rule_arg <$> ex_rules) = inr ex_handler.
Proof. vm_compute. reflexivity. Qed.
Lemma ex_unpack : Unpack (set_Data new_msg (Some ex_raw)) = (None, ex_unpacked).
Proof. vm_compute. reflexivity. Qed.
Lemma ex_handled : handle ex_handler ex_raw (addrIP (peer4 180879365 "4242")) false = Some (ex_out false).
Proof. vm_compute. reflexivity. Qed.

Lemma labdns_answers_witness :
  ∃ u, Unpack (set_Data new_msg (Some (ex_out false))) = (None, u) ∧ ID u = 258 ∧
    ((∃ r, decides ex_rules (Addr4 180879365) r ∧ Answer u = [ARecordMk "www.example." ClassINET 60 (addr r)] ∧ Truncated u = false) ∨
     (Forall (λ r, Contains (net r) (Addr4 180879365) = false) ex_rules ∧ Rcode u = RcodeNameError)).
Proof.
  exact (labdns_answers ex_rules true 180879365 "4242" ex_raw false (ex_out false) ex_unpacked ex_handler ex_rules_ok ex_main
    (conj (Zle_bool_imp_le 0 180879365 eq_refl) eq_refl) eq_refl eq_refl eq_refl ex_unpack ex_handled).
Defined.

(** A query is answered, then the UDP socket fails. *)
Definition ex_started : server := ServerMk true true Serving Serving [] Receive [] [] [] [] [].
Definition ex_got : server := with_packets [(peer4 180879365 "4242", ex_raw)] [] ex_started.
Definition ex_answered : server :=
  with_packets [] [(peer4 180879365 "4242", ex_raw, serve_packet ex_handler (peer4 180879365 "4242") ex_raw)] ex_got.
Definition ex_error : error := ErrStd "net" "i/o error".
Definition ex_failed : server := with_udp (Sending ex_error) [] [ex_error] ex_answered.

Lemma ex_reachable : reachable ex_handler ex_failed.
Proof.
  exists ex_started. split; [done|]. eapply rtc_l.
  { exists Traffic. exact (step_udp_read ex_handler ex_started (peer4 180879365 "4242") ex_raw eq_refl eq_refl). }
  eapply rtc_l.
  { exists Traffic. exact (step_packet ex_handler ex_got [] [] (peer4 180879365 "4242") ex_raw eq_refl). }
  apply rtc_once. exists Failure. exact (step_udp_fail ex_handler ex_answered ex_error eq_refl eq_refl).
Qed.

Lemma labdns_serves_witness : ∃ s, rtc (internal ex_handler) ex_failed s ∧ returned s = true.
Proof.
  exact (proj2 (proj1 (labdns_serves ex_handler ex_failed ex_reachable) eq_refl) ex_failed (rtc_refl _ _)).
Defined.
