(* ===== verification/Labhttp.v ===== *)
(** * [cmd/labhttp]: the HTTP server of the lab

    It answers every path with the body it was given, and /peer with the
    address of the client.  [net/http] is modelled as far as the three patterns
    need: a path that is not clean is redirected, else the longest pattern that
    matches is served (a CONNECT request, whose path is not cleaned, apart). *)

From stdpp Require Import base list strings.
From Stdlib Require Import ZArith Lia Ascii.
From S2P Require Import Prelude GoStrings Netip Files Labdns.

Record request := RequestMk { r_Path : string; RemoteAddr : string }.

(** The Content-Type and what is written, or the path to go to instead. *)
Inductive reply :=
| Reply (content_type body : string)
| Redirect (path : string).

Definition handler : Type := request → reply.

(** ** net/http *)

Definition ends_with_slash (p : string) : bool := match cut_last p "/" with Some (_, "") => true | _ => false end.

Definition cleanPath (p : string) : string :=
  if String.eqb p "" then "/"
  else
    let p := if is_rooted p then p else "/" +:+ p in
    let np := Clean p in
    if ends_with_slash p && negb (String.eqb np "/") then np +:+ "/" else np.

(** A pattern that ends with a slash matches all below it. *)
Definition matches (path : string) (pattern : string * handler) : bool :=
  String.eqb pattern.1 path || ends_with_slash pattern.1 && has_prefix path pattern.1.

Definition longer (best : option (string * handler)) (p : string * handler) : option (string * handler) :=
  match best with
  | Some b => if (String.length b.1 <? String.length p.1)%nat then Some p else best
  | None => Some p
  end.

(** [None] is the answer that nothing is found. *)
Definition ServeHTTP (mux : list (string * handler)) (r : request) : option reply :=
  let path := cleanPath (r_Path r) in
  if negb (String.eqb path (r_Path r)) then Some (Redirect path)
  else
    match foldl longer None (List.filter (matches path) mux) with
    | Some (_, h) => Some (h r)
    | None => None
    end.

(** ** main.go *)

Definition h (body : string) : handler := λ _, Reply "text/plain" body.

Definition peer : handler := λ r, Reply "text/plain" (default (RemoteAddr r) (SplitHost (RemoteAddr r))).

(** The exit code, or the handlers that are served. *)
Definition main (body : string) : Z + list (string * handler) :=
  if String.eqb body "" then inl 2
  else inr [("/", h body); ("/id", h body); ("/peer", peer)].

(** ** What is served *)

Lemma rooted_matches path hd : is_rooted path = true → matches path ("/", hd) = true.
Proof. intros Hp. unfold matches. cbn [fst]. change (has_prefix path "/") with (is_rooted path). rewrite Hp. apply orb_true_r. Qed.

(** A path that is served is a clean one. *)
Lemma cleanPath_rooted p : is_rooted (cleanPath p) = true.
Proof.
  unfold cleanPath. destruct (String.eqb p ""); [done|]. cbv zeta. set (q := if is_rooted p then p else "/" +:+ p).
  assert (is_rooted q = true) as Hq by (unfold q; by destruct (is_rooted p) eqn:E).
  rewrite (Clean_rooted q Hq). by destruct (ends_with_slash q && _).
Qed.

(** With a body, every path is answered: one that is not clean by a redirection
    to the clean one, /peer by the host of the client's address, and all others
    by the body. *)
Theorem labhttp_serves body mux r :
  main body = inr mux →
  ServeHTTP mux r = Some (if negb (String.eqb (cleanPath (r_Path r)) (r_Path r)) then Redirect (cleanPath (r_Path r))
                          else if String.eqb (r_Path r) "/peer" then Reply "text/plain" (default (RemoteAddr r) (SplitHost (RemoteAddr r)))
                          else Reply "text/plain" body).
Proof.
  unfold main. destruct (String.eqb body ""); [done|]. intros [= <-]. unfold ServeHTTP.
  destruct (String.eqb_spec (cleanPath (r_Path r)) (r_Path r)) as [E|]; [|done]. cbn [negb].
  pose proof (cleanPath_rooted (r_Path r)) as Hr. rewrite E in Hr |- *. generalize dependent (r_Path r). intros p _ Hr.
  cbn [List.filter]. rewrite (rooted_matches p _ Hr). unfold matches. cbn [fst].
  assert (ends_with_slash "/id" = false ∧ ends_with_slash "/peer" = false) as [-> ->] by done. cbn [andb]. rewrite !orb_false_r.
  destruct (String.eqb_spec "/id" p) as [<-|Hi]; [done|]. rewrite (String.eqb_sym p). by destruct (String.eqb_spec "/peer" p).
Qed.

Example labhttp_peer :
  (mux ← match main "exit" with inr mux => Some mux | inl _ => None end; ServeHTTP mux (RequestMk "/peer" "10.98.0.2:40000")) =
  Some (Reply "text/plain" "10.98.0.2").
Proof. by vm_compute. Qed.
Example labhttp_redirect :
  (mux ← match main "exit" with inr mux => Some mux | inl _ => None end; ServeHTTP mux (RequestMk "//a/../id/" "")) = Some (Redirect "/id/").
Proof. by vm_compute. Qed.
