(* ===== verification/Egress.v ===== *)
(** * gotun and gotun-dns on one machine

    The two programs only share a number: the mark that [gotun apply] makes a
    rule for and that [gotun-dns] sets on the sockets of its exit path.  After a
    successful apply the machine's rules and routes take the queries of either
    path where they should go. *)

From stdpp Require Import base list strings gmap.
From Stdlib Require Import ZArith Lia.
From S2P Require Import Prelude GoStrings Netip Runner Policy Json Nftables NftScript Sysctl Routing Gateway.
From S2P Require Import Files Maxmind Cli Gotun Dns.

Import Policy.Spec.

(** Where the machine routes a socket, to an address that is not its own. *)
Definition socket_route `{Gateway W} (dev_up : string → bool) (rs : list liveRule) (w : W) (d : Dialer) : egress :=
  kernel_route dev_up (own_routes w) rs (default 0 (d_Control d)).

(** C12. Split DNS on the gateway: after a successful [gotun apply], the sockets
    that [gotun-dns] opens for a direct query are routed by the main table, and
    those for any other query by the tunnel when it is up and its device is
    there, else nowhere, as long as [gotun-dns] has the mark of [gotun].  The
    machine is [prepared] before the apply, as for the packets it forwards. *)
Theorem apply_then_dns_egress `{Machine W, !FilesLaws W, !Http W, !Archives W, !Mmdb W} `{DnsLib} {N} `{!Exchanger Client N}
    ord table_ord env args fs fl f c m (w w1 : W) (n n' : N) r path err tr dev_up rs :
  range_order ord → table_order table_ord → parse_flags args apply_flags = Ok fs → ip4_args (apply_args_of fs) → ready (apply_args_of fs) w →
  Run ord table_ord env ("apply" :: args) w = (Ret None, w1) →
  parseMark (fl_mark fl) = Ok DefaultMark → main_forwarder true fl = inr f →
  Forward f c m (n, []) = (r, path, err, (n', tr)) → in_order (rules_of w1) rs →
  Forall (λ a, socket_route dev_up rs w1 (cl_Dialer (at_ex a)) =
    match path with
    | PathDirect => MainTable
    | PathExit => if tunnelUp (apply_args_of fs) && dev_up "wg-exit" then Via "wg-exit" else Blackholed
    end) tr.
Proof.
  intros Hnord Hord Hf H4 Hready Hrun Hmark Hfl Hfw Hrs.
  destruct (gotun_apply_spec _ _ _ _ _ _ _ Hnord Hord Hf Hrun H4 Hready) as (p & Hb & _ & _ & Hroute & _).
  destruct (Hroute dev_up rs Hrs) as [Hmain Hmarked].
  pose proof (build_policy_inv (apply_args_of fs) w) as Hi. rewrite Hb in Hi.
  destruct Hi as (raw & ep & _ & _ & _ & _ & _ & _ & _ & Hup & Hp).
  assert (policy_mark p = DefaultMark ∧ policy_iface p = "wg-exit") as [Em Ei] by (by rewrite Hp).
  unfold egress_marked in Hmarked. rewrite Em, Ei, Hup in Hmarked.
  eapply list.Forall_impl; [exact (forward_marks fl f _ c m n n' r path err tr Hmark ltac:(done) Hfl Hfw)|].
  intros a Ha. unfold socket_route. rewrite Ha. by destruct path.
Qed.

(** ** Witness *)

Definition ex_rules : list liveRule :=
  [LiveRuleMk 0 None "local"; LiveRuleMk 100 (Some 1) "100"; LiveRuleMk 32766 None "main"; LiveRuleMk 32767 None "default"].

Lemma ex_rules_in_order : in_order (@rules_of host _ (gw_route (Gateway := mc_gateway)) ex_host2) ex_rules.
Proof.
  split.
  - assert (@rules_of host _ (gw_route (Gateway := mc_gateway)) ex_host2 =
      [LiveRuleMk 0 None "local"; LiveRuleMk 32766 None "main"; LiveRuleMk 32767 None "default"; LiveRuleMk 100 (Some 1) "100"]) as ->
      by (vm_compute; reflexivity).
    unfold ex_rules. constructor. change ([?a; ?b; ?c]) with ([a] ++ [b; c]). apply (Permutation_app_comm [_] [_; _]).
  - unfold ex_rules, rule_before. repeat constructor; cbn; lia.
Qed.

Lemma apply_then_dns_egress_witness :
  Forall (λ a, socket_route (λ _, true) ex_rules ex_host2 (cl_Dialer (at_ex a)) = Via "wg-exit") (ex_attempts "example.com").
Proof.
  exact (apply_then_dns_egress ex_ord ex_table_ord "" ex_apply_args ex_afs default_flags ex_forwarder Background
    (ex_msg "example.com" (Some "stale")) ex_host1 ex_host2 O 2%nat (ex_reply "example.com") PathExit None (ex_attempts "example.com")
    (λ _, true) ex_rules ex_ord_range ex_table_order ex_afs_ok ex_ip4 ex_ready ex_apply_ok ex_default_mark ex_forwarder_ok ex_trace_exit ex_rules_in_order).
Defined.
